(* ===== verification/_CoqProject ===== *)
-Q . S2P
Prelude.v
Address.v
Crypto.v
Io.v
Kdf.v
Padding.v
Frame.v
Replay.v
Handshake.v
HandshakeProofs.v
Agreement.v
Transport.v
SecureStream.v
SecureStreamProofs.v
Concurrent.v
Cover.v
Channel.v
StreamConn.v
ConcurrentWrites.v
PacketConn.v
ConcurrentPackets.v
Client.v
Server.v
SecureSession.v
Typing.v
Sessions.v
Connections.v
