(* ===== verification/Prelude.v ===== *)
(** * A verification library for sing-ewp (the EWP v2 protocol)

    sing-ewp is a Go package that tunnels TCP and UDP flows through an
    authenticated, padded channel.  A client proves knowledge of a user's UUID
    in a hybrid X25519 / ML-KEM-768 handshake over a message transport; both
    sides derive directional keys and exchange AEAD frames; adapters present
    the channel as a [net.Conn] or a [net.PacketConn].  This library models the
    whole implementation (the eleven non-test files under src/) as executable
    functions and proves the properties that make it correct.

    ** Parts, files and correspondence

    - Prelude.v (this file): bytes, fixed-size arrays ([[n]byte] is [arr n]),
      Go slice expressions ([slice], which panics out of range), big-endian
      integers, the outcome of a Go call ([Ret], [Fail] for a returned error,
      [Panic]) with its bind notations, and the shared automation ([llia],
      [sub_simpl]).
    - Address.v, src/address.go: the destination codec ([Append],
      [DecodeAddress]) with the part of [net/netip] it uses.
    - Crypto.v: the packages outside the repository (SHA-256, HMAC, HKDF,
      ChaCha20-Poly1305, X25519, ML-KEM, crypto/rand) as the class [Crypto] and
      [Entropy] of operations over a randomness state, with their documented
      behaviour as the law classes [AEADLaws], [CryptoLaws], [EntropyLaws];
      [Toy] is an instance that meets the laws and is used by the witnesses
      only.
    - Io.v: [io.Reader] as a list of chunks and a final error, [io.ReadFull],
      slices with a capacity ([gslice]) and [make], which panics for a size
      that is negative or above what the runtime allocates ([maxAlloc]).
    - Kdf.v, src/kdf.go and src/aead.go: UUID key, MAC, session keys.
    - Padding.v, src/padding_policy.go and [SuggestPadLen] of src/frame.go.
    - Frame.v, src/frame.go: the frame encoder with its in-place buffer writes
      on a slice with a capacity ([gslice]) and the streaming decoder.
    - Replay.v, src/anti_replay.go: the cache as a [gmap] with its sweep; calls
      come in the order of the mutex, with any clock readings, since the code
      reads the clock before it takes the mutex.
    - Handshake.v, HandshakeProofs.v, src/handshake.go: hello codecs, the client
      and the server side of the handshake; then their properties.
    - Agreement.v, src/handshake.go: clients and a server on a network that
      belongs to an attacker ([game_step]), and the assumption about the HMAC
      ([genuine]: for a UUID he does not know, a valid tag is one that a client
      or the server has computed).
    - Transport.v, src/securestream.go ([MessageTransport]) and src/client.go
      ([LengthFramer]): the interface as a class, its contract as
      [TransportSpec] and [TransportLaws], a model of a [net.Conn] with write
      faults, deadlines and close errors, and the framer, which is proved to
      meet the contract.  Everything above is proved against the contract.
    - SecureStream.v, SecureStreamProofs.v, src/securestream.go: the stream,
      its send and receive calls, closing and statistics.
    - Concurrent.v: goroutines that share a stream.  Calls of [sendFrame] and
      [Close] as a step relation, split at the test of [closed], at [writeMu],
      at the transport and inside the once; [solo_send] shows that the steps
      of a call that runs alone are [sendFrame].
    - Cover.v, src/securestream.go ([StartCoverTraffic], [coverLoop]): the
      jittered delay in IEEE 754 arithmetic, and the goroutine as a step
      relation ([cover_step]) over the steps of Concurrent.v: its padding frame
      is a call of [sendFrame] among the others.
    - Channel.v: the two ends of a session on a network that belongs to an
      attacker ([net_step]), the ideal channel it refines ([ideal_step]), and
      the assumption about the attacker ([unforged]: a ciphertext that is valid
      for a direction was made by the end that sends in that direction).
    - StreamConn.v, src/client.go ([streamConn]): TCP mode.
    - ConcurrentWrites.v, src/client.go and src/securestream.go: goroutines that
      write to one connection.  [streamConn.Write] as a step relation
      ([wadvance]) over the steps of Concurrent.v, split at its loop and at the
      loop of [SendTCPData]; [solo_stream_write] ties it to StreamConn.v.
    - PacketConn.v, src/packetconn.go: UDP mode and [net.Addr] conversion.
    - ConcurrentPackets.v, src/packetconn.go: goroutines that share a packet
      connection.  [WriteToAddress] and [Close] as a step relation
      ([padvance]), split at the unlocked test of [opened], at [openedMu] and
      inside the once; [solo_write] and [solo_close] tie it to PacketConn.v.
    - Client.v, src/client.go: [ParseUUID], the client handshake, dialling.
    - Server.v, src/server.go: users, and one connection up to the call of the
      application's handler ([handleTransport]) and, for any handler, beyond it
      ([serveTransport]).
    - SecureSession.v: the handshake of Agreement.v and the channel of Channel.v
      joined: what a completed handshake is worth to a client.  There the
      attacker is bounded by the secrets he knows ([attacked_step]: he makes no
      ciphertexts under a key he does not know, but may replay and reflect);
      that he does not know the session keys and that they differ, and with it
      the assumption of Channel.v, follows from the key derivation if he lacks
      one of the two exchanged secrets and HKDF is ideal ([ideal_hkdf]).
    - Typing.v: the shapes of received events, and what follows for the
      callers of [ReadFrom], for the handler of a server and for a closed
      packet connection.
    - Sessions.v: [Client] and [Service] joined, from the hellos to a request
      and its reply.
    - Connections.v, src/server.go: many connections on one service.
      [handleTransport] as a step relation ([proceed]), interleaved with other
      connections, user changes, replacement of the replay cache, which is
      shared through a pointer, and any movement of the wall clock; the clock
      reading of [MarkSeenOrReject] and its locked section are two steps;
      [solo_connection] ties it to Server.v.

    ** How the code is represented

    An object with state is a record, a method a function from the arguments
    and the record to the results and the new record, in the order of the
    source, early returns and errors included.  The clock is an argument of
    each call that reads it (one argument per reading), randomness a threaded
    state.  Lengths and the arithmetic the code does on [int] are in
    [Z] where every quantity is bounded by a slice length; where a caller's
    [int] enters ([SendCoverPad], the cover timer) sums wrap to 64 bits
    ([to_int64]) and the allocation that depends on it may panic
    ([send_encode]); wire fields and counters keep their width ([be_put],
    wrapping additions).  In ConcurrentPackets.v datagrams are no longer than
    a slice of a running program can be ([maxSlice]).  Mutexes: in the
    sequential files an operation that holds its mutex throughout is one
    step, and the one test made outside a mutex
    ([packetConn.WriteToAddress]) is a step of its own; Concurrent.v,
    Cover.v, ConcurrentWrites.v, ConcurrentPackets.v and Connections.v
    interleave the parts of an operation.  Error values keep their identity and their wrapping; formatted
    details (numbers in messages) are dropped.

    ** What the theorems show

    - Codecs: round trips in both directions for addresses, hellos and UDP
      metadata (decoding accepts only canonical encodings), and for frames
      and length-framed messages from any chunking of the byte stream; the
      in-place frame encoder equals a reference encoder.
    - Handshake: honest parties agree on their keys; the server answers only
      well-formed hellos under a configured UUID with a fresh timestamp, and
      the client completes only on a fresh answer to its own hello;
      rejections change no state; a pair is accepted at most once in the
      replay window, and the exact circumstances in which a hello can be
      accepted again.
    - Replay cache: what its answers mean for any clock readings, and refinement
      of a specification that never forgets when the readings are in the
      order of the mutex.
    - Secure stream: for every transport that meets its contract, a sequence of
      sends is received as the same sequence of events (replayed, reordered or
      foreign frames are refused); the nonces of the messages an encoder
      produces never repeat; counters and statistics agree on every reachable
      open stream; receive errors are final; closing is idempotent; a call
      panics only on a frame beyond the allocation limit.
    - Active attacker: for every user whose UUID the attacker does not know,
      the server answers only hellos that the user's clients have sent, and a
      client that completes shares its keys with a server that saw its hello;
      as long as no ciphertext is forged, each direction of the session
      refines a FIFO channel that can at worst be cut.
    - Typing: every event has the shape of its frame type, and the handler of a
      server is only called with configured users, destinations that can be
      dialled and open connections, whatever bytes arrive.
    - Concurrency: whatever the interleaving, the transport sees the frames of
      the calls under consecutive counters, each call's frame once; a shared
      stream is still a FIFO channel; concurrent writes to a connection each
      put their bytes on the wire in order, and writes of up to 8192 bytes in
      one piece; every call returns (the lock and the
      once cannot deadlock); the cover goroutine exits after [Close], also
      when [Close] runs while it is being started, hands over at most the frame
      it was already sending, and sends only on an idle
      stream.  Concurrent connections of a service share a hello only when the
      clock has moved on by the replay window, and a removed user is locked
      out.  A packet
      connection opens its session once and first, whatever writes and closes
      race, and drops a datagram only when its write raced with the opening.
    - Adapters: bytes written in TCP mode are the bytes read, datagrams reach
      the peer with their target; complete TCP and UDP sessions between
      [Client] and [Service]: what the client writes is what the server's
      connection reads, and the client reads the reply; a closed packet
      connection refuses every call.
    - Server: what a connection returns, for any handler, and when its transport
      has been closed.
    - Divergences between code and comments, as theorems about the code as it
      is.

    ** Fuel

    Loops that consume their input run on its length, which is proved to be
    enough ([SendTCPData_reshapes], [tcp_stream_end_to_end]); running out is
    [Panic] there, so the theorems that exclude [Panic] also show that it never
    happens.  Loops that wait for the peer ([Read], [ReadFrom]) return [None]
    when the given number of frames was not enough, and the delivery theorems
    give a number of frames for which they return.  The sweep of the replay
    cache and the hello lookup are structural.

    ** What is not modelled

    Real time: a deadline is stored on the connection, its expiry is one of
    the errors a read or write may return; an armed timer fires in the end, not
    at a given moment; weak memory (plain fields written by one goroutine are
    seen by the next step of another one); memory erasure ([zero]); the
    [String] methods, whose output is for logs only; the wall-clock cost of
    anything; running out of memory below the allocation limit, which ends the
    process; the application's [Handler], which is a parameter. *)

From Stdlib Require Import ZArith Lia.
From Stdlib Require Export Strings.Byte.
From stdpp Require Export base numbers list option countable strings gmap.

#[global] Open Scope Z_scope.
#[export] Set Warnings "-clear-no-such-hyp".

(** ** Bytes *)

Abbreviation byte := Byte.byte.
Abbreviation bytes := (list Byte.byte).

(** The Go expression [len(l)], as an (unbounded) integer. *)
Abbreviation len l := (Z.of_nat (length l)).

(** [int(b)] for a byte [b]. *)
Definition byte_val (b : byte) : Z := Z.of_N (Byte.to_N b).

(** [byte(z)]: conversion to an unsigned 8-bit integer, wrapping. *)
Definition byte_of (z : Z) : byte :=
  match Byte.of_N (Z.to_N (z mod 256)) with Some b => b | None => Byte.x00 end.

Lemma byte_val_range b : 0 <= byte_val b < 256.
Proof. unfold byte_val. pose proof (Byte.to_N_bounded b). lia. Qed.

Lemma byte_val_of z : byte_val (byte_of z) = z mod 256.
Proof.
  unfold byte_val, byte_of.
  pose proof (Z.mod_pos_bound z 256 ltac:(lia)) as Hb.
  destruct (Byte.of_N (Z.to_N (z mod 256))) as [b|] eqn:E.
  - apply Byte.to_of_N in E. rewrite E. lia.
  - apply Byte.of_N_None_iff in E. lia.
Qed.

Lemma byte_val_inj a b : byte_val a = byte_val b -> a = b.
Proof.
  unfold byte_val. intros H. apply N2Z.inj in H.
  pose proof (Byte.of_to_N a). pose proof (Byte.of_to_N b). congruence.
Qed.

Lemma byte_of_val b : byte_of (byte_val b) = b.
Proof.
  apply byte_val_inj. rewrite byte_val_of. apply Z.mod_small, byte_val_range.
Qed.

Lemma byte_of_small z : 0 <= z < 256 -> byte_val (byte_of z) = z.
Proof. intros. rewrite byte_val_of. by apply Z.mod_small. Qed.

#[global] Instance byte_eq_dec : EqDecision byte.
Proof. intros a b. unfold Decision. destruct (Byte.byte_eq_dec a b); [left|right]; done. Defined.

#[global] Program Instance byte_countable : Countable byte :=
  inj_countable' Byte.to_N (fun n => default Byte.x00 (Byte.of_N n)) _.
Next Obligation. intros b. pose proof (Byte.of_to_N b) as E. cbn in *. by rewrite E. Qed.

(** ** Fixed-size arrays

    The Go type [[n]byte]: a byte list whose length is [n] by typing. *)

Record arr (n : nat) := Arr {
  arr_list :> bytes;
  arr_ok : Is_true (bool_decide (length arr_list = n))
}.
Arguments Arr {n} _ _.
Arguments arr_list {n} _.
Arguments arr_ok {n} _.

Lemma arr_length {n} (a : arr n) : length (arr_list a) = n.
Proof. apply (bool_decide_unpack _ (arr_ok a)). Qed.

Lemma arr_eq {n} (a b : arr n) : arr_list a = arr_list b -> a = b.
Proof.
  destruct a as [la ha], b as [lb hb]; simpl. intros ->. f_equal. apply proof_irrel.
Qed.

Lemma arr_list_inj {n} (a b : arr n) : arr_list a = arr_list b <-> a = b.
Proof. split; [apply arr_eq | by intros ->]. Qed.

(** [copy(a[:], l)] into a zeroed array [a] of length [n]: the common prefix
    is copied, the rest stays zero. *)
Program Definition to_arr (n : nat) (l : bytes) : arr n := Arr (resize n Byte.x00 l) _.
Next Obligation. intros. apply bool_decide_pack, length_resize. Qed.

Lemma to_arr_list n l : length l = n -> arr_list (to_arr n l) = l.
Proof. intros <-. simpl. by rewrite resize_all. Qed.

Lemma to_arr_id {n} (a : arr n) : to_arr n (arr_list a) = a.
Proof. apply arr_eq, to_arr_list, arr_length. Qed.

#[global] Instance arr_eq_dec n : EqDecision (arr n).
Proof.
  refine (fun a b => cast_if (decide (arr_list a = arr_list b))); by rewrite <-arr_list_inj.
Defined.

#[global] Program Instance arr_countable n : Countable (arr n) :=
  inj_countable' (arr_list (n:=n)) (to_arr n) _.
Next Obligation. intros n a. apply to_arr_id. Qed.

(** The zero value of [[n]byte]. *)
Definition zero_arr (n : nat) : arr n := to_arr n [].

(** ** Big-endian integers ([encoding/binary]) *)

Fixpoint be_put (n : nat) (z : Z) : bytes :=
  match n with
  | O => []
  | S k => be_put k (Z.shiftr z 8) ++ [byte_of z]
  end.

Definition be_get (l : bytes) : Z :=
  fold_left (fun acc b => Z.lor (Z.shiftl acc 8) (byte_val b)) l 0.

Lemma length_be_put n z : length (be_put n z) = n.
Proof. revert z. induction n as [|n IH]; intros z; simpl; [done|]. rewrite length_app, IH. simpl. lia. Qed.

Lemma lor_shiftl_byte a b : 0 <= b < 256 -> Z.lor (Z.shiftl a 8) b = a * 256 + b.
Proof.
  intros Hb. rewrite Z.shiftl_mul_pow2 by lia. change (2 ^ 8) with 256.
  rewrite <-Z.add_lor_land.
  assert (Hl : Z.land (a * 256) b = 0).
  { change 256 with (2 ^ 8). rewrite <-Z.shiftl_mul_pow2 by lia.
    apply Z.bits_inj'. intros i Hi. rewrite Z.land_spec, Z.bits_0.
    destruct (Z.lt_ge_cases i 8).
    - rewrite Z.shiftl_spec_low by lia. done.
    - rewrite andb_comm. rewrite <-(Z.mod_small b (2 ^ 8)) by (simpl; lia).
      rewrite Z.mod_pow2_bits_high by lia. done. }
  lia.
Qed.

Lemma be_get_snoc l b : be_get (l ++ [b]) = be_get l * 256 + byte_val b.
Proof.
  unfold be_get. rewrite fold_left_app. simpl.
  apply lor_shiftl_byte, byte_val_range.
Qed.

Lemma be_get_range l : 0 <= be_get l < 256 ^ len l.
Proof.
  induction l as [|b l IH] using rev_ind; [done|].
  rewrite be_get_snoc, length_app. simpl.
  pose proof (byte_val_range b).
  replace (Z.of_nat (length l + 1)) with (Z.succ (len l)) by lia.
  rewrite Z.pow_succ_r by lia. nia.
Qed.

Lemma be_get_put n z : be_get (be_put n z) = z mod 256 ^ Z.of_nat n.
Proof.
  revert z. induction n as [|n IH]; intros z; simpl be_put.
  - by rewrite Z.mod_1_r.
  - rewrite be_get_snoc, IH, byte_val_of, Z.shiftr_div_pow2 by lia.
    change (2 ^ 8) with 256. rewrite Nat2Z.inj_succ, Z.pow_succ_r by lia.
    rewrite (Z.rem_mul_r z 256 (256 ^ Z.of_nat n)) by lia. lia.
Qed.

Lemma be_get_put_small n z : 0 <= z < 256 ^ Z.of_nat n -> be_get (be_put n z) = z.
Proof. intros. rewrite be_get_put. by apply Z.mod_small. Qed.

Lemma be_put_get l : be_put (length l) (be_get l) = l.
Proof.
  induction l as [|b l IH] using rev_ind; [done|].
  rewrite be_get_snoc, length_app, Nat.add_1_r. simpl.
  pose proof (byte_val_range b).
  rewrite Z.shiftr_div_pow2 by lia. change (2 ^ 8) with 256.
  rewrite Z.div_add_l by lia. rewrite (Z.div_small (byte_val b)) by lia.
  rewrite Z.add_0_r, IH. do 2 f_equal.
  apply byte_val_inj. rewrite byte_val_of.
  rewrite Z.add_comm, Z.mod_add by lia. apply Z.mod_small. lia.
Qed.

Lemma be_put_get_n n l : length l = n -> be_put n (be_get l) = l.
Proof. intros <-. apply be_put_get. Qed.

Lemma be_put_inj n x y :
  0 <= x < 256 ^ Z.of_nat n -> 0 <= y < 256 ^ Z.of_nat n -> be_put n x = be_put n y -> x = y.
Proof. intros Hx Hy E. rewrite <-(be_get_put_small n x), <-(be_get_put_small n y), E; done. Qed.

(** The two-byte port encoding [byte(p>>8), byte(p)] is the big-endian one. *)
Lemma be_put_2 z : [byte_of (Z.shiftr z 8); byte_of z] = be_put 2 z.
Proof. done. Qed.

#[global] Arguments be_put : simpl never.
#[global] Arguments be_get : simpl never.
#[global] Arguments byte_of : simpl never.
#[global] Arguments to_arr : simpl never.

(** ** Errors

    One constructor per sentinel error of the package (and the three of
    package [io] the code produces or returns); [ErrText] is an error built
    by [errors.New]/[fmt.Errorf] without a [%w] verb, [Wrap] one built with
    [%w], and [ErrExt] an error produced by code outside the repository. *)

Inductive error :=
  (* address.go *)
  | ErrAddrTooShort | ErrAddrType | ErrDomainLen
  (* kdf.go *)
  | ErrShortKDF
  (* frame.go *)
  | ErrFrameTooLarge | ErrFrameTooShort | ErrFrameType | ErrMetaTooLarge
  | ErrPadTooLarge | ErrAEADOpen | ErrCounterMismatch
  (* handshake.go *)
  | ErrMagic | ErrHandshakeShort | ErrHandshakeLong | ErrOuterMAC
  | ErrAEADHandshake | ErrTimestamp | ErrUUIDMismatch | ErrCommand
  | ErrServerStatus | ErrUnknownUUID | ErrPlaintextLayout
  (* anti_replay.go *)
  | ErrReplay
  (* packetconn.go *)
  | ErrPacketConnClosed
  (* package io *)
  | EOF | ErrUnexpectedEOF | ErrClosedPipe
  (* other errors *)
  | ErrText (msg : string)
  | ErrExt (code : Z)
  | Wrap (msg : string) (cause : error).

#[global] Instance error_eq_dec : EqDecision error.
Proof. solve_decision. Defined.

(** [errors.Is(e, target)] for a sentinel [target]. *)
Fixpoint error_is (e target : error) : bool :=
  bool_decide (e = target) ||
  match e with Wrap _ c => error_is c target | _ => false end.

(** ** Outcomes

    A Go call returns a value, returns a non-nil error, or panics (an index
    or slice expression out of range, or an explicit [panic]). *)

Inductive outcome (A : Type) :=
  | Ret (a : A)
  | Fail (e : error)
  | Panic.
Arguments Ret {A} _.
Arguments Fail {A} _.
Arguments Panic {A}.

#[global] Instance outcome_eq_dec `{EqDecision A} : EqDecision (outcome A).
Proof. solve_decision. Defined.

#[global] Instance outcome_ret : MRet outcome := fun A a => Ret a.
#[global] Instance outcome_bind : MBind outcome := fun A B f m =>
  match m with Ret a => f a | Fail e => Fail e | Panic => Panic end.
#[global] Instance outcome_fmap : FMap outcome := fun A B f m =>
  match m with Ret a => Ret (f a) | Fail e => Fail e | Panic => Panic end.

Declare Scope go_scope.
Delimit Scope go_scope with go.

(** [if b { return ..., e }] followed by the rest of the function. *)
Notation "'fail_if' b 'with' e ';;' k" := (if b then Fail e else k)
  (at level 10, b at level 99, e at level 99, k at level 200,
   format "'fail_if'  b  'with'  e  ';;' '//' k") : go_scope.
#[global] Open Scope go_scope.

(** [return fmt.Errorf("msg: %w", err)] around a call. *)
Definition wrap_err {A} (msg : string) (m : outcome A) : outcome A :=
  match m with Fail e => Fail (Wrap msg e) | _ => m end.

(** A call that panics when the callee reports failure. *)
Definition must {A} (o : option A) : outcome A :=
  match o with Some a => Ret a | None => Panic end.

Definition or_fail {A} (e : error) (o : option A) : outcome A :=
  match o with Some a => Ret a | None => Fail e end.

Lemma bind_Ret {A B} (m : outcome A) (f : A -> outcome B) b :
  m ≫= f = Ret b <-> exists a, m = Ret a /\ f a = Ret b.
Proof.
  split; [|by intros (a & -> & ?)]. destruct m; cbn; [eauto|done..].
Qed.

Lemma bind_no_panic {A B} (m : outcome A) (f : A -> outcome B) :
  m <> Panic -> (forall a, m = Ret a -> f a <> Panic) -> m ≫= f <> Panic.
Proof. destruct m; cbn; naive_solver. Qed.

Lemma wrap_err_Ret {A} s (m : outcome A) a : wrap_err s m = Ret a <-> m = Ret a.
Proof. by destruct m. Qed.

(** ** Slices

    [sub l a b] is the content of [l[a:b]]; [slice l a b] is the Go
    expression, which panics out of range.  (Go checks the upper bound
    against the capacity; the model is stricter and checks the length, so
    "no panic" here also excludes reading stale bytes past the length.) *)

Definition sub (l : bytes) (a b : Z) : bytes :=
  take (Z.to_nat (b - a)) (drop (Z.to_nat a) l).

Definition slice (l : bytes) (a b : Z) : outcome bytes :=
  if (0 <=? a) && (a <=? b) && (b <=? len l) then Ret (sub l a b) else Panic.

Definition index (l : bytes) (i : Z) : outcome byte :=
  if 0 <=? i then must (l !! Z.to_nat i) else Panic.

Lemma length_sub l a b : 0 <= a -> a <= b -> b <= len l -> len (sub l a b) = b - a.
Proof. intros. unfold sub. rewrite length_take, length_drop. lia. Qed.

Lemma length_sub_nat l a b :
  0 <= a -> a <= b -> b <= len l -> length (sub l a b) = Z.to_nat (b - a).
Proof. intros. unfold sub. rewrite length_take, length_drop. lia. Qed.

Lemma slice_ok l a b : 0 <= a -> a <= b -> b <= len l -> slice l a b = Ret (sub l a b).
Proof.
  intros. unfold slice.
  by rewrite (proj2 (Z.leb_le 0 a)), (proj2 (Z.leb_le a b)), (proj2 (Z.leb_le b (len l))).
Qed.

Lemma slice_Ret l a b x :
  slice l a b = Ret x -> x = sub l a b /\ 0 <= a /\ a <= b /\ b <= len l.
Proof. unfold slice. destruct (_ && _) eqn:E; [|done]. intros [= <-]. split_and!; [done|lia..]. Qed.

Lemma index_ok l i : 0 <= i < len l -> exists b, index l i = Ret b /\ sub l i (i + 1) = [b].
Proof.
  intros Hi. unfold index. rewrite (proj2 (Z.leb_le 0 i)) by lia.
  destruct (lookup_lt_is_Some_2 l (Z.to_nat i)) as [b Hb]; [lia|].
  exists b. rewrite Hb. split; [done|]. unfold sub.
  replace (Z.to_nat (i + 1 - i)) with 1%nat by lia.
  by rewrite (drop_S _ _ _ Hb).
Qed.

Lemma sub_all l : sub l 0 (len l) = l.
Proof. unfold sub. rewrite drop_0, take_ge by lia. done. Qed.

Lemma sub_all' l n : n = len l -> sub l 0 n = l.
Proof. intros ->. apply sub_all. Qed.

Lemma sub_app_l l k a b : b <= len l -> 0 <= a -> sub (l ++ k) a b = sub l a b.
Proof.
  intros. unfold sub. destruct (Z.le_gt_cases a b).
  - rewrite drop_app_le by lia. rewrite take_app_le; [done|]. rewrite length_drop. lia.
  - by replace (Z.to_nat (b - a)) with O by lia.
Qed.

Lemma sub_app_r l k a b : len l <= a -> sub (l ++ k) a b = sub k (a - len l) (b - len l).
Proof.
  intros. unfold sub. rewrite drop_app_ge by lia. f_equal; [lia|]. f_equal. lia.
Qed.

(** Splitting a window at an inner point. *)
Lemma sub_split l a b c :
  0 <= a -> a <= b -> b <= c -> c <= len l -> sub l a c = sub l a b ++ sub l b c.
Proof.
  intros. unfold sub.
  replace (Z.to_nat b) with (Z.to_nat a + Z.to_nat (b - a))%nat by lia.
  rewrite <-drop_drop.
  replace (Z.to_nat (c - a)) with (Z.to_nat (b - a) + Z.to_nat (c - b))%nat by lia.
  generalize (drop (Z.to_nat a) l) as d. intros d.
  by rewrite take_take_drop.
Qed.

Lemma sub_sub l a b c d :
  0 <= a -> 0 <= c -> c <= d -> a + d <= b -> sub (sub l a b) c d = sub l (a + c) (a + d).
Proof.
  intros. unfold sub.
  replace (Z.to_nat (a + c)) with (Z.to_nat a + Z.to_nat c)%nat by lia.
  rewrite <-drop_drop, skipn_firstn_comm, take_take. f_equal. lia.
Qed.

Lemma sub_full l a b : a = 0 -> b = len l -> sub l a b = l.
Proof. intros -> ->. apply sub_all. Qed.

Lemma sub_empty l a b : b <= a -> sub l a b = [].
Proof. intros. unfold sub. by replace (Z.to_nat (b - a)) with O by lia. Qed.

(** A window that ends inside the right part of an append. *)
Lemma sub_app_mid l k a b :
  0 <= a -> a <= len l -> len l <= b -> sub (l ++ k) a b = sub l a (len l) ++ sub k 0 (b - len l).
Proof.
  intros. unfold sub. rewrite drop_app_le by lia.
  rewrite take_app, length_drop. f_equal; [|f_equal; lia].
  rewrite !take_ge; [done|rewrite length_drop; lia..].
Qed.

(** ** Automation

    [len]: rewriting database of length equations; [llia]: [lia] modulo that
    database; [sub_simpl]: evaluation of windows of appends; [go_slices]:
    evaluation of in-range slice expressions; [zif]: resolution of integer
    tests decided by the context; [zcase]: case analysis on an integer test;
    [inv_ret]: inversion of a successful monadic computation. *)

Create Rewrite HintDb len.
#[export] Hint Rewrite @length_app @length_be_put @arr_length @length_cons @length_nil
  @length_replicate @length_take @length_drop @Nat2Z.inj_add : len.
#[export] Hint Rewrite length_sub_nat using lia : len.

(** [int(z)]: signed 64-bit arithmetic wraps around. *)
Definition to_int64 (z : Z) : Z := (z + 2 ^ 63) mod 2 ^ 64 - 2 ^ 63.

Lemma to_int64_id z : - 2 ^ 63 <= z < 2 ^ 63 -> to_int64 z = z.
Proof. intros Hz. unfold to_int64. rewrite Z.mod_small; lia. Qed.

Lemma to_int64_le z : 0 <= z -> to_int64 z <= z.
Proof. intros Hz. unfold to_int64. pose proof (Z.mod_le (z + 2 ^ 63) (2 ^ 64)). lia. Qed.

(** [ewp]: preservation lemmas of the components (a transport stays up, a
    stream stays in working order). *)
Create HintDb ewp.

Ltac len_simpl := autorewrite with len in *; cbn [length] in *.
Ltac llia := solve [lia | autorewrite with len; cbn [length]; lia | len_simpl; lia].

Ltac sub_simpl_1 :=
  match goal with
  | |- context [sub (?l ++ ?k) ?a ?b] =>
      first [ rewrite (sub_app_l l k a b) by llia
            | rewrite (sub_app_r l k a b) by llia
            | rewrite (sub_app_mid l k a b) by llia ]
  | |- context [sub ?l ?a ?b] =>
      first [ rewrite (sub_full l a b) by llia
            | rewrite (sub_empty l a b) by llia ]
  end.
Ltac sub_simpl := repeat sub_simpl_1.

Ltac go_slices :=
  repeat match goal with
  | |- context [slice ?l ?a ?b] => rewrite (slice_ok l a b) by llia
  end; cbn [mbind outcome_bind].

Ltac zif_1 :=
  match goal with
  | |- context [?a <? ?b] =>
      first [ rewrite (proj2 (Z.ltb_lt a b)) by llia | rewrite (proj2 (Z.ltb_ge a b)) by llia ]
  | |- context [?a <=? ?b] =>
      first [ rewrite (proj2 (Z.leb_le a b)) by llia | rewrite (proj2 (Z.leb_gt a b)) by llia ]
  | |- context [?a =? ?b] =>
      first [ rewrite (proj2 (Z.eqb_eq a b)) by llia | rewrite (proj2 (Z.eqb_neq a b)) by llia ]
  end; cbn [andb orb negb].
Ltac zif := repeat zif_1.

(** Every test is first tried against the context, then split. *)
Ltac zcase_1 :=
  match goal with
  | |- context [if ?a <? ?b then _ else _] => destruct (Z.ltb_spec a b)
  | |- context [if ?a <=? ?b then _ else _] => destruct (Z.leb_spec a b)
  | |- context [if ?a =? ?b then _ else _] => destruct (Z.eqb_spec a b)
  end.
Ltac zcase := repeat (zif_1 || zcase_1).

Ltac inv_ret :=
  repeat match goal with
  | H : _ ≫= _ = Ret _ |- _ =>
      let a := fresh "a" in let H1 := fresh "Hr" in let H2 := fresh "Hk" in
      apply bind_Ret in H; destruct H as (a & H1 & H2); cbn beta in H2
  | H : Ret _ = Ret _ |- _ => injection H as H; subst
  | H : (if ?b then Fail _ else _) = Ret _ |- _ =>
      let E := fresh "E" in destruct b eqn:E; [discriminate H|]
  | H : slice _ _ _ = Ret _ |- _ => apply slice_Ret in H as (-> & ? & ? & ?)
  | H : wrap_err _ _ = Ret _ |- _ => apply wrap_err_Ret in H
  end.
