(* ===== verification/Address.v ===== *)
(** * Addresses (src/address.go)

    The address codec of the EWP wire format, together with the parts of
    package [net/netip] it uses ([Addr], [AddrPort] and their accessors).
    A Go [string] is a byte sequence, hence [bytes]. *)

From S2P Require Import Prelude.

(** ** The part of package [net/netip] the code uses *)

Module Netip.

(** [netip.Addr]: the zero value, an IPv4 address, or an IPv6 address
    (IPv4-mapped ones included) with its zone. *)
Inductive Addr :=
  | AddrZero
  | Addr4 (ip : arr 4)
  | Addr6 (ip : arr 16) (zone : bytes).

#[global] Instance Addr_eq_dec : EqDecision Addr.
Proof. solve_decision. Defined.

Definition Is4 (a : Addr) : bool := match a with Addr4 _ => true | _ => false end.
Definition Is6 (a : Addr) : bool := match a with Addr6 _ _ => true | _ => false end.
Definition IsValid (a : Addr) : bool := match a with AddrZero => false | _ => true end.

(** The prefix of an IPv4-mapped IPv6 address. *)
Definition v4in6_prefix : bytes := replicate 10 Byte.x00 ++ [Byte.xff; Byte.xff].

Definition Is4In6 (a : Addr) : bool :=
  match a with Addr6 ip _ => bool_decide (take 12 (arr_list ip) = v4in6_prefix) | _ => false end.

(** [As4] and [As16] panic on the zero [Addr]; [As4] also does on an IPv6
    address that is not IPv4-mapped. *)
Definition As4 (a : Addr) : outcome (arr 4) :=
  match a with
  | Addr4 ip => Ret ip
  | Addr6 ip _ => if Is4In6 a then Ret (to_arr 4 (drop 12 (arr_list ip))) else Panic
  | AddrZero => Panic
  end.

Definition As16 (a : Addr) : outcome (arr 16) :=
  match a with
  | Addr6 ip _ => Ret ip
  | Addr4 ip => Ret (to_arr 16 (v4in6_prefix ++ arr_list ip))
  | AddrZero => Panic
  end.

Definition AddrFrom4 (ip : arr 4) : Addr := Addr4 ip.
Definition AddrFrom16 (ip : arr 16) : Addr := Addr6 ip [].

Definition AddrFromSlice (s : bytes) : option Addr :=
  if len s =? 4 then Some (AddrFrom4 (to_arr 4 s))
  else if len s =? 16 then Some (AddrFrom16 (to_arr 16 s))
  else None.

Definition Unmap (a : Addr) : Addr :=
  match a with
  | Addr6 ip _ => if Is4In6 a then Addr4 (to_arr 4 (drop 12 (arr_list ip))) else a
  | _ => a
  end.

Record AddrPort := AddrPortFrom { ap_addr : Addr; ap_port : Z }.

#[global] Instance AddrPort_eq_dec : EqDecision AddrPort.
Proof. solve_decision. Defined.

Definition AddrPort_IsValid (p : AddrPort) : bool := IsValid (ap_addr p).

Definition zero_AddrPort : AddrPort := AddrPortFrom AddrZero 0.

End Netip.
Import Netip.

(** ** Constants *)

Definition AddrTypeIPv4 : Z := 1.
Definition AddrTypeIPv6 : Z := 2.
Definition AddrTypeDomain : Z := 3.
Definition MaxDomainLen : Z := 253.

(** ** The type *)

Record Address := mkAddress {
  Addr : AddrPort;
  Domain : bytes;
  Port : Z
}.

#[global] Instance Address_eq_dec : EqDecision Address.
Proof. solve_decision. Defined.

(** The zero value [Address{}], and the two composite literals the code uses. *)
Definition zero_Address : Address := mkAddress zero_AddrPort [] 0.
Definition ip_Address (ap : AddrPort) : Address := mkAddress ap [] 0.
Definition domain_Address (d : bytes) (port : Z) : Address := mkAddress zero_AddrPort d port.

(** [a.Domain != ""] *)
Definition IsDomain (a : Address) : bool := negb (len (Domain a) =? 0).

Definition EncodedLen (a : Address) : Z :=
  if IsDomain a then 1 + 1 + len (Domain a) + 2
  else if Is6 (ap_addr (Addr a)) then 1 + 16 + 2
  else 1 + 4 + 2.

(** The error of the [default] case of [Append]. *)
Definition ErrInvalidAddress : error := ErrText "ewp/v2: invalid address".

Definition Append (a : Address) (dst : bytes) : outcome (bytes * option error) :=
  if IsDomain a then
    if (len (Domain a) =? 0) || (MaxDomainLen <? len (Domain a)) then Ret (dst, Some ErrDomainLen)
    else
      let dst := dst ++ [byte_of AddrTypeDomain; byte_of (len (Domain a))] in
      let dst := dst ++ Domain a in
      let dst := dst ++ [byte_of (Z.shiftr (Port a) 8); byte_of (Port a)] in
      Ret (dst, None)
  else if AddrPort_IsValid (Addr a) && Is4 (ap_addr (Addr a)) then
    let dst := dst ++ [byte_of AddrTypeIPv4] in
    ip4 ← As4 (ap_addr (Addr a));
    let dst := dst ++ arr_list ip4 in
    let port := ap_port (Addr a) in
    let dst := dst ++ [byte_of (Z.shiftr port 8); byte_of port] in
    Ret (dst, None)
  else if AddrPort_IsValid (Addr a) && Is6 (ap_addr (Addr a)) then
    let dst := dst ++ [byte_of AddrTypeIPv6] in
    ip6 ← As16 (ap_addr (Addr a));
    let dst := dst ++ arr_list ip6 in
    let port := ap_port (Addr a) in
    let dst := dst ++ [byte_of (Z.shiftr port 8); byte_of port] in
    Ret (dst, None)
  else Ret (dst, Some ErrInvalidAddress).

Definition DecodeAddress (buf : bytes) : outcome (Address * Z) :=
  fail_if len buf <? 1 with ErrAddrTooShort ;;
  t ← index buf 0;
  let t := byte_val t in
  if t =? AddrTypeIPv4 then
    fail_if len buf <? 1 + 4 + 2 with ErrAddrTooShort ;;
    s ← slice buf 1 5;
    let ip := to_arr 4 s in
    p ← slice buf 5 7;
    let port := be_get p in
    Ret (ip_Address (AddrPortFrom (AddrFrom4 ip) port), 7)
  else if t =? AddrTypeIPv6 then
    fail_if len buf <? 1 + 16 + 2 with ErrAddrTooShort ;;
    s ← slice buf 1 17;
    let ip := to_arr 16 s in
    p ← slice buf 17 19;
    let port := be_get p in
    Ret (ip_Address (AddrPortFrom (AddrFrom16 ip) port), 19)
  else if t =? AddrTypeDomain then
    fail_if len buf <? 2 with ErrAddrTooShort ;;
    d ← index buf 1;
    let dlen := byte_val d in
    fail_if (dlen =? 0) || (MaxDomainLen <? dlen) with ErrDomainLen ;;
    fail_if len buf <? 2 + dlen + 2 with ErrAddrTooShort ;;
    domain ← slice buf 2 (2 + dlen);
    p ← slice buf (2 + dlen) (2 + dlen + 2);
    let port := be_get p in
    Ret (domain_Address domain port, 2 + dlen + 2)
  else Fail ErrAddrType.

(** ** Specification

    [Address_wf] is what Go's typing gives (the ports are [uint16]);
    [encodable] is the domain of the encoder; [wire_of] the reference
    encoding; [strip] forgets what the wire format does not carry (the IPv6
    zone, and the fields the encoder ignores). *)

Definition Address_wf (a : Address) : Prop :=
  0 <= Port a < 2 ^ 16 /\ 0 <= ap_port (Addr a) < 2 ^ 16.

Definition encodable (a : Address) : bool :=
  if IsDomain a then len (Domain a) <=? MaxDomainLen else AddrPort_IsValid (Addr a).

Definition wire_of (a : Address) : bytes :=
  if IsDomain a then
    [byte_of AddrTypeDomain; byte_of (len (Domain a))] ++ Domain a ++ be_put 2 (Port a)
  else match ap_addr (Addr a) with
       | Addr4 ip => [byte_of AddrTypeIPv4] ++ arr_list ip ++ be_put 2 (ap_port (Addr a))
       | Addr6 ip _ => [byte_of AddrTypeIPv6] ++ arr_list ip ++ be_put 2 (ap_port (Addr a))
       | AddrZero => []
       end.

Definition strip (a : Address) : Address :=
  if IsDomain a then domain_Address (Domain a) (Port a)
  else match ap_addr (Addr a) with
       | Addr6 ip _ => ip_Address (AddrPortFrom (Addr6 ip []) (ap_port (Addr a)))
       | ip => ip_Address (AddrPortFrom ip (ap_port (Addr a)))
       end.

(** The three shapes of an encodable address. *)
Lemma encodable_cases (P : Address -> Prop) :
  (forall a, IsDomain a = true -> 0 < len (Domain a) <= MaxDomainLen -> P a) ->
  (forall a ip p, IsDomain a = false -> Addr a = AddrPortFrom (Addr4 ip) p -> P a) ->
  (forall a ip z p, IsDomain a = false -> Addr a = AddrPortFrom (Addr6 ip z) p -> P a) ->
  forall a, encodable a = true -> P a.
Proof.
  intros Hd H4 H6 a He. unfold encodable in He. destruct (IsDomain a) eqn:E.
  - apply Hd; [done|]. unfold IsDomain in E. lia.
  - destruct (Addr a) as [[|ip|ip z] p] eqn:Ea; [done|by eapply H4|by eapply H6].
Qed.

Lemma Append_spec a dst :
  Append a dst =
    Ret (if encodable a then (dst ++ wire_of a, None)
         else (dst, Some (if IsDomain a then ErrDomainLen else ErrInvalidAddress))).
Proof.
  unfold Append, encodable, wire_of. destruct (IsDomain a) eqn:E.
  - unfold IsDomain in E. zcase; cbn; [done|]. by rewrite <-!app_assoc.
  - destruct (Addr a) as [[|ip|ip z] p]; cbn; [done|by rewrite <-!app_assoc..].
Qed.

Lemma length_wire_of a : encodable a = true -> len (wire_of a) = EncodedLen a.
Proof.
  revert a. apply encodable_cases.
  - intros a E _. unfold wire_of, EncodedLen. rewrite E. llia.
  - intros a ip p E Ha. unfold wire_of, EncodedLen. rewrite E, Ha. cbn [ap_addr Is6]. llia.
  - intros a ip z p E Ha. unfold wire_of, EncodedLen. rewrite E, Ha. cbn [ap_addr Is6]. llia.
Qed.

Lemma EncodedLen_bounds a : encodable a = true -> 4 < EncodedLen a <= 257.
Proof.
  unfold encodable, EncodedLen, MaxDomainLen, IsDomain.
  destruct (_ =? _) eqn:E; cbn; [destruct (Is6 _)|]; lia.
Qed.

Lemma index_0 b l : index (b :: l) 0 = Ret b.
Proof. done. Qed.
Lemma index_1 a b l : index (a :: b :: l) 1 = Ret b.
Proof. done. Qed.

Lemma DecodeAddress_wire a rest :
  Address_wf a -> encodable a = true ->
  DecodeAddress (wire_of a ++ rest) = Ret (strip a, EncodedLen a).
Proof.
  intros [Hp Hap] He. revert a He Hp Hap. apply (encodable_cases (fun a => _ -> _ -> _)).
  - intros a E Hl Hp _. unfold DecodeAddress, wire_of, strip, EncodedLen, MaxDomainLen in *. rewrite E.
    cbn [app]. rewrite index_0, index_1. cbn [mbind outcome_bind].
    rewrite (byte_of_small AddrTypeDomain) by (unfold AddrTypeDomain; lia).
    rewrite (byte_of_small (len _)) by lia. unfold AddrTypeDomain, AddrTypeIPv4, AddrTypeIPv6.
    zif. go_slices. change (?x :: ?y :: ?l) with ([x; y] ++ l). rewrite <-app_assoc.
    sub_simpl. rewrite be_get_put_small by done. do 3 f_equal; lia.
  - intros a ip p E Ha _ Hp. unfold DecodeAddress, wire_of, strip, EncodedLen. rewrite E, Ha in *.
    cbn [app ap_addr ap_port Is6] in *. rewrite index_0. cbn [mbind outcome_bind].
    rewrite (byte_of_small AddrTypeIPv4) by (unfold AddrTypeIPv4; lia).
    unfold AddrTypeIPv4. zif. go_slices. change (?x :: ?l) with ([x] ++ l). rewrite <-app_assoc.
    sub_simpl. by rewrite to_arr_id, be_get_put_small.
  - intros a ip z p E Ha _ Hp. unfold DecodeAddress, wire_of, strip, EncodedLen. rewrite E, Ha in *.
    cbn [app ap_addr ap_port Is6] in *. rewrite index_0. cbn [mbind outcome_bind].
    rewrite (byte_of_small AddrTypeIPv6) by (unfold AddrTypeIPv6; lia).
    unfold AddrTypeIPv4, AddrTypeIPv6. zif. go_slices. change (?x :: ?l) with ([x] ++ l).
    rewrite <-app_assoc. sub_simpl. by rewrite to_arr_id, be_get_put_small.
Qed.

(** Ports decoded from two bytes fit in [uint16]. *)
Lemma be_get_2_range l : len l = 2 -> 0 <= be_get l < 2 ^ 16.
Proof. intros E. pose proof (be_get_range l) as H. rewrite E in H. done. Qed.

Lemma byte_of_eq b z : byte_val b = z -> byte_of z = b.
Proof. intros <-. apply byte_of_val. Qed.

(** A window of a buffer that starts with known bytes. *)
Lemma take_sub l n : 0 <= n -> take (Z.to_nat n) l = sub l 0 n.
Proof. intros. unfold sub. rewrite drop_0. f_equal. lia. Qed.

Lemma IsDomain_ip ap : IsDomain (ip_Address ap) = false.
Proof. done. Qed.

(** What a successful decode has read: the consumed window is the reference
    encoding of the result. *)
Definition decoded_ok (buf : bytes) (a : Address) (n : Z) : Prop :=
  Address_wf a /\ encodable a = true /\ strip a = a /\ EncodedLen a = n /\
  n <= len buf /\ wire_of a = sub buf 0 n.

Lemma DecodeAddress_sound buf a n :
  DecodeAddress buf = Ret (a, n) -> decoded_ok buf a n.
Proof.
  unfold DecodeAddress. destruct (Z.ltb_spec (len buf) 1); [done|].
  destruct (index_ok buf 0) as (t & -> & Ht); [lia|]. change (0 + 1) with 1 in Ht.
  cbn [mbind outcome_bind].
  destruct (Z.eqb_spec (byte_val t) AddrTypeIPv4) as [E|_];
    [|destruct (Z.eqb_spec (byte_val t) AddrTypeIPv6) as [E|_];
      [|destruct (Z.eqb_spec (byte_val t) AddrTypeDomain) as [E|_]; [|done]]].
  - destruct (Z.ltb_spec (len buf) (1 + 4 + 2)); [done|]. go_slices. intros [= <- <-].
    unfold decoded_ok, Address_wf, encodable, strip, wire_of, EncodedLen. rewrite IsDomain_ip.
    cbn [Addr Port ap_addr ap_port ip_Address AddrFrom4 Is6]. rewrite (to_arr_list 4) by llia.
    pose proof (be_get_2_range (sub buf 5 7) ltac:(llia)).
    rewrite (be_put_get_n 2) by llia. rewrite (byte_of_eq t) by done.
    split_and!; try done; try lia.
    rewrite (sub_split buf 0 1 7), (sub_split buf 1 5 7), Ht by lia. done.
  - destruct (Z.ltb_spec (len buf) (1 + 16 + 2)); [done|]. go_slices. intros [= <- <-].
    unfold decoded_ok, Address_wf, encodable, strip, wire_of, EncodedLen. rewrite IsDomain_ip.
    cbn [Addr Port ap_addr ap_port ip_Address AddrFrom16 Is6]. rewrite (to_arr_list 16) by llia.
    pose proof (be_get_2_range (sub buf 17 19) ltac:(llia)).
    rewrite (be_put_get_n 2) by llia. rewrite (byte_of_eq t) by done.
    split_and!; try done; try lia.
    rewrite (sub_split buf 0 1 19), (sub_split buf 1 17 19), Ht by lia. done.
  - destruct (Z.ltb_spec (len buf) 2); [done|].
    destruct (index_ok buf 1) as (d & -> & Hd); [lia|]. change (1 + 1) with 2 in Hd.
    cbn [mbind outcome_bind].
    destruct ((byte_val d =? 0) || (MaxDomainLen <? byte_val d)) eqn:Ed; [done|].
    destruct (Z.ltb_spec (len buf) (2 + byte_val d + 2)); [done|].
    pose proof (byte_val_range d). go_slices. intros [= <- <-].
    set (dl := byte_val d) in *. unfold MaxDomainLen in *.
    pose proof (be_get_2_range (sub buf (2 + dl) (2 + dl + 2)) ltac:(llia)).
    assert (Hdom : len (sub buf 2 (2 + dl)) = dl) by llia.
    assert (HI : IsDomain (domain_Address (sub buf 2 (2 + dl))
       (be_get (sub buf (2 + dl) (2 + dl + 2)))) = true)
      by (unfold IsDomain; cbn [Domain domain_Address]; rewrite Hdom; lia).
    unfold decoded_ok, Address_wf, encodable, strip, wire_of, EncodedLen.
    rewrite HI. cbn [Domain Addr ap_addr ap_port Port domain_Address zero_AddrPort].
    rewrite Hdom, (be_put_get_n 2), (byte_of_eq t), (byte_of_eq d) by (done || llia).
    unfold MaxDomainLen. split_and!; try done; try lia.
    rewrite (sub_split buf 0 1 (2 + dl + 2)), (sub_split buf 1 2 (2 + dl + 2)),
      (sub_split buf 2 (2 + dl) (2 + dl + 2)), Ht, Hd by lia. done.
Qed.

Lemma DecodeAddress_no_panic buf : DecodeAddress buf <> Panic.
Proof.
  unfold DecodeAddress. destruct (Z.ltb_spec (len buf) 1); [done|].
  destruct (index_ok buf 0) as (t & -> & Ht); [lia|]. cbn [mbind outcome_bind].
  zcase; go_slices; try done.
  all: destruct (index_ok buf 1) as (d & -> & Hd); [lia|]; cbn [mbind outcome_bind];
    pose proof (byte_val_range d); destruct (_ || _); [done|]; zcase; [done|]; by go_slices.
Qed.

(** A strict prefix of an encoding is reported as truncated. *)
Lemma DecodeAddress_short t l :
  byte_val t = AddrTypeIPv4 /\ len l < 6 \/ byte_val t = AddrTypeIPv6 /\ len l < 18 \/
  byte_val t = AddrTypeDomain /\
    (l = [] \/ exists d l', l = d :: l' /\ 0 < byte_val d <= MaxDomainLen /\ len l' < byte_val d + 2) ->
  DecodeAddress (t :: l) = Fail ErrAddrTooShort.
Proof.
  unfold DecodeAddress, AddrTypeIPv4, AddrTypeIPv6, AddrTypeDomain, MaxDomainLen.
  rewrite length_cons, index_0. cbn [mbind outcome_bind].
  intros [[-> ?]|[[-> ?]|[-> [->|(d & l' & -> & ? & ?)]]]]; zif; try done.
  rewrite index_1. cbn [mbind outcome_bind]. rewrite length_cons. by zif.
Qed.

Lemma DecodeAddress_truncated a k :
  encodable a = true -> 0 <= k < EncodedLen a ->
  DecodeAddress (sub (wire_of a) 0 k) = Fail ErrAddrTooShort.
Proof.
  intros He Hk. rewrite <-(length_wire_of a) in Hk by done.
  destruct (Z.eq_dec k 0) as [->|Hk0]; [by rewrite sub_empty|].
  assert (Hl : forall x l, k <= 1 + len l ->
    exists l', sub (x :: l) 0 k = x :: l' /\ len l' = k - 1 /\ l' = sub l 0 (k - 1)).
  { intros x l ?. exists (sub l 0 (k - 1)). change (x :: l) with ([x] ++ l).
    rewrite sub_app_mid by llia. rewrite sub_full by llia. cbn [app].
    split_and!; [f_equal|rewrite length_sub by lia; lia|done]. }
  revert a He Hk. apply (encodable_cases (fun a => _ -> _));
  [intros a E Hd|intros a ip p E Ha|intros a ip z p E Ha];
  unfold wire_of; rewrite E, ?Ha; cbn [ap_addr ap_port app]; intros Hk.
  - unfold MaxDomainLen in Hd. destruct (Hl (byte_of AddrTypeDomain)
      (byte_of (len (Domain a)) :: Domain a ++ be_put 2 (Port a))) as (l & -> & ? & ->); [llia|].
    apply DecodeAddress_short. do 2 right. split; [done|].
    destruct (Z.eq_dec k 1) as [->|]; [left; by rewrite sub_empty|right].
    exists (byte_of (len (Domain a))). eexists. split.
    { change (?x :: ?l) with ([x] ++ l). rewrite sub_app_mid by llia.
      rewrite sub_full by llia. done. }
    rewrite byte_of_small by lia. unfold MaxDomainLen. split; [lia|].
    rewrite length_sub by llia. llia.
  - destruct (Hl (byte_of AddrTypeIPv4) (arr_list ip ++ be_put 2 p)) as (l & -> & ? & _); [llia|].
    apply DecodeAddress_short. left. split; [done|llia].
  - destruct (Hl (byte_of AddrTypeIPv6) (arr_list ip ++ be_put 2 p)) as (l & -> & ? & _); [llia|].
    apply DecodeAddress_short. right; left. split; [done|llia].
Qed.

(** ** Properties *)

(** C28: whatever [Append] encodes, [DecodeAddress] decodes to the same
    address (up to the zone of an IPv6 literal, which the wire format does
    not carry, and the fields the encoder ignores), consuming exactly
    [EncodedLen] bytes whatever follows in the buffer. *)
Theorem address_roundtrip a dst rest :
  Address_wf a -> encodable a = true ->
  exists w, Append a dst = Ret (dst ++ w, None) /\ len w = EncodedLen a /\
    DecodeAddress (w ++ rest) = Ret (strip a, EncodedLen a).
Proof.
  intros Hwf He. exists (wire_of a). rewrite Append_spec, He.
  by auto using length_wire_of, DecodeAddress_wire.
Qed.

Definition ex_domain : Address :=
  domain_Address (byte_of <$> [101; 120; 46; 99; 111]) 443.
Definition ex_v4 : Address := ip_Address (AddrPortFrom (Addr4 (to_arr 4 (byte_of <$> [8; 8; 4; 4]))) 53).

Lemma address_roundtrip_witness :
  exists w, Append ex_domain [Byte.x2a] = Ret ([Byte.x2a] ++ w, None) /\ len w = EncodedLen ex_domain /\
    DecodeAddress (w ++ [Byte.x07]) = Ret (strip ex_domain, EncodedLen ex_domain).
Proof. apply address_roundtrip; [split; vm_compute; split; congruence|reflexivity]. Defined.

(** [DecodeAddress] is canonical: a successful decode consumed between 5
    and 257 bytes of the buffer, its result is a well-formed encodable
    address, and appending that address again reproduces exactly the bytes
    consumed.  Two different encodings never decode to the same address. *)
Theorem address_decode_canonical buf a n dst :
  DecodeAddress buf = Ret (a, n) ->
  Address_wf a /\ 4 < n <= 257 /\ n <= len buf /\ strip a = a /\
  Append a dst = Ret (dst ++ sub buf 0 n, None).
Proof.
  intros (Hwf & He & Hs & <- & Hn & Hw)%DecodeAddress_sound.
  rewrite Append_spec, He, Hw. by auto using EncodedLen_bounds.
Qed.

Lemma address_decode_canonical_witness :
  DecodeAddress (wire_of ex_v4 ++ [Byte.x01]) = Ret (ex_v4, 7) /\
  Append ex_v4 [] = Ret ([] ++ sub (wire_of ex_v4 ++ [Byte.x01]) 0 7, None).
Proof.
  assert (H : DecodeAddress (wire_of ex_v4 ++ [Byte.x01]) = Ret (ex_v4, 7)).
  { apply (bool_decide_unpack _). vm_compute. exact I. }
  split; [exact H|]. apply (address_decode_canonical _ _ _ [] H).
Defined.

(** [DecodeAddress] is total: no input makes it panic or read past the
    buffer, and every strict prefix of a valid encoding is reported as
    [ErrAddrTooShort], never as another address or another error. *)
Theorem address_decode_total buf a k :
  DecodeAddress buf <> Panic /\
  (encodable a = true -> 0 <= k < EncodedLen a ->
   DecodeAddress (sub (wire_of a) 0 k) = Fail ErrAddrTooShort).
Proof. split; [apply DecodeAddress_no_panic|apply DecodeAddress_truncated]. Qed.

Lemma address_decode_total_witness :
  DecodeAddress (sub (wire_of ex_domain) 0 6) = Fail ErrAddrTooShort.
Proof. apply (address_decode_total []); [reflexivity|]. vm_compute. split; congruence. Defined.
