(* ===== verification/Crypto.v ===== *)
(** * Cryptographic primitives and the environment

    The primitives the package imports (ChaCha20-Poly1305 and HKDF of
    golang.org/x/crypto; SHA-256, HMAC, X25519 and ML-KEM-768 of the Go
    library) are parameters: operations of the class [Crypto].  The class
    [CryptoLaws] states the documented facts the package relies on.
    [Entropy] is [crypto/rand]: a source with a state of its own. *)

From S2P Require Import Prelude.

(** ** Randomness

    [io.ReadFull(crand.Reader, b)] with [len(b) = n] fills the [n] bytes or
    reports an error. *)
Class Entropy (G : Type) := rand_read : forall n : nat, G -> option (arr n) * G.

(** The same read into a slice of computed length. *)
Definition rand_fill {G} `{!Entropy G} (n : nat) (g : G) : option bytes * G :=
  let '(a, g) := rand_read n g in (arr_list <$> a, g).

Lemma rand_fill_length {G} `{!Entropy G} n (g g' : G) l :
  rand_fill n g = (Some l, g') -> length l = n.
Proof.
  unfold rand_fill. destruct (rand_read n g) as [[a|] g'']; intros [= <- _].
  apply arr_length.
Qed.

(** Since Go 1.24 reads from [crypto/rand] are documented never to fail. *)
Class EntropyLaws {G} (E : Entropy G) : Prop :=
  rand_total : forall n g, is_Some (rand_read n g).1.

Lemma rand_fill_total {G} {E : Entropy G} `{!EntropyLaws E} n (g : G) :
  exists l g', rand_fill n g = (Some l, g') /\ length l = n.
Proof.
  unfold rand_fill. destruct (rand_total n g) as [a Ha]. destruct (rand_read n g) as [o g'].
  cbn in Ha. subst o. exists (arr_list a), g'. split; [done|apply arr_length].
Qed.

(** ** Primitives *)

Class Crypto (G : Type) := {
  (* crypto/sha256, crypto/hmac *)
  sha256_Sum256 : bytes -> arr 32;
  hmac_sha256 : bytes -> bytes -> arr 32;                  (* key, message *)
  (* golang.org/x/crypto/hkdf with SHA-256; [None] when more output is asked
     for than HKDF can give *)
  hkdf_New : bytes -> bytes -> bytes -> forall n, option (arr n);   (* secret, salt, info *)
  hkdf_Extract : bytes -> bytes -> bytes;                  (* secret, salt *)
  hkdf_Expand : bytes -> bytes -> forall n, option (arr n); (* prk, info *)
  (* golang.org/x/crypto/chacha20poly1305 *)
  AEAD : Type;
  chacha_New : bytes -> option AEAD;                       (* key *)
  Seal : AEAD -> bytes -> bytes -> bytes -> bytes;         (* nonce, plaintext, aad *)
  Open : AEAD -> bytes -> bytes -> bytes -> option bytes;  (* nonce, ciphertext, aad *)
  (* crypto/ecdh, curve X25519 *)
  X25519Priv : Type;
  X25519Pub : Type;
  X25519_GenerateKey : G -> option X25519Priv * G;
  X25519_PublicKey : X25519Priv -> X25519Pub;
  X25519_Bytes : X25519Pub -> bytes;
  X25519_NewPublicKey : bytes -> option X25519Pub;
  X25519_ECDH : X25519Priv -> X25519Pub -> option bytes;
  (* crypto/mlkem, ML-KEM-768 *)
  MLKEMPriv : Type;
  MLKEMPub : Type;
  MLKEM_GenerateKey : G -> option MLKEMPriv * G;
  MLKEM_EncapsulationKey : MLKEMPriv -> MLKEMPub;
  MLKEM_Bytes : MLKEMPub -> bytes;
  MLKEM_NewEncapsulationKey : bytes -> option MLKEMPub;
  MLKEM_Encapsulate : MLKEMPub -> G -> (bytes * bytes) * G; (* shared, ciphertext *)
  MLKEM_Decapsulate : MLKEMPriv -> bytes -> option bytes
}.

(** ** Documented behaviour

    Every law is a statement of the primitive's documentation; none of them
    is a secrecy or unforgeability assumption. *)

(** ChaCha20-Poly1305: a 32-byte key is accepted; sealing adds a 16-byte
    tag; opening inverts sealing, and (RFC 8439: decryption recomputes the
    deterministic tag) only accepts what sealing produces. *)
Class AEADLaws {G} (C : Crypto G) : Prop := {
  chacha_New_32 : forall key : arr 32, is_Some (chacha_New (arr_list key));
  length_Seal : forall c n p a, length (Seal c n p a) = (length p + 16)%nat;
  Open_Seal : forall c n p a, Open c n (Seal c n p a) a = Some p;
  Open_tidy : forall c n x a p, Open c n x a = Some p -> x = Seal c n p a
}.

(** HKDF-SHA-256 gives up to 255 blocks of 32 bytes. *)
Class HKDFLaws {G} (C : Crypto G) : Prop := {
  hkdf_New_ok : forall s salt info n, (n <= 255 * 32)%nat -> is_Some (hkdf_New s salt info n);
  hkdf_Expand_ok : forall prk info n, (n <= 255 * 32)%nat -> is_Some (hkdf_Expand prk info n)
}.

(** Key exchange: public keys and ciphertexts have their documented sizes
    and parse back; both Diffie-Hellman computations agree; decapsulation
    recovers the encapsulated secret. *)
Class KEXLaws {G} (C : Crypto G) : Prop := {
  X25519_Bytes_length : forall p, length (X25519_Bytes p) = 32%nat;
  X25519_New_Bytes : forall p, X25519_NewPublicKey (X25519_Bytes p) = Some p;
  X25519_comm : forall a b,
    X25519_ECDH a (X25519_PublicKey b) = X25519_ECDH b (X25519_PublicKey a);
  X25519_ECDH_length : forall a p s, X25519_ECDH a p = Some s -> length s = 32%nat;
  MLKEM_Bytes_length : forall p, length (MLKEM_Bytes p) = 1184%nat;
  MLKEM_New_Bytes : forall p, MLKEM_NewEncapsulationKey (MLKEM_Bytes p) = Some p;
  MLKEM_Encapsulate_length : forall p g, length (MLKEM_Encapsulate p g).1.2 = 1088%nat;
  MLKEM_correct : forall d g,
    let '(shared, ct, _) := MLKEM_Encapsulate (MLKEM_EncapsulationKey d) g in
    MLKEM_Decapsulate d ct = Some shared
}.

(** All of them. *)
Class CryptoLaws {G} (C : Crypto G) : Prop := {
  laws_aead :: AEADLaws C;
  laws_hkdf :: HKDFLaws C;
  laws_kex :: KEXLaws C
}.

(** ** A reference instance

    A small executable instance (with no security at all): it shows that the
    laws can hold together, and lets the witnesses evaluate the model. *)

Module Toy.

(** A counter-based source; it never fails. *)
Definition gen := Z.

#[global] Instance entropy : Entropy gen := fun n g =>
  (Some (to_arr n (byte_of <$> seqZ (g * 7) (Z.of_nat n))), g + 1).

#[global] Instance entropy_laws : EntropyLaws entropy.
Proof. intros n g. by eexists. Qed.

(** Additive checksum over 32 bits. *)
Definition checksum (l : bytes) : Z :=
  fold_left (fun acc b => (acc * 31 + byte_val b + 1) mod 2 ^ 32) l 5.

Definition digest (n : nat) (l : bytes) : arr n := to_arr n (be_put 4 (checksum l)).

Definition tag (k nonce p aad : bytes) : bytes :=
  arr_list (digest 16 (k ++ nonce ++ p ++ aad)).

Lemma length_tag k nonce p aad : length (tag k nonce p aad) = 16%nat.
Proof. apply arr_length. Qed.

#[local] Arguments tag : simpl never.

Definition toy_open (k nonce x aad : bytes) : option bytes :=
  let p := take (length x - 16) x in
  if decide (x = p ++ tag k nonce p aad) then Some p else None.

Definition key_mul (a b : bytes) : bytes := be_put 32 (be_get a * be_get b).

#[global] Instance crypto : Crypto gen := {
  sha256_Sum256 := digest 32;
  hmac_sha256 k m := digest 32 (k ++ m);
  hkdf_New s salt info n := Some (digest n (s ++ salt ++ info));
  hkdf_Extract s salt := arr_list (digest 32 (s ++ salt));
  hkdf_Expand prk info n := Some (digest n (prk ++ info));
  AEAD := bytes;
  chacha_New k := if decide (length k = 32%nat) then Some k else None;
  Seal k nonce p aad := p ++ tag k nonce p aad;
  Open := toy_open;
  X25519Priv := arr 32;
  X25519Pub := arr 32;
  X25519_GenerateKey := rand_read 32;
  X25519_PublicKey k := k;
  X25519_Bytes := arr_list;
  X25519_NewPublicKey l := if decide (length l = 32%nat) then Some (to_arr 32 l) else None;
  X25519_ECDH a p := Some (key_mul (arr_list a) (arr_list p));
  MLKEMPriv := arr 1184;
  MLKEMPub := arr 1184;
  MLKEM_GenerateKey := rand_read 1184;
  MLKEM_EncapsulationKey k := k;
  MLKEM_Bytes := arr_list;
  MLKEM_NewEncapsulationKey l := if decide (length l = 1184%nat) then Some (to_arr 1184 l) else None;
  MLKEM_Encapsulate p g :=
    let seed := byte_of <$> seqZ g 32 in
    ((seed, arr_list (to_arr 1088 seed)), g + 1);
  MLKEM_Decapsulate d ct := Some (take 32 ct)
}.

#[global] Instance aead_laws : AEADLaws crypto.
Proof.
  split; cbn.
  - intros key. rewrite decide_True by apply arr_length. by eexists.
  - intros. by rewrite length_app, length_tag.
  - intros c n p a. unfold toy_open. rewrite length_app, length_tag.
    rewrite take_app_length' by lia. by rewrite decide_True.
  - intros c n x a p. unfold toy_open. case_decide as E; [|done]. intros [= <-]. done.
Qed.

#[global] Instance hkdf_laws : HKDFLaws crypto.
Proof. split; cbn; by eexists. Qed.

#[global] Instance kex_laws : KEXLaws crypto.
Proof.
  split; cbn.
  - apply arr_length.
  - intros p. rewrite decide_True by apply arr_length. by rewrite to_arr_id.
  - intros a b. unfold key_mul. by rewrite Z.mul_comm.
  - intros a p s [= <-]. apply length_be_put.
  - apply arr_length.
  - intros p. rewrite decide_True by apply arr_length. by rewrite to_arr_id.
  - intros. apply arr_length.
  - intros d g. unfold to_arr. cbn [arr_list]. by rewrite take_resize_le by lia.
Qed.

#[global] Instance laws : CryptoLaws crypto.
Proof. split; apply _. Qed.

End Toy.
