(* ===== verification/Io.v ===== *)
(** * Byte readers and buffers (the parts of packages [io] and [bytes] in use)

    An [io.Reader] is the schedule of chunks its successive [Read] calls
    deliver, followed by a final error.  [ReadFull] and [CopyN] only depend
    on the concatenation of the chunks ([ReadFull_bytes]).  A [[]byte] that
    is appended to in place is a [gslice]: its contents and the stale bytes
    up to its capacity. *)

From S2P Require Import Prelude.

(** ** State and errors

    A computation that may fail and changes a state in either case. *)

Definition sbind {S A B} (m : outcome A * S) (k : A -> S -> outcome B * S) : outcome B * S :=
  match m with
  | (Ret a, s) => k a s
  | (Fail e, s) => (Fail e, s)
  | (Panic, s) => (Panic, s)
  end.

Notation "'letS' x ',' s ':=' m ';;' k" := (sbind m (fun x s => k))
  (at level 10, x binder, s binder, m at level 99, k at level 200,
   format "'letS'  x ','  s  ':='  m  ';;' '//' k") : go_scope.

(** A pure step inside a stateful computation. *)
Definition lift {S A} (m : outcome A) (s : S) : outcome A * S := (m, s).

Lemma sbind_Ret {S A B} (m : outcome A * S) (k : A -> S -> outcome B * S) b s' :
  sbind m k = (Ret b, s') <-> exists a s, m = (Ret a, s) /\ k a s = (Ret b, s').
Proof.
  split; [|by intros (a & s & -> & ?)].
  destruct m as [[a|e|] s]; cbn; [eauto|done..].
Qed.

(** ** Readers *)

Record reader := mkReader { rd_chunks : list bytes; rd_err : error }.

(** The bytes a reader will still deliver. *)
Definition rd_bytes (r : reader) : bytes := concat (rd_chunks r).

(** [bytes.NewReader(w)] *)
Definition bytes_NewReader (w : bytes) : reader := mkReader [w] EOF.

(** The loop of [io.ReadAtLeast]: keep calling [Read] until [n] bytes are
    there or the chunks are exhausted. *)
Fixpoint read_loop (cs : list bytes) (n : nat) : bytes * list bytes :=
  match n, cs with
  | O, _ => ([], cs)
  | _, [] => ([], [])
  | _, c :: cs' =>
      if (length c <=? n)%nat then
        let '(d, rest) := read_loop cs' (n - length c) in (c ++ d, rest)
      else (take n c, drop n c :: cs')
  end.

(** [io.ReadFull(r, buf)] with [len(buf) = n]. *)
Definition ReadFull (n : nat) (r : reader) : outcome bytes * reader :=
  let '(got, rest) := read_loop (rd_chunks r) n in
  let r' := mkReader rest (rd_err r) in
  if (length got =? n)%nat then (Ret got, r')
  else (Fail (if (0 <? length got)%nat && bool_decide (rd_err r = EOF)
              then ErrUnexpectedEOF else rd_err r), r').

(** [io.CopyN(io.Discard, r, n)] *)
Definition CopyN_Discard (n : nat) (r : reader) : outcome unit * reader :=
  let '(got, rest) := read_loop (rd_chunks r) n in
  let r' := mkReader rest (rd_err r) in
  if (length got =? n)%nat then (Ret tt, r') else (Fail (rd_err r), r').

Lemma read_loop_spec cs n :
  (read_loop cs n).1 = take n (concat cs) /\ concat (read_loop cs n).2 = drop n (concat cs).
Proof.
  revert n. induction cs as [|c cs IH]; intros [|n]; try done.
  cbn [read_loop concat]. destruct (Nat.leb_spec (length c) (S n)) as [Hle|Hgt].
  - destruct (IH (S n - length c)%nat) as [H1 H2].
    destruct (read_loop cs _) as [d rest]. cbn [fst snd] in *. subst d.
    rewrite take_app, drop_app_ge by done. rewrite (take_ge c) by done. done.
  - cbn [fst snd concat]. rewrite take_app_le, drop_app_le by lia. done.
Qed.

(** The outcome of a read of [n] bytes on a reader with contents [l]. *)
Lemma ReadFull_bytes n r :
  exists r', rd_bytes r' = drop n (rd_bytes r) /\ rd_err r' = rd_err r /\
    ReadFull n r =
      (if (n <=? length (rd_bytes r))%nat then Ret (take n (rd_bytes r))
       else Fail (if (0 <? length (rd_bytes r))%nat && bool_decide (rd_err r = EOF)
                  then ErrUnexpectedEOF else rd_err r), r').
Proof.
  unfold ReadFull, rd_bytes. destruct (read_loop_spec (rd_chunks r) n) as [H1 H2].
  destruct (read_loop (rd_chunks r) n) as [got rest]. cbn [fst snd] in *.
  exists (mkReader rest (rd_err r)). split_and!; [done|done|]. rewrite H1, length_take.
  destruct (Nat.leb_spec n (length (concat (rd_chunks r)))) as [Hle|Hgt].
  - rewrite (proj2 (Nat.eqb_eq _ _)) by lia. done.
  - rewrite (proj2 (Nat.eqb_neq _ _)) by lia. by rewrite Nat.min_r by lia.
Qed.

Lemma CopyN_bytes n r :
  exists r', rd_bytes r' = drop n (rd_bytes r) /\ rd_err r' = rd_err r /\
    CopyN_Discard n r =
      (if (n <=? length (rd_bytes r))%nat then Ret tt else Fail (rd_err r), r').
Proof.
  unfold CopyN_Discard, rd_bytes. destruct (read_loop_spec (rd_chunks r) n) as [H1 H2].
  destruct (read_loop (rd_chunks r) n) as [got rest]. cbn [fst snd] in *.
  exists (mkReader rest (rd_err r)). split_and!; [done|done|]. rewrite H1, length_take.
  destruct (Nat.leb_spec n (length (concat (rd_chunks r)))) as [Hle|Hgt].
  - rewrite (proj2 (Nat.eqb_eq _ _)) by lia. done.
  - rewrite (proj2 (Nat.eqb_neq _ _)) by lia. done.
Qed.

(** The same by cases, for a window given in [Z]. *)
Lemma ReadFull_cases n r :
  0 <= n ->
  (n <= len (rd_bytes r) /\ exists r', rd_bytes r' = sub (rd_bytes r) n (len (rd_bytes r)) /\
     rd_err r' = rd_err r /\ ReadFull (Z.to_nat n) r = (Ret (sub (rd_bytes r) 0 n), r')) \/
  (len (rd_bytes r) < n /\ exists r', ReadFull (Z.to_nat n) r =
     (Fail (if (0 <? len (rd_bytes r)) && bool_decide (rd_err r = EOF)
            then ErrUnexpectedEOF else rd_err r), r')).
Proof.
  intros Hn. destruct (ReadFull_bytes (Z.to_nat n) r) as (r' & Hb & He & ->).
  destruct (Nat.leb_spec (Z.to_nat n) (length (rd_bytes r))); [left|right]; (split; [lia|]).
  - exists r'. rewrite Hb. unfold sub. split_and!; [|done|].
    + rewrite take_ge; [done|]. rewrite length_drop. lia.
    + rewrite drop_0. by rewrite Z.sub_0_r.
  - exists r'. do 2 f_equal.
    destruct (Nat.ltb_spec 0 (length (rd_bytes r))), (Z.ltb_spec 0 (len (rd_bytes r))); (done || lia).
Qed.

Lemma CopyN_cases n r :
  0 <= n ->
  (n <= len (rd_bytes r) /\ exists r', rd_bytes r' = sub (rd_bytes r) n (len (rd_bytes r)) /\
     rd_err r' = rd_err r /\ CopyN_Discard (Z.to_nat n) r = (Ret tt, r')) \/
  (len (rd_bytes r) < n /\ exists r', CopyN_Discard (Z.to_nat n) r = (Fail (rd_err r), r')).
Proof.
  intros Hn. destruct (CopyN_bytes (Z.to_nat n) r) as (r' & Hb & He & ->).
  destruct (Nat.leb_spec (Z.to_nat n) (length (rd_bytes r))); [left|right]; (split; [lia|]);
    exists r'; [|done].
  rewrite Hb. unfold sub. split_and!; [|done|done]. rewrite take_ge; [done|]. rewrite length_drop. lia.
Qed.

Lemma rd_bytes_NewReader w : rd_bytes (bytes_NewReader w) = w.
Proof. apply app_nil_r. Qed.

(** ** Buffers *)

Record gslice := mkSlice { gs_data : bytes; gs_spare : bytes }.

(** [cap(s)] *)
Definition gs_cap (s : gslice) : Z := len (gs_data s) + len (gs_spare s).

(** The largest object the Go runtime allocates: 2^48 bytes on 64-bit Linux,
    macOS and Windows.  Below it an allocation succeeds here; running out of
    memory ends the process and is not modelled. *)
Definition maxAlloc : Z := 2 ^ 48.

(** No slice of a running program is longer: the same address space also holds
    the program itself. *)
Definition maxSlice : Z := maxAlloc - 2 ^ 16.

(** [make([]byte, 0, n)] *)
Definition make_cap (n : Z) : outcome gslice :=
  if (n <? 0) || (maxAlloc <? n) then Panic else Ret (mkSlice [] (replicate (Z.to_nat n) Byte.x00)).

(** [s[:n]] for [n <= len(s)]: the rest joins the spare capacity. *)
Definition gs_take (s : gslice) (n : Z) : gslice :=
  mkSlice (sub (gs_data s) 0 n) (sub (gs_data s) n (len (gs_data s)) ++ gs_spare s).

(** Overwriting part of a buffer: [copy(buf[off:], data)] when all of [data]
    fits, which panics when [off] is out of range. *)
Definition splice (buf : bytes) (off : Z) (data : bytes) : bytes :=
  sub buf 0 off ++ data ++ sub buf (off + len data) (len buf).

(** [binary.BigEndian.PutUintN(buf[off:off+n], v)] and [buf[off] = b]. *)
Definition buf_put (buf : bytes) (off : Z) (data : bytes) : outcome bytes :=
  if (0 <=? off) && (off + len data <=? len buf) then Ret (splice buf off data) else Panic.

(** [copy(buf[off:], data)] *)
Definition buf_copy (buf : bytes) (off : Z) (data : bytes) : outcome bytes :=
  if (0 <=? off) && (off <=? len buf)
  then Ret (splice buf off (sub data 0 (Z.min (len data) (len buf - off))))
  else Panic.

Lemma buf_put_ok buf off data :
  0 <= off -> off + len data <= len buf -> buf_put buf off data = Ret (splice buf off data).
Proof. intros. unfold buf_put. by zif. Qed.

Lemma buf_copy_ok buf off data :
  0 <= off -> off + len data <= len buf -> buf_copy buf off data = Ret (splice buf off data).
Proof. intros. unfold buf_copy. zif. by rewrite Z.min_l, sub_all by lia. Qed.

Lemma length_splice buf off data :
  0 <= off -> off + len data <= len buf -> length (splice buf off data) = length buf.
Proof. intros. unfold splice. autorewrite with len. lia. Qed.

(** Writing right after a written prefix [p] extends it and shrinks the
    unwritten rest [t]. *)
Lemma splice_app p t off data :
  off = len p -> len data <= len t ->
  splice (p ++ t) off data = (p ++ data) ++ sub t (len data) (len t).
Proof.
  intros -> H. unfold splice. rewrite length_app, <-app_assoc.
  rewrite sub_app_l, sub_all by lia. rewrite sub_app_r by lia. do 2 f_equal.
  f_equal; lia.
Qed.

(** The same for a window of an initial buffer [l]: consecutive writes keep
    the form "what was written, then the rest of [l]". *)
Lemma splice_sub p l a off data :
  off = len p -> 0 <= a -> a + len data <= len l ->
  splice (p ++ sub l a (len l)) off data = (p ++ data) ++ sub l (a + len data) (len l).
Proof.
  intros -> ??. rewrite splice_app by llia. f_equal. rewrite length_sub by lia.
  rewrite sub_sub by lia. f_equal. lia.
Qed.

Lemma buf_put_sub p l a off data :
  off = len p -> 0 <= a -> a + len data <= len l ->
  buf_put (p ++ sub l a (len l)) off data = Ret ((p ++ data) ++ sub l (a + len data) (len l)).
Proof. intros. rewrite buf_put_ok by llia. by rewrite splice_sub. Qed.

Lemma buf_copy_sub p l a off data :
  off = len p -> 0 <= a -> a + len data <= len l ->
  buf_copy (p ++ sub l a (len l)) off data = Ret ((p ++ data) ++ sub l (a + len data) (len l)).
Proof. intros. rewrite buf_copy_ok by llia. by rewrite splice_sub. Qed.

#[export] Hint Rewrite length_splice using llia : len.
