(* ===== verification/Kdf.v ===== *)
(** * Key derivation (src/kdf.go, src/aead.go)

    The protocol constants, the outer MAC and the derivation of the handshake
    and session keys, over the primitives of [Crypto]. *)

From S2P Require Import Prelude Crypto.

(** ** Constants *)

Abbreviation AEADKeyLen := (32%nat).
Abbreviation AEADNonceLen := (12%nat).
Abbreviation NoncePrefixLen := (4%nat).
Abbreviation CounterLen := (8%nat).
Abbreviation MagicLen := (0%nat).
Abbreviation HandshakeNonce := (12%nat).
Abbreviation X25519PubLen := (32%nat).
Abbreviation MLKEM768PubLen := (1184%nat).
Abbreviation MLKEM768CipherL := (1088%nat).
Abbreviation OuterMACLen := (16%nat).
Definition MinHandshakePad : Z := 64.
Definition MaxHandshakePad : Z := 1024.
Definition MaxFramePad : Z := 4096.
Definition MaxFrameSize : Z := 65536.
Definition MaxMetaLen : Z := 1024.
Abbreviation UUIDLen := (16%nat).
Definition HandshakeTimestampWindow : Z := 120.

(** A Go string constant as bytes. *)
Definition str (s : string) : bytes := String.list_byte_of_string s.

Definition infoHandshakeAEAD : bytes := str "EWPv2 handshake aead".
Definition infoSaltPrefix : bytes := str "EWPv2-salt".
Definition infoC2SKey : bytes := str "EWPv2 c2s key".
Definition infoS2CKey : bytes := str "EWPv2 s2c key".
Definition infoC2SNonce : bytes := str "EWPv2 c2s nonce".
Definition infoS2CNonce : bytes := str "EWPv2 s2c nonce".

(** [SessionKeys]: the per-direction keys and nonce prefixes. *)
Record SessionKeys := mkSessionKeys {
  C2SKey : arr AEADKeyLen;
  S2CKey : arr AEADKeyLen;
  C2SNonce : arr NoncePrefixLen;
  S2CNonce : arr NoncePrefixLen
}.

#[global] Instance SessionKeys_eq_dec : EqDecision SessionKeys.
Proof. solve_decision. Defined.

(** [if err != nil { panic(...) }] *)
Definition panic_on_err {A} (m : outcome A) : outcome A :=
  match m with Fail _ => Panic | _ => m end.

Definition ErrShortKDF : error := ErrText "ewp/v2: HKDF short read".

(** The error HKDF reports when asked for too much output. *)
Definition ErrHKDFLimit : error := ErrText "hkdf: entropy limit reached".

Section Kdf.
Context {G : Type} {C : Crypto G}.

Definition uuidPSK (uuid : arr UUIDLen) : arr 32 := sha256_Sum256 (arr_list uuid).

Definition HandshakeAEADKey (uuid : arr UUIDLen) (nonce : arr HandshakeNonce)
  : outcome (arr AEADKeyLen) :=
  let psk := uuidPSK uuid in
  panic_on_err
    (or_fail ErrHKDFLimit
       (hkdf_New (arr_list psk) (arr_list nonce) infoHandshakeAEAD AEADKeyLen)).

Definition OuterMAC (uuid : arr UUIDLen) (msg : bytes) : arr OuterMACLen :=
  let psk := uuidPSK uuid in
  let sum := hmac_sha256 (arr_list psk) msg in
  to_arr OuterMACLen (sub (arr_list sum) 0 (Z.of_nat OuterMACLen)).

(** [hmac.Equal] compares the contents (in constant time). *)
Definition VerifyOuterMAC (uuid : arr UUIDLen) (msg : bytes) (tag : arr OuterMACLen) : bool :=
  let want := OuterMAC uuid msg in
  bool_decide (arr_list want = arr_list tag).

(** [io.ReadFull] on an HKDF reader: the number of bytes read, the error, and
    the buffer. *)
Definition hkdf_ReadFull (n : nat) (r : option (arr n)) : Z * option error * arr n :=
  match r with
  | Some out => (Z.of_nat n, None, out)
  | None => (0, Some ErrHKDFLimit, zero_arr n)
  end.

Definition expand (prk info : bytes) (out : nat) : outcome (arr out) :=
  let r := hkdf_Expand prk info out in
  let '(n, err, buf) := hkdf_ReadFull out r in
  if bool_decide (err <> None) || negb (n =? Z.of_nat out)
  then Fail (match err with None => ErrShortKDF | Some e => e end)
  else Ret buf.

Definition DeriveSessionKeys (x25519Shared : arr X25519PubLen) (mlkemShared : bytes)
  (clientNonce serverNonceEcho : arr HandshakeNonce) : outcome SessionKeys :=
  let ikm := arr_list x25519Shared ++ mlkemShared in
  let salt := infoSaltPrefix ++ arr_list clientNonce ++ arr_list serverNonceEcho in
  let prk := hkdf_Extract ikm salt in
  c2sKey ← panic_on_err (expand prk infoC2SKey AEADKeyLen);
  s2cKey ← panic_on_err (expand prk infoS2CKey AEADKeyLen);
  c2sNonce ← panic_on_err (expand prk infoC2SNonce NoncePrefixLen);
  s2cNonce ← panic_on_err (expand prk infoS2CNonce NoncePrefixLen);
  Ret (mkSessionKeys c2sKey s2cKey c2sNonce s2cNonce).

(** Where the two keys come from. *)
Lemma expand_Ret prk info n k : expand prk info n = Ret k -> hkdf_Expand prk info n = Some k.
Proof.
  unfold expand. destruct (hkdf_Expand prk info n) as [out|]; cbn [hkdf_ReadFull]; [|done].
  rewrite Z.eqb_refl. by intros [= ->].
Qed.

Lemma DeriveSessionKeys_Ret x m cn sn keys :
  DeriveSessionKeys x m cn sn = Ret keys ->
  let prk := hkdf_Extract (arr_list x ++ m) (infoSaltPrefix ++ arr_list cn ++ arr_list sn) in
  hkdf_Expand prk infoC2SKey AEADKeyLen = Some (C2SKey keys) /\
  hkdf_Expand prk infoS2CKey AEADKeyLen = Some (S2CKey keys).
Proof.
  unfold DeriveSessionKeys. cbn zeta. set (prk := hkdf_Extract _ _).
  destruct (expand prk infoC2SKey AEADKeyLen) as [k1|e|] eqn:H1; [|done..].
  destruct (expand prk infoS2CKey AEADKeyLen) as [k2|e|] eqn:H2; [|done..].
  destruct (expand prk infoC2SNonce NoncePrefixLen) as [k3|e|]; [|done..].
  destruct (expand prk infoS2CNonce NoncePrefixLen) as [k4|e|]; [|done..].
  intros [= <-]. cbn. split; by apply expand_Ret.
Qed.

(** [newChaChaAEAD] and [newHandshakeAEAD] (aead.go, handshake.go). *)
Definition ErrKeyLength : error := ErrText "chacha20poly1305: bad key length".

Definition newChaChaAEAD (key : arr AEADKeyLen) : outcome AEAD :=
  or_fail ErrKeyLength (chacha_New (arr_list key)).

Lemma VerifyOuterMAC_spec uuid msg tag :
  VerifyOuterMAC uuid msg tag = true <-> tag = OuterMAC uuid msg.
Proof.
  unfold VerifyOuterMAC. rewrite bool_decide_eq_true, arr_list_inj. by split.
Qed.

(** ** Totality: within the byte budgets used, no derivation fails. *)
Section Laws.
Context `{!HKDFLaws C}.

Lemma HandshakeAEADKey_ok uuid nonce : exists k, HandshakeAEADKey uuid nonce = Ret k.
Proof.
  unfold HandshakeAEADKey.
  destruct (hkdf_New_ok (arr_list (uuidPSK uuid)) (arr_list nonce) infoHandshakeAEAD AEADKeyLen)
    as [k ->]; [lia|]. by exists k.
Qed.

Lemma expand_ok prk info n : (n <= 255 * 32)%nat -> exists k, expand prk info n = Ret k.
Proof.
  intros H. destruct (hkdf_Expand_ok prk info n H) as [k Hk]. exists k. unfold expand. rewrite Hk.
  cbn [hkdf_ReadFull]. by rewrite Z.eqb_refl.
Qed.

Lemma DeriveSessionKeys_ok x m cn sn : exists k, DeriveSessionKeys x m cn sn = Ret k.
Proof.
  unfold DeriveSessionKeys. set (prk := hkdf_Extract _ _).
  destruct (expand_ok prk infoC2SKey AEADKeyLen) as [k1 ->]; [lia|].
  destruct (expand_ok prk infoS2CKey AEADKeyLen) as [k2 ->]; [lia|].
  destruct (expand_ok prk infoC2SNonce NoncePrefixLen) as [k3 ->]; [lia|].
  destruct (expand_ok prk infoS2CNonce NoncePrefixLen) as [k4 ->]; [lia|].
  by eexists.
Qed.
End Laws.

Lemma newChaChaAEAD_ok `{!AEADLaws C} key :
  exists c, chacha_New (arr_list key) = Some c /\ newChaChaAEAD key = Ret c.
Proof.
  unfold newChaChaAEAD. destruct (chacha_New_32 key) as [c E]. exists c. by rewrite E.
Qed.
End Kdf.
