(* ===== verification/Padding.v ===== *)
(** * Padding policy (src/padding_policy.go; [SuggestPadLen] of src/frame.go)

    The random draws and the choice of a pad length.  Each function takes
    and returns the state of the randomness source. *)

From S2P Require Import Prelude Crypto Kdf.

(** ** Constants *)

Definition steadyBuckets : list Z := [256; 512; 1024; 1500; 2048; 4096; 8192; 12288; 16384].
Definition handshakeBuckets : list Z := [1500; 4096; 8192; 16384].
Definition handshakePhaseFrames : Z := 16.
Definition bucketUpProbBP : Z := 4500.

(** [maxWire] of [padToBucket]. *)
Definition maxWire : Z := MaxFrameSize - 4.

(** The search loop of [padToBucket]: the index of the first bucket that is
    at least [raw], or [-1]. *)
Fixpoint find_bucket (i : Z) (ladder : list Z) (raw : Z) : Z :=
  match ladder with
  | [] => -1
  | b :: rest => if raw <=? b then i else find_bucket (i + 1) rest raw
  end.

(** [ladder[i]], which panics out of range. *)
Definition ladder_at (ladder : list Z) (i : Z) : outcome Z :=
  if 0 <=? i then must (ladder !! Z.to_nat i) else Panic.

(** The common tail of [padToBucket]: clamp a target size to a pad. *)
Definition clamp_pad (raw target : Z) : Z :=
  let pad := target - raw in
  let pad := if pad <? 0 then 0 else pad in
  let pad := if MaxFramePad <? pad then MaxFramePad else pad in
  if maxWire <? raw + pad then
    let pad := maxWire - raw in
    if pad <? 0 then 0 else pad
  else pad.

#[global] Arguments clamp_pad : simpl never.

Section Padding.
Context {G : Type} `{!Entropy G}.

Definition secureRandIntn (n : Z) (g : G) : Z * G :=
  if n <=? 1 then (0, g) else
  let '(b, g) := rand_read 4 g in
  match b with
  | None => (0, g)
  | Some b =>
      let r := Z.land (be_get (arr_list b)) 0x7fffffff in
      (Z.rem r n, g)
  end.

Definition SuggestPadLen (minPad maxPad : Z) (g : G) : Z * G :=
  let minPad := if minPad <? 0 then 0 else minPad in
  let maxPad := if MaxFramePad <? maxPad then MaxFramePad else maxPad in
  if maxPad <=? minPad then (minPad, g) else
  let span := maxPad - minPad + 1 in
  let '(b, g) := rand_read 4 g in
  match b with
  | None => (minPad, g)
  | Some b =>
      let r := Z.land (be_get (arr_list b)) 0x7fffffff in
      (minPad + Z.rem r span, g)
  end.

Definition padToBucket (rawWireLen : Z) (ladder : list Z) (g : G) : outcome Z * G :=
  let idx := find_bucket 0 ladder rawWireLen in
  if idx =? -1 then
    let t := Z.quot (rawWireLen + 1023) 1024 * 1024 in
    if maxWire <? t then (Ret 0, g) else (Ret (clamp_pad rawWireLen t), g)
  else
    let '(up, g) :=
      if idx + 1 <? len ladder then
        let '(r, g) := secureRandIntn 10000 g in (r <? bucketUpProbBP, g)
      else (false, g) in
    let target := if up then ladder_at ladder (idx + 1) else ladder_at ladder idx in
    (t ← target; Ret (clamp_pad rawWireLen t), g).

Definition suggestStreamPad (rawWireLen phaseFrameIndex : Z) (g : G) : outcome Z * G :=
  let ladder := steadyBuckets in
  let ladder := if phaseFrameIndex <? handshakePhaseFrames then handshakeBuckets else ladder in
  padToBucket rawWireLen ladder g.
End Padding.
#[global] Arguments secureRandIntn : simpl never.

(** ** Lemmas *)

Lemma find_bucket_spec i ladder raw :
  0 <= i ->
  (find_bucket i ladder raw = -1 /\ Forall (fun b => b < raw) ladder) \/
  (exists k b, find_bucket i ladder raw = i + Z.of_nat k /\ ladder !! k = Some b /\ raw <= b /\
     Forall (fun c => c < raw) (take k ladder)).
Proof.
  revert i. induction ladder as [|b l IH]; intros i Hi; cbn [find_bucket]; [by left; auto|].
  destruct (Z.leb_spec raw b).
  - right. exists O, b. rewrite Z.add_0_r. auto.
  - destruct (IH (i + 1)) as [[-> Hall]|(k & c & -> & Hk & Hc & Hall)]; [lia| |].
    + left. auto.
    + right. exists (S k), c. cbn. split_and!; [lia|done|done|by constructor].
Qed.

Lemma ladder_at_nat ladder k b : ladder !! k = Some b -> ladder_at ladder (Z.of_nat k) = Ret b.
Proof.
  intros H. unfold ladder_at. rewrite (proj2 (Z.leb_le 0 _)) by lia.
  by rewrite Nat2Z.id, H.
Qed.

(** The clamp, by cases. *)
Lemma clamp_pad_spec raw target :
  0 <= clamp_pad raw target <= MaxFramePad /\
  (raw <= maxWire -> raw + clamp_pad raw target <= maxWire) /\
  (raw <= target <= maxWire -> clamp_pad raw target = Z.min (target - raw) MaxFramePad).
Proof.
  unfold clamp_pad, MaxFramePad, maxWire, MaxFrameSize. cbv zeta.
  destruct (Z.ltb_spec (target - raw) 0), (Z.ltb_spec 4096 (target - raw)); zif;
    repeat zcase_1; lia.
Qed.

Section PaddingLemmas.
Context {G : Type} `{!Entropy G}.

(** A 31-bit draw reduced modulo [n]. *)
Lemma land_31_bits z : 0 <= Z.land z 0x7fffffff < 2 ^ 31.
Proof.
  change 0x7fffffff with (Z.ones 31). rewrite Z.land_ones by lia. apply Z.mod_pos_bound. lia.
Qed.

Lemma secureRandIntn_bounds n (g : G) :
  0 <= (secureRandIntn n g).1 < Z.max 1 n /\ (secureRandIntn n g).1 < 2 ^ 31.
Proof.
  unfold secureRandIntn. destruct (Z.leb_spec n 1); [cbn; lia|].
  destruct (rand_read 4 g) as [[b|] g']; cbn; [|lia].
  pose proof (land_31_bits (be_get b)) as Hr.
  pose proof (Z.rem_bound_pos (Z.land (be_get b) 0x7fffffff) n ltac:(lia) ltac:(lia)).
  pose proof (Z.rem_le (Z.land (be_get b) 0x7fffffff) n ltac:(lia) ltac:(lia)). lia.
Qed.

Lemma SuggestPadLen_bounds minPad maxPad (g : G) :
  0 <= minPad <= maxPad -> maxPad <= MaxFramePad ->
  minPad <= (SuggestPadLen minPad maxPad g).1 <= maxPad.
Proof.
  intros ??. unfold SuggestPadLen. zif. destruct (Z.leb_spec maxPad minPad); [cbn; lia|].
  destruct (rand_read 4 g) as [[b|] g']; cbn [fst]; [|lia].
  pose proof (land_31_bits (be_get b)).
  pose proof (Z.rem_bound_pos (Z.land (be_get b) 0x7fffffff) (maxPad - minPad + 1)). lia.
Qed.

(** The bucket [padToBucket] aims at: the smallest that fits, or the next. *)
Definition aims_at (ladder : list Z) (raw target : Z) : Prop :=
  exists k b, ladder !! k = Some b /\ raw <= b /\ Forall (fun c => c < raw) (take k ladder) /\
    (target = b \/ ladder !! S k = Some target).

Lemma padToBucket_cases raw ladder (g : G) :
  (Forall (fun b => b < raw) ladder /\
     let t := Z.quot (raw + 1023) 1024 * 1024 in
     (padToBucket raw ladder g).1 = Ret (if maxWire <? t then 0 else clamp_pad raw t)) \/
  (exists target, aims_at ladder raw target /\
     (padToBucket raw ladder g).1 = Ret (clamp_pad raw target)).
Proof.
  unfold padToBucket.
  destruct (find_bucket_spec 0 ladder raw) as [[-> Hall]|(k & b & -> & Hk & Hb & Hall)]; [lia| |].
  - left. split; [done|]. cbn. by destruct (_ <? _).
  - right. rewrite Z.add_0_l. rewrite (proj2 (Z.eqb_neq _ _)) by lia.
    destruct (Z.ltb_spec (Z.of_nat k + 1) (len ladder)) as [Hlt|Hge].
    + destruct (secureRandIntn 10000 g) as [r g']. cbn [fst].
      destruct (lookup_lt_is_Some_2 ladder (S k)) as [b' Hb']; [lia|].
      exists (if r <? bucketUpProbBP then b' else b). split.
      { exists k, b. destruct (_ <? _); eauto. }
      replace (Z.of_nat k + 1) with (Z.of_nat (S k)) by lia.
      rewrite (ladder_at_nat _ _ _ Hk), (ladder_at_nat _ _ _ Hb'). by destruct (_ <? _).
    + exists b. split; [exists k, b; eauto|]. cbn [fst].
      by rewrite (ladder_at_nat _ _ _ Hk).
Qed.

Lemma padToBucket_bounds raw ladder (g : G) :
  exists pad, (padToBucket raw ladder g).1 = Ret pad /\ 0 <= pad <= MaxFramePad /\
    (raw <= maxWire -> raw + pad <= maxWire).
Proof.
  destruct (padToBucket_cases raw ladder g) as [[_ ->]|(t & _ & ->)].
  - eexists; split; [done|]. zcase_1; [unfold MaxFramePad; lia|].
    pose proof (clamp_pad_spec raw (Z.quot (raw + 1023) 1024 * 1024)). naive_solver.
  - eexists; split; [done|]. pose proof (clamp_pad_spec raw t). naive_solver.
Qed.

(** Above the largest possible bucket there is no padding. *)
Lemma suggestStreamPad_oversize raw phase (g : G) :
  maxWire < raw -> suggestStreamPad raw phase g = (Ret 0, g).
Proof.
  unfold suggestStreamPad, padToBucket, maxWire, MaxFrameSize. intros Hraw.
  assert (Hi : find_bucket 0 (if phase <? handshakePhaseFrames then handshakeBuckets else steadyBuckets) raw = -1).
  { destruct (_ <? _); unfold handshakeBuckets, steadyBuckets; cbn [find_bucket]; by zif. }
  rewrite Hi. cbn [Z.eqb Pos.eqb].
  assert (Hq : 64 <= Z.quot (raw + 1023) 1024).
  { rewrite Z.quot_div_nonneg by lia. apply Z.div_le_lower_bound; lia. }
  by rewrite (proj2 (Z.ltb_lt _ _)) by lia.
Qed.

(** No frame within the transport limit is grown beyond it. *)
Lemma suggestStreamPad_fits raw phase (g : G) :
  raw <= MaxFrameSize ->
  exists pad, (suggestStreamPad raw phase g).1 = Ret pad /\ 0 <= pad <= MaxFramePad /\
    raw + pad <= MaxFrameSize.
Proof.
  intros Hraw. destruct (Z.le_gt_cases raw maxWire) as [Hle|Hgt].
  - destruct (padToBucket_bounds raw (if phase <? handshakePhaseFrames then handshakeBuckets else steadyBuckets) g)
      as (pad & Hp & Hb & Hf). exists pad. split; [done|]. split; [done|]. specialize (Hf Hle).
    unfold maxWire in Hf. lia.
  - rewrite suggestStreamPad_oversize by lia. exists 0. unfold MaxFramePad. split; [done|]. lia.
Qed.

Lemma suggestStreamPad_bounds raw phase (g : G) :
  exists pad, (suggestStreamPad raw phase g).1 = Ret pad /\ 0 <= pad <= MaxFramePad /\
    (raw <= maxWire -> raw + pad <= maxWire).
Proof. apply padToBucket_bounds. Qed.
End PaddingLemmas.

(** Both ladders are strictly increasing and stay below the frame limit. *)
Definition ladder_ok (ladder : list Z) : Prop :=
  Forall (fun b => 0 < b <= maxWire) ladder /\
  (forall k b b', ladder !! k = Some b -> ladder !! S k = Some b' -> b < b').

Lemma ladders_ok phase :
  ladder_ok (if phase <? handshakePhaseFrames then handshakeBuckets else steadyBuckets).
Proof.
  destruct (_ <? _); (split; [repeat constructor; vm_compute; congruence|]);
    intros k b b'; do 10 (destruct k as [|k]; [cbn; naive_solver lia|]); done.
Qed.

Lemma aims_at_ge ladder raw target :
  ladder_ok ladder -> aims_at ladder raw target -> target ∈ ladder /\ raw <= target <= maxWire.
Proof.
  intros [Hf Hs] (k & b & Hk & Hb & _ & [->|Hk']).
  - assert (b ∈ ladder) by (apply list_elem_of_lookup; eauto).
    rewrite Forall_forall in Hf. naive_solver.
  - assert (target ∈ ladder) by (apply list_elem_of_lookup; eauto).
    rewrite Forall_forall in Hf. pose proof (Hs _ _ _ Hk Hk'). pose proof (Hf target). naive_solver lia.
Qed.

(** ** Properties *)

Section PaddingProperties.
Context {G : Type} `{!Entropy G}.

(** [secureRandIntn(n)] is a value of [[0, n)] (0 for [n <= 1]) for
    every [n] and every behaviour of the randomness source, its failure
    included; whatever [n], it never exceeds 31 bits. *)
Theorem secureRandIntn_range n (g : G) :
  0 <= (secureRandIntn n g).1 < Z.max 1 n /\ (secureRandIntn n g).1 < 2 ^ 31.
Proof. apply secureRandIntn_bounds. Qed.

(** [SuggestPadLen] draws from the interval it is asked for: for
    [0 <= min <= max <= MaxFramePad] the result is in [[min, max]]. *)
Theorem SuggestPadLen_range minPad maxPad (g : G) :
  0 <= minPad <= maxPad -> maxPad <= MaxFramePad ->
  minPad <= (SuggestPadLen minPad maxPad g).1 <= maxPad.
Proof. apply SuggestPadLen_bounds. Qed.

(** the lower bound of [SuggestPadLen] is not clamped to the protocol
    maximum (its comment says both bounds are): for [minPad > MaxFramePad]
    the result is [minPad], a pad length every encoder rejects. *)
Theorem SuggestPadLen_min_not_clamped minPad maxPad (g : G) :
  MaxFramePad < minPad -> (SuggestPadLen minPad maxPad g).1 = minPad.
Proof.
  intros. unfold SuggestPadLen, MaxFramePad in *. zif.
  destruct (Z.ltb_spec 4096 maxPad); by zif.
Qed.

(** the stream padding policy never panics (its ladder accesses are in
    range), never asks for more than [MaxFramePad] bytes of padding, and
    never grows a frame that fits under [maxWire] beyond it. *)
Theorem suggestStreamPad_safe raw phase (g : G) :
  exists pad, (suggestStreamPad raw phase g).1 = Ret pad /\ 0 <= pad <= MaxFramePad /\
    (raw <= maxWire -> raw + pad <= maxWire).
Proof. apply suggestStreamPad_bounds. Qed.

(** what the policy achieves for frames up to the top bucket: the pad
    aims at a bucket of the current ladder that fits the frame, the
    smallest one or its successor, and reaches it exactly unless the
    [MaxFramePad] clamp cuts it short. *)
Theorem suggestStreamPad_bucket raw phase (g : G) :
  raw <= 16384 ->
  let ladder := if phase <? handshakePhaseFrames then handshakeBuckets else steadyBuckets in
  exists target, aims_at ladder raw target /\ target ∈ ladder /\ raw <= target /\
    (suggestStreamPad raw phase g).1 = Ret (Z.min (target - raw) MaxFramePad).
Proof.
  intros Hraw ladder. unfold suggestStreamPad. fold ladder.
  pose proof (ladders_ok phase : ladder_ok ladder) as Hok.
  destruct (padToBucket_cases raw ladder g) as [[Hall _]|(t & Ht & ->)].
  - exfalso. assert (Hin : 16384 ∈ ladder)
      by (unfold ladder; destruct (_ <? _); apply (bool_decide_unpack _); vm_compute; exact I).
    rewrite Forall_forall in Hall. pose proof (Hall _ Hin). lia.
  - destruct (aims_at_ge _ _ _ Hok Ht) as (Hin & Hle & Hmax). exists t.
    destruct (clamp_pad_spec raw t) as (_ & _ & ->); [done|lia].
Qed.

(** the clamp defeats the bucketing: in the steady phase, every frame
    of 2049 to 4095 bytes whose draw selects the next bucket is padded by
    exactly [MaxFramePad], so its wire size is in no bucket and reveals the
    unpadded size (the policy's comment: every wire frame is padded so its
    total size lands in a fixed bucket). *)
Theorem suggestStreamPad_misses_bucket raw phase (g : G) :
  2048 < raw < 4096 -> handshakePhaseFrames <= phase ->
  (secureRandIntn 10000 g).1 < bucketUpProbBP ->
  (suggestStreamPad raw phase g).1 = Ret MaxFramePad /\ raw + MaxFramePad ∉ steadyBuckets.
Proof.
  intros Hraw Hphase Hup. unfold suggestStreamPad. rewrite (proj2 (Z.ltb_ge _ _)) by done.
  unfold padToBucket. cbn [find_bucket steadyBuckets]. zif. cbn.
  destruct (secureRandIntn 10000 g) as [r g']. cbn in *. unfold bucketUpProbBP in *. zif.
  change (ladder_at steadyBuckets (0 + 1 + 1 + 1 + 1 + 1 + 1)) with (Ret 8192).
  cbn [mbind outcome_bind fst]. split.
  - destruct (clamp_pad_spec raw 8192) as (_ & _ & ->);
      [unfold MaxFramePad; f_equal; lia|unfold maxWire, MaxFrameSize; lia].
  - unfold steadyBuckets, MaxFramePad. rewrite !elem_of_cons, elem_of_nil. lia.
Qed.
End PaddingProperties.

Lemma SuggestPadLen_range_witness :
  64 <= (SuggestPadLen MinHandshakePad MaxHandshakePad (5 : Toy.gen)).1 <= 1024.
Proof. apply SuggestPadLen_range; vm_compute; [split|]; congruence. Defined.

Lemma SuggestPadLen_min_not_clamped_witness :
  (SuggestPadLen 5000 6000 (5 : Toy.gen)).1 = 5000.
Proof. apply SuggestPadLen_min_not_clamped. reflexivity. Defined.

Lemma suggestStreamPad_bucket_witness :
  exists target, aims_at steadyBuckets 700 target /\ target ∈ steadyBuckets /\ 700 <= target /\
    (suggestStreamPad 700 20 (5 : Toy.gen)).1 = Ret (Z.min (target - 700) MaxFramePad).
Proof. apply (suggestStreamPad_bucket 700 20 (5 : Toy.gen)). vm_compute. congruence. Defined.

Lemma suggestStreamPad_safe_witness :
  exists pad, (suggestStreamPad 700 20 (5 : Toy.gen)).1 = Ret pad /\ 0 <= pad <= MaxFramePad /\
    (700 <= maxWire -> 700 + pad <= maxWire).
Proof. apply suggestStreamPad_safe. Defined.

Lemma suggestStreamPad_misses_bucket_witness :
  (suggestStreamPad 3000 16 (5 : Toy.gen)).1 = Ret MaxFramePad /\ 3000 + MaxFramePad ∉ steadyBuckets.
Proof. apply suggestStreamPad_misses_bucket; vm_compute; [split|..]; congruence. Defined.
