(* ===== verification/Frame.v ===== *)
(** * Frames (src/frame.go)

    The per-direction AEAD context, the in-place frame encoder and the frame
    decoder.  [SuggestPadLen] is in file Padding. *)

From S2P Require Import Prelude Crypto Io Kdf.

(** ** Frame types *)

(** [type FrameType byte] and its constants. *)
Abbreviation FrameType := byte.
Definition FrameTCPData : FrameType := Byte.x01.
Definition FrameUDPData : FrameType := Byte.x02.
Definition FrameUDPNew : FrameType := Byte.x03.
Definition FrameUDPEnd : FrameType := Byte.x04.
Definition FrameUDPProbeReq : FrameType := Byte.x05.
Definition FrameUDPProbeResp : FrameType := Byte.x06.
Definition FramePing : FrameType := Byte.x10.
Definition FramePong : FrameType := Byte.x11.
Definition FrameRekeyReq : FrameType := Byte.x12.
Definition FrameRekeyResp : FrameType := Byte.x13.
Definition FramePaddingOnly : FrameType := Byte.x20.

Definition Valid (t : FrameType) : bool :=
  bool_decide (t ∈ [FrameTCPData; FrameUDPData; FrameUDPNew; FrameUDPEnd;
                    FrameUDPProbeReq; FrameUDPProbeResp; FramePing; FramePong;
                    FrameRekeyReq; FrameRekeyResp; FramePaddingOnly]).

(** ** Layout constants *)

Definition frameHdrFrameLen : Z := 4.
Definition frameHdrCounter : Z := 8.
Definition frameHdrType : Z := 1.
Definition frameHdrMetaLen : Z := 2.
Definition frameHdrPadLen : Z := 2.
Definition frameHeaderSize : Z :=
  frameHdrFrameLen + frameHdrCounter + frameHdrType + frameHdrMetaLen + frameHdrPadLen.
Definition aeadTagLen : Z := 16.

(** [NewFrameAEAD]'s error. *)
Definition ctx_chacha_New : string := "ewp/v2: chacha20poly1305.New".
Definition ctx_pad_rand : string := "ewp/v2: pad rand".
(** The error of a failed read of [crypto/rand]. *)
Definition ErrRand : error := ErrText "crypto/rand: read failed".

Record DecodedFrame := mkDecodedFrame {
  df_Counter : Z;
  df_Type : FrameType;
  df_Meta : bytes;
  df_Payload : bytes
}.

(** The directional context; [counter] is a [uint64].  The record is
    parameterised by the type of the keyed cipher. *)
Record FrameAEAD (A : Type) := mkFrameAEAD {
  fa_aead : A;
  fa_prefix : arr NoncePrefixLen;
  fa_counter : Z
}.
Arguments mkFrameAEAD {A} _ _ _.
Arguments fa_aead {A} _.
Arguments fa_prefix {A} _.
Arguments fa_counter {A} _.

Section Frame.
Context {G : Type} {C : Crypto G} {E : Entropy G}.

Definition NewFrameAEAD (key : arr AEADKeyLen) (prefix : arr NoncePrefixLen) : outcome (FrameAEAD AEAD) :=
  a ← wrap_err ctx_chacha_New (or_fail ErrKeyLength (chacha_New (arr_list key)));
  Ret (mkFrameAEAD a prefix 0).

Definition Counter (f : FrameAEAD AEAD) : Z := fa_counter f.

(** [f.counter = counter + 1] on [uint64]. *)
Definition set_counter (f : FrameAEAD AEAD) (c : Z) : FrameAEAD AEAD :=
  mkFrameAEAD (fa_aead f) (fa_prefix f) c.
Definition bump (f : FrameAEAD AEAD) (counter : Z) : FrameAEAD AEAD :=
  set_counter f ((counter + 1) mod 2 ^ 64).

Definition composeNonce (f : FrameAEAD AEAD) (counter : Z) : arr AEADNonceLen :=
  to_arr AEADNonceLen (arr_list (fa_prefix f) ++ be_put 8 counter).

(** [dst] grown by [total] bytes: a fresh zeroed array when the capacity is
    short, the stale bytes of the spare capacity otherwise. *)
Definition grow (dst : gslice) (total : Z) : gslice :=
  let base := len (gs_data dst) in
  if gs_cap dst - base <? total then
    mkSlice (gs_data dst ++ replicate (Z.to_nat total) Byte.x00) []
  else
    let all := gs_data dst ++ gs_spare dst in
    mkSlice (sub all 0 (base + total)) (sub all (base + total) (len all)).

(** [aead.Seal(wire[off:off+n][:0], ...)]: the output reuses the storage of
    the plaintext when it fits, and is lost (the result is ignored)
    otherwise. *)
Definition seal_in_place (wire : bytes) (off : Z) (ct : bytes) : bytes :=
  if off + len ct <=? len wire then splice wire off ct else wire.

(** The five header stores. *)
Definition put_header (wire : bytes) (frameLen counter : Z) (t : FrameType) (metaLen padLen : Z)
  : outcome bytes :=
  wire ← buf_put wire 0 (be_put 4 frameLen);
  wire ← buf_put wire 4 (be_put 8 counter);
  wire ← buf_put wire 12 [t];
  wire ← buf_put wire 13 (be_put 2 metaLen);
  buf_put wire 15 (be_put 2 padLen).

(** [meta || payload], laid where the ciphertext will end up. *)
Definition lay_plaintext (wire : bytes) (plainStart plainLen : Z) (meta payload : bytes)
  : outcome bytes :=
  if 0 <? plainLen then
    wire ← buf_copy wire plainStart meta;
    buf_copy wire (plainStart + len meta) payload
  else Ret wire.

(** Header, plaintext and in-place seal, over the bytes [wire] of the frame
    (whose initial contents are arbitrary). *)
Definition build_body (f : FrameAEAD AEAD) (t : FrameType) (meta payload : bytes)
  (frameLen padLen : Z) (wire : bytes) : outcome bytes :=
  let plainLen := len meta + len payload in
  let counter := fa_counter f in
  wire ← put_header wire frameLen counter t (len meta) padLen;
  hdr ← slice wire 0 frameHeaderSize;
  let plainStart := frameHeaderSize in
  wire ← lay_plaintext wire plainStart plainLen meta payload;
  let nonce := composeNonce f counter in
  plainSlice ← slice wire plainStart (plainStart + plainLen);
  Ret (seal_in_place wire plainStart (Seal (fa_aead f) (arr_list nonce) plainSlice hdr)).

Definition EncodeFrameAppend (dst : gslice) (f : FrameAEAD AEAD) (t : FrameType)
  (meta payload : bytes) (padLen : Z) (g : G)
  : outcome (gslice * option error * FrameAEAD AEAD * G) :=
  if negb (Valid t) then Ret (dst, Some ErrFrameType, f, g) else
  if MaxMetaLen <? len meta then Ret (dst, Some ErrMetaTooLarge, f, g) else
  let padLen := if padLen <? 0 then 0 else padLen in
  if MaxFramePad <? padLen then Ret (dst, Some ErrPadTooLarge, f, g) else
  let plainLen := len meta + len payload in
  let cipherLen := plainLen + aeadTagLen in
  let frameLen := frameHdrCounter + frameHdrType + frameHdrMetaLen + frameHdrPadLen
                  + cipherLen + padLen in
  if MaxFrameSize <? frameLen then Ret (dst, Some ErrFrameTooLarge, f, g) else
  let totalWire := frameHeaderSize + cipherLen + padLen in
  let base := len (gs_data dst) in
  let dst := grow dst totalWire in
  wire ← slice (gs_data dst) base (len (gs_data dst));
  let counter := fa_counter f in
  let plainStart := frameHeaderSize in
  wire ← build_body f t meta payload frameLen padLen wire;
  let rebuild w := mkSlice (sub (gs_data dst) 0 base ++ w) (gs_spare dst) in
  if 0 <? padLen then
    padRegion ← slice wire (plainStart + cipherLen) (len wire);
    let '(pad, g) := rand_fill (length padRegion) g in
    match pad with
    | None => Ret (gs_take (rebuild wire) base, Some (Wrap ctx_pad_rand ErrRand), f, g)
    | Some pad =>
        wire ← buf_put wire (plainStart + cipherLen) pad;
        Ret (rebuild wire, None, bump f counter, g)
    end
  else Ret (rebuild wire, None, bump f counter, g).

(** [EncodeFrame(w, ...)] over an [io.Writer] given by its [Write]. *)
Definition EncodeFrame {W} (write : bytes -> W -> option error * W) (w : W) (f : FrameAEAD AEAD)
  (t : FrameType) (meta payload : bytes) (padLen : Z) (g : G)
  : outcome (option error * W * FrameAEAD AEAD * G) :=
  '(wire, err, f, g) ← EncodeFrameAppend (mkSlice [] []) f t meta payload padLen g;
  match err with
  | Some e => Ret (Some e, w, f, g)
  | None => let '(err, w) := write (gs_data wire) w in Ret (err, w, f, g)
  end.

Definition DecodeFrame (r : reader) (f : FrameAEAD AEAD) : outcome (DecodedFrame * FrameAEAD AEAD) * reader :=
  letS hdr, r := ReadFull (Z.to_nat frameHeaderSize) r ;;
  letS b, r := lift (slice hdr 0 4) r ;;
  let frameLen := be_get b in
  if MaxFrameSize <? frameLen then (Fail ErrFrameTooLarge, r) else
  letS b, r := lift (slice hdr 4 12) r ;;
  let counter := be_get b in
  letS t, r := lift (index hdr 12) r ;;
  letS b, r := lift (slice hdr 13 15) r ;;
  let metaLen := be_get b in
  letS b, r := lift (slice hdr 15 17) r ;;
  let padLen := be_get b in
  if MaxMetaLen <? metaLen then (Fail ErrMetaTooLarge, r) else
  if MaxFramePad <? padLen then (Fail ErrPadTooLarge, r) else
  let bodyLen := frameLen - (frameHdrCounter + frameHdrType + frameHdrMetaLen + frameHdrPadLen) in
  if bodyLen <? padLen + aeadTagLen + metaLen then (Fail ErrFrameTooShort, r) else
  let cipherLen := bodyLen - padLen in
  letS cipherBuf, r := ReadFull (Z.to_nat cipherLen) r ;;
  letS _, r := (if 0 <? padLen then CopyN_Discard (Z.to_nat padLen) r else (Ret tt, r)) ;;
  if negb (counter =? fa_counter f) then (Fail ErrCounterMismatch, r) else
  if negb (Valid t) then (Fail ErrFrameType, r) else
  let nonce := composeNonce f counter in
  match Open (fa_aead f) (arr_list nonce) cipherBuf hdr with
  | None => (Fail ErrAEADOpen, r)
  | Some plain =>
      if len plain <? metaLen then (Fail ErrFrameTooShort, r) else
      letS meta, r := lift (slice plain 0 metaLen) r ;;
      letS payload, r := lift (slice plain metaLen (len plain)) r ;;
      (Ret (mkDecodedFrame counter t meta payload, bump f counter), r)
  end.

(** [NewGlobalID]: panics when the randomness source fails. *)
Definition NewGlobalID (g : G) : outcome (arr 8) * G :=
  let '(id, g) := rand_read 8 g in
  (match id with Some id => Ret id | None => Panic end, g).
End Frame.

(** ** Specification

    [encode_error] is the guard sequence of the encoder; [frame_header] the
    17-byte header; [frame_wire] the reference encoding of a frame: header,
    sealed [meta || payload] (with the header as associated data), pad. *)

Definition frame_len (meta payload : bytes) (padLen : Z) : Z :=
  frameHdrCounter + frameHdrType + frameHdrMetaLen + frameHdrPadLen
  + (len meta + len payload + aeadTagLen) + padLen.

Definition encode_error (t : FrameType) (meta payload : bytes) (padLen : Z) : option error :=
  if negb (Valid t) then Some ErrFrameType else
  if MaxMetaLen <? len meta then Some ErrMetaTooLarge else
  if MaxFramePad <? padLen then Some ErrPadTooLarge else
  if MaxFrameSize <? frame_len meta payload (Z.max 0 padLen) then Some ErrFrameTooLarge else None.

Definition frame_header (counter : Z) (t : FrameType) (meta payload : bytes) (padLen : Z) : bytes :=
  be_put 4 (frame_len meta payload padLen) ++ be_put 8 counter ++ [t]
  ++ be_put 2 (len meta) ++ be_put 2 padLen.

Lemma length_frame_header c t meta payload n : length (frame_header c t meta payload n) = 17%nat.
Proof. unfold frame_header. llia. Qed.

#[export] Hint Rewrite length_frame_header : len.

Lemma encode_error_None t meta payload padLen :
  encode_error t meta payload padLen = None <->
  Valid t = true /\ len meta <= MaxMetaLen /\ padLen <= MaxFramePad /\
  frame_len meta payload (Z.max 0 padLen) <= MaxFrameSize.
Proof.
  unfold encode_error. destruct (Valid t); cbn; [|naive_solver].
  repeat zcase_1; naive_solver lia.
Qed.

Section FrameSpec.
Context {G : Type} {C : Crypto G} {E : Entropy G}.

Definition frame_body (f : FrameAEAD AEAD) (counter : Z) (t : FrameType) (meta payload : bytes)
  (padLen : Z) : bytes :=
  let hdr := frame_header counter t meta payload padLen in
  hdr ++ Seal (fa_aead f) (arr_list (composeNonce f counter)) (meta ++ payload) hdr.

Definition frame_wire (f : FrameAEAD AEAD) (t : FrameType) (meta payload pad : bytes) : bytes :=
  frame_body f (fa_counter f) t meta payload (len pad) ++ pad.

Lemma length_grow dst total :
  0 <= total -> exists tail spare, grow dst total = mkSlice (gs_data dst ++ tail) spare /\
    len tail = total.
Proof.
  intros. unfold grow, gs_cap. zcase_1.
  - eexists _, _. split; [done|]. llia.
  - rewrite sub_app_mid by lia. rewrite sub_full by lia.
    eexists _, _. split; [done|]. rewrite length_sub by lia. lia.
Qed.

Context `{!AEADLaws C}.

Lemma length_frame_body f c t meta payload n :
  length (frame_body f c t meta payload n) = (17 + (length meta + length payload + 16))%nat.
Proof. unfold frame_body. rewrite length_app, length_Seal. llia. Qed.

(** The in-place construction: whatever the buffer holds, the header
    stores, the copies and the seal leave the reference encoding. *)
Lemma put_header_ok tail c t meta payload padLen :
  17 <= len tail ->
  put_header tail (frame_len meta payload padLen) c t (len meta) padLen =
    Ret (frame_header c t meta payload padLen ++ sub tail 17 (len tail)).
Proof.
  intros Hl. unfold put_header, frame_header.
  rewrite <-(sub_all tail) at 1. change (sub tail 0 (len tail)) with ([] ++ sub tail 0 (len tail)).
  repeat (rewrite buf_put_sub by llia; cbn [mbind outcome_bind]).
  rewrite <-!app_assoc. cbn [app]. repeat f_equal.
Qed.

Lemma lay_plaintext_ok hdr l a off meta payload :
  off = len hdr -> 0 <= a -> a + (len meta + len payload) <= len l ->
  lay_plaintext (hdr ++ sub l a (len l)) off (len meta + len payload) meta payload =
    Ret ((hdr ++ meta ++ payload) ++ sub l (a + (len meta + len payload)) (len l)).
Proof.
  intros -> Ha Hl. unfold lay_plaintext. destruct (Z.ltb_spec 0 (len meta + len payload)) as [|H0].
  - rewrite buf_copy_sub by lia. cbn [mbind outcome_bind].
    rewrite buf_copy_sub by llia. by rewrite <-!app_assoc, Z.add_assoc.
  - destruct meta; [|cbn in H0; lia]. destruct payload; [|cbn in H0; lia].
    cbn. by rewrite app_nil_r, Z.add_0_r.
Qed.

Lemma seal_in_place_ok hdr plain l a off ct :
  off = len hdr -> 0 <= a -> len ct = len plain + aeadTagLen -> a + aeadTagLen <= len l ->
  seal_in_place ((hdr ++ plain) ++ sub l a (len l)) off ct =
    (hdr ++ ct) ++ sub l (a + aeadTagLen) (len l).
Proof.
  unfold aeadTagLen. intros -> Ha Hct Hl. unfold seal_in_place.
  rewrite (proj2 (Z.leb_le _ _)) by llia.
  rewrite <-app_assoc, splice_app by llia. f_equal.
  rewrite length_app, sub_app_r, sub_sub by llia. f_equal; llia.
Qed.

Lemma build_body_ok f t meta payload p tail :
  0 <= p -> len tail = frameHeaderSize + (len meta + len payload + aeadTagLen) + p ->
  exists rest, len rest = p /\
    build_body f t meta payload (frame_len meta payload p) p tail =
      Ret (frame_body f (fa_counter f) t meta payload p ++ rest).
Proof.
  change aeadTagLen with 16. change frameHeaderSize with 17. intros Hp Htail.
  unfold build_body. rewrite put_header_ok by lia. cbn [mbind outcome_bind].
  change frameHeaderSize with 17. set (hdr := frame_header _ _ _ _ _).
  assert (Hh : len hdr = 17) by (unfold hdr; llia).
  rewrite slice_ok by llia. cbn [mbind outcome_bind].
  rewrite (sub_app_l hdr), (sub_full hdr) by lia.
  rewrite lay_plaintext_ok by lia. cbn [mbind outcome_bind].
  rewrite slice_ok by llia. cbn [mbind outcome_bind].
  rewrite (sub_app_l (hdr ++ meta ++ payload)), (sub_app_r hdr), (sub_full (meta ++ payload)) by llia.
  rewrite seal_in_place_ok by (rewrite ?length_Seal; change aeadTagLen with 16; llia).
  change aeadTagLen with 16. eexists; split; [|done]. llia.
Qed.

(** The encoder, on every branch. *)
Lemma EncodeFrameAppend_error dst f t meta payload padLen g e :
  encode_error t meta payload padLen = Some e ->
  EncodeFrameAppend dst f t meta payload padLen g = Ret (dst, Some e, f, g).
Proof.
  unfold EncodeFrameAppend, encode_error. destruct (Valid t); cbn [negb]; [|by intros [= <-]].
  destruct (_ <? len meta); [by intros [= <-]|].
  destruct (Z.ltb_spec padLen 0); [rewrite Z.max_l by lia|rewrite Z.max_r by lia].
  - rewrite (proj2 (Z.ltb_ge MaxFramePad 0)), (proj2 (Z.ltb_ge MaxFramePad padLen))
      by (unfold MaxFramePad; lia).
    fold (frame_len meta payload 0). by destruct (_ <? frame_len _ _ _); [intros [= <-]|].
  - destruct (_ <? padLen); [by intros [= <-]|].
    fold (frame_len meta payload padLen). by destruct (_ <? frame_len _ _ _); [intros [= <-]|].
Qed.

Lemma EncodeFrameAppend_ok dst f t meta payload padLen g :
  encode_error t meta payload padLen = None ->
  let n := Z.to_nat (Z.max 0 padLen) in
  exists spare spare',
  EncodeFrameAppend dst f t meta payload padLen g =
    let '(pad, g') := if padLen <=? 0 then (Some [], g) else rand_fill n g in
    match pad with
    | Some pad => Ret (mkSlice (gs_data dst ++ frame_wire f t meta payload pad) spare, None,
                       bump f (fa_counter f), g')
    | None => Ret (mkSlice (gs_data dst) spare', Some (Wrap ctx_pad_rand ErrRand), f, g')
    end.
Proof.
  intros (Hv & Hm & Hp & Hf)%encode_error_None. cbv zeta.
  unfold EncodeFrameAppend. rewrite Hv. cbn [negb].
  rewrite (proj2 (Z.ltb_ge MaxMetaLen (len meta))) by done.
  set (p := if padLen <? 0 then 0 else padLen).
  assert (Hpp : p = Z.max 0 padLen) by (unfold p; zcase_1; lia). clearbody p.
  rewrite (proj2 (Z.ltb_ge MaxFramePad p)) by (unfold MaxFramePad in *; lia).
  fold (frame_len meta payload p). rewrite <-Hpp in *.
  rewrite (proj2 (Z.ltb_ge MaxFrameSize _)) by done.
  set (total := frameHeaderSize + (len meta + len payload + aeadTagLen) + p).
  destruct (length_grow dst total) as (tail & spare & -> & Htail);
    [unfold total; change frameHeaderSize with 17; change aeadTagLen with 16; lia|].
  cbn [gs_data gs_spare]. rewrite slice_ok by llia. cbn [mbind outcome_bind].
  rewrite (sub_app_r _ tail (len (gs_data dst))), (sub_full tail) by llia.
  rewrite (sub_app_l _ tail 0 (len (gs_data dst))), (sub_full (gs_data dst)) by lia.
  destruct (build_body_ok f t meta payload p tail) as (rest & Hr & ->); [lia|done|].
  cbn [mbind outcome_bind]. set (body := frame_body f _ _ _ _ _).
  assert (Hb : len body = 17 + (len meta + len payload + 16))
    by (unfold body; rewrite length_frame_body; lia).
  change aeadTagLen with 16. change frameHeaderSize with 17.
  destruct (Z.ltb_spec 0 p) as [Hpos|Hz].
  - rewrite (proj2 (Z.leb_gt padLen 0)) by lia.
    rewrite slice_ok by llia. cbn [mbind outcome_bind].
    rewrite (sub_app_r body), (sub_full rest) by llia.
    replace (length rest) with (Z.to_nat p) by lia.
    destruct (rand_fill (Z.to_nat p) g) as [[pad|] g'] eqn:Eg.
    + apply rand_fill_length in Eg.
      rewrite <-(sub_all rest), buf_put_sub by llia. cbn [mbind outcome_bind].
      rewrite (sub_empty rest), app_nil_r by lia.
      unfold frame_wire. replace (len pad) with p by lia. by eexists _, [].
    + eexists [], _. unfold gs_take. cbn [gs_data gs_spare].
      rewrite sub_app_l, sub_full by lia. done.
  - rewrite (proj2 (Z.leb_le padLen 0)) by lia.
    unfold frame_wire. cbn [length]. replace (Z.of_nat 0) with p by lia. fold body.
    destruct rest; [|cbn in Hr; lia]. by eexists _, [].
Qed.

(** ** The decoder *)

(** The fields of a header, both ways. *)
Lemma frame_header_fields c t meta payload n :
  let hdr := frame_header c t meta payload n in
  sub hdr 0 4 = be_put 4 (frame_len meta payload n) /\ sub hdr 4 12 = be_put 8 c /\
  index hdr 12 = Ret t /\ sub hdr 13 15 = be_put 2 (len meta) /\ sub hdr 15 17 = be_put 2 n.
Proof.
  cbv zeta. unfold frame_header. split_and!; by sub_simpl.
Qed.

Lemma header_eta hdr t :
  len hdr = 17 -> sub hdr 12 13 = [t] ->
  hdr = be_put 4 (be_get (sub hdr 0 4)) ++ be_put 8 (be_get (sub hdr 4 12)) ++ [t]
        ++ be_put 2 (be_get (sub hdr 13 15)) ++ be_put 2 (be_get (sub hdr 15 17)).
Proof.
  intros Hl Ht. rewrite !be_put_get_n by llia. rewrite <-Ht, <-(sub_split hdr 13 15 17),
    <-(sub_split hdr 12 13 17), <-(sub_split hdr 4 12 17), <-(sub_split hdr 0 4 17) by lia.
  by rewrite sub_full.
Qed.

(** Draining the pad region of a reader. *)
Lemma drain_pad_spec pl r :
  0 <= pl ->
  match (if 0 <? pl then CopyN_Discard (Z.to_nat pl) r else (Ret tt, r)) with
  | (Ret _, r') => exists pad, len pad = pl /\ rd_bytes r = pad ++ rd_bytes r'
  | (Fail _, _) => len (rd_bytes r) < pl
  | (Panic, _) => False
  end.
Proof.
  intros ?. destruct (Z.ltb_spec 0 pl); [|exists []; cbn; split; [lia|done]].
  destruct (CopyN_cases pl r) as [(Hp & r3 & Hr3 & _ & ->)|(? & r3 & ->)]; [lia| |done].
  exists (sub (rd_bytes r) 0 pl). rewrite Hr3, <-sub_split, sub_all by lia. split; [llia|done].
Qed.

(** What an accepted frame is: the reference encoding of the decoded
    contents under the expected counter, followed by some pad. *)
Definition accepted (f : FrameAEAD AEAD) (l rest : bytes) (df : DecodedFrame) : Prop :=
  exists pad,
    l = frame_body f (fa_counter f) (df_Type df) (df_Meta df) (df_Payload df) (len pad)
          ++ pad ++ rest /\
    df_Counter df = fa_counter f /\
    encode_error (df_Type df) (df_Meta df) (df_Payload df) (len pad) = None.

Lemma DecodeFrame_inv r f :
  match DecodeFrame r f with
  | (Ret (df, f'), r') => accepted f (rd_bytes r) (rd_bytes r') df /\ f' = bump f (fa_counter f)
  | (Fail _, _) => True
  | (Panic, _) => False
  end.
Proof.
  unfold DecodeFrame. change frameHeaderSize with 17.
  destruct (ReadFull_cases 17 r) as [(H17 & r1 & Hr1 & _ & ->)|(_ & r1 & ->)]; [lia| |done].
  cbn [sbind]. set (hdr := sub (rd_bytes r) 0 17) in *.
  assert (Hh : len hdr = 17) by (unfold hdr; llia).
  destruct (index_ok hdr 12) as (t & Hit & Ht); [lia|]. change (12 + 1) with 13 in Ht.
  pose proof (header_eta hdr t Hh Ht) as Heta.
  unfold lift. rewrite !slice_ok, Hit by lia. cbn [sbind].
  pose proof (be_get_range (sub hdr 15 17)). pose proof (be_get_range (sub hdr 13 15)).
  set (fl := be_get (sub hdr 0 4)) in *. set (c := be_get (sub hdr 4 12)) in *.
  set (ml := be_get (sub hdr 13 15)) in *. set (pl := be_get (sub hdr 15 17)) in *.
  destruct (Z.ltb_spec MaxFrameSize fl); [done|].
  destruct (Z.ltb_spec MaxMetaLen ml); [done|]. destruct (Z.ltb_spec MaxFramePad pl); [done|].
  change (frameHdrCounter + frameHdrType + frameHdrMetaLen + frameHdrPadLen) with 13.
  change aeadTagLen with 16. destruct (Z.ltb_spec (fl - 13) (pl + 16 + ml)); [done|].
  destruct (ReadFull_cases (fl - 13 - pl) r1) as [(Hc & r2 & Hr2 & _ & ->)|(_ & r2 & ->)];
    [lia| |done].
  cbn [sbind]. set (ct := sub (rd_bytes r1) 0 (fl - 13 - pl)).
  pose proof (drain_pad_spec pl r2 ltac:(lia)) as Hpad.
  destruct (if 0 <? pl then _ else _) as [[[]|e|] r3]; [|done..].
  destruct Hpad as (pad & Hpl & Hpad). cbn [sbind].
  destruct (Z.eqb_spec c (fa_counter f)) as [Hcnt|]; [|done]. cbn [negb].
  destruct (Valid t) eqn:Hv; [|done]. cbn [negb].
  destruct (Open _ _ _ _) as [plain|] eqn:Ho; [|done]. apply Open_tidy in Ho.
  destruct (Z.ltb_spec (len plain) ml); [done|].
  rewrite !slice_ok by lia. cbn [sbind]. split; [|by rewrite Hcnt].
  assert (Hpt : len ct = len plain + 16) by (rewrite Ho, length_Seal; lia).
  assert (Hct : len ct = fl - 13 - pl) by (unfold ct; llia).
  exists pad. cbn [df_Type df_Meta df_Payload df_Counter].
  rewrite length_sub in * by lia.
  assert (Hfl : frame_len (sub plain 0 ml) (sub plain ml (len plain)) (len pad) = fl)
    by (unfold frame_len; change aeadTagLen with 16; change (frameHdrCounter + frameHdrType
          + frameHdrMetaLen + frameHdrPadLen) with 13; llia).
  split_and!; [|done|].
  - unfold frame_body, frame_header. rewrite Hfl, <-sub_split, sub_all by lia.
    rewrite length_sub by lia. rewrite Z.sub_0_r, Hpl, <-Hcnt, <-Heta, <-Ho.
    rewrite <-app_assoc, <-Hpad, Hr2. unfold ct. rewrite <-sub_split, sub_all, Hr1 by lia.
    unfold hdr. rewrite <-sub_split, sub_all by lia. done.
  - apply encode_error_None. rewrite Z.max_r by lia. rewrite Hfl, length_sub, Hpl by lia.
    split_and!; [done|lia..].
Qed.

(** The decoder on a well-framed input: everything is decided by the
    counter and by the AEAD. *)
Lemma DecodeFrame_parse r f c t meta payload ct pad rest :
  0 <= c < 2 ^ 64 -> encode_error t meta payload (len pad) = None ->
  len ct = len meta + len payload + aeadTagLen ->
  let hdr := frame_header c t meta payload (len pad) in
  rd_bytes r = hdr ++ ct ++ pad ++ rest ->
  exists r', rd_bytes r' = rest /\ DecodeFrame r f =
    (if negb (c =? fa_counter f) then Fail ErrCounterMismatch else
     match Open (fa_aead f) (arr_list (composeNonce f c)) ct hdr with
     | None => Fail ErrAEADOpen
     | Some plain =>
         if len plain <? len meta then Fail ErrFrameTooShort else
         Ret (mkDecodedFrame c t (sub plain 0 (len meta)) (sub plain (len meta) (len plain)),
              bump f c)
     end, r').
Proof.
  intros Hc (Hv & Hm & Hp & Hf)%encode_error_None Hct hdr Hr. rewrite Z.max_r in Hf by lia.
  destruct (frame_header_fields c t meta payload (len pad)) as (F1 & F2 & F3 & F4 & F5).
  fold hdr in F1, F2, F3, F4, F5. assert (Hh : len hdr = 17) by (unfold hdr; llia).
  unfold MaxMetaLen, MaxFramePad, MaxFrameSize in *.
  assert (Hfl : frame_len meta payload (len pad) = 13 + len ct + len pad)
    by (rewrite Hct; unfold frame_len; done).
  unfold DecodeFrame. change frameHeaderSize with 17.
  destruct (ReadFull_cases 17 r) as [(H17 & r1 & Hr1 & _ & ->)|(Hlt & _)];
    [lia| |rewrite Hr in Hlt; len_simpl; lia].
  rewrite Hr in Hr1. rewrite Hr, (sub_app_l hdr), (sub_full hdr) by lia.
  rewrite (sub_app_r hdr), sub_full in Hr1 by llia.
  cbn [sbind]. unfold lift. rewrite !slice_ok, F1, F2, F3, F4, F5 by lia. cbn [sbind].
  rewrite !be_get_put_small by lia. unfold MaxMetaLen, MaxFramePad, MaxFrameSize. zif.
  change (frameHdrCounter + frameHdrType + frameHdrMetaLen + frameHdrPadLen) with 13.
  change aeadTagLen with 16 in *. rewrite Hfl. zif.
  replace (13 + len ct + len pad - 13 - len pad) with (len ct) by lia.
  destruct (ReadFull_cases (len ct) r1) as [(_ & r2 & Hr2 & _ & ->)|(Hlt & _)];
    [lia| |rewrite Hr1 in Hlt; len_simpl; lia].
  rewrite Hr1 in Hr2 |- *. rewrite (sub_app_l ct), (sub_full ct) by lia.
  rewrite (sub_app_r ct), sub_full in Hr2 by llia. cbn [sbind].
  pose proof (drain_pad_spec (len pad) r2 ltac:(lia)) as Hpad.
  destruct (if 0 <? len pad then _ else _) as [[[]|e|] r3];
    [|rewrite Hr2 in Hpad; len_simpl; lia|done].
  destruct Hpad as (pad' & Hl & Hpad). rewrite Hr2 in Hpad. cbn [sbind].
  apply app_inj_1 in Hpad as [-> Hrest]; [|lia]. exists r3. split; [done|].
  destruct (c =? fa_counter f); cbn [negb]; [|done]. rewrite Hv. cbn [negb].
  destruct (Open _ _ _ _) as [plain|]; [|done].
  destruct (Z.ltb_spec (len plain) (len meta)); [done|]. by rewrite !slice_ok by lia.
Qed.

Lemma len_Seal c n (meta payload a : bytes) :
  len (Seal c n (meta ++ payload) a) = len meta + len payload + aeadTagLen.
Proof. rewrite length_Seal, length_app. unfold aeadTagLen. lia. Qed.

(** Decoding the reference encoding. *)
Lemma DecodeFrame_wire r f t meta payload pad rest :
  0 <= fa_counter f < 2 ^ 64 -> encode_error t meta payload (len pad) = None ->
  rd_bytes r = frame_wire f t meta payload pad ++ rest ->
  exists r', rd_bytes r' = rest /\
    DecodeFrame r f = (Ret (mkDecodedFrame (fa_counter f) t meta payload, bump f (fa_counter f)), r').
Proof.
  intros Hc He Hr. unfold frame_wire, frame_body in Hr. rewrite <-!app_assoc in Hr.
  edestruct (DecodeFrame_parse r f _ t meta payload _ pad rest Hc He (len_Seal _ _ _ _ _) Hr)
    as (r' & Hrest & ->).
  exists r'. split; [done|]. rewrite Z.eqb_refl. cbn [negb]. rewrite Open_Seal.
  rewrite (proj2 (Z.ltb_ge _ _)) by llia.
  rewrite (sub_app_l meta), (sub_full meta), (sub_app_r meta), (sub_full payload) by llia. done.
Qed.

(** A frame encoded under another counter is refused, whatever its key. *)
Lemma DecodeFrame_other_counter r f fs c t meta payload pad rest :
  0 <= c < 2 ^ 64 -> c <> fa_counter f -> encode_error t meta payload (len pad) = None ->
  rd_bytes r = frame_body fs c t meta payload (len pad) ++ pad ++ rest ->
  exists r', DecodeFrame r f = (Fail ErrCounterMismatch, r').
Proof.
  intros Hc Hne He Hr. unfold frame_body in Hr. rewrite <-!app_assoc in Hr.
  edestruct (DecodeFrame_parse r f c t meta payload _ pad rest Hc He (len_Seal _ _ _ _ _) Hr)
    as (r' & Hrest & ->).
  exists r'. by rewrite (proj2 (Z.eqb_neq _ _)).
Qed.
End FrameSpec.

(** ** Counters and nonces *)

Section Nonces.
Context {G : Type} {C : Crypto G} {E : Entropy G}.

Lemma composeNonce_inj (f : FrameAEAD AEAD) a b :
  0 <= a < 2 ^ 64 -> 0 <= b < 2 ^ 64 -> composeNonce f a = composeNonce f b -> a = b.
Proof.
  unfold composeNonce. intros Ha Hb H. apply arr_list_inj in H.
  rewrite !to_arr_list in H by llia. apply app_inv_head in H.
  by apply (be_put_inj 8) in H.
Qed.

(** The context after [k] successful frames. *)
Fixpoint bumps (k : nat) (f : FrameAEAD AEAD) : FrameAEAD AEAD :=
  match k with O => f | S k => bumps k (bump f (fa_counter f)) end.

Lemma bumps_counter k f :
  0 <= fa_counter f < 2 ^ 64 -> fa_counter (bumps k f) = (fa_counter f + Z.of_nat k) mod 2 ^ 64.
Proof.
  revert f. induction k as [|k IH]; intros f Hf; cbn [bumps].
  - rewrite Z.add_0_r. by rewrite Z.mod_small.
  - rewrite IH by (apply Z.mod_pos_bound; lia). cbn [fa_counter bump set_counter].
    rewrite Z.add_mod_idemp_l by lia. f_equal. lia.
Qed.

Lemma counters_differ c i j :
  (i < j)%nat -> Z.of_nat j - Z.of_nat i < 2 ^ 64 -> (c + Z.of_nat i) mod 2 ^ 64 <> (c + Z.of_nat j) mod 2 ^ 64.
Proof.
  intros Hij Hlt H. assert (Hd : (Z.of_nat j - Z.of_nat i) mod 2 ^ 64 = 0).
  { replace (Z.of_nat j - Z.of_nat i) with (c + Z.of_nat j - (c + Z.of_nat i)) by lia.
    rewrite Zminus_mod, H, Z.sub_diag. done. }
  rewrite Z.mod_small in Hd by lia. lia.
Qed.

Lemma bumps_key k f :
  fa_aead (bumps k f) = fa_aead f /\ fa_prefix (bumps k f) = fa_prefix f.
Proof. revert f. induction k as [|k IH]; intros f; [done|]. apply (IH (bump f _)). Qed.
End Nonces.

(** ** Sequences of frames *)

Section Sequences.
Context {G : Type} {C : Crypto G} {E : Entropy G}.

(** One frame to send: type, meta, payload and pad. *)
Record frame_in := mkFrameIn {
  fi_type : FrameType; fi_meta : bytes; fi_payload : bytes; fi_pad : bytes
}.

Definition fi_ok (x : frame_in) : Prop :=
  encode_error (fi_type x) (fi_meta x) (fi_payload x) (len (fi_pad x)) = None.

(** The bytes a sender emits for a list of frames. *)
Fixpoint wire_all (f : FrameAEAD AEAD) (xs : list frame_in) : bytes :=
  match xs with
  | [] => []
  | x :: xs => frame_wire f (fi_type x) (fi_meta x) (fi_payload x) (fi_pad x)
                 ++ wire_all (bump f (fa_counter f)) xs
  end.

(** [n] calls of [DecodeFrame] on one reader. *)
Fixpoint decode_n (n : nat) (r : reader) (f : FrameAEAD AEAD) : outcome (list DecodedFrame * FrameAEAD AEAD) * reader :=
  match n with
  | O => (Ret ([], f), r)
  | S n =>
      letS x, r := DecodeFrame r f ;;
      letS y, r := decode_n n r x.2 ;;
      (Ret (x.1 :: y.1, y.2), r)
  end.

Definition decoded_as (x : frame_in) (df : DecodedFrame) : Prop :=
  df_Type df = fi_type x /\ df_Meta df = fi_meta x /\ df_Payload df = fi_payload x.

Context `{!AEADLaws C}.

Lemma decode_n_wire xs r f rest :
  0 <= fa_counter f < 2 ^ 64 -> Forall fi_ok xs -> rd_bytes r = wire_all f xs ++ rest ->
  exists dfs r', decode_n (length xs) r f = (Ret (dfs, bumps (length xs) f), r') /\
    Forall2 decoded_as xs dfs /\ rd_bytes r' = rest.
Proof.
  revert r f. induction xs as [|x xs IH]; intros r f Hc Hok Hr; cbn [length decode_n bumps].
  - exists [], r. auto.
  - inversion Hok as [|?? Hx Hxs]; subst. cbn [wire_all] in Hr. rewrite <-app_assoc in Hr.
    destruct (DecodeFrame_wire r f _ _ _ _ _ Hc Hx Hr) as (r1 & Hr1 & ->). cbn [sbind snd fst].
    destruct (IH r1 (bump f (fa_counter f))) as (dfs & r2 & -> & Hall & Hr2);
      [apply Z.mod_pos_bound; lia|done|done|].
    cbn [sbind snd fst]. eexists _, r2. split; [done|]. split; [|done].
    constructor; [done|done].
Qed.
End Sequences.

(** ** Sequences of encoder calls *)

Section EncoderRuns.
Context {G : Type} {C : Crypto G} {E : Entropy G}.

(** The arguments of a call of [EncodeFrameAppend], and the state of the
    randomness source it finds. *)
Record enc_call := mkEncCall {
  ec_dst : gslice; ec_type : FrameType; ec_meta : bytes; ec_payload : bytes; ec_padLen : Z; ec_gen : G
}.

(** The calls one after the other on one context: what each of them appended,
    or [None] for a call that failed. *)
Fixpoint encode_run (f : FrameAEAD AEAD) (xs : list enc_call) : outcome (list (option bytes) * FrameAEAD AEAD) :=
  match xs with
  | [] => Ret ([], f)
  | x :: xs =>
      '(dst, err, f, _) ← EncodeFrameAppend (ec_dst x) f (ec_type x) (ec_meta x) (ec_payload x) (ec_padLen x)
        (ec_gen x);
      '(ms, f) ← encode_run f xs;
      Ret (match err with
           | None => Some (drop (length (gs_data (ec_dst x))) (gs_data dst))
           | Some _ => None
           end :: ms, f)
  end.

(** The nonce that a message announces: the prefix of the context, and the
    counter in its header. *)
Definition nonce_of (f : FrameAEAD AEAD) (m : bytes) : arr AEADNonceLen :=
  to_arr AEADNonceLen (arr_list (fa_prefix f) ++ sub m 4 12).

(** How many of the calls succeeded. *)
Definition emitted (ms : list (option bytes)) : nat := length (omap id ms).

Lemma emitted_lt ms i j m :
  (i < j)%nat -> ms !! i = Some (Some m) -> (emitted (take i ms) < emitted (take j ms))%nat.
Proof.
  revert i j. induction ms as [|o ms IH]; intros i j Hij Hm; [done|]. destruct j as [|j]; [lia|].
  destruct i as [|i]; cbn in *.
  - injection Hm as ->. cbn. lia.
  - specialize (IH i j ltac:(lia) Hm). unfold emitted in *. destruct o; cbn; lia.
Qed.

Lemma emitted_le ms i : (emitted (take i ms) <= length ms)%nat.
Proof.
  revert i. induction ms as [|o ms IH]; intros [|i]; cbn; try lia. specialize (IH i). unfold emitted in *.
  destruct o; cbn; lia.
Qed.

Context `{!AEADLaws C}.

Lemma EncodeFrameAppend_cases dst f t meta payload padLen (g : G) :
  (exists dst' e g', EncodeFrameAppend dst f t meta payload padLen g = Ret (dst', Some e, f, g')) \/
  (exists pad spare g', EncodeFrameAppend dst f t meta payload padLen g =
     Ret (mkSlice (gs_data dst ++ frame_wire f t meta payload pad) spare, None, bump f (fa_counter f), g')).
Proof.
  destruct (encode_error t meta payload padLen) as [e|] eqn:He.
  - left. rewrite (EncodeFrameAppend_error _ _ _ _ _ _ _ _ He). eauto.
  - destruct (EncodeFrameAppend_ok dst f t meta payload padLen g He) as (s1 & s2 & ->).
    destruct (if padLen <=? 0 then _ else _) as [[pad|] g1]; [right|left]; eauto.
Qed.

(** Each message of a run is the reference encoding at its own counter. *)
Lemma encode_run_ok f xs :
  exists ms, encode_run f xs = Ret (ms, bumps (emitted ms) f) /\ length ms = length xs /\
  forall i x m, xs !! i = Some x -> ms !! i = Some (Some m) ->
    exists pad, m = frame_wire (bumps (emitted (take i ms)) f) (ec_type x) (ec_meta x) (ec_payload x) pad.
Proof.
  revert f. induction xs as [|x xs IH]; intros f; cbn [encode_run]; [by exists []|].
  destruct (EncodeFrameAppend_cases (ec_dst x) f (ec_type x) (ec_meta x) (ec_payload x) (ec_padLen x) (ec_gen x))
    as [(dst & e & g' & ->)|(pad & spare & g' & ->)]; cbn [mbind outcome_bind gs_data].
  - destruct (IH f) as (ms & -> & Hl & Hms). cbn [mbind outcome_bind]. exists (None :: ms). split; [done|].
    split; [by cbn; rewrite Hl|]. intros [|i] y m Hy Hm; [done|]. by apply (Hms i y m).
  - destruct (IH (bump f (fa_counter f))) as (ms & -> & Hl & Hms). cbn [mbind outcome_bind].
    rewrite drop_app_length. eexists (Some _ :: ms). split; [done|]. split; [by cbn; rewrite Hl|].
    intros [|i] y m Hy Hm; [|by apply (Hms i y m)]. injection Hy as <-. injection Hm as <-. by exists pad.
Qed.

(** The nonce announced is the one the message was sealed under. *)
Lemma nonce_of_wire f f' t meta payload pad :
  fa_prefix f' = fa_prefix f -> nonce_of f (frame_wire f' t meta payload pad) = composeNonce f (fa_counter f').
Proof.
  intros Hp. unfold nonce_of, composeNonce.
  assert (Hs : sub (frame_wire f' t meta payload pad) 4 12 = be_put 8 (fa_counter f')); [|by rewrite Hs].
  unfold frame_wire, frame_body. rewrite <-app_assoc, sub_app_l by llia. apply frame_header_fields.
Qed.
End EncoderRuns.

(** ** Properties *)

Section FrameProperties.
Context {G : Type} {C : Crypto G} {E : Entropy G} `{!AEADLaws C}.


(** C17: frame round trip: what [EncodeFrameAppend] appends, [DecodeFrame]
    decodes, in a context with the same key, prefix and counter, to the
    same type, meta and payload; both counters advance by one and the
    reader is left exactly at the end of the frame. *)
Theorem frame_roundtrip dst (f : FrameAEAD AEAD) t meta payload padLen g dst' f' g' r rest :
  0 <= fa_counter f < 2 ^ 64 ->
  EncodeFrameAppend dst f t meta payload padLen g = Ret (dst', None, f', g') ->
  rd_bytes r = drop (length (gs_data dst)) (gs_data dst') ++ rest ->
  exists r', DecodeFrame r f = (Ret (mkDecodedFrame (fa_counter f) t meta payload, f'), r') /\
    rd_bytes r' = rest /\ fa_counter f' = (fa_counter f + 1) mod 2 ^ 64.
Proof.
  intros Hc Henc Hr. destruct (encode_error t meta payload padLen) eqn:He.
  { by rewrite (EncodeFrameAppend_error _ _ _ _ _ _ _ _ He) in Henc. }
  destruct (EncodeFrameAppend_ok dst f t meta payload padLen g He) as (s1 & s2 & Heq).
  rewrite Heq in Henc. clear Heq.
  destruct (if padLen <=? 0 then _ else _) as [[pad|] g1] eqn:Epad; [|done].
  injection Henc as <- <- <-. cbn [gs_data] in Hr. rewrite drop_app_length in Hr.
  assert (Hl : len pad = Z.max 0 padLen).
  { destruct (Z.leb_spec padLen 0); [injection Epad as <- _; cbn; lia|].
    apply rand_fill_length in Epad. lia. }
  assert (He' : encode_error t meta payload (len pad) = None).
  { rewrite encode_error_None in He |- *. rewrite Hl.
    rewrite (Z.max_r 0 (Z.max 0 padLen)) by lia. unfold MaxFramePad in *. naive_solver lia. }
  destruct (DecodeFrame_wire r f t meta payload pad rest Hc He' Hr) as (r' & Hr' & ->). eauto.
Qed.

(** C18: acceptance is exact: for every input and every receive context,
    [DecodeFrame] does not panic, and if it succeeds then the bytes it
    consumed are the encoding, under the receiver's key and at the next
    expected counter, of exactly the type, meta and payload it returns
    (followed by the declared number of pad bytes), within every size
    limit the encoder enforces; the counter advances by one. *)
Theorem DecodeFrame_accepts_only_encodings r (f : FrameAEAD AEAD) :
  match DecodeFrame r f with
  | (Ret (df, f'), r') => accepted f (rd_bytes r) (rd_bytes r') df /\ f' = bump f (fa_counter f)
  | (Fail _, _) => True
  | (Panic, _) => False
  end.
Proof. apply DecodeFrame_inv. Qed.

(** a byte stream of frames is decoded in order and without loss: for
    any list of encodable frames, as many [DecodeFrame] calls on the
    concatenation of their encodings return the same frames in the same
    order and stop at the first byte after them, also across a wrap of the
    64-bit counter. *)
Theorem frame_stream_fifo xs r (f : FrameAEAD AEAD) rest :
  0 <= fa_counter f < 2 ^ 64 -> Forall fi_ok xs -> rd_bytes r = wire_all f xs ++ rest ->
  exists dfs r', decode_n (length xs) r f = (Ret (dfs, bumps (length xs) f), r') /\
    Forall2 decoded_as xs dfs /\ rd_bytes r' = rest.
Proof. apply decode_n_wire. Qed.

(** replayed, reordered or dropped frames are refused: a frame encoded
    at any counter other than the expected one gives [ErrCounterMismatch];
    in particular decoding the frame just accepted a second time does. *)
Theorem DecodeFrame_rejects_replay r (f fs : FrameAEAD AEAD) c t meta payload pad rest :
  0 <= c < 2 ^ 64 -> encode_error t meta payload (len pad) = None ->
  rd_bytes r = frame_body fs c t meta payload (len pad) ++ pad ++ rest ->
  c <> fa_counter f \/ f = bump fs c ->
  exists r', DecodeFrame r f = (Fail ErrCounterMismatch, r').
Proof.
  intros Hc He Hr Hne. apply (DecodeFrame_other_counter r f fs c t meta payload pad rest); [done| |done..].
  destruct Hne as [?| ->]; [done|]. cbn [bump set_counter fa_counter]. intros Heq.
  destruct (Z.lt_ge_cases (c + 1) (2 ^ 64)); [rewrite Z.mod_small in Heq; lia|].
  replace (c + 1) with (2 ^ 64) in Heq by lia. rewrite Z.mod_same in Heq by lia. lia.
Qed.

(** C29: no nonce reuse: for every sequence of fewer than 2^64 calls of
    [EncodeFrameAppend] on one context, with any arguments, any destination
    buffers and any randomness, failing calls included, no call panics, every
    message produced is a header, the ciphertext of its meta and payload
    sealed under the nonce made of the prefix of the context and the counter
    in that header, and pad bytes; and the nonces of any two messages differ. *)
Theorem frame_nonces_distinct (f : FrameAEAD AEAD) (xs : list (enc_call (G := G)))
    (Hf : 0 <= fa_counter f < 2 ^ 64) (Hxs : len xs < 2 ^ 64) :
  exists ms f', encode_run f xs = Ret (ms, f') /\ length ms = length xs /\
  (forall i x m, xs !! i = Some x -> ms !! i = Some (Some m) ->
     exists pad, m = sub m 0 17 ++ Seal (fa_aead f) (arr_list (nonce_of f m)) (ec_meta x ++ ec_payload x)
       (sub m 0 17) ++ pad) /\
  (forall i j m m', (i < j)%nat -> ms !! i = Some (Some m) -> ms !! j = Some (Some m') ->
    nonce_of f m <> nonce_of f m').
Proof.
  destruct (encode_run_ok f xs) as (ms & Hr & Hl & Hms). exists ms, (bumps (emitted ms) f). split; [done|].
  split; [done|].
  set (k i := emitted (take i ms)) in *.
  assert (Hnonce : forall i m, ms !! i = Some (Some m) -> nonce_of f m =
    composeNonce f ((fa_counter f + Z.of_nat (k i)) mod 2 ^ 64)).
  { intros i m Hm. destruct (lookup_lt_is_Some_2 xs i) as [x Hx]; [rewrite <-Hl; by eapply lookup_lt_Some|].
    destruct (Hms i x m Hx Hm) as [pad ->]. rewrite nonce_of_wire by apply bumps_key. by rewrite bumps_counter. }
  split.
  - intros i x m Hx Hm. pose proof (Hnonce i m Hm) as Hn. rewrite Hn. destruct (Hms i x m Hx Hm) as [pad ->].
    exists pad.
    rewrite <-bumps_counter by done. unfold k. destruct (bumps_key (emitted (take i ms)) f) as [Hk Hp].
    unfold frame_wire, frame_body. rewrite <-!app_assoc, (sub_app_l _ _ 0 17), sub_full, Hk by llia.
    unfold composeNonce. by rewrite Hp.
  - intros i j m m' Hij Hm Hm'. rewrite (Hnonce i m Hm), (Hnonce j m' Hm').
    pose proof (emitted_lt ms i j m Hij Hm) as Hlt. pose proof (emitted_le ms j) as Hle. fold (k i) (k j) in Hlt, Hle.
    intros H. apply composeNonce_inj in H; [|apply Z.mod_pos_bound; lia..].
    by apply (counters_differ (fa_counter f) (k i) (k j)) in H; [|lia..].
Qed.

(** the pad is not authenticated: replacing the pad bytes of a frame by
    any others of the same number, and appending any bytes after it, does
    not change what [DecodeFrame] returns (README, Rule 2: every byte after
    the handshake is authenticated and encrypted). *)
Theorem frame_pad_malleable r1 r2 (f : FrameAEAD AEAD) t meta payload pad pad' rest rest' :
  0 <= fa_counter f < 2 ^ 64 -> encode_error t meta payload (len pad) = None ->
  len pad' = len pad ->
  rd_bytes r1 = frame_body f (fa_counter f) t meta payload (len pad) ++ pad ++ rest ->
  rd_bytes r2 = frame_body f (fa_counter f) t meta payload (len pad) ++ pad' ++ rest' ->
  (DecodeFrame r1 f).1 = Ret (mkDecodedFrame (fa_counter f) t meta payload, bump f (fa_counter f)) /\
  (DecodeFrame r2 f).1 = (DecodeFrame r1 f).1.
Proof.
  intros Hc He Hl H1 H2.
  destruct (DecodeFrame_wire r1 f t meta payload pad rest) as (r' & _ & ->); [done|done| |].
  { unfold frame_wire. by rewrite <-app_assoc. }
  destruct (DecodeFrame_wire r2 f t meta payload pad' rest') as (r'' & _ & ->); [done| | |done].
  - by rewrite Hl.
  - unfold frame_wire. by rewrite <-app_assoc, Hl.
Qed.

(** wire size: an encoded frame is its [FrameLen] field plus the four
    bytes of the field, and at most [MaxFrameSize + 4] bytes long. *)
Theorem frame_wire_size (f : FrameAEAD AEAD) t meta payload pad :
  encode_error t meta payload (len pad) = None ->
  len (frame_wire f t meta payload pad) = frame_len meta payload (len pad) + 4 /\
  33 <= len (frame_wire f t meta payload pad) <= MaxFrameSize + 4.
Proof.
  intros (_ & _ & _ & Hf)%encode_error_None. rewrite Z.max_r in Hf by lia.
  unfold frame_wire. rewrite length_app, length_frame_body.
  unfold frame_len, MaxFrameSize in *. change aeadTagLen with 16 in *.
  change (frameHdrCounter + frameHdrType + frameHdrMetaLen + frameHdrPadLen) with 13 in *. lia.
Qed.
End FrameProperties.

(** ** Behaviour on malformed headers *)

Section FrameErrors.
Context {G : Type} {C : Crypto G} {E : Entropy G}.

(** a malformed header is refused without draining the frame: when
    [DecodeFrame] reports [ErrFrameTooLarge], [ErrMetaTooLarge] or
    [ErrPadTooLarge] it has consumed the 17 header bytes and nothing more
    (its comment says that on any error after the length has been consumed
    it still drains the rest of the frame). *)
Theorem DecodeFrame_limits_do_not_drain r (f : FrameAEAD AEAD) e :
  (DecodeFrame r f).1 = Fail e ->
  e = ErrFrameTooLarge \/ e = ErrMetaTooLarge \/ e = ErrPadTooLarge ->
  rd_err r = EOF ->
  rd_bytes (DecodeFrame r f).2 = drop 17 (rd_bytes r).
Proof.
  intros Hd He Heof. unfold DecodeFrame in *. change (Z.to_nat frameHeaderSize) with 17%nat in *.
  destruct (ReadFull_bytes 17 r) as (r1 & Hb1 & He1 & Heq). rewrite Heq in *. clear Heq.
  destruct (Nat.leb_spec 17 (length (rd_bytes r))) as [Hlen|]; cbn [sbind fst snd] in *; [|done].
  set (hdr := take 17 (rd_bytes r)) in *.
  assert (Hh : len hdr = 17) by (unfold hdr; llia).
  destruct (index_ok hdr 12) as (t & Hit & _); [lia|].
  unfold lift in *. rewrite !slice_ok, Hit in * by lia. cbn [sbind] in *.
  destruct (MaxFrameSize <? _); [done|]. destruct (MaxMetaLen <? _); [done|].
  destruct (MaxFramePad <? _); [done|]. destruct (_ <? _); [by destruct_or?; naive_solver|].
  set (n := Z.to_nat _) in *. destruct (ReadFull_bytes n r1) as (r2 & _ & He2 & Heq).
  rewrite Heq in *. clear Heq. exfalso. revert Hd.
  destruct (Nat.leb_spec n (length (rd_bytes r1))); cbn [sbind fst].
  - set (m := be_get _). intros Hd.
    assert (Hc : exists o r3, (if 0 <? m then CopyN_Discard (Z.to_nat m) r2 else (Ret tt, r2)) = (o, r3)
      /\ (o = Ret tt \/ o = Fail EOF)).
    { destruct (0 <? m); [|by eauto]. destruct (CopyN_bytes (Z.to_nat m) r2) as (r3 & _ & _ & ->).
      rewrite He2, He1, Heof. destruct (_ <=? _)%nat; eauto. }
    destruct Hc as (o & r3 & Ho & [-> | ->]); rewrite Ho in Hd; cbn [sbind fst] in Hd;
      [|naive_solver].
    destruct (negb _); [naive_solver|]. destruct (negb _); [naive_solver|].
    destruct (Open _ _ _ _) as [plain|]; [|naive_solver].
    destruct (Z.ltb_spec (len plain) (be_get (sub hdr 13 15))); [naive_solver|].
    pose proof (be_get_range (sub hdr 13 15)). rewrite !slice_ok in Hd by lia. done.
  - rewrite He1, Heof. destruct (_ && _); naive_solver.
Qed.
End FrameErrors.

(** ** Witnesses *)

Module FrameExamples.
Definition f0 : FrameAEAD (@AEAD _ Toy.crypto) :=
  mkFrameAEAD (replicate 32 Byte.x61) (to_arr 4 (str "npfx")) 7.
Definition payload0 : bytes := str "hello".
Definition pad0 : bytes := str "pad".
Definition wire0 : bytes := Eval vm_compute in frame_wire f0 FrameTCPData [] payload0 pad0.
Definition enc0 := EncodeFrameAppend (mkSlice [Byte.x2a] []) f0 FrameTCPData [] payload0 3 (5 : Toy.gen).
Definition enc0_buf : gslice := Eval vm_compute in
  match enc0 with Ret (d, _, _, _) => d | _ => mkSlice [] [] end.
Definition xs0 : list frame_in :=
  [mkFrameIn FrameTCPData [] payload0 pad0; mkFrameIn FramePing [] [] []].
(** A frame, one that is refused, and another frame. *)
Definition calls0 : list (enc_call (G := Toy.gen)) :=
  [mkEncCall (mkSlice [Byte.x2a] []) FrameTCPData [] payload0 3 5; mkEncCall (mkSlice [] []) FramePing [] [] 5000 5;
   mkEncCall (mkSlice [] []) FramePing [] payload0 0 5].
End FrameExamples.
Import FrameExamples.


Lemma frame_roundtrip_witness :
  exists r', DecodeFrame (bytes_NewReader (drop 1 (gs_data enc0_buf))) f0 =
      (Ret (mkDecodedFrame 7 FrameTCPData [] payload0, bump f0 7), r') /\
    rd_bytes r' = [] /\ fa_counter (bump f0 7) = 8.
Proof.
  apply (frame_roundtrip (mkSlice [Byte.x2a] []) f0 FrameTCPData [] payload0 3 (5 : Toy.gen)
           enc0_buf (bump f0 7) 6 (bytes_NewReader (drop 1 (gs_data enc0_buf))) []).
  - vm_compute. split; congruence.
  - vm_compute. reflexivity.
  - vm_compute. reflexivity.
Defined.

Lemma DecodeFrame_accepts_only_encodings_witness :
  accepted f0 wire0 [] (mkDecodedFrame 7 FrameTCPData [] payload0).
Proof.
  pose proof (DecodeFrame_accepts_only_encodings (bytes_NewReader wire0) f0) as H.
  destruct (DecodeFrame (bytes_NewReader wire0) f0) as [[[df f']|e|] r'] eqn:Ed;
    vm_compute in Ed; [|discriminate Ed..].
  injection Ed as <- _ <-. apply H.
Defined.

Lemma frame_stream_fifo_witness :
  exists dfs r', decode_n 2 (bytes_NewReader (wire_all f0 xs0)) f0 = (Ret (dfs, bumps 2 f0), r') /\
    Forall2 decoded_as xs0 dfs /\ rd_bytes r' = [].
Proof.
  apply (frame_stream_fifo xs0 (bytes_NewReader (wire_all f0 xs0)) f0 []).
  - vm_compute. split; congruence.
  - repeat constructor.
  - vm_compute. reflexivity.
Defined.

Lemma DecodeFrame_rejects_replay_witness :
  exists r', DecodeFrame (bytes_NewReader wire0) (bump f0 7) = (Fail ErrCounterMismatch, r').
Proof.
  apply (DecodeFrame_rejects_replay (bytes_NewReader wire0) (bump f0 7) f0 7 FrameTCPData [] payload0 pad0 []).
  - vm_compute. split; congruence.
  - vm_compute. reflexivity.
  - vm_compute. reflexivity.
  - right. reflexivity.
Defined.

Lemma frame_nonces_distinct_witness :
  exists ms f', encode_run f0 calls0 = Ret (ms, f') /\
  forall i j m m', (i < j)%nat -> ms !! i = Some (Some m) -> ms !! j = Some (Some m') ->
    nonce_of f0 m <> nonce_of f0 m'.
Proof.
  destruct (frame_nonces_distinct f0 calls0) as (ms & f' & Hr & _ & _ & H).
  - vm_compute. split; congruence.
  - vm_compute. reflexivity.
  - exists ms, f'. split; [exact Hr|exact H].
Defined.

Lemma frame_pad_malleable_witness :
  (DecodeFrame (bytes_NewReader wire0) f0).1 = Ret (mkDecodedFrame 7 FrameTCPData [] payload0, bump f0 7) /\
  (DecodeFrame (bytes_NewReader (frame_body f0 7 FrameTCPData [] payload0 3 ++ str "XYZtrail")) f0).1 =
  (DecodeFrame (bytes_NewReader wire0) f0).1.
Proof.
  apply (frame_pad_malleable (bytes_NewReader wire0)
           (bytes_NewReader (frame_body f0 7 FrameTCPData [] payload0 3 ++ str "XYZtrail"))
           f0 FrameTCPData [] payload0 pad0 (str "XYZ") [] (str "trail"));
    vm_compute; [split; congruence|reflexivity..].
Defined.

Lemma frame_wire_size_witness :
  len (frame_wire f0 FrameTCPData [] payload0 pad0) = frame_len [] payload0 3 + 4 /\
  33 <= len (frame_wire f0 FrameTCPData [] payload0 pad0) <= MaxFrameSize + 4.
Proof. apply (frame_wire_size f0 FrameTCPData [] payload0 pad0). vm_compute. reflexivity. Defined.

(** A header that declares 4097 pad bytes, followed by two more bytes. *)
Lemma DecodeFrame_limits_do_not_drain_witness :
  let l := be_put 4 5000 ++ be_put 8 7 ++ [FrameTCPData] ++ be_put 2 0 ++ be_put 2 4097 ++ str "zz" in
  rd_bytes (DecodeFrame (bytes_NewReader l) f0).2 = str "zz".
Proof.
  intros l.
  apply (DecodeFrame_limits_do_not_drain (bytes_NewReader l) f0 ErrPadTooLarge);
    [vm_compute; reflexivity|auto|reflexivity].
Defined.
