(* ===== verification/Replay.v ===== *)
(** * The anti-replay cache (src/anti_replay.go)

    The cache of (UUID, nonce) pairs, its admission test and its opportunistic
    sweep, against an abstract specification that remembers every admission
    and never forgets one.  [MarkSeenOrReject] reads the clock first and then
    takes the mutex of the cache.  A run is therefore the sequence of calls in
    the order in which they got the mutex, each with the clock reading it came
    with; nothing orders those readings, a call may wait for the mutex while
    later readings overtake it, and the wall clock may be set back. *)

From Stdlib Require Import Sorting.Sorted.
From S2P Require Import Prelude Crypto Kdf.

(** [time.Duration] is in nanoseconds. *)
Definition Second : Z := 10 ^ 9.

Definition ReplayWindow : Z := (HandshakeTimestampWindow + 60) * Second.

Definition gcInterval : Z := 1024.

Abbreviation replayKey := (arr (UUIDLen + HandshakeNonce)).

Definition makeReplayKey (uuid : arr UUIDLen) (nonce : arr HandshakeNonce) : replayKey :=
  to_arr (UUIDLen + HandshakeNonce) (arr_list uuid ++ arr_list nonce).

Record ReplayCache := mkReplayCache {
  entries : gmap replayKey Z;   (* unix-second expiry *)
  window : Z;                   (* a duration *)
  gcCounter : Z                 (* uint32 *)
}.

Definition NewReplayCache (window : Z) : ReplayCache := mkReplayCache ∅ window 0.

(** The sweep deletes expired entries while ranging over the map; Go visits
    the entries in an unspecified order, here any list of them. *)
Fixpoint gc_loop (now : Z) (order : list (replayKey * Z)) (m : gmap replayKey Z) : gmap replayKey Z :=
  match order with
  | [] => m
  | (k, exp) :: rest => gc_loop now rest (if exp <=? now then delete k m else m)
  end.

Definition gcLocked (now : Z) (c : ReplayCache) : ReplayCache :=
  mkReplayCache (gc_loop now (map_to_list (entries c)) (entries c)) (window c) (gcCounter c).

Definition MarkSeenOrReject (now : Z) (uuid : arr UUIDLen) (nonce : arr HandshakeNonce)
  (c : ReplayCache) : bool * ReplayCache :=
  let expiry := now + Z.quot (window c) Second in
  let key := makeReplayKey uuid nonce in
  let admitted :=
    let c := mkReplayCache (<[key := expiry]> (entries c)) (window c) ((gcCounter c + 1) mod 2 ^ 32) in
    if gcInterval <=? gcCounter c
    then (true, gcLocked now (mkReplayCache (entries c) (window c) 0))
    else (true, c) in
  match entries c !! key with
  | Some exp => if now <? exp then (false, c) else admitted
  | None => admitted
  end.

(** [Len] *)
Definition Len (c : ReplayCache) : nat := size (entries c).

(** ** The sweep *)

(** The map without its expired entries. *)
Definition live (now : Z) (m : gmap replayKey Z) : gmap replayKey Z :=
  filter (fun '(_, exp) => now < exp) m.

Lemma gc_loop_lookup now order m k :
  NoDup order.*1 -> (forall k e, (k, e) ∈ order -> m !! k = Some e) ->
  gc_loop now order m !! k =
    match m !! k with
    | Some e => if bool_decide ((k, e) ∈ order) && (e <=? now) then None else Some e
    | None => None
    end.
Proof.
  revert m. induction order as [|[k' e'] order IH]; intros m Hnd Hin; cbn [gc_loop].
  - destruct (m !! k); [|done]. by rewrite bool_decide_false by apply not_elem_of_nil.
  - inversion Hnd as [|?? Hni Hnd']; subst.
    assert (Hk' : m !! k' = Some e') by (apply Hin; left).
    rewrite IH; [|done|].
    + destruct (decide (k = k')) as [->|Hne].
      * rewrite Hk'. rewrite (bool_decide_true ((k', e') ∈ (k', e') :: order)) by left. cbn [andb].
        destruct (e' <=? now) eqn:Ee; [by rewrite lookup_delete_eq|].
        rewrite Hk', Ee. by rewrite andb_false_r.
      * assert (Hl : (if e' <=? now then delete k' m else m) !! k = m !! k)
          by (destruct (_ <=? _); [by rewrite lookup_delete_ne|done]).
        rewrite Hl. destruct (m !! k) as [e|]; [|done].
        rewrite (bool_decide_ext ((k, e) ∈ (k', e') :: order) ((k, e) ∈ order)); [done|].
        rewrite elem_of_cons. naive_solver.
    + intros k2 e2 H2. destruct (_ <=? _); [|apply Hin; by right].
      assert (k2 <> k').
      { intros ->. apply Hni. by apply (list_elem_of_fmap_2 fst _ (k', e2)). }
      rewrite lookup_delete_ne by done. apply Hin. by right.
Qed.

(** Whatever the order of the range loop, the sweep removes exactly the
    expired entries. *)
Lemma gc_loop_live now order m :
  order ≡ₚ map_to_list m -> gc_loop now order m = live now m.
Proof.
  intros Hp. apply map_eq. intros k.
  rewrite gc_loop_lookup.
  - unfold live. rewrite map_lookup_filter. destruct (m !! k) as [e|] eqn:Ek; cbn; [|done].
    rewrite bool_decide_true by (rewrite Hp; by apply elem_of_map_to_list). cbn [andb].
    unfold guard. destruct (Z.leb_spec e now); case_decide; (done || lia).
  - rewrite Hp. apply NoDup_fst_map_to_list.
  - intros k' e'. rewrite Hp. by intros ?%elem_of_map_to_list.
Qed.

Lemma gcLocked_live now c :
  gcLocked now c = mkReplayCache (live now (entries c)) (window c) (gcCounter c).
Proof. unfold gcLocked. by rewrite gc_loop_live. Qed.

Lemma live_lookup now m k :
  live now m !! k = match m !! k with Some e => if now <? e then Some e else None | None => None end.
Proof.
  unfold live. rewrite map_lookup_filter. destruct (m !! k) as [e|]; cbn; [|done].
  unfold guard. destruct (Z.ltb_spec now e); case_decide; (done || lia).
Qed.

(** ** Keys *)

Lemma makeReplayKey_inj u1 n1 u2 n2 :
  makeReplayKey u1 n1 = makeReplayKey u2 n2 -> u1 = u2 /\ n1 = n2.
Proof.
  unfold makeReplayKey. intros H%arr_list_inj. rewrite !to_arr_list in H by llia.
  apply app_inj_1 in H as [Hu Hn]; [|by rewrite !arr_length]. split; by apply arr_eq.
Qed.

(** ** The specification: remember every admission forever *)

Module ReplaySpec.
(** Admissions so far, each with its time. *)
Definition history := list (replayKey * Z).

(** [key] is blocked at [now] by an admission less than [w] seconds old. *)
Definition blocked (w now : Z) (key : replayKey) (h : history) : bool :=
  existsb (fun '(k, t) => bool_decide (k = key) && (now <? t + w)) h.

Definition step (w now : Z) (key : replayKey) (h : history) : bool * history :=
  if blocked w now key h then (false, h) else (true, (key, now) :: h).

Lemma blocked_true w now key h :
  blocked w now key h = true <-> exists t, (key, t) ∈ h /\ now < t + w.
Proof.
  unfold blocked. rewrite existsb_exists. split.
  - intros ([k t] & Hin%list_elem_of_In & Hb). apply andb_true_iff in Hb as [Hk Ht].
    apply bool_decide_eq_true in Hk as ->. exists t. split; [done|lia].
  - intros (t & Hin & Ht). exists (key, t). split; [by apply list_elem_of_In|].
    rewrite bool_decide_true by done. cbn. lia.
Qed.

Lemma blocked_false w now key h :
  blocked w now key h = false <-> forall t, (key, t) ∈ h -> t + w <= now.
Proof.
  rewrite <-not_true_iff_false, blocked_true. split.
  - intros H t Hin. destruct (Z.le_gt_cases (t + w) now); [done|]. exfalso. eauto.
  - intros H (t & Hin & ?). apply H in Hin. lia.
Qed.
End ReplaySpec.
Import ReplaySpec.

(** A call: the clock reading it took before the mutex, the UUID and the
    nonce; a list of calls is in the order of the mutex. *)
Definition call : Type := Z * arr UUIDLen * arr HandshakeNonce.
Definition call_time (x : call) : Z := x.1.1.
Definition call_key (x : call) : replayKey := makeReplayKey x.1.2 x.2.

Fixpoint run_cache (c : ReplayCache) (xs : list call) : list bool * ReplayCache :=
  match xs with
  | [] => ([], c)
  | (now, u, n) :: xs =>
      let '(b, c) := MarkSeenOrReject now u n c in
      let '(bs, c) := run_cache c xs in (b :: bs, c)
  end.

Fixpoint run_spec (w : Z) (h : history) (xs : list call) : list bool :=
  match xs with
  | [] => []
  | x :: xs => let '(b, h) := step w (call_time x) (call_key x) h in b :: run_spec w h xs
  end.

(** The simulation relation: an entry is the newest admission of its key plus
    the window; a key without entry has only admissions that have expired by
    the last clock reading. *)
Record simulates (w last : Z) (h : history) (c : ReplayCache) : Prop := {
  sim_window : Z.quot (window c) Second = w;
  sim_past : forall k t, (k, t) ∈ h -> t <= last;
  sim_some : forall k e, entries c !! k = Some e ->
    exists t, (k, t) ∈ h /\ e = t + w /\ (forall t', (k, t') ∈ h -> t' <= t);
  sim_none : forall k t, entries c !! k = None -> (k, t) ∈ h -> t + w <= last
}.

(** Moving the clock forward and sweeping keep the relation. *)
Lemma simulates_later w last last' h c :
  last <= last' -> simulates w last h c -> simulates w last' h c.
Proof.
  intros Hl []. split; [done|..]; [|done|].
  - intros k t H. apply sim_past0 in H. lia.
  - intros k t H1 H2. pose proof (sim_none0 k t H1 H2). lia.
Qed.

Lemma simulates_gc w now h c :
  simulates w now h c -> simulates w now h (gcLocked now c).
Proof.
  intros []. rewrite gcLocked_live. split; cbn [entries window]; [done|done|..].
  - intros k e. rewrite live_lookup. destruct (entries c !! k) as [e'|] eqn:Ek; [|done].
    destruct (now <? e'); [|done]. intros [= <-]. eauto.
  - intros k t. rewrite live_lookup. destruct (entries c !! k) as [e'|] eqn:Ek; [|by eauto].
    destruct (Z.ltb_spec now e'); [done|]. intros _ Hin.
    destruct (sim_some0 k e' Ek) as (t0 & _ & -> & Hmax). apply Hmax in Hin. lia.
Qed.

Lemma simulates_admit w now h c key gc :
  simulates w now h c ->
  simulates w now ((key, now) :: h) (mkReplayCache (<[key := now + w]> (entries c)) (window c) gc).
Proof.
  intros []. split; cbn [entries window]; [done|..].
  - intros k t. rewrite elem_of_cons. intros [[= -> ->]|H]; [lia|eauto].
  - intros k e. rewrite lookup_insert. case_decide as Ek.
    + intros [= <-]. subst k. exists now. split; [left|]. split; [done|].
      intros t'. rewrite elem_of_cons. intros [[= ->]|H]; [lia|eauto].
    + intros He. destruct (sim_some0 k e He) as (t & Hin & -> & Hmax). exists t.
      split; [by right|]. split; [done|]. intros t'. rewrite elem_of_cons.
      intros [[= -> ->]|H]; [done|eauto].
  - intros k t. rewrite lookup_insert. case_decide as Ek; [done|]. intros He.
    rewrite elem_of_cons. intros [[= -> ->]|H]; [done|eauto].
Qed.

Lemma simulates_blocked w now h c key :
  simulates w now h c ->
  blocked w now key h = match entries c !! key with Some e => now <? e | None => false end.
Proof.
  intros []. destruct (entries c !! key) as [e|] eqn:Ek.
  - destruct (sim_some0 key e Ek) as (t & Hin & -> & Hmax).
    destruct (Z.ltb_spec now (t + w)); [apply blocked_true; eauto|].
    apply blocked_false. intros t' ?%Hmax. lia.
  - apply blocked_false. eauto.
Qed.

Lemma MarkSeenOrReject_simulates w last now h c u n :
  last <= now -> simulates w last h c ->
  let '(b, c') := MarkSeenOrReject now u n c in
  let '(b', h') := step w now (makeReplayKey u n) h in
  b = b' /\ simulates w now h' c'.
Proof.
  intros Hl Hs%(simulates_later w last now h c Hl).
  unfold MarkSeenOrReject, step. rewrite (simulates_blocked w now h c) by done.
  rewrite (sim_window _ _ _ _ Hs). set (key := makeReplayKey u n).
  assert (Hadm : let '(b, c') :=
      (let c := mkReplayCache (<[key := now + w]> (entries c)) (window c) ((gcCounter c + 1) mod 2 ^ 32) in
       if gcInterval <=? gcCounter c
       then (true, gcLocked now (mkReplayCache (entries c) (window c) 0)) else (true, c)) in
      b = true /\ simulates w now ((key, now) :: h) c').
  { cbn [gcCounter entries window].
    destruct (_ <=? _); (split; [done|]); [apply simulates_gc|]; by apply simulates_admit. }
  destruct (entries c !! key) as [e|]; [destruct (now <? e); [done|]|]; apply Hadm.
Qed.

Lemma run_cache_spec w last h c xs :
  simulates w last h c -> Forall (fun x => last <= call_time x) xs ->
  StronglySorted (fun x y => call_time x <= call_time y) xs ->
  (run_cache c xs).1 = run_spec w h xs.
Proof.
  revert last h c. induction xs as [|[[now u] n] xs IH]; intros last h c Hs Hle Hsort; [done|].
  inversion Hle as [|?? Hnow _]; subst. inversion Hsort as [|?? Hsort' Hall]; subst.
  cbn [run_cache run_spec]. change (call_time (now, u, n)) with now in *.
  change (call_key (now, u, n)) with (makeReplayKey u n).
  pose proof (MarkSeenOrReject_simulates w last now h c u n Hnow Hs) as Hstep.
  destruct (MarkSeenOrReject now u n c) as [b c'], (step w now (makeReplayKey u n) h) as [b' h'].
  destruct Hstep as [-> Hs']. specialize (IH now h' c' Hs' Hall Hsort').
  destruct (run_cache c' xs) as [bs c'']. cbn in *. by rewrite IH.
Qed.

Lemma NewReplayCache_simulates w last : simulates (Z.quot w Second) last [] (NewReplayCache w).
Proof. split; cbn; [done|set_solver..]. Qed.

Lemma run_cache_sorted w xs :
  StronglySorted (fun x y => call_time x <= call_time y) xs ->
  (run_cache (NewReplayCache w) xs).1 = run_spec (Z.quot w Second) [] xs.
Proof.
  intros Hs. destruct xs as [|x xs]; [done|].
  apply (run_cache_spec _ (call_time x)); [apply NewReplayCache_simulates| |done].
  inversion Hs as [|?? _ Hall]; subst. constructor; [lia|]. done.
Qed.

(** The decisions of the specification, call by call. *)
Lemma run_spec_lookup w h xs j x :
  xs !! j = Some x ->
  exists b, run_spec w h xs !! j = Some b /\
  (b = true <->
    (forall t, (call_key x, t) ∈ h -> t + w <= call_time x) /\
    (forall i y, (i < j)%nat -> xs !! i = Some y -> call_key y = call_key x ->
       run_spec w h xs !! i = Some true -> call_time y + w <= call_time x)).
Proof.
  revert h j. induction xs as [|x0 xs IH]; intros h j Hj; [done|]. cbn [run_spec]. unfold step.
  destruct j as [|j].
  - injection Hj as ->.
    destruct (blocked w (call_time x) (call_key x) h) eqn:Eb.
    + exists false. split; [done|]. split; [done|]. intros [Hh _].
      assert (blocked w (call_time x) (call_key x) h = false) by by apply blocked_false. congruence.
    + exists true. split; [done|]. split; [|done]. intros _. split; [by apply blocked_false|lia].
  - cbn in Hj. destruct (blocked w (call_time x0) (call_key x0) h) eqn:Eb.
    + destruct (IH h j Hj) as (b & Hb & Hiff). exists b. split; [done|]. rewrite Hiff.
      split; intros [H1 H2]; (split; [done|]).
      * intros [|i] y Hi Hy Hk Ht; [done|]. apply (H2 i y); [lia|done..].
      * intros i y Hi Hy Hk Ht. apply (H2 (S i) y); [lia|done..].
    + destruct (IH ((call_key x0, call_time x0) :: h) j Hj) as (b & Hb & Hiff).
      exists b. split; [done|]. rewrite Hiff. split; intros [H1 H2].
      * split; [intros t Ht; apply H1; by right|]. intros [|i] y Hi Hy Hk Ht.
        -- injection Hy as ->. apply H1. rewrite Hk. left.
        -- apply (H2 i y); [lia|done..].
      * split.
        -- intros t. rewrite elem_of_cons. intros [[Hk ->]%pair_eq|Ht]; [|by apply H1].
           apply (H2 O x0); [lia|done..].
        -- intros i y Hi Hy Hk Ht. apply (H2 (S i) y); [lia|done..].
Qed.

(** ** Any order of clock readings *)

(** An entry stays, and blocks its pair, as long as no call comes with a
    reading at which it has expired. *)
Lemma MarkSeenOrReject_keeps now u n c k e :
  entries c !! k = Some e -> now < e ->
  let '(b, c') := MarkSeenOrReject now u n c in
  entries c' !! k = Some e /\ (makeReplayKey u n = k -> b = false).
Proof.
  intros He Hlt. unfold MarkSeenOrReject. rewrite gcLocked_live. cbn [gcCounter entries window].
  destruct (decide (makeReplayKey u n = k)) as [->|Hne].
  { rewrite He, (proj2 (Z.ltb_lt _ _)) by done. done. }
  repeat case_match; simplify_eq; cbn [entries]; (split; [|done]);
    rewrite ?live_lookup, ?lookup_insert_ne, ?He, ?(proj2 (Z.ltb_lt _ _)) by done; done.
Qed.

(** An admission leaves its entry, unless it sweeps it at once because the
    window is not positive. *)
Lemma MarkSeenOrReject_enters now u n c c' :
  MarkSeenOrReject now u n c = (true, c') ->
  let e := now + Z.quot (window c) Second in
  entries c' !! makeReplayKey u n = Some e \/ e <= now.
Proof.
  unfold MarkSeenOrReject. rewrite gcLocked_live. cbn [gcCounter entries window]. intros H. cbn zeta.
  destruct (Z.ltb_spec now (now + Z.quot (window c) Second)) as [Hlt|]; [left|by right].
  repeat case_match; simplify_eq; cbn [entries];
    rewrite ?live_lookup, lookup_insert_eq, ?(proj2 (Z.ltb_lt _ _)) by done; done.
Qed.

Lemma MarkSeenOrReject_window now u n c : window (MarkSeenOrReject now u n c).2 = window c.
Proof. unfold MarkSeenOrReject. by repeat case_match. Qed.

(** A rejection is due to an entry, and an entry to an admission. *)
Lemma MarkSeenOrReject_rejects now u n c c' :
  MarkSeenOrReject now u n c = (false, c') ->
  c' = c /\ exists e, entries c !! makeReplayKey u n = Some e /\ now < e.
Proof.
  unfold MarkSeenOrReject. intros H. repeat case_match; simplify_eq. split; [done|]. eexists. split; [done|]. lia.
Qed.

Lemma MarkSeenOrReject_entries now u n c k e :
  let '(b, c') := MarkSeenOrReject now u n c in
  entries c' !! k = Some e ->
  entries c !! k = Some e \/ (b = true /\ k = makeReplayKey u n /\ e = now + Z.quot (window c) Second).
Proof.
  unfold MarkSeenOrReject. rewrite gcLocked_live. cbn [gcCounter entries window].
  destruct (decide (k = makeReplayKey u n)) as [->|Hne];
    repeat case_match; simplify_eq; cbn [entries]; rewrite ?live_lookup, ?lookup_insert_eq, ?lookup_insert_ne by done;
    repeat case_match; naive_solver.
Qed.

(** A pair that has an entry passes only after a call whose reading is not
    before [t]. *)
Lemma run_cache_blocks c xs k e t j x :
  entries c !! k = Some e -> t <= e -> xs !! j = Some x -> call_key x = k ->
  (run_cache c xs).1 !! j = Some true ->
  exists m z, (m <= j)%nat /\ xs !! m = Some z /\ t <= call_time z.
Proof.
  revert c j. induction xs as [|[[now u] n] xs IH]; intros c j He Hte Hx Hk Hr; [done|]. cbn [run_cache] in Hr.
  destruct (Z.le_gt_cases t now) as [Hle|Hlt].
  { exists 0%nat, (now, u, n). split; [lia|]. by split. }
  pose proof (MarkSeenOrReject_keeps now u n c k e He ltac:(lia)) as Hm.
  destruct (MarkSeenOrReject now u n c) as [b c1]. destruct Hm as [He1 Hb].
  destruct j as [|j].
  { injection Hx as <-. rewrite (Hb Hk) in Hr. by destruct (run_cache c1 xs). }
  specialize (IH c1 j He1 Hte Hx Hk). destruct (run_cache c1 xs) as [bs c2].
  destruct (IH Hr) as (m & z & Hm & Hz & Ht). exists (S m), z. split; [lia|]. by split.
Qed.

(** Two admissions of a pair: some call from the first to the second came with
    a reading at which the first has expired. *)
Lemma run_cache_spaced c xs i j y x :
  (i < j)%nat -> xs !! i = Some y -> xs !! j = Some x -> call_key y = call_key x ->
  (run_cache c xs).1 !! i = Some true -> (run_cache c xs).1 !! j = Some true ->
  exists m z, (i <= m <= j)%nat /\ xs !! m = Some z /\ call_time y + Z.quot (window c) Second <= call_time z.
Proof.
  revert c i j. induction xs as [|[[now u] n] xs IH]; intros c i j Hij Hy Hx Hk Hri Hrj; [done|].
  cbn [run_cache] in Hri, Hrj. pose proof (MarkSeenOrReject_window now u n c) as Hw.
  destruct (MarkSeenOrReject now u n c) as [b c1] eqn:Hm. cbn in Hw.
  destruct j as [|j]; [lia|]. destruct i as [|i].
  - injection Hy as <-. destruct b; [|by destruct (run_cache c1 xs)].
    destruct (MarkSeenOrReject_enters now u n c c1 Hm) as [He|He].
    + pose proof (run_cache_blocks c1 xs _ _ _ j x He (Z.le_refl _) Hx (eq_sym Hk)) as Hb.
      destruct (run_cache c1 xs) as [bs c2]. destruct (Hb Hrj) as (m & z & Hmj & Hz & Ht).
      exists (S m), z. split; [lia|]. by split.
    + exists 0%nat, (now, u, n). split; [lia|]. by split.
  - specialize (IH c1 i j ltac:(lia) Hy Hx Hk). destruct (run_cache c1 xs) as [bs c2].
    destruct (IH Hri Hrj) as (m & z & Hmj & Hz & Ht). rewrite Hw in Ht. exists (S m), z. split; [lia|]. by split.
Qed.

(** A rejected pair was in the cache, or was admitted before. *)
Lemma run_cache_rejects c xs j x :
  xs !! j = Some x -> (run_cache c xs).1 !! j = Some false ->
  (exists e, entries c !! call_key x = Some e /\ call_time x < e) \/
  (exists i y, (i < j)%nat /\ xs !! i = Some y /\ call_key y = call_key x /\
     (run_cache c xs).1 !! i = Some true /\ call_time x < call_time y + Z.quot (window c) Second).
Proof.
  revert c j. induction xs as [|[[now u] n] xs IH]; intros c j Hx Hr; [done|]. cbn [run_cache] in *.
  pose proof (MarkSeenOrReject_window now u n c) as Hw.
  pose proof (MarkSeenOrReject_entries now u n c (call_key x)) as Hen.
  destruct (MarkSeenOrReject now u n c) as [b c1] eqn:Hm. cbn in Hw.
  destruct j as [|j].
  - injection Hx as <-. left. destruct b; [by destruct (run_cache c1 xs)|].
    by apply MarkSeenOrReject_rejects in Hm as [_ ?].
  - specialize (IH c1 j Hx). destruct (run_cache c1 xs) as [bs c2].
    destruct (IH Hr) as [(e & He & Ht)|(i & y & Hi & Hy & Hk & Hri & Ht)].
    + destruct (Hen e He) as [He'|(-> & Hk & ->)]; [left; eauto|right].
      exists 0%nat, (now, u, n). split_and!; [lia|done|done|done|done].
    + right. rewrite Hw in Ht. exists (S i), y. split_and!; [lia|done..].
Qed.

Lemma run_cache_length c xs : length (run_cache c xs).1 = length xs.
Proof.
  revert c. induction xs as [|[[now u] n] xs IH]; intros c; [done|]. cbn [run_cache].
  destruct (MarkSeenOrReject now u n c) as [b c1]. specialize (IH c1). destruct (run_cache c1 xs). cbn in *.
  by rewrite IH.
Qed.

(** An admitted pair is admitted again once its window has passed. *)
Lemma MarkSeenOrReject_again now now' u n c c' :
  MarkSeenOrReject now u n c = (true, c') -> now + Z.quot (window c) Second <= now' ->
  (MarkSeenOrReject now' u n c').1 = true.
Proof.
  intros Hm Hle. assert (He : forall e, entries c' !! makeReplayKey u n = Some e -> e <= now').
  { revert Hm. unfold MarkSeenOrReject. cbn [gcCounter entries window]. rewrite gcLocked_live.
    destruct (entries c !! _) as [e|]; [destruct (now <? e); [done|]|];
      destruct (_ <=? _); intros [= <-] e' He'; cbn [entries] in He';
      rewrite ?live_lookup, lookup_insert_eq in He'; repeat case_match; by simplify_eq. }
  unfold MarkSeenOrReject. destruct (entries c' !! _) as [e|]; [|by destruct (_ <=? _)].
  rewrite (proj2 (Z.ltb_ge _ _)) by eauto. by destruct (_ <=? _).
Qed.

(** Caches reachable from a fresh one, under any clock. *)
Inductive reachable (w : Z) : ReplayCache -> Prop :=
  | reach_new : reachable w (NewReplayCache w)
  | reach_mark now u n c : reachable w c -> reachable w (MarkSeenOrReject now u n c).2.

(** The two ways an admission changes the cache. *)
Lemma MarkSeenOrReject_admits now u n c :
  0 <= gcCounter c < gcInterval -> (MarkSeenOrReject now u n c).1 = true ->
  let m := <[makeReplayKey u n := now + Z.quot (window c) Second]> (entries c) in
  (MarkSeenOrReject now u n c).2 =
    if gcCounter c =? gcInterval - 1 then mkReplayCache (live now m) (window c) 0
    else mkReplayCache m (window c) (gcCounter c + 1).
Proof.
  intros Hc. unfold MarkSeenOrReject, gcInterval in *. cbn [gcCounter entries window].
  rewrite (Z.mod_small (gcCounter c + 1)) by lia. rewrite gcLocked_live. cbn [gcCounter entries window].
  destruct (entries c !! _) as [e|]; [destruct (now <? e); [done|]|]; intros _;
    destruct (Z.leb_spec 1024 (gcCounter c + 1)), (Z.eqb_spec (gcCounter c) (1024 - 1)); (done || lia).
Qed.

Lemma reachable_gcCounter w c : reachable w c -> 0 <= gcCounter c < gcInterval.
Proof.
  induction 1 as [|now u n c _ IH]; [done|].
  destruct (MarkSeenOrReject now u n c).1 eqn:Eb.
  - rewrite MarkSeenOrReject_admits by done. destruct (Z.eqb_spec (gcCounter c) (gcInterval - 1)); cbn; lia.
  - unfold MarkSeenOrReject in *. destruct (entries c !! _) as [e|]; [destruct (now <? e); [done|]|];
      by destruct (_ <=? _).
Qed.

(** ** Properties *)

(** C19: the cache on every sequence of calls, in the order in which they got
    the mutex and whatever clock readings they came with.  (1) Every call is
    answered, and a rejected call has an earlier admitted call of the same
    UUID and nonce to which its reading is less than the window: no other pair
    and no older admission causes a rejection.  (2) If a UUID and nonce are
    admitted twice, some call from the first of the two to the second came
    with a reading at least the window after that of the first: only a clock
    that has moved on by the window lets a pair pass again.  (3) When the
    readings are in the order of the mutex, the answers are exactly those of
    the specification that remembers every admission forever, although sweeps
    forget entries: a pair is rejected iff it was admitted less than the
    window ago. *)
Theorem replay_cache_refines_spec w xs :
  let ok := (run_cache (NewReplayCache w) xs).1 in
  let ws := Z.quot w Second in
  length ok = length xs /\
  (forall j t u n, xs !! j = Some (t, u, n) -> ok !! j = Some false ->
     exists i t', (i < j)%nat /\ xs !! i = Some (t', u, n) /\ ok !! i = Some true /\ t < t' + ws) /\
  (forall i j t t' u n, (i < j)%nat -> xs !! i = Some (t, u, n) -> xs !! j = Some (t', u, n) ->
     ok !! i = Some true -> ok !! j = Some true ->
     exists m z, (i <= m <= j)%nat /\ xs !! m = Some z /\ t + ws <= call_time z) /\
  (StronglySorted (fun x y => call_time x <= call_time y) xs -> ok = run_spec ws [] xs).
Proof.
  cbn zeta. split_and!.
  - apply run_cache_length.
  - intros j t u n Hx Hr. destruct (run_cache_rejects (NewReplayCache w) xs j _ Hx Hr)
      as [(e & He & _)|(i & [[t' u'] n'] & Hi & Hy & Hk & Hri & Ht)]; [by cbn [NewReplayCache entries] in He;
        rewrite lookup_empty in He|].
    apply makeReplayKey_inj in Hk as [Hu Hn]. cbn in Hu, Hn. subst. exists i, t'. by split_and!.
  - intros i j t t' u n Hij Hy Hx. exact (run_cache_spaced (NewReplayCache w) xs i j _ _ Hij Hy Hx eq_refl).
  - apply run_cache_sorted.
Qed.

(** the decision of each call, in full: under a non-decreasing clock,
    the [j]-th call is admitted iff every earlier admitted call with the same
    UUID and the same nonce is at least the window old.  Calls with another
    UUID or another nonce never interfere, and a pair is admitted again once
    the window has elapsed. *)
Theorem replay_cache_decision w xs j t u n :
  StronglySorted (fun x y => call_time x <= call_time y) xs ->
  xs !! j = Some (t, u, n) ->
  exists b, (run_cache (NewReplayCache w) xs).1 !! j = Some b /\
  (b = true <-> forall i t', (i < j)%nat -> xs !! i = Some (t', u, n) ->
     (run_cache (NewReplayCache w) xs).1 !! i = Some true -> t' + Z.quot w Second <= t).
Proof.
  intros Hs Hj.
  rewrite (run_cache_sorted w xs Hs). destruct (run_spec_lookup (Z.quot w Second) [] xs j _ Hj) as (b & Hb & Hiff).
  exists b. split; [done|]. rewrite Hiff. split.
  - intros [_ H] i t' Hi Ht' Hr. by apply (H i (t', u, n)).
  - intros H. split; [by intros t0 ?%elem_of_nil|]. intros i [[t' u'] n'] Hi Ht' Hk Hr.
    apply makeReplayKey_inj in Hk as [Hu Hn]. cbn in Hu, Hn. subst. by apply (H i t').
Qed.

(** the sweep is exact and order-independent: for every order in which
    the range loop visits the entries, it removes the entries that have
    expired and no other. *)
Theorem replay_gc_exact now c order :
  order ≡ₚ map_to_list (entries c) ->
  gc_loop now order (entries c) = entries (gcLocked now c) /\
  forall k, entries (gcLocked now c) !! k =
    match entries c !! k with Some e => if now <? e then Some e else None | None => None end.
Proof.
  intros Hp. rewrite gcLocked_live. cbn [entries]. split; [by apply gc_loop_live|].
  intros k. apply live_lookup.
Qed.

(** bounded staleness: in every reachable cache the admission counter is
    below [gcInterval] (so the [uint32] never wraps); an admission either
    counts one more, or, when it is the 1024th since the last sweep, resets
    the counter and leaves no expired entry behind. *)
Theorem replay_sweep_period w c now u n :
  reachable w c ->
  0 <= gcCounter c < gcInterval /\
  ((MarkSeenOrReject now u n c).1 = true ->
   let c' := (MarkSeenOrReject now u n c).2 in
   if gcCounter c =? gcInterval - 1
   then gcCounter c' = 0 /\ (forall k e, entries c' !! k = Some e -> now < e)
   else gcCounter c' = gcCounter c + 1).
Proof.
  intros Hr%reachable_gcCounter. split; [done|]. intros Hadm. cbv zeta.
  rewrite MarkSeenOrReject_admits by done. destruct (_ =? _); [|done]. split; [done|].
  intros k e. cbn [entries]. rewrite live_lookup. destruct (_ !! k) as [e'|]; [|done].
  destruct (Z.ltb_spec now e'); [|done]. by intros [= <-].
Qed.

(** ** Witnesses *)

Module ReplayExamples.
Definition u0 : arr UUIDLen := to_arr 16 (str "user-a").
Definition n0 : arr HandshakeNonce := to_arr 12 (str "nonce-1").
Definition n1 : arr HandshakeNonce := to_arr 12 (str "nonce-2").
Definition calls : list call := [(100, u0, n0); (150, u0, n0); (200, u0, n1); (280, u0, n0)].
Lemma calls_sorted : StronglySorted (fun x y => call_time x <= call_time y) calls.
Proof. repeat constructor; vm_compute; congruence. Qed.
Definition nth_nonce (i : nat) : arr HandshakeNonce := to_arr 12 (be_put 4 (Z.of_nat i)).
Definition late_calls : list call :=
  (100, u0, n0) :: ((fun i => (280, u0, nth_nonce i)) <$> seq 0 1023) ++ [(150, u0, n0)].
End ReplayExamples.
Import ReplayExamples.

(** The pair is admitted at 100; 1023 other pairs bring the readings to 280
    and cause a sweep; a call that read 150 before all of them gets the mutex
    last, and passes. *)
Lemma replay_cache_refines_spec_witness :
  (run_cache (NewReplayCache ReplayWindow) calls).1 = run_spec 180 [] calls /\
  run_spec 180 [] calls = [true; false; true; true] /\
  exists m z, (0 <= m <= 1024)%nat /\ late_calls !! m = Some z /\ 100 + 180 <= call_time z.
Proof.
  split; [apply (replay_cache_refines_spec ReplayWindow calls), calls_sorted|].
  split; [vm_compute; reflexivity|].
  destruct (replay_cache_refines_spec ReplayWindow late_calls) as (_ & _ & H & _).
  apply (H 0%nat 1024%nat 100 150 u0 n0).
  - lia.
  - vm_compute; reflexivity.
  - vm_compute; reflexivity.
  - vm_compute; reflexivity.
  - vm_compute; reflexivity.
Defined.

Lemma replay_cache_decision_witness :
  exists b, (run_cache (NewReplayCache ReplayWindow) calls).1 !! 1%nat = Some b /\
  (b = true <-> forall i t', (i < 1)%nat -> calls !! i = Some (t', u0, n0) ->
     (run_cache (NewReplayCache ReplayWindow) calls).1 !! i = Some true -> t' + 180 <= 150).
Proof. apply (replay_cache_decision ReplayWindow calls 1 150 u0 n0 calls_sorted). reflexivity. Defined.

Lemma replay_gc_exact_witness :
  let c := (run_cache (NewReplayCache ReplayWindow) calls).2 in
  gc_loop 400 (map_to_list (entries c)) (entries c) = entries (gcLocked 400 c) /\
  forall k, entries (gcLocked 400 c) !! k =
    match entries c !! k with Some e => if 400 <? e then Some e else None | None => None end.
Proof. intros c. apply replay_gc_exact. reflexivity. Defined.

Lemma replay_sweep_period_witness :
  0 <= gcCounter (NewReplayCache ReplayWindow) < gcInterval /\
  gcCounter (MarkSeenOrReject 100 u0 n0 (NewReplayCache ReplayWindow)).2 = 1.
Proof.
  destruct (replay_sweep_period ReplayWindow _ 100 u0 n0 (reach_new ReplayWindow)) as [H1 H2].
  split; [exact H1|]. apply H2. vm_compute. reflexivity.
Defined.
