(* ===== verification/Handshake.v ===== *)
(** * The handshake (src/handshake.go)

    ClientHello and ServerHello: their codecs, the client side
    ([WriteClientHello], [ReadServerHello]) and the server side
    ([AcceptClientHelloWithReplay], [MakeUUIDLookup]).  Every [time.Now()]
    of the source is an argument; the randomness source and the transport
    are states that are passed along. *)

From S2P Require Import Prelude Address Crypto Io Kdf Padding Frame Replay.

(** ** Data *)

(** [type Command byte] *)
Abbreviation Command := byte.
Definition CommandTCP : Command := Byte.x01.
Definition CommandUDP : Command := Byte.x02.

(** [cmd == CommandTCP || cmd == CommandUDP] *)
Definition command_ok (c : Command) : bool := bool_decide (c = CommandTCP \/ c = CommandUDP).

Record ClientHello := mkClientHello {
  ch_Nonce : arr HandshakeNonce;
  ch_ClassicalPub : arr X25519PubLen;
  ch_PQPub : arr MLKEM768PubLen;
  ch_Timestamp : Z;          (* uint32 *)
  ch_UUID : arr UUIDLen;
  ch_Command : Command;
  ch_Address : Address
}.

Record ServerHello := mkServerHello {
  sh_NonceEcho : arr HandshakeNonce;
  sh_ClassicalPub : arr X25519PubLen;
  sh_PQCipher : arr MLKEM768CipherL;
  sh_ServerTime : Z;         (* uint32 *)
  sh_Status : byte
}.

#[global] Instance ClientHello_eq_dec : EqDecision ClientHello.
Proof. solve_decision. Defined.
#[global] Instance ServerHello_eq_dec : EqDecision ServerHello.
Proof. solve_decision. Defined.

(** The two pointers of the Go struct are options. *)
Record HandshakeResult := mkHandshakeResult {
  hr_Keys : SessionKeys;
  hr_ClientHello : option ClientHello;
  hr_ServerHello : option ServerHello
}.

(** The ephemeral keys are pointers, [nil] ([None]) once scrubbed.  The record
    is parameterised by the types of the two private keys. *)
Record ClientHandshakeState (X M : Type) := mkClientHandshakeState {
  st_uuid : arr UUIDLen;
  st_nonce : arr HandshakeNonce;
  st_x25519Priv : option X;
  st_mlkemPriv : option M;
  st_hello : ClientHello
}.
Arguments mkClientHandshakeState {X M} _ _ _ _ _.
Arguments st_uuid {X M} _.
Arguments st_nonce {X M} _.
Arguments st_x25519Priv {X M} _.
Arguments st_mlkemPriv {X M} _.
Arguments st_hello {X M} _.

(** ** Constants and errors *)

Definition chacha20poly1305Overhead : Z := 16.

(** Failures reported by the key exchange packages. *)
Definition ErrKeygen : error := ErrExt 1.
Definition ErrPublicKey : error := ErrExt 2.
Definition ErrECDH : error := ErrExt 3.
Definition ErrDecapsulate : error := ErrExt 4.

Definition absDiff (a b : Z) : Z := if b <? a then a - b else b - a.

(** [uint32(time.Now().Unix())] *)
Definition unix32 (now : Z) : Z := now mod 2 ^ 32.

Section Handshake.
Context {G : Type} {C : Crypto G} {E : Entropy G}.

Definition newHandshakeAEAD (key : arr AEADKeyLen) : outcome AEAD :=
  wrap_err "ewp/v2: handshake AEAD construct" (newChaChaAEAD key).

(** ** Wire codecs *)

Definition EncodeClientHello (ch : ClientHello) (g : G) : outcome bytes * G :=
  letS appended, g := lift (Append (ch_Address ch) []) g ;;
  let '(addrBuf, err) := appended in
  match err with
  | Some e => (Fail e, g)
  | None =>
      let '(padLen, g) := SuggestPadLen MinHandshakePad MaxHandshakePad g in
      let inner := be_put 4 (ch_Timestamp ch) ++ arr_list (ch_UUID ch) ++ [ch_Command ch]
                   ++ addrBuf ++ be_put 2 padLen in
      let '(pad, g) := rand_fill (Z.to_nat padLen) g in
      letS pad, g := lift (or_fail (Wrap ctx_pad_rand ErrRand) pad) g ;;
      let inner := inner ++ pad in
      letS key, g := lift (HandshakeAEADKey (ch_UUID ch) (ch_Nonce ch)) g ;;
      letS aead, g := lift (newHandshakeAEAD key) g ;;
      let ctLen := len inner + chacha20poly1305Overhead in
      if 65535 <? ctLen then (Fail ErrHandshakeLong, g) else
      let out := arr_list (ch_Nonce ch) ++ arr_list (ch_ClassicalPub ch)
                 ++ arr_list (ch_PQPub ch) ++ be_put 2 ctLen in
      let aad := out in
      let cipher := Seal aead (arr_list (ch_Nonce ch)) inner aad in
      let out := out ++ cipher in
      let mac := OuterMAC (ch_UUID ch) out in
      (Ret (out ++ arr_list mac), g)
  end.

(** The second half of [DecodeClientHello]: the decrypted plaintext. *)
Definition DecodeClientHelloInner (nonce : arr HandshakeNonce) (cpub : arr X25519PubLen)
  (pqpub : arr MLKEM768PubLen) (plain : bytes) : outcome ClientHello :=
  fail_if len plain <? 4 + Z.of_nat UUIDLen + 1 + 1 + 2 with ErrPlaintextLayout ;;
  b ← slice plain 0 4;
  let ts := be_get b in
  b ← slice plain 4 (4 + Z.of_nat UUIDLen);
  let uuid := to_arr UUIDLen b in
  let pos := 4 + Z.of_nat UUIDLen in
  cmd ← index plain pos;
  let pos := pos + 1 in
  tail ← slice plain pos (len plain);
  '(addr, n) ← match DecodeAddress tail with
               | Fail e => Fail (Wrap "address" ErrPlaintextLayout)
               | o => o
               end;
  let pos := pos + n in
  fail_if len plain <? pos + 2 with ErrPlaintextLayout ;;
  b ← slice plain pos (pos + 2);
  let padLen := be_get b in
  let pos := pos + 2 in
  fail_if negb (len plain =? pos + padLen) with ErrPlaintextLayout ;;
  Ret (mkClientHello nonce cpub pqpub ts uuid cmd addr).

Definition fixedHeader : Z :=
  Z.of_nat HandshakeNonce + Z.of_nat X25519PubLen + Z.of_nat MLKEM768PubLen + 2.

Definition DecodeClientHello (msg : bytes) (uuid : arr UUIDLen) : outcome ClientHello :=
  fail_if len msg <? fixedHeader + chacha20poly1305Overhead + Z.of_nat OuterMACLen
    with ErrHandshakeShort ;;
  let off := 0 in
  b ← slice msg off (off + Z.of_nat HandshakeNonce);
  let nonce := to_arr HandshakeNonce b in
  let off := off + Z.of_nat HandshakeNonce in
  b ← slice msg off (off + Z.of_nat X25519PubLen);
  let cpub := to_arr X25519PubLen b in
  let off := off + Z.of_nat X25519PubLen in
  b ← slice msg off (off + Z.of_nat MLKEM768PubLen);
  let pqpub := to_arr MLKEM768PubLen b in
  let off := off + Z.of_nat MLKEM768PubLen in
  b ← slice msg off (off + 2);
  let ctLen := be_get b in
  let off := off + 2 in
  fail_if ctLen <=? chacha20poly1305Overhead with ErrHandshakeShort ;;
  fail_if negb (off + ctLen + Z.of_nat OuterMACLen =? len msg) with ErrHandshakeShort ;;
  cipher ← slice msg off (off + ctLen);
  aad ← slice msg 0 off;
  key ← HandshakeAEADKey uuid nonce;
  aead ← newHandshakeAEAD key;
  plain ← or_fail ErrAEADHandshake (Open aead (arr_list nonce) cipher aad);
  DecodeClientHelloInner nonce cpub pqpub plain.

Definition EncodeServerHello (sh : ServerHello) (uuid : arr UUIDLen) : outcome bytes :=
  let out := arr_list (sh_NonceEcho sh) ++ arr_list (sh_ClassicalPub sh)
             ++ arr_list (sh_PQCipher sh) ++ be_put 4 (sh_ServerTime sh) ++ [sh_Status sh] in
  let mac := OuterMAC uuid out in
  Ret (out ++ arr_list mac).

Definition serverWireLen : Z :=
  Z.of_nat HandshakeNonce + Z.of_nat X25519PubLen + Z.of_nat MLKEM768CipherL + 4 + 1
  + Z.of_nat OuterMACLen.

Definition DecodeServerHello (msg : bytes) (uuid : arr UUIDLen) : outcome ServerHello :=
  fail_if negb (len msg =? serverWireLen) with ErrHandshakeShort ;;
  let macOff := serverWireLen - Z.of_nat OuterMACLen in
  b ← slice msg macOff (len msg);
  let tag := to_arr OuterMACLen b in
  body ← slice msg 0 macOff;
  fail_if negb (VerifyOuterMAC uuid body tag) with ErrOuterMAC ;;
  let off := 0 in
  b ← slice msg off (off + Z.of_nat HandshakeNonce);
  let nonceEcho := to_arr HandshakeNonce b in
  let off := off + Z.of_nat HandshakeNonce in
  b ← slice msg off (off + Z.of_nat X25519PubLen);
  let cpub := to_arr X25519PubLen b in
  let off := off + Z.of_nat X25519PubLen in
  b ← slice msg off (off + Z.of_nat MLKEM768CipherL);
  let pqc := to_arr MLKEM768CipherL b in
  let off := off + Z.of_nat MLKEM768CipherL in
  b ← slice msg off (off + 4);
  let st := be_get b in
  let off := off + 4 in
  status ← index msg off;
  Ret (mkServerHello nonceEcho cpub pqc st status).

(** ** Client side *)

Abbreviation CHS := (ClientHandshakeState X25519Priv MLKEMPriv).

(** [send] is the transport's [SendMessage]: its state is [T]. *)
Definition WriteClientHello {T} (now : Z) (send : bytes -> T -> option error * T)
  (uuid : arr UUIDLen) (cmd : Command) (addr : Address) (s : T * G)
  : outcome CHS * (T * G) :=
  let '(tr, g) := s in
  if negb (command_ok cmd) then (Fail ErrCommand, (tr, g)) else
  let '(xp, g) := X25519_GenerateKey g in
  match xp with
  | None => (Fail (Wrap "ewp/v2: x25519 keygen" ErrKeygen), (tr, g))
  | Some x25519Priv =>
  let '(mp, g) := MLKEM_GenerateKey g in
  match mp with
  | None => (Fail (Wrap "ewp/v2: mlkem keygen" ErrKeygen), (tr, g))
  | Some mlkemPriv =>
  let '(nb, g) := rand_read HandshakeNonce g in
  match nb with
  | None => (Fail (Wrap "ewp/v2: nonce rand" ErrRand), (tr, g))
  | Some nonce =>
  let classicalPub := to_arr X25519PubLen (X25519_Bytes (X25519_PublicKey x25519Priv)) in
  let pqPub := MLKEM_Bytes (MLKEM_EncapsulationKey mlkemPriv) in
  if negb (len pqPub =? Z.of_nat MLKEM768PubLen)
  then (Fail (ErrText "ewp/v2: unexpected ML-KEM pub size"), (tr, g)) else
  let hello := mkClientHello nonce classicalPub (to_arr MLKEM768PubLen pqPub)
                 (unix32 now) uuid cmd addr in
  let '(wire, g) := EncodeClientHello hello g in
  match wire with
  | Fail e => (Fail e, (tr, g))
  | Panic => (Panic, (tr, g))
  | Ret wire =>
  let '(err, tr) := send wire tr in
  match err with
  | Some e => (Fail (Wrap "ewp/v2: send ClientHello" e), (tr, g))
  | None => (Ret (mkClientHandshakeState uuid (ch_Nonce hello) (Some x25519Priv) (Some mlkemPriv)
                    hello), (tr, g))
  end end end end end.

(** [now] is the reading of [time.Now().Unix()]. *)
Definition ReadServerHello (now : Z) (msg : bytes) (s : CHS) : outcome HandshakeResult * CHS :=
  letS sh, s := lift (DecodeServerHello msg (st_uuid s)) s ;;
  if negb (bool_decide (sh_NonceEcho sh = st_nonce s)) then (Fail ErrOuterMAC, s) else
  if negb (bool_decide (sh_Status sh = Byte.x00)) then (Fail (Wrap "status" ErrServerStatus), s) else
  if HandshakeTimestampWindow <? absDiff (sh_ServerTime sh) now then (Fail ErrTimestamp, s) else
  letS serverPub, s := lift (or_fail (Wrap "ewp/v2: parse server x25519 pub" ErrPublicKey)
                         (X25519_NewPublicKey (arr_list (sh_ClassicalPub sh)))) s ;;
  letS xp, s := lift (must (st_x25519Priv s)) s ;;
  letS classical, s := lift (or_fail (Wrap "ewp/v2: x25519 ecdh" ErrECDH)
                               (X25519_ECDH xp serverPub)) s ;;
  let classicalArr := to_arr X25519PubLen classical in
  letS mp, s := lift (must (st_mlkemPriv s)) s ;;
  letS pq, s := lift (or_fail (Wrap "ewp/v2: mlkem decapsulate" ErrDecapsulate)
                        (MLKEM_Decapsulate mp (arr_list (sh_PQCipher sh)))) s ;;
  letS keys, s := lift (DeriveSessionKeys classicalArr pq (ch_Nonce (st_hello s)) (sh_NonceEcho sh)) s ;;
  let s := mkClientHandshakeState (st_uuid s) (st_nonce s) None None (st_hello s) in
  (Ret (mkHandshakeResult keys None (Some sh)), s).

(** ** Server side *)

(** [UUIDLookup]: from the message without its MAC, and the MAC. *)
Definition UUIDLookup : Type := bytes -> arr OuterMACLen -> outcome (arr UUIDLen).

Fixpoint MakeUUIDLookup (uuids : list (arr UUIDLen)) (msg : bytes) (tag : arr OuterMACLen)
  : outcome (arr UUIDLen) :=
  match uuids with
  | [] => Fail ErrUnknownUUID
  | u :: rest => if VerifyOuterMAC u msg tag then Ret u else MakeUUIDLookup rest msg tag
  end.

(** The checks that precede any state change: MAC, AEAD, UUID, command and
    timestamp. *)
Definition checkClientHello (now : Z) (msg : bytes) (lookup : UUIDLookup)
  : outcome (arr UUIDLen * ClientHello) :=
  fail_if len msg <? Z.of_nat OuterMACLen with ErrHandshakeShort ;;
  let macStart := len msg - Z.of_nat OuterMACLen in
  b ← slice msg macStart (len msg);
  let outerTag := to_arr OuterMACLen b in
  body ← slice msg 0 macStart;
  uuid ← lookup body outerTag;
  ch ← DecodeClientHello msg uuid;
  fail_if negb (bool_decide (ch_UUID ch = uuid)) with ErrUUIDMismatch ;;
  fail_if negb (command_ok (ch_Command ch)) with ErrCommand ;;
  fail_if HandshakeTimestampWindow <? absDiff (ch_Timestamp ch) now with ErrTimestamp ;;
  Ret (uuid, ch).

(** The key exchange and the answer; [now] dates the ServerHello. *)
Definition answerClientHello (now : Z) (uuid : arr UUIDLen) (ch : ClientHello) (g : G)
  : outcome (bytes * HandshakeResult) * G :=
  let '(xp, g) := X25519_GenerateKey g in
  match xp with
  | None => (Fail (Wrap "ewp/v2: server x25519 keygen" ErrKeygen), g)
  | Some x25519Priv =>
  letS clientX25519Pub, g := lift (or_fail (Wrap "ewp/v2: parse client x25519 pub" ErrPublicKey)
                               (X25519_NewPublicKey (arr_list (ch_ClassicalPub ch)))) g ;;
  letS classical, g := lift (or_fail (Wrap "ewp/v2: server x25519 ecdh" ErrECDH)
                               (X25519_ECDH x25519Priv clientX25519Pub)) g ;;
  let classicalArr := to_arr X25519PubLen classical in
  letS clientMLKEMPub, g := lift (or_fail (Wrap "ewp/v2: parse client mlkem pub" ErrPublicKey)
                              (MLKEM_NewEncapsulationKey (arr_list (ch_PQPub ch)))) g ;;
  let '((pqShared, pqCipher), g) := MLKEM_Encapsulate clientMLKEMPub g in
  if negb (len pqCipher =? Z.of_nat MLKEM768CipherL)
  then (Fail (ErrText "ewp/v2: unexpected ML-KEM cipher size"), g) else
  let sh := mkServerHello (ch_Nonce ch)
              (to_arr X25519PubLen (X25519_Bytes (X25519_PublicKey x25519Priv)))
              (to_arr MLKEM768CipherL pqCipher) (unix32 now) Byte.x00 in
  letS helloOut, g := lift (EncodeServerHello sh uuid) g ;;
  letS keys, g := lift (DeriveSessionKeys classicalArr pqShared (ch_Nonce ch) (sh_NonceEcho sh)) g ;;
  (Ret (helloOut, mkHandshakeResult keys (Some ch) None), g)
  end.

(** The three clock readings: timestamp check, cache, ServerHello. *)
Definition AcceptClientHelloWithReplay (now nowCache nowHello : Z) (msg : bytes)
  (lookup : UUIDLookup) (s : option ReplayCache * G)
  : outcome (bytes * HandshakeResult) * (option ReplayCache * G) :=
  let '(cache, g) := s in
  letS checked, _ := lift (checkClientHello now msg lookup) s ;;
  let '(uuid, ch) := checked in
  let '(seenOk, cache) :=
    match cache with
    | None => (true, None)
    | Some c => let '(b, c) := MarkSeenOrReject nowCache (ch_UUID ch) (ch_Nonce ch) c in (b, Some c)
    end in
  if negb seenOk then (Fail ErrReplay, (cache, g)) else
  let '(o, g) := answerClientHello nowHello uuid ch g in (o, (cache, g)).

Definition AcceptClientHello (now nowHello : Z) (msg : bytes) (lookup : UUIDLookup) (g : G)
  : outcome (bytes * HandshakeResult) * G :=
  let '(o, (_, g)) := AcceptClientHelloWithReplay now now nowHello msg lookup (None, g) in (o, g).
End Handshake.

(** ** Specification of the codecs *)

(** Go's typing and the domain of the encoder. *)
Definition ClientHello_wf (ch : ClientHello) : Prop :=
  0 <= ch_Timestamp ch < 2 ^ 32 /\ Address_wf (ch_Address ch) /\ encodable (ch_Address ch) = true.

(** The same hello with the part of its address that the wire carries. *)
Definition strip_hello (ch : ClientHello) : ClientHello :=
  mkClientHello (ch_Nonce ch) (ch_ClassicalPub ch) (ch_PQPub ch) (ch_Timestamp ch) (ch_UUID ch)
    (ch_Command ch) (strip (ch_Address ch)).

(** The plaintext, and everything before the ciphertext (the AAD). *)
Definition inner_of (ch : ClientHello) (pad : bytes) : bytes :=
  be_put 4 (ch_Timestamp ch) ++ arr_list (ch_UUID ch) ++ [ch_Command ch]
  ++ wire_of (ch_Address ch) ++ be_put 2 (len pad) ++ pad.

Definition hello_header (ch : ClientHello) (ctLen : Z) : bytes :=
  arr_list (ch_Nonce ch) ++ arr_list (ch_ClassicalPub ch) ++ arr_list (ch_PQPub ch) ++ be_put 2 ctLen.

Lemma length_hello_header ch n : length (hello_header ch n) = 1230%nat.
Proof. unfold hello_header. llia. Qed.
#[export] Hint Rewrite length_hello_header : len.

Lemma length_inner_of ch pad :
  encodable (ch_Address ch) = true ->
  len (inner_of ch pad) = 23 + EncodedLen (ch_Address ch) + len pad.
Proof. intros He. unfold inner_of. autorewrite with len. rewrite length_wire_of by done. lia. Qed.

(** Offsets as numerals. *)
Ltac offsets :=
  unfold fixedHeader, serverWireLen, chacha20poly1305Overhead in *;
  change (Z.of_nat 12) with 12 in *; change (Z.of_nat 32) with 32 in *;
  change (Z.of_nat 1184) with 1184 in *; change (Z.of_nat 1088) with 1088 in *;
  change (Z.of_nat 16) with 16 in *;
  repeat match goal with
  | |- context [Z.add 0 (Zpos ?q)] => change (Z.add 0 (Zpos q)) with (Zpos q)
  | |- context [Z.add (Zpos ?p) (Zpos ?q)] =>
      let c := eval vm_compute in (Zpos p + Zpos q) in change (Z.add (Zpos p) (Zpos q)) with c
  | |- context [Z.sub (Zpos ?p) (Zpos ?q)] =>
      let c := eval vm_compute in (Zpos p - Zpos q) in change (Z.sub (Zpos p) (Zpos q)) with c
  end.

Section Codecs.
Context {G : Type} {C : Crypto G} {E : Entropy G}.

Lemma DecodeClientHelloInner_ok ch pad :
  ClientHello_wf ch -> len pad < 2 ^ 16 ->
  DecodeClientHelloInner (ch_Nonce ch) (ch_ClassicalPub ch) (ch_PQPub ch) (inner_of ch pad) =
    Ret (strip_hello ch).
Proof.
  intros (Hts & Hwf & He) Hpad. pose proof (length_inner_of ch pad He) as Hl.
  pose proof (EncodedLen_bounds _ He) as Hel.
  unfold DecodeClientHelloInner. offsets. rewrite (proj2 (Z.ltb_ge _ _)) by lia.
  assert (Hcmd : index (inner_of ch pad) 20 = Ret (ch_Command ch)).
  { destruct (index_ok (inner_of ch pad) 20) as (b & -> & Hs); [lia|]. f_equal.
    change (20 + 1) with 21 in Hs. unfold inner_of in Hs. revert Hs. by sub_simpl; intros [= ->]. }
  assert (Htail : sub (inner_of ch pad) 21 (len (inner_of ch pad)) =
    wire_of (ch_Address ch) ++ be_put 2 (len pad) ++ pad)
    by (unfold inner_of; set (w := wire_of _ ++ _); by sub_simpl).
  rewrite !slice_ok, Hcmd by lia. cbn [mbind outcome_bind].
  rewrite Htail, DecodeAddress_wire by done. cbn [mbind outcome_bind].
  set (n := EncodedLen (ch_Address ch)) in *.
  rewrite (proj2 (Z.ltb_ge _ _)), slice_ok by lia. cbn [mbind outcome_bind].
  assert (Hsub : sub (inner_of ch pad) 0 4 = be_put 4 (ch_Timestamp ch) /\
    sub (inner_of ch pad) 4 20 = arr_list (ch_UUID ch) /\
    sub (inner_of ch pad) (21 + n) (21 + n + 2) = be_put 2 (len pad)).
  { pose proof (length_wire_of _ He) as Hw. fold n in Hw. unfold inner_of. split_and!; by sub_simpl. }
  destruct Hsub as (-> & -> & ->). rewrite !be_get_put_small by lia.
  rewrite (proj2 (Z.eqb_eq _ _)) by lia. cbn [negb]. by rewrite to_arr_id.
Qed.

(** What a decoded plaintext was: the reference plaintext of the result. *)
Lemma DecodeClientHelloInner_sound nonce cpub pqpub plain ch :
  DecodeClientHelloInner nonce cpub pqpub plain = Ret ch ->
  ch_Nonce ch = nonce /\ ch_ClassicalPub ch = cpub /\ ch_PQPub ch = pqpub /\
  ClientHello_wf ch /\ strip_hello ch = ch /\
  exists pad, len pad < 2 ^ 16 /\ plain = inner_of ch pad.
Proof.
  unfold DecodeClientHelloInner. offsets. destruct (Z.ltb_spec (len plain) 24); [done|].
  destruct (index_ok plain 20) as (cmd & -> & Hcmd); [lia|]. change (20 + 1) with 21 in Hcmd.
  rewrite !slice_ok by lia. cbn [mbind outcome_bind].
  destruct (DecodeAddress _) as [[a n]|e|] eqn:Ea; [|done..].
  apply DecodeAddress_sound in Ea as (Hwf & He & Hs & Hn & Hle & Hw).
  pose proof (EncodedLen_bounds _ He). rewrite length_sub in Hle by lia.
  cbn [mbind outcome_bind]. destruct (Z.ltb_spec (len plain) (21 + n + 2)); [done|].
  rewrite slice_ok by lia. cbn [mbind outcome_bind].
  destruct (Z.eqb_spec (len plain) (21 + n + 2 + be_get (sub plain (21 + n) (21 + n + 2))))
    as [Hpl|]; [|done]. cbn [negb]. intros [= <-].
  assert (Hr4 : 0 <= be_get (sub plain 0 4) < 2 ^ 32).
  { pose proof (be_get_range (sub plain 0 4)) as Hr. rewrite length_sub in Hr by lia. apply Hr. }
  assert (Hr2 : 0 <= be_get (sub plain (21 + n) (21 + n + 2)) < 2 ^ 16).
  { apply be_get_2_range. rewrite length_sub by lia. lia. }
  unfold ClientHello_wf, strip_hello, inner_of.
  cbn [ch_Nonce ch_ClassicalPub ch_PQPub ch_Timestamp ch_UUID ch_Command ch_Address].
  split_and!; try (done || lia); [by rewrite Hs|].
  exists (sub plain (21 + n + 2) (len plain)). rewrite !length_sub by lia. split; [lia|].
  replace (len plain - (21 + n + 2)) with (be_get (sub plain (21 + n) (21 + n + 2))) by lia.
  rewrite Hw, sub_sub by lia. rewrite !be_put_get_n by llia. rewrite to_arr_list by llia.
  rewrite <-Hcmd, Z.add_0_r.
  rewrite <-(sub_split plain (21 + n) (21 + n + 2)), <-(sub_split plain 21 (21 + n)),
    <-(sub_split plain 20 21), <-(sub_split plain 4 20), <-(sub_split plain 0 4), sub_all by lia.
  done.
Qed.

(** The errors of the decoder. *)
Definition layout_error (e : error) : bool :=
  bool_decide (e = ErrPlaintextLayout \/ e = Wrap "address" ErrPlaintextLayout).

Definition hello_error (e : error) : bool :=
  bool_decide (e = ErrHandshakeShort \/ e = ErrAEADHandshake) || layout_error e.

Lemma DecodeClientHelloInner_fail nonce cpub pqpub plain :
  match DecodeClientHelloInner nonce cpub pqpub plain with
  | Ret _ => True | Fail e => layout_error e = true | Panic => False
  end.
Proof.
  unfold DecodeClientHelloInner. offsets. destruct (Z.ltb_spec (len plain) 24); [done|].
  destruct (index_ok plain 20) as (cmd & -> & Hcmd); [lia|].
  rewrite !slice_ok by lia. cbn [mbind outcome_bind].
  destruct (DecodeAddress _) as [[a n]|e|] eqn:Ea;
    [|done|by apply DecodeAddress_no_panic in Ea].
  apply DecodeAddress_sound in Ea as (Hwf & He & Hs & Hn & Hle & Hw).
  pose proof (EncodedLen_bounds _ He). rewrite length_sub in Hle by lia.
  cbn [mbind outcome_bind]. destruct (Z.ltb_spec (len plain) (21 + n + 2)); [done|].
  rewrite slice_ok by lia. cbn [mbind outcome_bind]. by destruct (negb _).
Qed.

(** The cipher of the handshake plaintext. *)
Definition hs_aead (uuid : arr UUIDLen) (nonce : arr HandshakeNonce) : outcome AEAD :=
  key ← HandshakeAEADKey uuid nonce; newHandshakeAEAD key.

(** The reference encoding under a given cipher: what the MAC covers, and
    the whole message. *)
Definition hello_body (a : AEAD) (ch : ClientHello) (pad : bytes) : bytes :=
  let inner := inner_of ch pad in
  let hdr := hello_header ch (len inner + chacha20poly1305Overhead) in
  hdr ++ Seal a (arr_list (ch_Nonce ch)) inner hdr.

Definition hello_wire (a : AEAD) (ch : ClientHello) (pad : bytes) : bytes :=
  hello_body a ch pad ++ arr_list (OuterMAC (ch_UUID ch) (hello_body a ch pad)).

Lemma sub_hello_header ch n rest :
  sub (hello_header ch n ++ rest) 0 12 = arr_list (ch_Nonce ch) /\
  sub (hello_header ch n ++ rest) 12 44 = arr_list (ch_ClassicalPub ch) /\
  sub (hello_header ch n ++ rest) 44 1228 = arr_list (ch_PQPub ch) /\
  sub (hello_header ch n ++ rest) 1228 1230 = be_put 2 n.
Proof. unfold hello_header. rewrite <-!app_assoc. split_and!; by sub_simpl. Qed.

Context `{!AEADLaws C} `{!HKDFLaws C}.

Lemma hs_aead_ok uuid nonce : exists a, hs_aead uuid nonce = Ret a.
Proof.
  unfold hs_aead, newHandshakeAEAD. destruct (HandshakeAEADKey_ok uuid nonce) as [k ->].
  cbn [mbind outcome_bind]. destruct (newChaChaAEAD_ok k) as (c & _ & ->). by exists c.
Qed.

Lemma length_hello_body a ch pad :
  len (hello_body a ch pad) = 1230 + len (inner_of ch pad) + 16.
Proof. unfold hello_body. rewrite length_app, length_Seal, length_hello_header. lia. Qed.

Lemma DecodeClientHello_ok a ch pad mac :
  hs_aead (ch_UUID ch) (ch_Nonce ch) = Ret a -> ClientHello_wf ch ->
  len (inner_of ch pad) + 16 < 2 ^ 16 -> len mac = 16 ->
  DecodeClientHello (hello_body a ch pad ++ mac) (ch_UUID ch) = Ret (strip_hello ch).
Proof.
  intros Ha Hwf Hlen Hmac. pose proof (length_hello_body a ch pad) as Hb.
  pose proof (length_inner_of ch pad (proj2 (proj2 Hwf))) as Hi.
  pose proof (EncodedLen_bounds _ (proj2 (proj2 Hwf))).
  unfold DecodeClientHello. offsets. unfold hello_body in *. offsets.
  set (hdr := hello_header ch (len (inner_of ch pad) + 16)) in *.
  set (ct := Seal _ _ _ _) in *. rewrite <-app_assoc in *.
  assert (Hh : len hdr = 1230) by (unfold hdr; llia).
  assert (Hc : len ct = len (inner_of ch pad) + 16) by (unfold ct; rewrite length_Seal; lia).
  destruct (sub_hello_header ch (len (inner_of ch pad) + 16) (ct ++ mac)) as (H1 & H2 & H3 & H4).
  fold hdr in H1, H2, H3, H4. assert (Hm : len (hdr ++ ct ++ mac) = 1230 + len ct + 16) by llia.
  rewrite (proj2 (Z.ltb_ge _ _)), !slice_ok by lia. cbn [mbind outcome_bind].
  rewrite H1, H2, H3, H4, !to_arr_id, be_get_put_small by lia. offsets.
  rewrite (proj2 (Z.leb_gt _ _)), (proj2 (Z.eqb_eq _ _)) by lia. cbn [negb].
  rewrite !slice_ok by lia. cbn [mbind outcome_bind]. rewrite <-Hc.
  rewrite (sub_app_l hdr _ 0 1230), (sub_full hdr), (sub_app_r hdr), (sub_app_l ct), (sub_full ct) by lia.
  unfold hs_aead in Ha. apply bind_Ret in Ha as (key & -> & Ha). cbn [mbind outcome_bind].
  rewrite Ha. cbn [mbind outcome_bind]. unfold ct. rewrite Open_Seal. cbn [or_fail mbind outcome_bind].
  apply DecodeClientHelloInner_ok; [done|lia].
Qed.

(** Inversion of the decoder on every input. *)
Lemma DecodeClientHello_inv msg uuid :
  match DecodeClientHello msg uuid with
  | Ret ch => ClientHello_wf ch /\ strip_hello ch = ch /\
      exists a pad mac, hs_aead uuid (ch_Nonce ch) = Ret a /\ len mac = 16 /\
        len (inner_of ch pad) + 16 < 2 ^ 16 /\ msg = hello_body a ch pad ++ mac
  | Fail e => hello_error e = true
  | Panic => False
  end.
Proof.
  unfold DecodeClientHello. offsets. destruct (Z.ltb_spec (len msg) 1262); [done|].
  rewrite !slice_ok by lia. cbn [mbind outcome_bind].
  set (n := be_get (sub msg 1228 1230)). set (nonce := to_arr 12 _).
  destruct (Z.leb_spec n 16); [done|]. destruct (Z.eqb_spec (1230 + n + 16) (len msg)) as [Hn|]; [|done].
  cbn [negb]. rewrite !slice_ok by lia. cbn [mbind outcome_bind].
  destruct (hs_aead_ok uuid nonce) as [a Ha]. pose proof Ha as Ha'.
  unfold hs_aead in Ha'. apply bind_Ret in Ha' as (key & -> & Ha'). cbn [mbind outcome_bind].
  rewrite Ha'. cbn [mbind outcome_bind].
  destruct (Open _ _ _ _) as [plain|] eqn:Ho; [|done]. cbn [or_fail mbind outcome_bind].
  pose proof (DecodeClientHelloInner_fail nonce (to_arr 32 (sub msg 12 44))
    (to_arr 1184 (sub msg 44 1228)) plain) as Hf.
  destruct (DecodeClientHelloInner _ _ _ plain) as [ch|e|] eqn:Ed;
    [|unfold hello_error; by rewrite Hf, orb_true_r|done].
  apply DecodeClientHelloInner_sound in Ed as (Hn1 & Hc1 & Hp1 & Hwf & Hs & pad & Hpad & ->).
  split; [done|]. split; [done|]. exists a, pad, (sub msg (1230 + n) (len msg)).
  apply Open_tidy in Ho. pose proof (f_equal length Ho) as Hlen.
  rewrite length_Seal, length_sub_nat in Hlen by lia.
  assert (Hn2 : n < 2 ^ 16) by (apply be_get_2_range; rewrite length_sub; lia).
  rewrite Hn1. split_and!; [done|rewrite length_sub; lia|lia|].
  unfold hello_body. offsets. replace (len (inner_of ch pad) + 16) with n by lia.
  assert (Hhdr : hello_header ch n = sub msg 0 1230).
  { unfold hello_header. rewrite Hn1, Hc1, Hp1. unfold nonce, n.
    rewrite !to_arr_list, be_put_get_n by llia.
    rewrite <-(sub_split msg 44 1228), <-(sub_split msg 12 44), <-(sub_split msg 0 12) by lia. done. }
  rewrite Hhdr, Hn1, <-Ho, <-app_assoc, <-(sub_split msg 1230), <-(sub_split msg 0 1230), sub_all by lia.
  done.
Qed.

(** The encoder on every branch: only the address or the randomness source
    can make it fail. *)
Lemma EncodeClientHello_spec a ch g :
  hs_aead (ch_UUID ch) (ch_Nonce ch) = Ret a ->
  if encodable (ch_Address ch) then
    exists padLen g1 pad g2, SuggestPadLen MinHandshakePad MaxHandshakePad g = (padLen, g1) /\
      64 <= padLen <= 1024 /\ rand_fill (Z.to_nat padLen) g1 = (pad, g2) /\
      EncodeClientHello ch g =
        (match pad with
         | Some pad => Ret (hello_wire a ch pad)
         | None => Fail (Wrap ctx_pad_rand ErrRand)
         end, g2)
  else EncodeClientHello ch g =
    (Fail (if IsDomain (ch_Address ch) then ErrDomainLen else ErrInvalidAddress), g).
Proof.
  intros Ha. unfold EncodeClientHello, lift. rewrite Append_spec.
  destruct (encodable (ch_Address ch)) eqn:He; cbn [sbind]; [|done]. cbn [app].
  pose proof (SuggestPadLen_bounds MinHandshakePad MaxHandshakePad g) as Hp.
  unfold MinHandshakePad, MaxHandshakePad, MaxFramePad in *.
  destruct (SuggestPadLen 64 1024 g) as [padLen g1]. cbn [fst] in Hp.
  destruct (rand_fill (Z.to_nat padLen) g1) as [pad g2] eqn:Er.
  exists padLen, g1, pad, g2. split; [done|]. split; [lia|]. split; [done|].
  destruct pad as [pad|]; [|done]. cbn [or_fail sbind].
  apply rand_fill_length in Er.
  unfold hs_aead in Ha. apply bind_Ret in Ha as (key & -> & Ha). cbn [sbind].
  rewrite Ha. cbn [sbind].
  match goal with |- context [65535 <? len ?x + _] => set (inner := x) end.
  assert (Hin : inner = inner_of ch pad).
  { unfold inner, inner_of. replace (len pad) with padLen by lia.
    rewrite <-!app_assoc. cbn [app]. by rewrite <-!app_assoc. }
  rewrite Hin. pose proof (length_inner_of ch pad He). pose proof (EncodedLen_bounds _ He).
  rewrite (proj2 (Z.ltb_ge _ _)) by (unfold chacha20poly1305Overhead; lia). done.
Qed.

(** ** ServerHello *)

Definition server_body (sh : ServerHello) : bytes :=
  arr_list (sh_NonceEcho sh) ++ arr_list (sh_ClassicalPub sh)
  ++ arr_list (sh_PQCipher sh) ++ be_put 4 (sh_ServerTime sh) ++ [sh_Status sh].

Lemma length_server_body sh : length (server_body sh) = 1137%nat.
Proof. unfold server_body. llia. Qed.

Lemma EncodeServerHello_eq sh uuid :
  EncodeServerHello sh uuid = Ret (server_body sh ++ arr_list (OuterMAC uuid (server_body sh))).
Proof. done. Qed.

Lemma DecodeServerHello_ok sh uuid :
  0 <= sh_ServerTime sh < 2 ^ 32 ->
  DecodeServerHello (server_body sh ++ arr_list (OuterMAC uuid (server_body sh))) uuid = Ret sh.
Proof.
  intros Ht. pose proof (length_server_body sh) as Hb.
  unfold DecodeServerHello. offsets. set (mac := OuterMAC _ _).
  assert (Hm : len (server_body sh ++ arr_list mac) = 1153) by llia.
  rewrite Hm, Z.eqb_refl. cbn [negb].
  destruct (index_ok (server_body sh ++ arr_list mac) 1136) as (st & Hi & Hs); [lia|].
  rewrite !slice_ok by lia. cbn [mbind outcome_bind].
  rewrite (sub_app_r (server_body sh) _ 1137), (sub_full (arr_list mac)) by llia.
  rewrite (sub_app_l (server_body sh) _ 0 1137), (sub_full (server_body sh)) by llia.
  rewrite to_arr_id, (proj2 (VerifyOuterMAC_spec _ _ _)) by done. cbn [negb].
  rewrite Hi. cbn [mbind outcome_bind].
  assert (Hf : sub (server_body sh ++ arr_list mac) 0 12 = arr_list (sh_NonceEcho sh) /\
    sub (server_body sh ++ arr_list mac) 12 44 = arr_list (sh_ClassicalPub sh) /\
    sub (server_body sh ++ arr_list mac) 44 1132 = arr_list (sh_PQCipher sh) /\
    sub (server_body sh ++ arr_list mac) 1132 1136 = be_put 4 (sh_ServerTime sh) /\
    sub (server_body sh ++ arr_list mac) 1136 1137 = [sh_Status sh]).
  { unfold server_body. rewrite <-!app_assoc. split_and!; by sub_simpl. }
  destruct Hf as (-> & -> & -> & -> & Hst). change (1136 + 1) with 1137 in Hs.
  rewrite Hst in Hs. injection Hs as <-. rewrite !to_arr_id, be_get_put_small by done.
  by destruct sh.
Qed.

Lemma DecodeServerHello_inv msg uuid :
  match DecodeServerHello msg uuid with
  | Ret sh => 0 <= sh_ServerTime sh < 2 ^ 32 /\
      msg = server_body sh ++ arr_list (OuterMAC uuid (server_body sh))
  | Fail e => e = ErrHandshakeShort /\ len msg <> 1153 \/ e = ErrOuterMAC /\ len msg = 1153 /\
      VerifyOuterMAC uuid (sub msg 0 1137) (to_arr 16 (sub msg 1137 1153)) = false
  | Panic => False
  end.
Proof.
  unfold DecodeServerHello. offsets. destruct (Z.eqb_spec (len msg) 1153) as [Hl|]; [|by left].
  cbn [negb]. destruct (index_ok msg 1136) as (st & Hi & Hs); [lia|].
  change (1136 + 1) with 1137 in Hs.
  rewrite !slice_ok by lia. cbn [mbind outcome_bind]. rewrite Hl.
  destruct (VerifyOuterMAC _ _ _) eqn:Ev; cbn [negb]; [|by right].
  apply VerifyOuterMAC_spec in Ev. rewrite Hi. cbn [mbind outcome_bind].
  cbn [sh_ServerTime].
  pose proof (be_get_range (sub msg 1132 1136)) as Hr. rewrite length_sub in Hr by lia.
  split; [exact Hr|].
  set (sh := mkServerHello _ _ _ _ _).
  assert (Hsb : server_body sh = sub msg 0 1137).
  { unfold server_body, sh. cbn [sh_NonceEcho sh_ClassicalPub sh_PQCipher sh_ServerTime sh_Status].
    rewrite !to_arr_list, be_put_get_n by llia. rewrite <-Hs.
    rewrite <-(sub_split msg 1132 1136), <-(sub_split msg 44 1132), <-(sub_split msg 12 44),
      <-(sub_split msg 0 12) by lia. done. }
  rewrite Hsb, <-Ev, to_arr_list, <-sub_split, sub_full by llia. done.
Qed.
End Codecs.
