(* ===== verification/HandshakeProofs.v ===== *)
(** * Correctness of the handshake (src/handshake.go, src/anti_replay.go)

    Properties of the codecs and of the whole exchange: what the server
    accepts, what it rejects and with which error, that both sides derive the
    same session keys, and how far the replay cache protects. *)

From Stdlib Require Import Sorting.Sorted.
From S2P Require Import Prelude Address Crypto Io Kdf Padding Frame Replay Handshake.
Import ReplaySpec.

Section Lookup.
Context {G : Type} {C : Crypto G}.

Lemma MakeUUIDLookup_cases uuids body tag :
  match MakeUUIDLookup uuids body tag with
  | Ret u => u ∈ uuids /\ tag = OuterMAC u body
  | Fail e => e = ErrUnknownUUID /\ forall u, u ∈ uuids -> tag <> OuterMAC u body
  | Panic => False
  end.
Proof.
  induction uuids as [|u uuids IH]; cbn [MakeUUIDLookup]; [set_solver|].
  destruct (VerifyOuterMAC u body tag) eqn:Ev.
  - apply VerifyOuterMAC_spec in Ev. split; [left|done].
  - destruct (MakeUUIDLookup uuids body tag); [|split|done].
    + destruct IH. split; [by right|done].
    + apply IH.
    + intros u'. rewrite elem_of_cons. intros [->|H]; [|by apply IH].
      intros Ht%VerifyOuterMAC_spec. congruence.
Qed.

End Lookup.

Section Server.
Context {G : Type} {C : Crypto G} {E : Entropy G} `{!AEADLaws C} `{!HKDFLaws C}.

(** The errors a hello can be turned down with before any state changes. *)
Definition rejection (e : error) : bool :=
  bool_decide (e = ErrUnknownUUID \/ e = ErrUUIDMismatch \/ e = ErrCommand \/ e = ErrTimestamp)
  || hello_error e.

(** An authentic hello: its exact wire image under a configured UUID. *)
Definition authentic (uuids : list (arr UUIDLen)) (msg : bytes) (ch : ClientHello) : Prop :=
  ch_UUID ch ∈ uuids /\ ClientHello_wf ch /\ strip_hello ch = ch /\
  exists a pad, hs_aead (ch_UUID ch) (ch_Nonce ch) = Ret a /\ msg = hello_wire a ch pad.

Lemma checkClientHello_cases now msg uuids :
  match checkClientHello now msg (MakeUUIDLookup uuids) with
  | Ret (u, ch) => u = ch_UUID ch /\ authentic uuids msg ch /\
      command_ok (ch_Command ch) = true /\
      absDiff (ch_Timestamp ch) now <= HandshakeTimestampWindow
  | Fail e => rejection e = true
  | Panic => False
  end.
Proof.
  unfold checkClientHello. offsets. destruct (Z.ltb_spec (len msg) 16); [done|].
  rewrite !slice_ok by lia. cbn [mbind outcome_bind].
  pose proof (MakeUUIDLookup_cases uuids (sub msg 0 (len msg - 16))
    (to_arr 16 (sub msg (len msg - 16) (len msg)))) as Hl.
  destruct (MakeUUIDLookup _ _ _) as [u|e|]; [|by destruct Hl as [-> _]|done].
  destruct Hl as [Hu Htag]. cbn [mbind outcome_bind].
  pose proof (DecodeClientHello_inv msg u) as Hd.
  destruct (DecodeClientHello msg u) as [ch|e|]; cbn [mbind outcome_bind];
    [|unfold rejection; by rewrite Hd, orb_true_r|done].
  destruct Hd as (Hwf & Hs & a & pad & mac & Ha & Hmac & Hlen & Hmsg).
  case_bool_decide as Hid; [|done]. cbn [negb]. subst u.
  destruct (command_ok _) eqn:Hc; [|done]. cbn [negb].
  destruct (Z.ltb_spec HandshakeTimestampWindow (absDiff (ch_Timestamp ch) now)); [done|].
  split_and!; [done| |done|lia]. split_and!; [done..|]. exists a, pad. split; [done|].
  unfold hello_wire. rewrite Hmsg. f_equal. revert Htag. rewrite Hmsg, length_app.
  replace (Z.of_nat (length (hello_body a ch pad) + length mac) - 16)
    with (len (hello_body a ch pad)) by lia.
  sub_simpl. intros <-. symmetry. apply to_arr_list. lia.
Qed.
End Server.

(** ** An honest exchange *)

Section Honest.
Context {G : Type} {C : Crypto G} {E : Entropy G} `{!AEADLaws C} `{!HKDFLaws C}.

(** No other configured UUID explains the message's MAC. *)
Definition mac_unique (uuids : list (arr UUIDLen)) (uuid : arr UUIDLen) (msg : bytes) : Prop :=
  forall u, u ∈ uuids ->
    VerifyOuterMAC u (sub msg 0 (len msg - 16)) (to_arr 16 (sub msg (len msg - 16) (len msg))) = true ->
    u = uuid.

Lemma hello_wire_parts a ch pad :
  let msg := hello_wire a ch pad in
  16 <= len msg /\ sub msg 0 (len msg - 16) = hello_body a ch pad /\
  to_arr 16 (sub msg (len msg - 16) (len msg)) = OuterMAC (ch_UUID ch) (hello_body a ch pad).
Proof.
  cbn zeta. unfold hello_wire. set (b := hello_body a ch pad). set (m := OuterMAC _ _).
  rewrite length_app, arr_length. replace (Z.of_nat (length b + 16) - 16) with (len b) by lia.
  split; [lia|]. split; sub_simpl; [done|]. apply to_arr_id.
Qed.

Lemma MakeUUIDLookup_unique uuids uuid body tag :
  uuid ∈ uuids -> tag = OuterMAC uuid body ->
  (forall u, u ∈ uuids -> VerifyOuterMAC u body tag = true -> u = uuid) ->
  MakeUUIDLookup uuids body tag = Ret uuid.
Proof.
  intros Hin Ht Hun. pose proof (MakeUUIDLookup_cases uuids body tag) as Hc.
  destruct (MakeUUIDLookup uuids body tag) as [u|e|]; [|naive_solver|done].
  f_equal. apply Hun; [apply Hc|]. apply VerifyOuterMAC_spec, Hc.
Qed.

Lemma checkClientHello_honest now uuids a ch pad :
  hs_aead (ch_UUID ch) (ch_Nonce ch) = Ret a -> ClientHello_wf ch ->
  len (inner_of ch pad) + 16 < 2 ^ 16 -> ch_UUID ch ∈ uuids ->
  mac_unique uuids (ch_UUID ch) (hello_wire a ch pad) ->
  command_ok (ch_Command ch) = true ->
  absDiff (ch_Timestamp ch) now <= HandshakeTimestampWindow ->
  checkClientHello now (hello_wire a ch pad) (MakeUUIDLookup uuids) =
    Ret (ch_UUID ch, strip_hello ch).
Proof.
  intros Ha Hwf Hlen Hin Hun Hc Ht.
  destruct (hello_wire_parts a ch pad) as (Hl & Hb & Hm). unfold mac_unique in Hun. rewrite Hb, Hm in Hun.
  unfold checkClientHello. offsets. rewrite (proj2 (Z.ltb_ge _ _)), !slice_ok by lia.
  cbn [mbind outcome_bind]. rewrite Hb, Hm, (MakeUUIDLookup_unique _ (ch_UUID ch)) by done.
  cbn [mbind outcome_bind]. unfold hello_wire. rewrite DecodeClientHello_ok by (done || llia).
  cbn [mbind outcome_bind]. unfold strip_hello at 1 2 3. cbn [ch_UUID ch_Command ch_Timestamp].
  rewrite bool_decide_true, Hc, (proj2 (Z.ltb_ge _ _)) by done. done.
Qed.

Context `{!KEXLaws C}.

(** The state a successful [WriteClientHello] leaves and what it sent. *)
Lemma WriteClientHello_Ret {T} now (send : bytes -> T -> option error * T) uuid cmd addr tr g st s' :
  WriteClientHello now send uuid cmd addr (tr, g) = (Ret st, s') ->
  exists xp mp a pad, st_x25519Priv st = Some xp /\ st_mlkemPriv st = Some mp /\
    st_uuid st = uuid /\ st_nonce st = ch_Nonce (st_hello st) /\
    st_hello st = mkClientHello (st_nonce st)
      (to_arr X25519PubLen (X25519_Bytes (X25519_PublicKey xp)))
      (to_arr MLKEM768PubLen (MLKEM_Bytes (MLKEM_EncapsulationKey mp))) (unix32 now) uuid cmd addr /\
    command_ok cmd = true /\ encodable addr = true /\
    hs_aead uuid (st_nonce st) = Ret a /\ 64 <= len pad <= 1024 /\
    send (hello_wire a (st_hello st) pad) tr = (None, s'.1).
Proof.
  unfold WriteClientHello. destruct (command_ok cmd) eqn:Hc; [|done]. cbn [negb].
  destruct (X25519_GenerateKey g) as [[xp|] g1]; [|done].
  destruct (MLKEM_GenerateKey g1) as [[mp|] g2]; [|done].
  destruct (rand_read HandshakeNonce g2) as [[nonce|] g3]; [|done].
  destruct (negb _); [done|].
  set (hello := mkClientHello _ _ _ _ _ _ _).
  destruct (hs_aead_ok uuid nonce) as [a Ha].
  pose proof (EncodeClientHello_spec a hello g3 Ha) as Hs. cbn [hello ch_Address] in Hs.
  destruct (encodable addr) eqn:He; [|rewrite Hs; by destruct (IsDomain addr)].
  destruct Hs as (padLen & g4 & pad & g5 & _ & Hp & Hr & Henc). rewrite Henc.
  destruct pad as [pad|]; [|done]. apply rand_fill_length in Hr.
  destruct (send _ tr) as [[e|] tr1] eqn:Hsend; [done|]. intros [= <- <-].
  exists xp, mp, a, pad. cbn [st_x25519Priv st_mlkemPriv st_uuid st_nonce st_hello ch_Nonce hello].
  split_and!; (done || lia).
Qed.

(** The server's answer to a hello whose keys parse. *)
Lemma answerClientHello_ok now uuid ch g xs g1 cp ss mp :
  X25519_GenerateKey g = (Some xs, g1) -> X25519_NewPublicKey (arr_list (ch_ClassicalPub ch)) = Some cp ->
  X25519_ECDH xs cp = Some ss -> MLKEM_NewEncapsulationKey (arr_list (ch_PQPub ch)) = Some mp ->
  let '(shared, ct, g2) := MLKEM_Encapsulate mp g1 in
  let sh := mkServerHello (ch_Nonce ch) (to_arr X25519PubLen (X25519_Bytes (X25519_PublicKey xs)))
              (to_arr MLKEM768CipherL ct) (unix32 now) Byte.x00 in
  exists keys, DeriveSessionKeys (to_arr X25519PubLen ss) shared (ch_Nonce ch) (ch_Nonce ch) = Ret keys /\
    answerClientHello now uuid ch g =
      (Ret (server_body sh ++ arr_list (OuterMAC uuid (server_body sh)),
            mkHandshakeResult keys (Some ch) None), g2).
Proof.
  intros Hg Hcp Hss Hmp. pose proof (MLKEM_Encapsulate_length mp g1) as Hl.
  destruct (MLKEM_Encapsulate mp g1) as [[shared ct] g2] eqn:Hen. cbn in Hl.
  cbn zeta. destruct (DeriveSessionKeys_ok (to_arr X25519PubLen ss) shared (ch_Nonce ch) (ch_Nonce ch))
    as [keys Hk]. exists keys. split; [done|].
  unfold answerClientHello. rewrite Hg, Hcp. cbn [or_fail lift sbind]. unfold lift. rewrite Hss.
  cbn [or_fail sbind]. rewrite Hmp. cbn [or_fail sbind]. rewrite Hen, Hl.
  change (negb (1088 =? 1088)) with false. cbn [sh_NonceEcho]. rewrite Hk. done.
Qed.

(** The client on the matching answer. *)
Lemma ReadServerHello_ok now sh st xp mp sp ss shared keys :
  0 <= sh_ServerTime sh < 2 ^ 32 -> sh_NonceEcho sh = st_nonce st -> sh_Status sh = Byte.x00 ->
  absDiff (sh_ServerTime sh) now <= HandshakeTimestampWindow ->
  st_x25519Priv st = Some xp -> st_mlkemPriv st = Some mp ->
  X25519_NewPublicKey (arr_list (sh_ClassicalPub sh)) = Some sp -> X25519_ECDH xp sp = Some ss ->
  MLKEM_Decapsulate mp (arr_list (sh_PQCipher sh)) = Some shared ->
  DeriveSessionKeys (to_arr X25519PubLen ss) shared (ch_Nonce (st_hello st)) (sh_NonceEcho sh) = Ret keys ->
  ReadServerHello now (server_body sh ++ arr_list (OuterMAC (st_uuid st) (server_body sh))) st =
    (Ret (mkHandshakeResult keys None (Some sh)),
     mkClientHandshakeState (st_uuid st) (st_nonce st) None None (st_hello st)).
Proof.
  intros Ht Hn Hst Hw Hxp Hmp Hsp Hss Hsh Hk. unfold ReadServerHello, lift.
  rewrite DecodeServerHello_ok by done. cbn [sbind].
  rewrite bool_decide_true by done. cbn [negb]. rewrite bool_decide_true by done. cbn [negb].
  rewrite (proj2 (Z.ltb_ge _ _)) by done. rewrite Hsp. cbn [or_fail sbind]. rewrite Hxp. cbn [must sbind].
  rewrite Hss. cbn [or_fail sbind]. rewrite Hmp. cbn [must sbind]. rewrite Hsh. cbn [or_fail sbind].
  rewrite Hk. done.
Qed.
(** The answer to a client's own hello is one the client can read: both
    sides end with the same keys. *)
Lemma answer_then_read nowHello now st xp mp gs xs gs1 ss :
  st_x25519Priv st = Some xp -> st_mlkemPriv st = Some mp ->
  st_nonce st = ch_Nonce (st_hello st) ->
  ch_ClassicalPub (st_hello st) = to_arr X25519PubLen (X25519_Bytes (X25519_PublicKey xp)) ->
  ch_PQPub (st_hello st) = to_arr MLKEM768PubLen (MLKEM_Bytes (MLKEM_EncapsulationKey mp)) ->
  X25519_GenerateKey gs = (Some xs, gs1) -> X25519_ECDH xs (X25519_PublicKey xp) = Some ss ->
  absDiff (unix32 nowHello) now <= HandshakeTimestampWindow ->
  exists out res gs2 res',
    answerClientHello nowHello (st_uuid st) (strip_hello (st_hello st)) gs = (Ret (out, res), gs2) /\
    hr_ClientHello res = Some (strip_hello (st_hello st)) /\
    ReadServerHello now out st =
      (Ret res', mkClientHandshakeState (st_uuid st) (st_nonce st) None None (st_hello st)) /\
    hr_Keys res' = hr_Keys res.
Proof.
  intros Hxp Hmp Hn Hcp Hpq Hgen Hss Hclock.
  pose proof (answerClientHello_ok nowHello (st_uuid st) (strip_hello (st_hello st)) gs xs gs1
    (X25519_PublicKey xp) ss (MLKEM_EncapsulationKey mp) Hgen) as Hans.
  cbn [strip_hello ch_ClassicalPub ch_PQPub ch_Nonce] in Hans. rewrite Hcp, Hpq in Hans.
  rewrite !to_arr_list in Hans by (apply X25519_Bytes_length || apply MLKEM_Bytes_length).
  specialize (Hans (X25519_New_Bytes _) Hss (MLKEM_New_Bytes _)).
  pose proof (MLKEM_correct mp gs1) as Hkem.
  pose proof (MLKEM_Encapsulate_length (MLKEM_EncapsulationKey mp) gs1) as Hctl.
  destruct (MLKEM_Encapsulate (MLKEM_EncapsulationKey mp) gs1) as [[shared ct] gs2]. cbn in Hctl.
  cbn zeta in Hans. destruct Hans as (keys & Hk & ->). set (sh := mkServerHello _ _ _ _ _) in *.
  do 4 eexists. split; [reflexivity|]. split; [done|]. split; [|shelve].
  apply (ReadServerHello_ok now sh st xp mp (X25519_PublicKey xs) ss shared keys);
    cbn [sh sh_ServerTime sh_NonceEcho sh_Status sh_ClassicalPub sh_PQCipher]; try done.
  - by apply Z.mod_pos_bound.
  - rewrite to_arr_list by apply X25519_Bytes_length. apply X25519_New_Bytes.
  - by rewrite X25519_comm.
  - by rewrite to_arr_list.
  Unshelve. done.
Qed.
End Honest.

(** ** A server's run *)

(** One call of [AcceptClientHelloWithReplay]: its clock readings, the message
    and the lookup in force (users may come and go between calls). *)
Record request {G} {C : Crypto G} := mkRequest {
  rq_now : Z; rq_nowCache : Z; rq_nowHello : Z;
  rq_msg : bytes;
  rq_lookup : UUIDLookup
}.
Arguments request G {C}.

Section Run.
Context {G : Type} {C : Crypto G} {E : Entropy G}.

Abbreviation answer := (outcome (bytes * HandshakeResult)).

Definition accept_one (r : request G) (s : option ReplayCache * G) : answer * (option ReplayCache * G) :=
  AcceptClientHelloWithReplay (rq_now r) (rq_nowCache r) (rq_nowHello r) (rq_msg r) (rq_lookup r) s.

Fixpoint accept_all (rs : list (request G)) (s : option ReplayCache * G)
  : list answer * (option ReplayCache * G) :=
  match rs with
  | [] => ([], s)
  | r :: rs =>
      let '(o, s) := accept_one r s in
      let '(os, s) := accept_all rs s in (o :: os, s)
  end.

(** The hello of a successful answer. *)
Definition accepted_hello (o : answer) : option ClientHello :=
  match o with Ret (_, res) => hr_ClientHello res | _ => None end.

Definition hello_key (ch : ClientHello) : replayKey := makeReplayKey (ch_UUID ch) (ch_Nonce ch).

(** What the answer reports and sends: a ServerHello echoing the nonce. *)
Lemma answerClientHello_Ret now uuid ch g out res g' :
  answerClientHello now uuid ch g = (Ret (out, res), g') ->
  hr_ClientHello res = Some ch /\
  exists sh, out = server_body sh ++ arr_list (OuterMAC uuid (server_body sh)) /\
    sh_NonceEcho sh = ch_Nonce ch /\ sh_Status sh = Byte.x00 /\ 0 <= sh_ServerTime sh < 2 ^ 32.
Proof.
  unfold answerClientHello, lift. destruct (X25519_GenerateKey g) as [[xp|] g1]; [|done].
  destruct (X25519_NewPublicKey _); [|done]. cbn [or_fail sbind].
  destruct (X25519_ECDH _ _); [|done]. cbn [or_fail sbind].
  destruct (MLKEM_NewEncapsulationKey _) as [mp|]; [|done]. cbn [or_fail sbind].
  destruct (MLKEM_Encapsulate mp g1) as [[shared ct] g2]. destruct (negb _); [done|].
  set (sh := mkServerHello _ _ _ _ _). rewrite EncodeServerHello_eq. cbn [sbind].
  destruct (DeriveSessionKeys _ _ _ _); [|done..]. cbn [sbind]. intros [= <- <- <-]. split; [done|].
  exists sh. split_and!; try done; by apply Z.mod_pos_bound.
Qed.

(** One call, against the specification of the cache. *)
Lemma accept_one_simulates w last h c g r :
  last <= rq_nowCache r -> simulates w last h c ->
  let '(o, (cache, _)) := accept_one r (Some c, g) in
  exists c' h', cache = Some c' /\ simulates w (rq_nowCache r) h' c' /\ h ⊆ h' /\
    forall ch, accepted_hello o = Some ch ->
      checkClientHello (rq_now r) (rq_msg r) (rq_lookup r) ≫= (fun x => Ret x.2) = Ret ch /\
      blocked w (rq_nowCache r) (hello_key ch) h = false /\ (hello_key ch, rq_nowCache r) ∈ h'.
Proof.
  intros Hl Hs. unfold accept_one, AcceptClientHelloWithReplay, lift.
  pose proof (simulates_later w last (rq_nowCache r) h c Hl Hs) as Hs1.
  destruct (checkClientHello _ _ _) as [[uuid ch]|e|] eqn:Ec; cbn [sbind];
    [|exists c, h; split_and!; done..].
  pose proof (MarkSeenOrReject_simulates w last (rq_nowCache r) h c (ch_UUID ch) (ch_Nonce ch) Hl Hs) as Hm.
  destruct (MarkSeenOrReject _ _ _ c) as [ok c']. unfold step in Hm. fold (hello_key ch) in Hm.
  destruct (blocked w (rq_nowCache r) (hello_key ch) h) eqn:Eb; destruct Hm as [-> Hm]; cbn [negb].
  - exists c', h. split_and!; done.
  - destruct (answerClientHello _ _ _ _) as [o g'] eqn:Ea.
    exists c', ((hello_key ch, rq_nowCache r) :: h). split_and!; [done|done|set_solver|].
    intros ch' Hch'. destruct o as [[out res]|e|]; [|done..].
    apply answerClientHello_Ret in Ea as [Ea _]. cbn in Hch'. rewrite Ea in Hch'. injection Hch' as <-.
    split_and!; [done|done|left].
Qed.

Lemma accept_all_blocked w last h c g rs :
  simulates w last h c -> Forall (fun r => last <= rq_nowCache r) rs ->
  StronglySorted (fun r r' => rq_nowCache r <= rq_nowCache r') rs ->
  let os := (accept_all rs (Some c, g)).1 in
  forall j rj oj chj, rs !! j = Some rj -> os !! j = Some oj -> accepted_hello oj = Some chj ->
  checkClientHello (rq_now rj) (rq_msg rj) (rq_lookup rj) ≫= (fun x => Ret x.2) = Ret chj /\
  (forall t, (hello_key chj, t) ∈ h -> t + w <= rq_nowCache rj) /\
  (forall i ri oi chi, (i < j)%nat -> rs !! i = Some ri -> os !! i = Some oi ->
     accepted_hello oi = Some chi -> hello_key chi = hello_key chj ->
     rq_nowCache ri + w <= rq_nowCache rj).
Proof.
  revert last h c g. induction rs as [|r rs IH]; intros last h c g Hs Hle Hsort; cbn zeta; [done|].
  inversion Hle as [|?? Hr _]; subst. inversion Hsort as [|?? Hsort' Hall]; subst.
  cbn [accept_all]. pose proof (accept_one_simulates w last h c g r Hr Hs) as Hone.
  destruct (accept_one r (Some c, g)) as [o [cache g']].
  destruct Hone as (c' & h' & -> & Hs' & Hsub & Hacc).
  specialize (IH _ h' c' g' Hs' Hall Hsort'). cbn zeta in IH.
  destruct (accept_all rs (Some c', g')) as [os s]. cbn [fst] in *.
  intros [|j] rj oj chj Hrj Hoj Hchj; cbn in Hrj, Hoj.
  - injection Hrj as <-. injection Hoj as <-. destruct (Hacc _ Hchj) as (Hc & Hb & _).
    split_and!; [done| |lia]. by apply blocked_false.
  - destruct (IH j rj oj chj Hrj Hoj Hchj) as (Hc & Hh & Hi). split_and!; [done| |].
    + intros t Ht. apply Hh, Hsub, Ht.
    + intros [|i] ri oi chi Hij Hri Hoi Hchi Hk; cbn in Hri, Hoi.
      * injection Hri as <-. injection Hoi as <-. destruct (Hacc _ Hchi) as (_ & _ & Hin).
        apply Hh. by rewrite <-Hk.
      * apply (Hi i ri oi chi); [lia|done..].
Qed.

(** The same from a fresh cache. *)
Lemma accept_all_spaced rs g j rj oj chj :
  StronglySorted (fun r r' => rq_nowCache r <= rq_nowCache r') rs ->
  let os := (accept_all rs (Some (NewReplayCache ReplayWindow), g)).1 in
  rs !! j = Some rj -> os !! j = Some oj -> accepted_hello oj = Some chj ->
  checkClientHello (rq_now rj) (rq_msg rj) (rq_lookup rj) ≫= (fun x => Ret x.2) = Ret chj /\
  (forall i ri oi chi, (i < j)%nat -> rs !! i = Some ri -> os !! i = Some oi ->
     accepted_hello oi = Some chi -> hello_key chi = hello_key chj ->
     rq_nowCache ri + 180 <= rq_nowCache rj).
Proof.
  intros Hsort os Hrj Hoj Hch.
  destruct rs as [|r0 rs0]; [done|].
  assert (Hall : Forall (fun r => rq_nowCache r0 <= rq_nowCache r) (r0 :: rs0))
    by (inversion Hsort; by constructor).
  pose proof (accept_all_blocked 180 (rq_nowCache r0) [] (NewReplayCache ReplayWindow) g (r0 :: rs0)
    (NewReplayCache_simulates ReplayWindow _) Hall Hsort j rj oj chj Hrj Hoj Hch) as (H1 & _ & H2).
  by split.
Qed.

Lemma checkClientHello_time now msg lookup u ch :
  checkClientHello now msg lookup = Ret (u, ch) -> Z.abs (ch_Timestamp ch - now) <= 120.
Proof.
  unfold checkClientHello. intros H. inv_ret.
  match goal with H : (_ <? absDiff _ _) = false |- _ => revert H end.
  unfold HandshakeTimestampWindow, absDiff. destruct (Z.ltb_spec now (ch_Timestamp ch)); lia.
Qed.

(** The clock only matters for the timestamp window. *)
Lemma checkClientHello_later now now' msg lookup u ch :
  checkClientHello now msg lookup = Ret (u, ch) -> Z.abs (ch_Timestamp ch - now') <= 120 ->
  checkClientHello now' msg lookup = Ret (u, ch).
Proof.
  unfold checkClientHello. intros H Ht. inv_ret.
  rewrite !slice_ok by lia. cbn [mbind outcome_bind].
  repeat match goal with H : _ = Ret _ |- _ => rewrite H; cbn [mbind outcome_bind] end.
  repeat match goal with H : _ = false |- _ => rewrite ?H; clear H end.
  rewrite (proj2 (Z.ltb_ge _ _)); [done|].
  unfold HandshakeTimestampWindow, absDiff. destruct (Z.ltb_spec now' (ch_Timestamp ch)); lia.
Qed.
End Run.

(** ** Properties *)

Section Properties.
Context {G : Type} {C : Crypto G} {E : Entropy G} `{!AEADLaws C} `{!HKDFLaws C}.

(** Whether the cache (when there is one) lets the pair through. *)
Definition cache_admits (now : Z) (uuid : arr UUIDLen) (nonce : arr HandshakeNonce)
  (cache : option ReplayCache) : Prop :=
  match cache with None => True | Some c => (MarkSeenOrReject now uuid nonce c).1 = true end.

(** The whole exchange, with the sizes of its two messages. *)
Lemma honest_exchange `{!KEXLaws C} {T} (send : bytes -> T -> option error * T)
    now1 uuid cmd addr tr g st s' xp uuids cache gs xs gs1 now2 nowCache nowHello now3
    (Hwrite : WriteClientHello now1 send uuid cmd addr (tr, g) = (Ret st, s'))
    (Haddr : Address_wf addr)
    (Hpriv : st_x25519Priv st = Some xp)
    (Huuid : uuid ∈ uuids)
    (Hclock : absDiff (unix32 now1) now2 <= HandshakeTimestampWindow)
    (Hcache : cache_admits nowCache uuid (st_nonce st) cache)
    (Hgen : X25519_GenerateKey gs = (Some xs, gs1))
    (Hdh : is_Some (X25519_ECDH xs (X25519_PublicKey xp)))
    (Hclock' : absDiff (unix32 nowHello) now3 <= HandshakeTimestampWindow) :
  exists msg, send msg tr = (None, s'.1) /\ len msg <= 2566 /\ (mac_unique uuids uuid msg ->
    exists out res res' st' c',
      AcceptClientHelloWithReplay now2 nowCache nowHello msg (MakeUUIDLookup uuids) (cache, gs) =
        (Ret (out, res), c') /\
      len out = 1153 /\ ReadServerHello now3 out st = (Ret res', st') /\
      hr_Keys res' = hr_Keys res /\
      hr_ClientHello res = Some (strip_hello (st_hello st)) /\
      ch_Command (st_hello st) = cmd /\ ch_Address (st_hello st) = addr /\
      st_x25519Priv st' = None /\ st_mlkemPriv st' = None).
Proof.
  apply WriteClientHello_Ret in Hwrite
    as (xp' & mp & a & pad & Hxp & Hmp & Hu & Hn & Hh & Hc & He & Ha & Hp & Hsend).
  replace xp' with xp in * by congruence. clear xp' Hxp.
  destruct Hdh as [ss Hss].
  assert (Hf : ch_UUID (st_hello st) = uuid /\ ch_Command (st_hello st) = cmd /\
    ch_Address (st_hello st) = addr /\ ch_Timestamp (st_hello st) = unix32 now1)
    by (rewrite Hh; split_and!; done).
  destruct Hf as (Fu & Fc & Fa & Ft).
  assert (Hwf : ClientHello_wf (st_hello st)).
  { unfold ClientHello_wf. rewrite Fa, Ft. split_and!; [apply Z.mod_pos_bound; lia..|done|done]. }
  pose proof (length_inner_of (st_hello st) pad) as Hl. rewrite Fa in Hl. specialize (Hl He).
  pose proof (EncodedLen_bounds addr He).
  exists (hello_wire a (st_hello st) pad). split; [done|]. split.
  { unfold hello_wire. pose proof (length_hello_body a (st_hello st) pad). autorewrite with len. lia. }
  intros Hun.
  unfold AcceptClientHelloWithReplay, lift.
  rewrite checkClientHello_honest by (rewrite ?Fu, <-?Hn, ?Fc, ?Ft; (done || lia)).
  destruct (answer_then_read nowHello now3 st xp mp gs xs gs1 ss) as (out & res & gs2 & res' & Hans & Hch & Hrd & Hk);
    [done|done|done|by rewrite Hh|by rewrite Hh|done..|].
  rewrite Hu in Hans. cbn [sbind]. rewrite Fu. cbn [strip_hello ch_UUID ch_Nonce]. rewrite Fu, <-Hn.
  change (mkClientHello _ _ _ _ _ _ _) with (strip_hello (st_hello st)).
  apply answerClientHello_Ret in Hans as Hout. destruct Hout as (_ & sh & Hout & _).
  assert (Hlo : len out = 1153) by (rewrite Hout, length_app, length_server_body, arr_length; lia).
  unfold cache_admits in Hcache.
  destruct cache as [c|]; [destruct (MarkSeenOrReject _ _ _ c) as [b c']; cbn [fst] in Hcache; subst b|];
    cbn [negb]; rewrite Hans; do 5 eexists; (split_and!; [reflexivity|exact Hlo|exact Hrd|done..]).
Qed.

(** C1: key agreement: after [WriteClientHello] succeeded, the message it
    handed to the transport is accepted by every server that knows the UUID
    (clocks within the window, pair not in the cache, no MAC collision
    between configured UUIDs), the server sees the client's command and
    address, and the client accepts the answer and ends with the same
    session keys; its ephemeral keys are gone. *)
Theorem handshake_agreement `{!KEXLaws C} {T} (send : bytes -> T -> option error * T)
    now1 uuid cmd addr tr g st s' xp uuids cache gs xs gs1 now2 nowCache nowHello now3
    (Hwrite : WriteClientHello now1 send uuid cmd addr (tr, g) = (Ret st, s'))
    (Haddr : Address_wf addr)
    (Hpriv : st_x25519Priv st = Some xp)
    (Huuid : uuid ∈ uuids)
    (Hclock : absDiff (unix32 now1) now2 <= HandshakeTimestampWindow)
    (Hcache : cache_admits nowCache uuid (st_nonce st) cache)
    (Hgen : X25519_GenerateKey gs = (Some xs, gs1))
    (Hdh : is_Some (X25519_ECDH xs (X25519_PublicKey xp)))
    (Hclock' : absDiff (unix32 nowHello) now3 <= HandshakeTimestampWindow) :
  exists msg, send msg tr = (None, s'.1) /\ (mac_unique uuids uuid msg ->
    exists out res res' st' c',
      AcceptClientHelloWithReplay now2 nowCache nowHello msg (MakeUUIDLookup uuids) (cache, gs) =
        (Ret (out, res), c') /\
      ReadServerHello now3 out st = (Ret res', st') /\
      hr_Keys res' = hr_Keys res /\
      hr_ClientHello res = Some (strip_hello (st_hello st)) /\
      ch_Command (st_hello st) = cmd /\ ch_Address (st_hello st) = addr /\
      st_x25519Priv st' = None /\ st_mlkemPriv st' = None).
Proof.
  destruct (honest_exchange send now1 uuid cmd addr tr g st s' xp uuids cache gs xs gs1 now2 nowCache
    nowHello now3) as (msg & Hsend & _ & H); [done..|].
  exists msg. split; [done|]. intros Hun. destruct (H Hun) as (out & res & res' & st' & c' & Ha & _ & Hr).
  exists out, res, res', st', c'. by split.
Qed.

(** C4: authentication: a server that answers a message has received exactly
    the wire image of the hello it reports, sealed and MACed under a
    configured UUID that the hello itself names; its command is TCP or UDP,
    its timestamp is within 120 s of the server's clock, the replay cache
    admitted its (UUID, nonce) pair, and the answer echoes its nonce. *)
Theorem accept_sound now nowCache nowHello msg uuids cache g out res cache' g'
    (H : AcceptClientHelloWithReplay now nowCache nowHello msg (MakeUUIDLookup uuids) (cache, g) =
           (Ret (out, res), (cache', g'))) :
  exists ch, hr_ClientHello res = Some ch /\ authentic uuids msg ch /\
    (ch_Command ch = CommandTCP \/ ch_Command ch = CommandUDP) /\
    Z.abs (ch_Timestamp ch - now) <= 120 /\
    match cache with
    | None => cache' = None
    | Some c => exists c', cache' = Some c' /\
        MarkSeenOrReject nowCache (ch_UUID ch) (ch_Nonce ch) c = (true, c')
    end /\
    exists sh, DecodeServerHello out (ch_UUID ch) = Ret sh /\ sh_NonceEcho sh = ch_Nonce ch /\
      sh_Status sh = Byte.x00.
Proof.
  revert H. unfold AcceptClientHelloWithReplay, lift.
  pose proof (checkClientHello_cases now msg uuids) as Hc.
  destruct (checkClientHello _ _ _) as [[u ch]|e|]; cbn [sbind]; [|done..].
  destruct Hc as (-> & Hauth & Hcmd & Ht).
  assert (Hans : forall g, answerClientHello nowHello (ch_UUID ch) ch g = (Ret (out, res), g') ->
    hr_ClientHello res = Some ch /\ exists sh, DecodeServerHello out (ch_UUID ch) = Ret sh /\
      sh_NonceEcho sh = ch_Nonce ch /\ sh_Status sh = Byte.x00).
  { intros g0 Ha. apply answerClientHello_Ret in Ha as (Hch & sh & -> & Hn & Hst & Htm).
    split; [done|]. exists sh. by rewrite DecodeServerHello_ok. }
  apply bool_decide_eq_true in Hcmd.
  assert (Habs : Z.abs (ch_Timestamp ch - now) <= 120).
  { revert Ht. unfold absDiff, HandshakeTimestampWindow. destruct (Z.ltb_spec now (ch_Timestamp ch)); lia. }
  destruct cache as [c|].
  - destruct (MarkSeenOrReject _ _ _ c) as [[|] c'] eqn:Em; cbn [negb]; [|done].
    destruct (answerClientHello _ _ _ g) as [o g1] eqn:Ea. intros [= -> <- ->].
    destruct (Hans _ Ea) as [Hch Hsh]. exists ch. split_and!; [done..| |done]. by exists c'.
  - cbn [negb]. destruct (answerClientHello _ _ _ g) as [o g1] eqn:Ea. intros [= -> <- ->].
    destruct (Hans _ Ea) as [Hch Hsh]. exists ch. split_and!; done.
Qed.

(** C26: rejection is complete and harmless: on every message the server
    either passes all checks or fails with one of the documented errors
    (never [ErrOuterMAC]: a message with a bad MAC is reported as
    [ErrUnknownUUID]), does not panic, and leaves the replay cache and the
    randomness source untouched. *)
Theorem accept_rejects_cleanly now nowCache nowHello msg uuids s :
  match checkClientHello now msg (MakeUUIDLookup uuids) with
  | Ret _ => True
  | Fail e =>
      AcceptClientHelloWithReplay now nowCache nowHello msg (MakeUUIDLookup uuids) s = (Fail e, s) /\
      rejection e = true /\ error_is e ErrOuterMAC = false /\
      ((16 <= len msg /\ forall u, u ∈ uuids ->
          VerifyOuterMAC u (sub msg 0 (len msg - 16))
            (to_arr 16 (sub msg (len msg - 16) (len msg))) = false) -> e = ErrUnknownUUID)
  | Panic => False
  end.
Proof.
  pose proof (checkClientHello_cases now msg uuids) as Hc.
  destruct (checkClientHello _ _ _) as [x|e|] eqn:Ec; [done| |done].
  split; [unfold AcceptClientHelloWithReplay, lift; rewrite Ec; by destruct s|]. split; [done|]. split.
  - revert Hc. unfold rejection, hello_error, layout_error.
    repeat (case_bool_decide as Hb; [naive_solver|]; clear Hb; cbn [orb]). done.
  - intros [Hl Hno]. revert Ec. unfold checkClientHello. offsets.
    rewrite (proj2 (Z.ltb_ge _ _)), !slice_ok by lia. cbn [mbind outcome_bind].
    set (body := sub msg _ _) in *. set (tag := to_arr _ _) in *.
    pose proof (MakeUUIDLookup_cases uuids body tag) as Hm.
    destruct (MakeUUIDLookup uuids body tag) as [u|e'|]; [|cbn; intros [= <-]; apply Hm|done].
    destruct Hm as [Hu Ht%VerifyOuterMAC_spec]. by rewrite Hno in Ht.
Qed.

(** C24: the encoder is total on encodable hellos: it fails only for an
    unencodable address or when the randomness source fails; otherwise its
    message has between 1354 and 2566 bytes (so the length field never
    overflows and [ErrHandshakeLong] is unreachable), and decoding it under
    the hello's UUID gives the hello back (without the parts of the address
    that have no wire form). *)
Theorem clienthello_roundtrip ch g (Hwf : ClientHello_wf ch) :
  let '(o, g') := EncodeClientHello ch g in
  match o with
  | Ret msg => 1354 <= len msg <= 2566 /\ DecodeClientHello msg (ch_UUID ch) = Ret (strip_hello ch)
  | Fail e => e = Wrap ctx_pad_rand ErrRand /\
      exists n g1, rand_fill n g1 = (None, g')
  | Panic => False
  end.
Proof.
  destruct (hs_aead_ok (ch_UUID ch) (ch_Nonce ch)) as [a Ha].
  pose proof (EncodeClientHello_spec a ch g Ha) as Hs. rewrite (proj2 (proj2 Hwf)) in Hs.
  destruct Hs as (padLen & g1 & pad & g2 & _ & Hp & Hr & ->).
  destruct pad as [pad|]; [|by eauto].
  apply rand_fill_length in Hr. pose proof (length_inner_of ch pad (proj2 (proj2 Hwf))).
  pose proof (EncodedLen_bounds _ (proj2 (proj2 Hwf))). split.
  - unfold hello_wire. pose proof (length_hello_body a ch pad). autorewrite with len. lia.
  - unfold hello_wire. apply DecodeClientHello_ok; [done|done|lia|llia].
Qed.

(** the decoder accepts only wire images of the hello it returns, never
    panics, and reports one of its documented errors otherwise. *)
Theorem clienthello_decode_canonical msg uuid :
  match DecodeClientHello msg uuid with
  | Ret ch => ClientHello_wf ch /\ strip_hello ch = ch /\
      exists a pad mac, hs_aead uuid (ch_Nonce ch) = Ret a /\ len mac = 16 /\
        msg = hello_body a ch pad ++ mac
  | Fail e => hello_error e = true
  | Panic => False
  end.
Proof. pose proof (DecodeClientHello_inv msg uuid). destruct (DecodeClientHello msg uuid); naive_solver. Qed.

(** C25: ServerHello encoding and decoding under a UUID are inverse: a
    message decodes to a hello iff it is that hello's encoding (the MAC
    included), and every other message is turned down without a panic. *)
Theorem serverhello_codec sh uuid msg (Ht : 0 <= sh_ServerTime sh < 2 ^ 32) :
  (EncodeServerHello sh uuid = Ret msg <-> DecodeServerHello msg uuid = Ret sh) /\
  DecodeServerHello msg uuid <> Panic.
Proof.
  split.
  - rewrite EncodeServerHello_eq. split.
    + intros [= <-]. by apply DecodeServerHello_ok.
    + intros Hd. pose proof (DecodeServerHello_inv msg uuid) as Hi. rewrite Hd in Hi.
      by destruct Hi as [_ ->].
  - intros Hd. pose proof (DecodeServerHello_inv msg uuid) as Hi. by rewrite Hd in Hi.
Qed.
End Properties.

Section Replays.
Context {G : Type} {C : Crypto G} {E : Entropy G}.

(** replay defence: in every run of a server from a fresh cache, under a
    non-decreasing clock and whatever users come and go, two accepted
    hellos with the same UUID and nonce are at least 180 s apart. *)
Theorem accepted_pairs_spaced rs g i j ri rj oi oj chi chj
    (Hsort : StronglySorted (fun r r' => rq_nowCache r <= rq_nowCache r') rs) :
  let os := (accept_all rs (Some (NewReplayCache ReplayWindow), g)).1 in
  (i < j)%nat -> rs !! i = Some ri -> rs !! j = Some rj -> os !! i = Some oi -> os !! j = Some oj ->
  accepted_hello oi = Some chi -> accepted_hello oj = Some chj ->
  ch_UUID chi = ch_UUID chj -> ch_Nonce chi = ch_Nonce chj ->
  rq_nowCache ri + 180 <= rq_nowCache rj.
Proof.
  intros os Hij Hri Hrj Hoi Hoj Hchi Hchj Hu Hn.
  destruct (accept_all_spaced rs g j rj oj chj Hsort Hrj Hoj Hchj) as [_ Hi].
  apply (Hi i ri oi chi); [done..|]. unfold hello_key. by rewrite Hu, Hn.
Qed.

(** a hello whose timestamp is less than 60 s (less the time between the
    two clock readings of the later call) ahead of the server when it is
    first accepted is never accepted again: by the time the cache has
    forgotten it, its timestamp is out of the window. *)
Theorem accepted_at_most_once rs g i j ri rj oi oj chi
    (Hsort : StronglySorted (fun r r' => rq_nowCache r <= rq_nowCache r') rs) :
  let os := (accept_all rs (Some (NewReplayCache ReplayWindow), g)).1 in
  (i < j)%nat -> rs !! i = Some ri -> rs !! j = Some rj -> os !! i = Some oi -> os !! j = Some oj ->
  accepted_hello oi = Some chi ->
  ch_Timestamp chi + (rq_nowCache rj - rq_now rj) < rq_nowCache ri + 60 ->
  accepted_hello oj <> Some chi.
Proof.
  intros os Hij Hri Hrj Hoi Hoj Hchi Hts Hchj.
  destruct (accept_all_spaced rs g j rj oj chi Hsort Hrj Hoj Hchj) as [Hc Hi].
  pose proof (Hi i ri oi chi Hij Hri Hoi Hchi eq_refl).
  apply bind_Ret in Hc as ([u ch] & Hc & Heq). injection Heq as ->.
  apply checkClientHello_time in Hc. lia.
Qed.

(** What a client that completes its handshake has checked and computed. *)
Lemma ReadServerHello_inv now msg st res st' :
  ReadServerHello now msg st = (Ret res, st') ->
  exists sh xp mp sp ss shared,
    hr_ServerHello res = Some sh /\ DecodeServerHello msg (st_uuid st) = Ret sh /\
    sh_NonceEcho sh = st_nonce st /\ sh_Status sh = Byte.x00 /\
    absDiff (sh_ServerTime sh) now <= HandshakeTimestampWindow /\
    st_x25519Priv st = Some xp /\ st_mlkemPriv st = Some mp /\
    X25519_NewPublicKey (arr_list (sh_ClassicalPub sh)) = Some sp /\ X25519_ECDH xp sp = Some ss /\
    MLKEM_Decapsulate mp (arr_list (sh_PQCipher sh)) = Some shared /\
    DeriveSessionKeys (to_arr X25519PubLen ss) shared (ch_Nonce (st_hello st)) (sh_NonceEcho sh) = Ret (hr_Keys res) /\
    st' = mkClientHandshakeState (st_uuid st) (st_nonce st) None None (st_hello st).
Proof.
  unfold ReadServerHello, lift. destruct (DecodeServerHello msg (st_uuid st)) as [sh|e|]; cbn [sbind]; [|done..].
  case_bool_decide as Hn; [|done]. cbn [negb]. case_bool_decide as Hs; [|done]. cbn [negb].
  destruct (Z.ltb_spec HandshakeTimestampWindow (absDiff (sh_ServerTime sh) now)); [done|].
  destruct (X25519_NewPublicKey _) as [sp|] eqn:Hp; cbn [or_fail sbind]; [|done].
  destruct (st_x25519Priv st) as [xp|]; cbn [must sbind]; [|done].
  destruct (X25519_ECDH xp sp) as [ss|] eqn:Hd; cbn [or_fail sbind]; [|done].
  destruct (st_mlkemPriv st) as [mp|]; cbn [must sbind]; [|done].
  destruct (MLKEM_Decapsulate mp _) as [shared|] eqn:Hm; cbn [or_fail sbind]; [|done].
  destruct (DeriveSessionKeys _ _ _ _) as [keys|e|] eqn:Hk; cbn [sbind]; [|done..].
  intros [= <- <-]. exists sh, xp, mp, sp, ss, shared. by split_and!.
Qed.

(** C5: authentication of the server: a client completes its handshake only on
    the exact wire image of a ServerHello MACed under its own UUID that echoes
    the nonce of its hello, reports success and is at most 120 s away from the
    client's clock, and its keys are derived from the two secrets it shares
    with the keys of that hello; the same message is refused by every
    handshake of the user with another nonce, so an answer cannot be replayed
    into another session. *)
Theorem client_accept_sound `{!AEADLaws C} `{!HKDFLaws C} now msg st res st'
    (Hread : ReadServerHello now msg st = (Ret res, st')) :
  (exists sh xp mp sp ss shared, hr_ServerHello res = Some sh /\
     msg = server_body sh ++ arr_list (OuterMAC (st_uuid st) (server_body sh)) /\
     sh_NonceEcho sh = st_nonce st /\ sh_Status sh = Byte.x00 /\ Z.abs (sh_ServerTime sh - now) <= 120 /\
     st_x25519Priv st = Some xp /\ st_mlkemPriv st = Some mp /\
     X25519_NewPublicKey (arr_list (sh_ClassicalPub sh)) = Some sp /\ X25519_ECDH xp sp = Some ss /\
     MLKEM_Decapsulate mp (arr_list (sh_PQCipher sh)) = Some shared /\
     DeriveSessionKeys (to_arr X25519PubLen ss) shared (ch_Nonce (st_hello st)) (st_nonce st) = Ret (hr_Keys res)) /\
  (forall now2 st2, st_uuid st2 = st_uuid st -> st_nonce st2 <> st_nonce st ->
     ReadServerHello now2 msg st2 = (Fail ErrOuterMAC, st2)).
Proof.
  apply ReadServerHello_inv in Hread as
    (sh & xp & mp & sp & ss & shared & Hr & Hd & Hn & Hs & Ht & Hxp & Hmp & Hsp & Hss & Hsh & Hk & _).
  split.
  - pose proof (DecodeServerHello_inv msg (st_uuid st)) as Hi. rewrite Hd in Hi. destruct Hi as [_ Hmsg].
    exists sh, xp, mp, sp, ss, shared. rewrite <-Hn at 2. split_and!; try done.
    revert Ht. unfold absDiff, HandshakeTimestampWindow. destruct (Z.ltb_spec now (sh_ServerTime sh)); lia.
  - intros now2 st2 Hu Hne. unfold ReadServerHello, lift. rewrite Hu, Hd. cbn [sbind].
    rewrite bool_decide_false by congruence. done.
Qed.

(** the client state is single-use: a successful [ReadServerHello] drops
    both ephemeral keys, and reading any other answer that passes the checks
    panics on the missing key. *)
Theorem ReadServerHello_single_use now now' msg msg' sh st res st' :
  ReadServerHello now msg st = (Ret res, st') ->
  st_x25519Priv st' = None /\ st_mlkemPriv st' = None /\
  (DecodeServerHello msg' (st_uuid st') = Ret sh -> sh_NonceEcho sh = st_nonce st' ->
   sh_Status sh = Byte.x00 -> absDiff (sh_ServerTime sh) now' <= HandshakeTimestampWindow ->
   is_Some (X25519_NewPublicKey (arr_list (sh_ClassicalPub sh))) ->
   ReadServerHello now' msg' st' = (Panic, st')).
Proof.
  intros (? & ? & ? & ? & ? & ? & _ & _ & _ & _ & _ & _ & _ & _ & _ & _ & _ & Hst)%ReadServerHello_inv.
  rewrite Hst. split_and!; [done|done|]. cbn [st_uuid st_nonce]. intros Hd Hn Hs Ht [p Hp].
  unfold ReadServerHello, lift. cbn [st_uuid]. rewrite Hd. cbn [sbind st_nonce].
  rewrite !bool_decide_true, (proj2 (Z.ltb_ge _ _)) by done. cbn [negb]. by rewrite Hp.
Qed.

(** C38: the limit of the replay defence: the cache forgets a pair after
    180 s, but a hello dated 60 s or more ahead of the server's clock (which
    the 120 s window allows) is still fresh then.  The same message,
    accepted at [now], passes every check again at [now + 180]. *)
Theorem replay_of_future_hello_accepted now nowHello msg lookup u ch c c' g :
  checkClientHello now msg lookup = Ret (u, ch) -> window c = ReplayWindow ->
  now + 60 <= ch_Timestamp ch ->
  MarkSeenOrReject now (ch_UUID ch) (ch_Nonce ch) c = (true, c') ->
  (AcceptClientHelloWithReplay (now + 180) (now + 180) nowHello msg lookup (Some c', g)).1 =
    (answerClientHello nowHello u ch g).1.
Proof.
  intros Hc Hw Hts Hm. pose proof (checkClientHello_time _ _ _ _ _ Hc) as Ht.
  unfold AcceptClientHelloWithReplay, lift.
  rewrite (checkClientHello_later now) with (u := u) (ch := ch) by (done || lia).
  cbn [sbind]. assert (Hok : (MarkSeenOrReject (now + 180) (ch_UUID ch) (ch_Nonce ch) c').1 = true).
  { apply (MarkSeenOrReject_again now _ _ _ c c'); [done|]. by rewrite Hw. }
  destruct (MarkSeenOrReject (now + 180) _ _ c') as [b c'']. cbn [fst] in Hok. subst b. cbn [negb].
  by destruct (answerClientHello _ _ _ _).
Qed.
End Replays.

(** ** Witnesses *)

Module HandshakeExamples.
Definition u0 : arr UUIDLen := ReplayExamples.u0.
Definition addr0 : Address := domain_Address (str "example.org") 443.
(** A transport that records what is sent. *)
Definition record (m : bytes) (tr : list bytes) : option error * list bytes := (None, m :: tr).
Definition written := WriteClientHello 1000 record u0 CommandTCP addr0 ([], 5 : Toy.gen).
Definition st0 : ClientHandshakeState X25519Priv MLKEMPriv :=
  match written.1 with
  | Ret st => st
  | _ => mkClientHandshakeState (zero_arr 16) (zero_arr 12) None None
           (mkClientHello (zero_arr 12) (zero_arr 32) (zero_arr 1184) 0 (zero_arr 16) Byte.x00 addr0)
  end.
Definition xp0 : arr 32 := match st_x25519Priv st0 with Some x => x | None => zero_arr 32 end.
Definition msg0 : bytes := Eval vm_compute in hd [] written.2.1.
Definition cache0 := NewReplayCache ReplayWindow.
Definition acc0 :=
  AcceptClientHelloWithReplay 1010 1010 1011 msg0 (MakeUUIDLookup [u0]) (Some cache0, 9 : Toy.gen).
End HandshakeExamples.
Import HandshakeExamples.

Lemma handshake_agreement_witness :
  exists msg, record msg [] = (None, written.2.1) /\
    exists out res res' st' c',
      AcceptClientHelloWithReplay 1010 1010 1011 msg (MakeUUIDLookup [u0]) (Some cache0, 9 : Toy.gen) =
        (Ret (out, res), c') /\
      ReadServerHello 1012 out st0 = (Ret res', st') /\ hr_Keys res' = hr_Keys res.
Proof.
  destruct (handshake_agreement (G := Toy.gen) record 1000 u0 CommandTCP addr0 [] (5 : Toy.gen)
    st0 written.2 xp0 [u0] (Some cache0) (9 : Toy.gen) (to_arr 32 (byte_of <$> seqZ 63 32)) 10
    1010 1010 1011 1012) as (msg & Hsend & Hrun).
  - vm_compute; reflexivity.
  - split; vm_compute; split; congruence.
  - vm_compute; reflexivity.
  - left.
  - vm_compute; congruence.
  - vm_compute; reflexivity.
  - vm_compute; reflexivity.
  - eexists; vm_compute; reflexivity.
  - vm_compute; congruence.
  - exists msg. split; [exact Hsend|].
    destruct Hrun as (out & res & res' & st' & c' & Ha & Hr & Hk & _).
    + intros u Hu _. apply list_elem_of_singleton in Hu. exact Hu.
    + exists out, res, res', st', c'. split; [exact Ha|]. split; [exact Hr|exact Hk].
Defined.

Module AcceptExamples.
Definition lookup0 : UUIDLookup := MakeUUIDLookup [u0].
Definition out0 : bytes := Eval vm_compute in match acc0.1 with Ret (o, _) => o | _ => [] end.
Definition res0 : HandshakeResult :=
  match acc0.1 with
  | Ret (_, r) => r
  | _ => mkHandshakeResult (mkSessionKeys (zero_arr _) (zero_arr _) (zero_arr _) (zero_arr _)) None None
  end.
Definition hello0 : ClientHello := st_hello st0.
(** A client whose clock is 70 s ahead of the server's. *)
Definition msg1 : bytes := Eval vm_compute in
  hd [] (WriteClientHello 1080 record u0 CommandUDP addr0 ([], 5 : Toy.gen)).2.1.
Definition hello_at (now : Z) (msg : bytes) : ClientHello :=
  match checkClientHello now msg lookup0 with Ret (_, ch) => ch | _ => hello0 end.
Definition sh0 : ServerHello := mkServerHello (zero_arr 12) (zero_arr 32) (zero_arr 1088) 1011 Byte.x00.
Definition sh1 : ServerHello := match DecodeServerHello (G := Toy.gen) out0 u0 with Ret sh => sh | _ => sh0 end.
Definition st1 := (ReadServerHello 1012 out0 st0).2.
End AcceptExamples.
Import AcceptExamples.

Lemma accept_sound_witness :
  exists ch, hr_ClientHello res0 = Some ch /\ authentic [u0] msg0 ch.
Proof.
  destruct (accept_sound 1010 1010 1011 msg0 [u0] (Some cache0) (9 : Toy.gen) out0 res0 acc0.2.1 acc0.2.2)
    as (ch & Hch & Ha & _); [vm_compute; reflexivity|].
  exists ch. split; [exact Hch|exact Ha].
Defined.

Lemma accept_rejects_cleanly_witness :
  AcceptClientHelloWithReplay 1010 1010 1011 (drop 1 msg0) (MakeUUIDLookup [u0])
    (Some cache0, 9 : Toy.gen) = (Fail ErrUnknownUUID, (Some cache0, 9)).
Proof.
  pose proof (accept_rejects_cleanly 1010 1010 1011 (drop 1 msg0) [u0] (Some cache0, 9 : Toy.gen)) as H.
  assert (He : checkClientHello (G := Toy.gen) 1010 (drop 1 msg0) (MakeUUIDLookup [u0]) =
    Fail ErrUnknownUUID) by (vm_compute; reflexivity).
  rewrite He in H. exact (proj1 H).
Defined.

Lemma clienthello_roundtrip_witness :
  let '(o, g') := EncodeClientHello hello0 (8 : Toy.gen) in
  match o with
  | Ret msg => 1354 <= len msg <= 2566 /\ DecodeClientHello msg (ch_UUID hello0) = Ret (strip_hello hello0)
  | Fail e => e = Wrap ctx_pad_rand ErrRand /\ exists n g1, rand_fill n g1 = (None, g')
  | Panic => False
  end.
Proof.
  apply clienthello_roundtrip. split; [vm_compute; split; congruence|].
  split; [split; vm_compute; split; congruence|vm_compute; reflexivity].
Defined.

Lemma clienthello_decode_canonical_witness :
  match DecodeClientHello (G := Toy.gen) msg0 u0 with
  | Ret ch => ClientHello_wf ch /\ strip_hello ch = ch /\
      exists a pad mac, hs_aead (G := Toy.gen) u0 (ch_Nonce ch) = Ret a /\ len mac = 16 /\
        msg0 = hello_body a ch pad ++ mac
  | Fail e => hello_error e = true
  | Panic => False
  end.
Proof. apply (clienthello_decode_canonical (G := Toy.gen) msg0 u0). Defined.

Lemma serverhello_codec_witness :
  (EncodeServerHello (G := Toy.gen) sh0 u0 = Ret out0 <-> DecodeServerHello (G := Toy.gen) out0 u0 = Ret sh0) /\
  DecodeServerHello (G := Toy.gen) out0 u0 <> Panic.
Proof. apply serverhello_codec. vm_compute. split; congruence. Defined.

Lemma client_accept_sound_witness :
  exists sh, out0 = server_body sh ++ arr_list (OuterMAC (st_uuid st0) (server_body sh)) /\
    sh_NonceEcho sh = st_nonce st0.
Proof.
  destruct (client_accept_sound 1012 out0 st0
    (match (ReadServerHello 1012 out0 st0).1 with Ret r => r | _ => res0 end) st1) as [H _]; [vm_compute; reflexivity|].
  destruct H as (sh & xp & mp & sp & ss & shared & _ & Hm & Hn & _). exists sh. split; [exact Hm|exact Hn].
Defined.

Lemma ReadServerHello_single_use_witness : ReadServerHello 1013 out0 st1 = (Panic, st1).
Proof.
  destruct (ReadServerHello_single_use 1012 1013 out0 out0 sh1 st0
    (match (ReadServerHello 1012 out0 st0).1 with Ret r => r | _ => res0 end) st1) as (_ & _ & H);
    [vm_compute; reflexivity|].
  apply H; [vm_compute; reflexivity|apply arr_eq; vm_compute; reflexivity|vm_compute; reflexivity
           |vm_compute; congruence|eexists; vm_compute; reflexivity].
Defined.

Lemma replay_of_future_hello_accepted_witness :
  let c' := (MarkSeenOrReject 1010 u0 (ch_Nonce (hello_at 1010 msg1)) cache0).2 in
  (AcceptClientHelloWithReplay 1190 1190 1191 msg1 lookup0 (Some c', 9 : Toy.gen)).1 =
    (answerClientHello 1191 u0 (hello_at 1010 msg1) (9 : Toy.gen)).1.
Proof.
  intros c'. apply (replay_of_future_hello_accepted 1010 1191 msg1 lookup0 u0 (hello_at 1010 msg1) cache0 c'
    (9 : Toy.gen)); [vm_compute; reflexivity..| |vm_compute; reflexivity]. vm_compute. congruence.
Defined.
