(* ===== verification/Agreement.v ===== *)
(** * The handshake under an active attacker (src/handshake.go)

    Clients that start handshakes and a server, on a network that belongs to
    an attacker: he sees every hello and every answer, and decides what the
    server and the clients receive.  The HMAC is ideal for the UUIDs he does
    not know: a message whose tag is valid under such a UUID has a body that a
    client or the server has authenticated under it.  Both sides are shown to
    agree on the hello and on the session keys. *)

From S2P Require Import Prelude Address Crypto Io Kdf Padding Frame Replay Handshake HandshakeProofs.

(** What the tag of a message covers, and the tag. *)
Definition mac_body (msg : bytes) : bytes := sub msg 0 (len msg - 16).
Definition mac_tag (msg : bytes) : arr OuterMACLen := to_arr OuterMACLen (sub msg (len msg - 16) (len msg)).

(** The callback [send] of a client whose messages go to the attacker. *)
Definition capture (m : bytes) (net : list bytes) : option error * list bytes := (None, m :: net).

Section Game.
Context {G : Type} {C : Crypto G} {E : Entropy G}.
(** The UUIDs the attacker does not know. *)
Context (secret : arr UUIDLen -> Prop).

Abbreviation CState := (ClientHandshakeState X25519Priv MLKEMPriv).

(** A handshake of a client: its state, the hello it sent, and its result. *)
Record client_run := mkClientRun {
  cr_state : CState;
  cr_hello : bytes;
  cr_result : option HandshakeResult
}.

(** A message the server has answered. *)
Record server_run := mkServerRun { sr_out : bytes; sr_result : HandshakeResult }.

Record game := mkGame {
  gm_users : list (arr UUIDLen);
  gm_cache : option ReplayCache;
  gm_gen : G;
  gm_clients : gmap nat client_run;
  gm_servers : list server_run
}.

Definition new_game (users : list (arr UUIDLen)) (cache : option ReplayCache) (g : G) : game :=
  mkGame users cache g ∅ [].

(** The tags that have been computed for messages. *)
Definition authenticated (w : game) (u : arr UUIDLen) (body : bytes) : Prop :=
  (exists i c, gm_clients w !! i = Some c /\ st_uuid (cr_state c) = u /\ mac_body (cr_hello c) = body) \/
  (exists r ch, r ∈ gm_servers w /\ hr_ClientHello (sr_result r) = Some ch /\ ch_UUID ch = u /\
     mac_body (sr_out r) = body).

Definition genuine (w : game) (msg : bytes) : Prop :=
  forall u, secret u -> mac_tag msg = OuterMAC u (mac_body msg) -> authenticated w u (mac_body msg).

(** A client reads what the attacker gives it. *)
Definition client_reads (now : Z) (msg : bytes) (c : client_run) : client_run :=
  let '(o, st) := ReadServerHello now msg (cr_state c) in
  mkClientRun st (cr_hello c) (match o with Ret res => Some res | _ => cr_result c end).

(** The server receives what the attacker gives it. *)
Definition server_receives (now nowCache nowHello : Z) (msg : bytes) (w : game) : game :=
  let '(o, (cache, g)) :=
    AcceptClientHelloWithReplay now nowCache nowHello msg (MakeUUIDLookup (gm_users w)) (gm_cache w, gm_gen w) in
  mkGame (gm_users w) cache g (gm_clients w)
    (gm_servers w ++ match o with Ret (out, res) => [mkServerRun out res] | _ => [] end).

(** What may happen: a client starts a handshake, the server or a client
    receives a message, and the users, the cache and the randomness source
    change in any other way. *)
Inductive game_step : game -> game -> Prop :=
  | gs_start i now uuid cmd addr w st net g :
      gm_clients w !! i = None -> Address_wf addr ->
      WriteClientHello now capture uuid cmd addr ([], gm_gen w) = (Ret st, (net, g)) ->
      game_step w (mkGame (gm_users w) (gm_cache w) g
                     (<[i := mkClientRun st (hd [] net) None]> (gm_clients w)) (gm_servers w))
  | gs_server now nowCache nowHello msg w :
      genuine w msg -> game_step w (server_receives now nowCache nowHello msg w)
  | gs_client i c now msg w :
      gm_clients w !! i = Some c -> genuine w msg ->
      game_step w (mkGame (gm_users w) (gm_cache w) (gm_gen w)
                     (<[i := client_reads now msg c]> (gm_clients w)) (gm_servers w))
  | gs_environment users cache g w : game_step w (mkGame users cache g (gm_clients w) (gm_servers w)).

(** The hello a client has sent, as the server sees it. *)
Definition own_hello (c : client_run) : ClientHello := strip_hello (st_hello (cr_state c)).

(** No other handshake of the same user has drawn the nonce of [i]. *)
Definition fresh_nonce (w : game) (i : nat) : Prop :=
  forall j ci cj, gm_clients w !! i = Some ci -> gm_clients w !! j = Some cj ->
    st_uuid (cr_state ci) = st_uuid (cr_state cj) -> st_nonce (cr_state ci) = st_nonce (cr_state cj) -> i = j.
End Game.

(** ** Messages *)

Section Messages.
Context {G : Type} {C : Crypto G} {E : Entropy G} `{!CryptoLaws C}.

Abbreviation CState := (ClientHandshakeState X25519Priv MLKEMPriv).

Lemma mac_parts body (tag : arr OuterMACLen) :
  mac_body (body ++ arr_list tag) = body /\ mac_tag (body ++ arr_list tag) = tag.
Proof.
  unfold mac_body, mac_tag. rewrite length_app, arr_length.
  change (Z.of_nat (length body + OuterMACLen)) with (Z.of_nat (length body + 16)).
  replace (Z.of_nat (length body + 16) - 16) with (len body) by lia.
  split; sub_simpl; [done|]. apply to_arr_id.
Qed.

(** The state of a client, before or after it has read an answer. *)
Record client_state_ok (st : CState) (hello : bytes) : Prop := {
  ck_uuid : ch_UUID (st_hello st) = st_uuid st;
  ck_nonce : ch_Nonce (st_hello st) = st_nonce st;
  ck_wf : ClientHello_wf (st_hello st);
  ck_keys : forall xp mp, st_x25519Priv st = Some xp -> st_mlkemPriv st = Some mp ->
    ch_ClassicalPub (st_hello st) = to_arr X25519PubLen (X25519_Bytes (X25519_PublicKey xp)) /\
    ch_PQPub (st_hello st) = to_arr MLKEM768PubLen (MLKEM_Bytes (MLKEM_EncapsulationKey mp));
  ck_wire : exists a pad, hs_aead (st_uuid st) (st_nonce st) = Ret a /\
    len (inner_of (st_hello st) pad) + 16 < 2 ^ 16 /\
    hello = hello_wire a (st_hello st) pad
}.

Lemma start_ok now uuid cmd addr net0 (g : G) st net g' :
  Address_wf addr -> WriteClientHello now capture uuid cmd addr (net0, g) = (Ret st, (net, g')) ->
  client_state_ok st (hd [] net).
Proof.
  intros Hwf (xp & mp & a & pad & Hxp & Hmp & Hu & Hn & Hh & Hc & He & Ha & Hp & Hsend)%WriteClientHello_Ret.
  unfold capture in Hsend. cbn [fst] in Hsend. injection Hsend as <-.
  assert (Hf : ch_UUID (st_hello st) = uuid /\ ch_Address (st_hello st) = addr /\ ch_Timestamp (st_hello st) =
    unix32 now)
    by (rewrite Hh; split_and!; done).
  destruct Hf as (Fu & Fa & Ft). split.
  - by rewrite Fu, Hu.
  - done.
  - unfold ClientHello_wf. rewrite Fa, Ft. split_and!; [apply Z.mod_pos_bound; lia..|done|done].
  - intros xp' mp'. rewrite Hxp, Hmp. intros [= <-] [= <-]. rewrite Hh. done.
  - exists a, pad. rewrite Hu. split_and!; [done| |done].
    rewrite length_inner_of by (by rewrite Fa). rewrite Fa. pose proof (EncodedLen_bounds addr He). lia.
Qed.

(** What a server that lets a hello pass has seen. *)
Lemma checkClientHello_Ret now msg uuids u ch :
  checkClientHello now msg (MakeUUIDLookup uuids) = Ret (u, ch) ->
  16 <= len msg /\ u = ch_UUID ch /\ DecodeClientHello msg u = Ret ch /\ mac_tag msg = OuterMAC u (mac_body msg).
Proof.
  unfold checkClientHello. offsets. destruct (Z.ltb_spec (len msg) 16); [done|].
  rewrite !slice_ok by lia. cbn [mbind outcome_bind].
  pose proof (MakeUUIDLookup_cases uuids (mac_body msg) (mac_tag msg)) as Hl. unfold mac_body, mac_tag in *.
  change OuterMACLen with 16%nat in *.
  destruct (MakeUUIDLookup _ _ _) as [u'|e|]; [|done..]. cbn [mbind outcome_bind].
  destruct (DecodeClientHello msg u') as [ch'|e|] eqn:Hd; cbn [mbind outcome_bind]; [|done..].
  case_bool_decide as Hid; [|done]. cbn [negb]. destruct (command_ok _); [|done]. cbn [negb].
  destruct (_ <? _); [done|]. intros [= <- <-].
  split_and!; [lia|done|done|apply Hl].
Qed.

Lemma accept_Ret now nowCache nowHello msg uuids cache (g : G) out res cache' g' :
  AcceptClientHelloWithReplay now nowCache nowHello msg (MakeUUIDLookup uuids) (cache, g) =
    (Ret (out, res), (cache', g')) ->
  exists ch, checkClientHello now msg (MakeUUIDLookup uuids) = Ret (ch_UUID ch, ch) /\
    hr_ClientHello res = Some ch /\ answerClientHello nowHello (ch_UUID ch) ch g = (Ret (out, res), g').
Proof.
  unfold AcceptClientHelloWithReplay, lift.
  destruct (checkClientHello _ _ _) as [[u ch]|e|] eqn:Hc; cbn [sbind]; [|done..].
  apply checkClientHello_Ret in Hc as Hu. destruct Hu as (_ & -> & _).
  destruct (match cache with None => _ | Some _ => _ end) as [[|] c]; cbn [negb]; [|done].
  destruct (answerClientHello _ _ _ g) as [o g1] eqn:Ha. intros [= -> _ <-].
  apply answerClientHello_Ret in Ha as Hch. destruct Hch as [Hch _]. by exists ch.
Qed.

Lemma DecodeClientHello_length msg u ch : DecodeClientHello msg u = Ret ch -> 1262 <= len msg.
Proof. unfold DecodeClientHello. offsets. by destruct (Z.ltb_spec (len msg) 1262). Qed.

(** A message is its body and its tag. *)
Lemma message_eq msg msg' :
  16 <= len msg -> 16 <= len msg' -> mac_body msg = mac_body msg' -> mac_tag msg = mac_tag msg' -> msg = msg'.
Proof.
  unfold mac_body, mac_tag. change OuterMACLen with 16%nat. intros Hl Hl' Hb Ht.
  apply (f_equal arr_list) in Ht. rewrite !to_arr_list in Ht by (rewrite length_sub_nat; lia).
  rewrite <-(sub_all msg), <-(sub_all msg'), (sub_split msg 0 (len msg - 16)), (sub_split msg' 0 (len msg' - 16)) by lia.
  congruence.
Qed.

(** [ReadServerHello] keeps what identifies the handshake. *)
Lemma ReadServerHello_state now msg (st : CState) :
  let st' := (ReadServerHello now msg st).2 in
  st' = st \/ st' = mkClientHandshakeState (st_uuid st) (st_nonce st) None None (st_hello st).
Proof.
  unfold ReadServerHello, lift. cbn zeta.
  destruct (DecodeServerHello _ _) as [sh|e|]; cbn [sbind]; [|by left..].
  do 3 (destruct (negb _) || destruct (_ <? _); [by left|]).
  destruct (X25519_NewPublicKey _) as [sp|]; cbn [or_fail sbind]; [|by left].
  destruct (st_x25519Priv st) as [xp|]; cbn [must sbind]; [|by left].
  destruct (X25519_ECDH _ _); cbn [or_fail sbind]; [|by left].
  destruct (st_mlkemPriv st) as [mp|]; cbn [must sbind]; [|by left].
  destruct (MLKEM_Decapsulate _ _); cbn [or_fail sbind]; [|by left].
  destruct (DeriveSessionKeys _ _ _ _); cbn [sbind]; [by right|by left..].
Qed.

Lemma Ret_out {A B S} (a a' : A) (b b' : B) (s s' : S) : (Ret (a, b), s) = (Ret (a', b'), s') -> a = a'.
Proof. congruence. Qed.

Lemma server_body_inj sh sh' :
  0 <= sh_ServerTime sh < 2 ^ 32 -> 0 <= sh_ServerTime sh' < 2 ^ 32 -> server_body sh = server_body sh' -> sh = sh'.
Proof.
  intros Ht Ht' Heq. pose proof (DecodeServerHello_ok sh (zero_arr UUIDLen) Ht) as H.
  rewrite Heq, (DecodeServerHello_ok sh' _ Ht') in H. by injection H.
Qed.

(** A client that reads the answer to its own hello has the keys of the
    server. *)
Lemma answer_read_agree nowHello (g : G) out res g' now (st st' : CState) hello res' :
  client_state_ok st hello ->
  answerClientHello nowHello (st_uuid st) (strip_hello (st_hello st)) g = (Ret (out, res), g') ->
  ReadServerHello now out st = (Ret res', st') -> hr_Keys res' = hr_Keys res.
Proof.
  intros Hok Hans Hread. pose proof Hread as Hinv.
  apply ReadServerHello_inv in Hinv as (sh & xp & mp & sp & ss & shared & _ & Hd & _ & _ & Ht & Hxp & Hmp & _).
  destruct (ck_keys _ _ Hok xp mp Hxp Hmp) as [Hcp Hpq].
  destruct (X25519_GenerateKey g) as [[xs|] g1] eqn:Hgen; [|by unfold answerClientHello in Hans; rewrite Hgen in Hans].
  assert (Hpub : X25519_NewPublicKey (arr_list (ch_ClassicalPub (strip_hello (st_hello st)))) =
    Some (X25519_PublicKey xp)).
  { cbn [strip_hello ch_ClassicalPub]. rewrite Hcp, to_arr_list by apply X25519_Bytes_length. apply X25519_New_Bytes. }
  destruct (X25519_ECDH xs (X25519_PublicKey xp)) as [s0|] eqn:Hdh.
  2: { unfold answerClientHello, lift in Hans. rewrite Hgen, Hpub in Hans. cbn [or_fail sbind] in Hans.
    by rewrite Hdh in Hans. }
  assert (Hwin : absDiff (unix32 nowHello) now <= HandshakeTimestampWindow).
  { destruct (MLKEM_Encapsulate (MLKEM_EncapsulationKey mp) g1) as [[k ct] g2] eqn:Hen.
    pose proof (answerClientHello_ok nowHello (st_uuid st) (strip_hello (st_hello st)) g xs g1
      (X25519_PublicKey xp) s0 (MLKEM_EncapsulationKey mp) Hgen Hpub Hdh) as H. rewrite Hen in H.
    destruct H as (keys & _ & H).
    { cbn [strip_hello ch_PQPub]. rewrite Hpq, to_arr_list by apply MLKEM_Bytes_length. apply MLKEM_New_Bytes. }
    rewrite H in Hans. apply Ret_out in Hans. rewrite <-Hans, DecodeServerHello_ok in Hd by (by apply Z.mod_pos_bound).
    by injection Hd as <-. }
  destruct (answer_then_read nowHello now st xp mp g xs g1 s0 Hxp Hmp (eq_sym (ck_nonce _ _ Hok)) Hcp Hpq Hgen Hdh Hwin)
    as (out2 & res2 & g2 & res2' & Hans2 & _ & Hread2 & Hk).
  rewrite Hans in Hans2. injection Hans2 as <- <- <-. rewrite Hread in Hread2. injection Hread2 as <- _. exact Hk.
Qed.
End Messages.

(** ** The invariant *)

Section Invariant.
Context {G : Type} {C : Crypto G} {E : Entropy G} `{!CryptoLaws C}.
Context (secret : arr UUIDLen -> Prop).

Abbreviation game := (@game G C).

Lemma mac_body_hello st hello :
  client_state_ok st hello -> 1246 <= len (mac_body hello) /\ hello =
    mac_body hello ++ arr_list (OuterMAC (st_uuid st) (mac_body hello)) /\
    forall mac, len mac = 16 -> DecodeClientHello (mac_body hello ++ mac) (st_uuid st) =
      Ret (strip_hello (st_hello st)).
Proof.
  intros Hok. destruct (ck_wire _ _ Hok) as (a & pad & Ha & Hl & ->). unfold hello_wire.
  rewrite (proj1 (mac_parts _ _)), length_hello_body, (ck_uuid _ _ Hok).
  split_and!; [lia|done|]. intros mac Hm. rewrite <-(ck_uuid _ _ Hok).
  apply DecodeClientHello_ok; [by rewrite (ck_uuid _ _ Hok), (ck_nonce _ _ Hok)|apply (ck_wf _ _ Hok)|done|done].
Qed.

(** The server has answered a hello with the UUID and the nonce of the
    client; if it is the client's own, the keys are the same. *)
Definition answered (servers : list server_run) (c : client_run) (keys : SessionKeys) : Prop :=
  exists r ch, r ∈ servers /\ hr_ClientHello (sr_result r) = Some ch /\
    ch_UUID ch = st_uuid (cr_state c) /\ ch_Nonce ch = st_nonce (cr_state c) /\
    (ch = own_hello c -> hr_Keys (sr_result r) = keys).

(** [ch] is the hello of a client. *)
Definition sent_by (clients : gmap nat client_run) (ch : ClientHello) : Prop :=
  exists i c, clients !! i = Some c /\ own_hello c = ch.

Definition server_ok (clients : gmap nat client_run) (r : server_run) : Prop :=
  exists now g g' ch, answerClientHello now (ch_UUID ch) ch g = (Ret (sr_out r, sr_result r), g') /\
    hr_ClientHello (sr_result r) = Some ch /\ (secret (ch_UUID ch) -> sent_by clients ch).

Definition client_ok (servers : list server_run) (c : client_run) : Prop :=
  client_state_ok (cr_state c) (cr_hello c) /\
  (forall res, cr_result c = Some res -> secret (st_uuid (cr_state c)) -> answered servers c (hr_Keys res)).

Definition game_inv (w : game) : Prop :=
  map_Forall (fun _ c => client_ok (gm_servers w) c) (gm_clients w) /\
  Forall (server_ok (gm_clients w)) (gm_servers w).

(** The state after a read, beside the result. *)
Lemma client_reads_keeps now msg (c : client_run) :
  let c' := client_reads now msg c in
  st_uuid (cr_state c') = st_uuid (cr_state c) /\ st_nonce (cr_state c') = st_nonce (cr_state c) /\
  st_hello (cr_state c') = st_hello (cr_state c) /\ cr_hello c' = cr_hello c /\
  (client_state_ok (cr_state c) (cr_hello c) -> client_state_ok (cr_state c') (cr_hello c')).
Proof.
  pose proof (ReadServerHello_state now msg (cr_state c)) as H. unfold client_reads. cbn zeta in *.
  destruct (ReadServerHello now msg (cr_state c)) as [o st]. cbn [snd] in H. cbn [cr_state cr_hello].
  destruct H as [->| ->]; [done|]. cbn [st_uuid st_nonce st_hello]. split_and!; [done..|].
  intros [? ? ? ? ?]. split; done.
Qed.

Lemma client_ok_mono servers servers' c : servers ⊆ servers' -> client_ok servers c -> client_ok servers' c.
Proof.
  intros Hs [Hok Hres]. split; [done|]. intros res Hr Hsec.
  destruct (Hres res Hr Hsec) as (r & ch & Hin & H). exists r, ch. split; [by apply Hs|done].
Qed.

Lemma server_ok_mono (clients clients' : gmap nat client_run) r :
  (forall ch, sent_by clients ch -> sent_by clients' ch) -> server_ok clients r -> server_ok clients' r.
Proof. intros Hs (now & g & g' & ch & Ha & Hc & H). exists now, g, g', ch. split_and!; [done..|]. auto. Qed.

(** Only a client can have authenticated a hello under a secret UUID. *)
Lemma accepted_is_sent (w : game) now msg ch :
  game_inv w -> genuine secret w msg ->
  checkClientHello now msg (MakeUUIDLookup (gm_users w)) = Ret (ch_UUID ch, ch) -> secret (ch_UUID ch) ->
  sent_by (gm_clients w) ch.
Proof.
  intros [Hcl Hsv] Hgen (Hl & _ & Hd & Htag)%checkClientHello_Ret Hsec.
  pose proof (DecodeClientHello_length _ _ _ Hd) as Hlen.
  assert (Hb : len (mac_body msg) = len msg - 16) by (unfold mac_body; rewrite length_sub by lia; lia).
  destruct (Hgen _ Hsec Htag) as [(i & c & Hi & Hu & Hbody)|(r & ch' & Hin & Hch & Hu & Hbody)].
  - exists i, c. split; [done|]. destruct (Hcl i c Hi) as [Hok _].
    destruct (mac_body_hello _ _ Hok) as (_ & Hm & Hdec).
    assert (Hmsg : msg = mac_body (cr_hello c) ++ arr_list (mac_tag msg)).
    { destruct (mac_parts (mac_body msg) (mac_tag msg)) as [H1 H2].
      rewrite Hbody. apply message_eq; [done|llia|done|done]. }
    rewrite Hmsg, <-Hu, Hdec in Hd by llia. by injection Hd.
  - rewrite Forall_forall in Hsv. destruct (Hsv r Hin) as (? & ? & ? & ch2 & Ha & _).
    apply answerClientHello_Ret in Ha as (_ & sh & Hout & _).
    rewrite Hout, (proj1 (mac_parts _ _)) in Hbody. rewrite <-Hbody, length_server_body in Hb. lia.
Qed.

(** Only the server can have authenticated an answer under a secret UUID. *)
Lemma read_is_answered (w : game) now msg c res st' :
  game_inv w -> genuine secret w msg -> client_state_ok (cr_state c) (cr_hello c) ->
  secret (st_uuid (cr_state c)) -> ReadServerHello now msg (cr_state c) = (Ret res, st') ->
  answered (gm_servers w) c (hr_Keys res).
Proof.
  intros [Hcl Hsv] Hgen Hok Hsec Hread. pose proof Hread as Hinv.
  apply ReadServerHello_inv in Hinv as (sh & ? & ? & ? & ? & ? & _ & Hd & Hn & _).
  pose proof (DecodeServerHello_inv msg (st_uuid (cr_state c))) as Hi. rewrite Hd in Hi. destruct Hi as [Ht Hmsg].
  destruct (mac_parts (server_body sh) (OuterMAC (st_uuid (cr_state c)) (server_body sh))) as [Hb Htag].
  rewrite <-Hmsg in Hb, Htag. pose proof (Hgen _ Hsec ltac:(by rewrite Hb)) as Hauth. rewrite Hb in Hauth.
  destruct Hauth as [(i & c' & Hi & Hu & Hbody)|(r & ch & Hin & Hch & Hu & Hbody)].
  - destruct (Hcl i c' Hi) as [Hok' _]. destruct (mac_body_hello _ _ Hok') as [Hl _].
    rewrite Hbody, length_server_body in Hl. lia.
  - rewrite Forall_forall in Hsv. destruct (Hsv r Hin) as (nowH & g & g' & ch2 & Ha & Hch2 & _).
    assert (ch2 = ch) as -> by congruence. pose proof Ha as Hr.
    apply answerClientHello_Ret in Hr as (_ & sh' & Hout & Hn' & _ & Ht').
    rewrite Hout, (proj1 (mac_parts _ _)) in Hbody. apply server_body_inj in Hbody as ->; [|done..].
    exists r, ch. split_and!; [done|done|done|by rewrite <-Hn'|]. intros ->. symmetry.
    rewrite Hu, <-Hmsg in Hout. rewrite Hout, Hu in Ha. by apply (answer_read_agree _ _ _ _ _ now _ st' _ _ Hok Ha).
Qed.

Lemma sent_by_insert (clients : gmap nat client_run) i c' ch :
  (forall c, clients !! i = Some c -> own_hello c' = own_hello c) ->
  sent_by clients ch -> sent_by (<[i := c']> clients) ch.
Proof.
  intros Hold (j & c & Hj & Hc). destruct (decide (i = j)) as [->|Hne].
  - exists j, c'. rewrite lookup_insert_eq. split; [done|]. by rewrite (Hold c Hj).
  - exists j, c. by rewrite lookup_insert_ne.
Qed.

(** What a step must show about the client it changes. *)
Lemma game_inv_client (w : game) g i c' :
  game_inv w -> client_ok (gm_servers w) c' -> (forall c, gm_clients w !! i = Some c -> own_hello c' = own_hello c) ->
  game_inv (mkGame (gm_users w) (gm_cache w) g (<[i := c']> (gm_clients w)) (gm_servers w)).
Proof.
  intros [Hcl Hsv] Hok Hold. split; cbn [gm_clients gm_servers].
  - by apply map_Forall_insert_2.
  - eapply Forall_impl; [exact Hsv|]. intros r. apply server_ok_mono. intros ch. by apply sent_by_insert.
Qed.

Lemma server_receives_inv (w : game) now nowCache nowHello msg :
  game_inv w -> genuine secret w msg -> game_inv (server_receives now nowCache nowHello msg w).
Proof.
  intros Hinv Hgen. unfold server_receives.
  destruct (AcceptClientHelloWithReplay _ _ _ _ _ _) as [o [cache g]] eqn:Hacc.
  pose proof Hinv as [Hcl Hsv]. destruct o as [[out res]|e|]; [|rewrite app_nil_r; done..].
  apply accept_Ret in Hacc as (ch & Hc & Hch & Ha). split; cbn [gm_clients gm_servers].
  - eapply map_Forall_impl; [exact Hcl|]. intros i c. cbn. apply client_ok_mono. set_solver.
  - apply Forall_app_2; [done|]. apply Forall_singleton. exists nowHello, (gm_gen w), g, ch.
    cbn [sr_out sr_result]. split_and!; [done..|]. by apply (accepted_is_sent w now msg).
Qed.

Lemma client_reads_ok (w : game) now msg c :
  game_inv w -> genuine secret w msg -> client_ok (gm_servers w) c -> client_ok (gm_servers w) (client_reads now msg c).
Proof.
  intros Hinv Hgen [Hok Hres]. destruct (client_reads_keeps now msg c) as (Hu & Hn & Hh & _ & Hk).
  split; [by apply Hk|]. unfold answered, own_hello. rewrite Hu, Hn, Hh.
  intros res Hr Hsec. revert Hr. unfold client_reads.
  destruct (ReadServerHello now msg (cr_state c)) as [[r|e|] st] eqn:Hread; cbn [cr_result];
    [|intros Hr; by apply Hres..].
  intros [= <-]. by apply (read_is_answered w now msg c r st).
Qed.

Lemma game_inv_step (w w' : game) : game_step secret w w' -> game_inv w -> game_inv w'.
Proof.
  destruct 1 as [i now uuid cmd addr w st net g Hi Hwf Hw|now nc nh msg w Hgen|i c now msg w Hi Hgen|users cache g w];
    intros Hinv.
  - apply game_inv_client; [done| |congruence]. split; [by apply (start_ok _ _ _ _ _ _ _ _ _ Hwf Hw)|done].
  - by apply server_receives_inv.
  - apply game_inv_client; [done|apply client_reads_ok; [done..|by apply (proj1 Hinv i)]|].
    intros c2. rewrite Hi. intros [= <-]. destruct (client_reads_keeps now msg c) as (_ & _ & Hh & _).
    unfold own_hello. by rewrite Hh.
  - exact Hinv.
Qed.

Lemma game_inv_reach users cache g (w : game) : rtc (game_step secret) (new_game users cache g) w -> game_inv w.
Proof.
  intros Hr. refine (rtc_ind_r (fun w => game_inv w) _ _ _ _ Hr).
  - split; [apply map_Forall_empty|constructor].
  - intros x y _ Hs Hi. by apply (game_inv_step x y).
Qed.
End Invariant.

(** ** Agreement *)

Section Agreement.
Context {G : Type} {C : Crypto G} {E : Entropy G} `{!CryptoLaws C}.

(** The server side and the client side of agreement, in a reachable game. *)
Lemma server_agrees secret (w : game) r :
  game_inv secret w -> r ∈ gm_servers w -> exists ch, hr_ClientHello (sr_result r) = Some ch /\
    (secret (ch_UUID ch) -> exists i c, gm_clients w !! i = Some c /\ own_hello c = ch).
Proof. intros [_ Hsv] Hr. rewrite Forall_forall in Hsv. destruct (Hsv r Hr) as (_ & _ & _ & ch & _ & Hch & Hs).
  by exists ch. Qed.

Lemma client_agrees secret (w : game) i c res :
  game_inv secret w -> gm_clients w !! i = Some c -> cr_result c = Some res -> secret (st_uuid (cr_state c)) ->
  fresh_nonce w i ->
  exists r, r ∈ gm_servers w /\ hr_ClientHello (sr_result r) = Some (own_hello c) /\ hr_Keys (sr_result r) =
    hr_Keys res.
Proof.
  intros Hinv Hi Hres Hsec Hfresh. pose proof Hinv as [Hcl _]. destruct (Hcl i c Hi) as [Hok Ha].
  destruct (Ha res Hres Hsec) as (r & ch & Hin & Hch & Hu & Hn & Hk).
  destruct (server_agrees secret w r Hinv Hin) as (ch2 & Hch2 & Hs). assert (ch2 = ch) as -> by congruence.
  destruct Hs as (j & cj & Hj & Hown); [by rewrite Hu|]. destruct (Hcl j cj Hj) as [Hokj _].
  assert (i = j) as <-.
  { apply (Hfresh j c cj Hi Hj).
    - rewrite <-Hu, <-Hown. apply (ck_uuid _ _ Hokj).
    - rewrite <-Hn, <-Hown. apply (ck_nonce _ _ Hokj). }
  assert (cj = c) as -> by congruence. exists r. rewrite Hown. split_and!; [done..|]. by apply Hk.
Qed.

(** C3: mutual agreement against an active attacker, for every user whose UUID
    he does not know: whatever messages the attacker delivers, withholds,
    modifies or replays, the server only ever answers the exact hello (keys,
    time, command and address) that one of the user's clients has sent, and a
    client that completes its handshake has been answered by the server, which
    saw that client's own hello and holds the same session keys. *)
Theorem mutual_agreement (secret : arr UUIDLen -> Prop) users cache (g : G) (w : game)
    (Hreach : rtc (game_step secret) (new_game users cache g) w) :
  (forall r, r ∈ gm_servers w -> exists ch, hr_ClientHello (sr_result r) = Some ch /\
     (secret (ch_UUID ch) -> exists i c, gm_clients w !! i = Some c /\ own_hello c = ch)) /\
  (forall i c res, gm_clients w !! i = Some c -> cr_result c = Some res -> secret (st_uuid (cr_state c)) ->
     fresh_nonce w i ->
     exists r, r ∈ gm_servers w /\ hr_ClientHello (sr_result r) = Some (own_hello c) /\
       hr_Keys (sr_result r) = hr_Keys res).
Proof.
  pose proof (game_inv_reach secret users cache g w Hreach) as Hinv. split.
  - intros r. by apply server_agrees.
  - intros i c res. by apply client_agrees.
Qed.

(** On an honest network a handshake completes. *)
Lemma honest_game uuid cmd addr cache (g : G) now st net g1 now2 nowC nowH out res cache' g2 now3 res' st' :
  Address_wf addr -> WriteClientHello now capture uuid cmd addr ([], g) = (Ret st, (net, g1)) ->
  AcceptClientHelloWithReplay now2 nowC nowH (hd [] net) (MakeUUIDLookup [uuid]) (cache, g1) =
    (Ret (out, res), (cache', g2)) ->
  ReadServerHello now3 out st = (Ret res', st') ->
  rtc (game_step (fun u => u = uuid)) (new_game [uuid] cache g)
    (mkGame [uuid] cache' g2 (<[0%nat := mkClientRun st' (hd [] net)
      (Some res')]> {[0%nat := mkClientRun st (hd [] net) None]})
       [mkServerRun out res]).
Proof.
  intros Hwf Hw Hacc Hread. eapply rtc_l;
    [exact (gs_start _ 0 now uuid cmd addr (new_game [uuid] cache g) st net g1 eq_refl Hwf Hw)|].
  assert (Hu : st_uuid st = uuid) by (by apply WriteClientHello_Ret in Hw as (? & ? & ? & ? & _ & _ & Hu & _)).
  set (w1 := mkGame _ _ _ _ _). pose proof (gs_server (fun u => u = uuid) now2 nowC nowH (hd [] net) w1) as Hs.
  unfold server_receives in Hs. cbn [w1 gm_users gm_cache gm_gen new_game] in Hs. rewrite Hacc in Hs.
  eapply rtc_l; [apply Hs|].
  { intros u -> _. left. exists 0%nat, (mkClientRun st (hd [] net) None).
    split; [apply lookup_insert_eq|done]. }
  eapply rtc_l; [eapply (gs_client _ 0 (mkClientRun st (hd [] net) None) now3 out)|].
  - apply lookup_insert_eq.
  - apply accept_Ret in Hacc as (ch & Hc & Hch & _). intros u -> _. right. exists (mkServerRun out res), ch.
    split_and!; [left|done| |done]. pose proof (checkClientHello_cases now2 (hd [] net) [uuid]) as Hk.
    rewrite Hc in Hk. destruct Hk as (_ & (Hin & _) & _). by apply list_elem_of_singleton in Hin.
  - unfold client_reads. cbn [cr_state cr_hello]. rewrite Hread. apply rtc_refl.
Qed.

(** Whether an exchange without an attacker completes. *)
Definition completes (uuid : arr UUIDLen) (cmd : Command) (addr : Address) (cache : option ReplayCache) (g : G)
  (t1 t2 t3 : Z) : bool :=
  match WriteClientHello t1 capture uuid cmd addr ([], g) with
  | (Ret st, (net, g)) =>
      match AcceptClientHelloWithReplay t2 t2 t2 (hd [] net) (MakeUUIDLookup [uuid]) (cache, g) with
      | (Ret (out, _), _) => match ReadServerHello t3 out st with (Ret _, _) => true | _ => false end
      | _ => false
      end
  | _ => false
  end.

Lemma completes_game uuid cmd addr cache (g : G) t1 t2 t3 :
  Address_wf addr -> completes uuid cmd addr cache g t1 t2 t3 = true ->
  exists w c res, rtc (game_step (fun u => u = uuid)) (new_game [uuid] cache g) w /\
    gm_clients w !! 0%nat = Some c /\ cr_result c = Some res /\ st_uuid (cr_state c) = uuid /\ fresh_nonce w 0.
Proof.
  intros Hwf. unfold completes. destruct (WriteClientHello _ _ _ _ _ _) as [[st|e|] [net g1]] eqn:Hw; [|done..].
  destruct (AcceptClientHelloWithReplay _ _ _ _ _ _) as [[[out res]|e|] [cache' g2]] eqn:Ha; [|done..].
  destruct (ReadServerHello _ _ _) as [[res'|e|] st'] eqn:Hr; [|done..]. intros _.
  do 3 eexists. split; [by eapply honest_game|]. cbn [gm_clients]. rewrite lookup_insert_eq.
  split; [done|]. cbn [cr_result cr_state]. split; [done|]. split.
  - pose proof (ReadServerHello_state t3 out st) as Hst. rewrite Hr in Hst. cbn [snd] in Hst.
    apply WriteClientHello_Ret in Hw as (? & ? & ? & ? & _ & _ & Hu & _). by destruct Hst as [->| ->].
  - intros j ci cj _. cbn [gm_clients]. rewrite insert_singleton_eq. rewrite lookup_singleton_Some. intros [Hj _] _ _.
    exact Hj.
Qed.
End Agreement.

(** ** Witness *)

Lemma mutual_agreement_witness :
  exists (w : @game _ Toy.crypto) c r res, gm_clients w !! 0%nat = Some c /\ cr_result c = Some res /\
    r ∈ gm_servers w /\
    hr_ClientHello (sr_result r) = Some (own_hello c) /\ hr_Keys (sr_result r) = hr_Keys res.
Proof.
  destruct (completes_game HandshakeExamples.u0 CommandTCP HandshakeExamples.addr0 (Some HandshakeExamples.cache0)
    (5 : Toy.gen)
    1000 1010 1011) as (w & c & res & Hreach & Hc & Hres & Hu & Hfresh).
  - split; vm_compute; split; congruence.
  - vm_compute. reflexivity.
  - destruct (mutual_agreement _ _ _ _ w Hreach) as [_ H].
    destruct (H 0%nat c res Hc Hres Hu Hfresh) as (r & Hr & Hch & Hk).
    exists w, c, r, res. split_and!; [exact Hc|exact Hres|exact Hr|exact Hch|exact Hk].
Defined.
