(* ===== verification/Transport.v ===== *)
(** * Message transports (src/securestream.go: MessageTransport; src/client.go: LengthFramer)

    The interface the secure stream requires of an outer transport, the
    contract it relies on (atomic, ordered messages), a model of a
    [net.Conn], and the [LengthFramer] that implements the interface over
    one. *)

From S2P Require Import Prelude Io Kdf.

(** ** The interface *)

(** [type MessageTransport interface]; the state of the transport is [T]. *)
Class MessageTransport (T : Type) := {
  SendMessage : bytes -> T -> option error * T;
  ReadMessage : T -> outcome bytes * T;
  CloseTransport : T -> option error * T
}.

(** What "MUST deliver messages atomically and MUST NOT split or coalesce
    them" means: [tx] are the messages handed over so far, [rx] the ones that
    will still arrive, both as whole messages, in order.  [up] holds while
    the transport works; [fits] bounds the messages it carries. *)
Class TransportSpec (T : Type) `{!MessageTransport T} := {
  tx : T -> list bytes;
  rx : T -> list bytes;
  up : T -> Prop;
  fits : Z -> Prop
}.

Class TransportLaws (T : Type) `{!MessageTransport T} `{!TransportSpec T} : Prop := {
  fits_frames : forall n, 0 <= n <= MaxFrameSize -> fits n;
  SendMessage_ok : forall m t, up t -> fits (len m) ->
    exists t', SendMessage m t = (None, t') /\ up t' /\ tx t' = tx t ++ [m] /\ rx t' = rx t;
  ReadMessage_ok : forall m ms t, up t -> rx t = m :: ms ->
    exists t', ReadMessage t = (Ret m, t') /\ up t' /\ tx t' = tx t /\ rx t' = ms
}.

(** [tr.(deadlineSetter)]: transports may have the method or not. *)
Class DeadlineSetter (T : Type) :=
  deadlineSetter : option (option Z -> T -> option error * T).

(** [if dc, ok := tr.(deadlineSetter); ok { _ = dc.SetDeadline(t) }] *)
Definition set_deadline {T} `{!DeadlineSetter T} (t : option Z) (tr : T) : T :=
  match deadlineSetter with Some SetDeadline => (SetDeadline t tr).2 | None => tr end.

(** The deadline of a context, [None] when it has none, put on a transport. *)
Definition arm_deadline {T} `{!DeadlineSetter T} (ctx : option Z) (tr : T) : T :=
  match ctx with Some dl => set_deadline (Some dl) tr | None => tr end.

(** [defer func() { _ = dc.SetDeadline(time.Time{}) }()], registered only when
    a deadline was set. *)
Definition disarm_deadline {T} `{!DeadlineSetter T} (ctx : option Z) (tr : T) : T :=
  match ctx with Some _ => set_deadline None tr | None => tr end.

(** Deadlines bound waiting and touch nothing else. *)
Class DeadlineLaws (T : Type) `{!MessageTransport T} `{!TransportSpec T} `{!DeadlineSetter T} : Prop := {
  set_deadline_up : forall d (t : T), up t -> up (set_deadline d t);
  set_deadline_tx : forall d (t : T), tx (set_deadline d t) = tx t;
  set_deadline_rx : forall d (t : T), rx (set_deadline d t) = rx t
}.

Lemma arm_deadline_spec {T} `{DeadlineLaws T} ctx (t : T) :
  (up t -> up (arm_deadline ctx t)) /\ tx (arm_deadline ctx t) = tx t /\ rx (arm_deadline ctx t) = rx t.
Proof. destruct ctx; cbn; [|done]. split_and!; [apply set_deadline_up|apply set_deadline_tx|apply set_deadline_rx]. Qed.

Lemma disarm_deadline_spec {T} `{DeadlineLaws T} ctx (t : T) :
  (up t -> up (disarm_deadline ctx t)) /\ tx (disarm_deadline ctx t) = tx t /\ rx (disarm_deadline ctx t) = rx t.
Proof. destruct ctx; cbn; [|done]. split_and!; [apply set_deadline_up|apply set_deadline_tx|apply set_deadline_rx]. Qed.
#[export] Hint Resolve set_deadline_up : ewp.

(** ** Connections

    A [net.Conn]: what it will deliver, what was written to it, and a
    schedule of write failures ([Some (k, e)]: the next [Write] writes [k]
    bytes and reports [e]; a deadline that expires shows up here or as the
    error of the reader).  A closed connection refuses everything; closing
    it again is an error of its own ([net.ErrClosed]). *)

Definition ErrNetClosed : error := ErrText "use of closed network connection".

Record conn := mkConn {
  c_in : reader;
  c_out : bytes;
  c_writes : list (option (nat * error));
  c_closeErr : option error;
  c_closed : bool;
  c_rdeadline : option Z;        (* the read and the write deadline, [None] when not set *)
  c_wdeadline : option Z
}.

Definition conn_Write (b : bytes) (c : conn) : option error * conn :=
  if c_closed c then (Some ErrNetClosed, c) else
  let '(err, written) :=
    match head (c_writes c) with
    | Some (Some (k, e)) => (Some e, take k b)
    | _ => (None, b)
    end in
  (err, mkConn (c_in c) (c_out c ++ written) (tail (c_writes c)) (c_closeErr c) false
     (c_rdeadline c) (c_wdeadline c)).

(** [io.ReadFull(c, buf)] with [len(buf) = n]; an empty buffer needs no read. *)
Definition conn_ReadFull (n : nat) (c : conn) : outcome bytes * conn :=
  if c_closed c && (0 <? n)%nat then (Fail ErrNetClosed, c) else
  let '(o, r) := ReadFull n (c_in c) in
  (o, mkConn r (c_out c) (c_writes c) (c_closeErr c) (c_closed c) (c_rdeadline c) (c_wdeadline c)).

Definition conn_Close (c : conn) : option error * conn :=
  if c_closed c then (Some ErrNetClosed, c)
  else (c_closeErr c, mkConn (c_in c) (c_out c) (c_writes c) (c_closeErr c) true
          (c_rdeadline c) (c_wdeadline c)).

Definition conn_SetReadDeadline (t : option Z) (c : conn) : option error * conn :=
  if c_closed c then (Some ErrNetClosed, c)
  else (None, mkConn (c_in c) (c_out c) (c_writes c) (c_closeErr c) false t (c_wdeadline c)).

Definition conn_SetWriteDeadline (t : option Z) (c : conn) : option error * conn :=
  if c_closed c then (Some ErrNetClosed, c)
  else (None, mkConn (c_in c) (c_out c) (c_writes c) (c_closeErr c) false (c_rdeadline c) t).

Definition conn_SetDeadline (t : option Z) (c : conn) : option error * conn :=
  if c_closed c then (Some ErrNetClosed, c)
  else (None, mkConn (c_in c) (c_out c) (c_writes c) (c_closeErr c) false t t).

(** ** LengthFramer

    [readBuf] is scratch space whose contents are overwritten before they
    are used; only its capacity is kept. *)
Record LengthFramer := mkLengthFramer { lf_c : conn; lf_readBuf_cap : Z }.

Definition NewLengthFramer (c : conn) : LengthFramer := mkLengthFramer c 0.

Definition LengthFramer_SendMessage (msg : bytes) (f : LengthFramer) : option error * LengthFramer :=
  if MaxFrameSize <? len msg then (Some ErrFrameTooLarge, f) else
  let hdr := be_put 4 (len msg) in
  let '(err, c) := conn_Write hdr (lf_c f) in
  match err with
  | Some e => (Some e, mkLengthFramer c (lf_readBuf_cap f))
  | None =>
      let '(err, c) := conn_Write msg c in
      (err, mkLengthFramer c (lf_readBuf_cap f))
  end.

Definition LengthFramer_ReadMessage (f : LengthFramer) : outcome bytes * LengthFramer :=
  let '(hdr, c) := conn_ReadFull 4 (lf_c f) in
  let f := mkLengthFramer c (lf_readBuf_cap f) in
  letS hdr, f := lift hdr f ;;
  let n := be_get hdr in
  if MaxFrameSize <? n then (Fail ErrFrameTooLarge, f) else
  let cap := if lf_readBuf_cap f <? n then n else lf_readBuf_cap f in
  let '(buf, c) := conn_ReadFull (Z.to_nat n) (lf_c f) in
  let f := mkLengthFramer c cap in
  letS buf, f := lift buf f ;;
  (Ret buf, f).

Definition LengthFramer_Close (f : LengthFramer) : option error * LengthFramer :=
  let '(err, c) := conn_Close (lf_c f) in (err, mkLengthFramer c (lf_readBuf_cap f)).

#[global] Instance framer_transport : MessageTransport LengthFramer := {
  SendMessage := LengthFramer_SendMessage;
  ReadMessage := LengthFramer_ReadMessage;
  CloseTransport := LengthFramer_Close
}.

Definition LengthFramer_SetDeadline (t : option Z) (f : LengthFramer) : option error * LengthFramer :=
  let '(err, c) := conn_SetDeadline t (lf_c f) in (err, mkLengthFramer c (lf_readBuf_cap f)).

#[global] Instance framer_deadline : DeadlineSetter LengthFramer := Some LengthFramer_SetDeadline.

(** ** The wire format: each message after its length *)

Definition frame_msg (m : bytes) : bytes := be_put 4 (len m) ++ m.

(** The complete messages at the front of a byte stream. *)
Fixpoint split_msgs (fuel : nat) (l : bytes) : list bytes :=
  match fuel with
  | O => []
  | S fuel =>
      let n := be_get (sub l 0 4) in
      if (4 <=? len l) && (n <=? MaxFrameSize) && (4 + n <=? len l)
      then sub l 4 (4 + n) :: split_msgs fuel (sub l (4 + n) (len l))
      else []
  end.

Definition msgs_of (l : bytes) : list bytes := split_msgs (length l) l.

Lemma split_msgs_fuel k l : (length l <= k)%nat -> split_msgs k l = split_msgs (length l) l.
Proof.
  revert l. induction k as [k IH] using lt_wf_ind. intros l Hk.
  destruct l as [|b l]; [destruct k; [done|]; by cbn|].
  destruct k as [|k]; [cbn in Hk; lia|]. set (l' := b :: l) in *.
  change (length l') with (S (length l)). cbn [split_msgs].
  set (n := be_get (sub l' 0 4)).
  destruct ((4 <=? len l') && (n <=? MaxFrameSize) && (4 + n <=? len l')) eqn:E; [|done].
  f_equal. pose proof (be_get_range (sub l' 0 4)) as Hn. fold n in Hn.
  assert (Hlen : (length (sub l' (4 + n) (len l')) <= length l)%nat).
  { assert (length l' = S (length l)) by done. rewrite length_sub_nat by lia. lia. }
  rewrite IH; [|lia|cbn in Hk; lia]. symmetry.
  destruct (decide (length l < S k)%nat) as [Hlt|]; [apply IH; lia|cbn in Hk; lia].
Qed.

Lemma msgs_of_frame m rest : len m <= MaxFrameSize -> msgs_of (frame_msg m ++ rest) = m :: msgs_of rest.
Proof.
  intros Hm. unfold MaxFrameSize in Hm. unfold msgs_of, frame_msg.
  set (l := (be_put 4 (len m) ++ m) ++ rest).
  assert (Hl : length l = (4 + length m + length rest)%nat) by (unfold l; llia).
  replace (length l) with (S (3 + length m + length rest)) by lia. cbn [split_msgs].
  assert (H4 : sub l 0 4 = be_put 4 (len m)) by (unfold l; rewrite <-app_assoc; by sub_simpl).
  rewrite H4, be_get_put_small by lia. unfold MaxFrameSize.
  rewrite (proj2 (Z.leb_le _ _)), (proj2 (Z.leb_le _ _)), (proj2 (Z.leb_le _ _)) by lia. cbn [andb].
  assert (Hr : sub l (4 + len m) (len l) = rest) by (unfold l; rewrite <-app_assoc; by sub_simpl).
  assert (Hs : sub l 4 (4 + len m) = m).
  { unfold l. rewrite <-app_assoc, (sub_app_r (be_put 4 (len m))), (sub_app_l m), (sub_full m) by llia. done. }
  rewrite Hr, Hs. f_equal. apply split_msgs_fuel. lia.
Qed.

Lemma msgs_of_frames ms rest :
  Forall (fun m => len m <= MaxFrameSize) ms ->
  msgs_of (concat (frame_msg <$> ms) ++ rest) = ms ++ msgs_of rest.
Proof.
  induction 1 as [|m ms Hm _ IH]; [done|]. cbn [fmap list_fmap concat app].
  by rewrite <-app_assoc, msgs_of_frame, IH.
Qed.

Lemma msgs_of_nil : msgs_of [] = [].
Proof. done. Qed.

(** The front message of a stream, and what follows it. *)
Lemma msgs_of_cons l m ms :
  msgs_of l = m :: ms ->
  exists rest, l = frame_msg m ++ rest /\ len m <= MaxFrameSize /\ ms = msgs_of rest.
Proof.
  unfold msgs_of. destruct l as [|b l]; [done|]. set (l' := b :: l) in *.
  change (length l') with (S (length l)). cbn [split_msgs]. set (n := be_get (sub l' 0 4)).
  destruct ((4 <=? len l') && (n <=? MaxFrameSize) && (4 + n <=? len l')) eqn:E; [|done].
  intros [= <- <-]. pose proof (be_get_range (sub l' 0 4)) as Hn. fold n in Hn.
  assert (Hl : length l' = S (length l)) by done.
  exists (sub l' (4 + n) (len l')). unfold frame_msg. rewrite !length_sub by lia. split_and!.
  - replace (4 + n - 4) with n by lia. unfold n at 1. rewrite be_put_get_n by llia.
    rewrite <-app_assoc, <-(sub_split l' 4 (4 + n)), <-(sub_split l' 0 4), sub_all by lia. done.
  - lia.
  - apply split_msgs_fuel. rewrite length_sub_nat by lia. lia.
Qed.

(** ** The framer meets the contract *)

#[global] Instance framer_spec : TransportSpec LengthFramer := {
  tx f := msgs_of (c_out (lf_c f));
  rx f := msgs_of (rd_bytes (c_in (lf_c f)));
  up f := c_closed (lf_c f) = false /\ Forall (fun w => w = None) (c_writes (lf_c f)) /\
    exists ms, c_out (lf_c f) = concat (frame_msg <$> ms) /\ Forall (fun m => len m <= MaxFrameSize) ms;
  fits n := n <= MaxFrameSize
}.

Lemma conn_Write_ok b c :
  c_closed c = false -> Forall (fun w => w = None) (c_writes c) ->
  conn_Write b c =
    (None, mkConn (c_in c) (c_out c ++ b) (tail (c_writes c)) (c_closeErr c) false
             (c_rdeadline c) (c_wdeadline c)).
Proof. intros Hc Hw. unfold conn_Write. rewrite Hc. by destruct Hw as [|? ? ->]. Qed.

Lemma Forall_tail {A} (P : A -> Prop) l : Forall P l -> Forall P (tail l).
Proof. by destruct 1. Qed.

#[export] Hint Resolve Forall_tail : ewp.

(** A successful send appends the framed message to the stream. *)
Lemma framer_send_ok m f :
  c_closed (lf_c f) = false -> Forall (fun w => w = None) (c_writes (lf_c f)) ->
  len m <= MaxFrameSize ->
  exists c', LengthFramer_SendMessage m f = (None, mkLengthFramer c' (lf_readBuf_cap f)) /\
    c_closed c' = false /\ Forall (fun w => w = None) (c_writes c') /\
    c_in c' = c_in (lf_c f) /\ c_out c' = c_out (lf_c f) ++ frame_msg m.
Proof.
  intros Hc Hw Hm. unfold LengthFramer_SendMessage. rewrite (proj2 (Z.ltb_ge _ _)) by done.
  rewrite conn_Write_ok by done. rewrite conn_Write_ok by (cbn; auto with ewp).
  eexists. split; [reflexivity|]. cbn. split_and!; [done|auto with ewp|done|].
  unfold frame_msg. by rewrite app_assoc.
Qed.

(** Reading [n] bytes that are there. *)
Lemma conn_ReadFull_ok n c a rest :
  c_closed c = false -> rd_bytes (c_in c) = a ++ rest -> length a = n ->
  exists r', rd_bytes r' = rest /\
    conn_ReadFull n c =
      (Ret a, mkConn r' (c_out c) (c_writes c) (c_closeErr c) false (c_rdeadline c) (c_wdeadline c)).
Proof.
  intros Hc Ha Hn. unfold conn_ReadFull. rewrite Hc. cbn [andb].
  destruct (ReadFull_bytes n (c_in c)) as (r' & Hr & _ & ->). exists r'. rewrite Hr, Ha.
  rewrite drop_app_length', take_app_length' by done. split; [done|].
  rewrite (proj2 (Nat.leb_le _ _)) by llia. done.
Qed.

(** A message that is there is read whole. *)
Lemma framer_read_ok m f rest :
  c_closed (lf_c f) = false -> rd_bytes (c_in (lf_c f)) = frame_msg m ++ rest ->
  len m <= MaxFrameSize ->
  exists r' cap, rd_bytes r' = rest /\
    LengthFramer_ReadMessage f =
      (Ret m, mkLengthFramer (mkConn r' (c_out (lf_c f)) (c_writes (lf_c f)) (c_closeErr (lf_c f)) false
                                 (c_rdeadline (lf_c f)) (c_wdeadline (lf_c f))) cap).
Proof.
  intros Hc Hr Hm. unfold frame_msg in Hr. rewrite <-app_assoc in Hr. unfold MaxFrameSize in Hm.
  unfold LengthFramer_ReadMessage, lift.
  destruct (conn_ReadFull_ok 4 (lf_c f) _ _ Hc Hr) as (r1 & Hr1 & ->); [llia|]. cbn [sbind].
  rewrite be_get_put_small by lia. rewrite (proj2 (Z.ltb_ge _ _)) by done. cbn [lf_c].
  rewrite Nat2Z.id.
  set (c1 := mkConn r1 _ _ _ _ _ _). destruct (conn_ReadFull_ok (length m) c1 m rest) as (r2 & Hr2 & ->);
    [done|done|done|]. cbn [sbind]. by eauto.
Qed.

#[global] Instance framer_laws : TransportLaws LengthFramer.
Proof.
  split.
  - intros n. cbn. lia.
  - intros m f (Hc & Hw & ms & Ho & Hms) Hm. cbn in *.
    destruct (framer_send_ok m f Hc Hw Hm) as (c' & -> & Hc' & Hw' & Hi' & Ho').
    eexists. split; [reflexivity|]. cbn. rewrite Hi', Ho', Ho. split_and!; [done|done| | |done].
    + exists (ms ++ [m]). rewrite fmap_app, concat_app. cbn. rewrite app_nil_r.
      split; [done|]. apply Forall_app. auto.
    + rewrite msgs_of_frames by done. rewrite <-(app_nil_r (frame_msg m)), msgs_of_frame by done.
      pose proof (msgs_of_frames ms [] Hms) as E. rewrite !app_nil_r in E. by rewrite E.
  - intros m ms f (Hc & Hw & ms0 & Ho & Hms) Hrx. cbn in *.
    apply msgs_of_cons in Hrx as (rest & Hr & Hm & ->).
    destruct (framer_read_ok m f rest Hc Hr Hm) as (r' & cap & Hr' & ->).
    eexists. split; [reflexivity|]. cbn. rewrite Hr'. eauto 10.
Qed.

#[global] Instance framer_deadline_laws : DeadlineLaws LengthFramer.
Proof.
  split; intros d [c cap]; unfold set_deadline, deadlineSetter, framer_deadline, LengthFramer_SetDeadline,
    conn_SetDeadline; cbn [lf_c]; destruct c as [i o w e [] rd wd]; done.
Qed.

(** ** Properties *)

(** Sending and reading lists of messages. *)
Fixpoint send_all {T} `{!MessageTransport T} (ms : list bytes) (t : T) : option error * T :=
  match ms with
  | [] => (None, t)
  | m :: ms =>
      let '(err, t) := SendMessage m t in
      match err with Some e => (Some e, t) | None => send_all ms t end
  end.

Fixpoint read_n {T} `{!MessageTransport T} (n : nat) (t : T) : outcome (list bytes) * T :=
  match n with
  | O => (Ret [], t)
  | S n =>
      letS m, t := ReadMessage t ;;
      letS ms, t := read_n n t ;;
      (Ret (m :: ms), t)
  end.

Lemma send_all_tx {T} `{TransportLaws T} ms t :
  up t -> Forall (fun m => fits (len m)) ms ->
  exists t', send_all ms t = (None, t') /\ up t' /\ tx t' = tx t ++ ms /\ rx t' = rx t.
Proof.
  intros Hu Hms. revert t Hu. induction Hms as [|m ms Hm _ IH]; intros t Hu; cbn [send_all].
  - exists t. by rewrite app_nil_r.
  - destruct (SendMessage_ok m t Hu Hm) as (t1 & -> & Hu1 & Ht1 & Hr1).
    destruct (IH t1 Hu1) as (t2 & -> & Hu2 & Ht2 & Hr2). exists t2.
    rewrite Ht2, Hr2, Ht1, Hr1, <-app_assoc. done.
Qed.

Lemma read_n_rx {T} `{TransportLaws T} ms rest t :
  up t -> rx t = ms ++ rest ->
  exists t', read_n (length ms) t = (Ret ms, t') /\ up t' /\ tx t' = tx t /\ rx t' = rest.
Proof.
  revert t. induction ms as [|m ms IH]; intros t Hu Hr; cbn [length read_n]; [by eauto|].
  destruct (ReadMessage_ok m (ms ++ rest) t Hu Hr) as (t1 & -> & Hu1 & Ht1 & Hr1). cbn [sbind].
  destruct (IH t1 Hu1 Hr1) as (t2 & -> & Hu2 & Ht2 & Hr2). cbn [sbind]. exists t2.
  rewrite Ht2, Ht1. done.
Qed.

(** The same on the bytes of the connection. *)
Lemma framer_send_all ms c cap :
  c_closed c = false -> Forall (fun w => w = None) (c_writes c) ->
  Forall (fun m => len m <= MaxFrameSize) ms ->
  exists f, send_all ms (mkLengthFramer c cap) = (None, f) /\
    c_out (lf_c f) = c_out c ++ concat (frame_msg <$> ms).
Proof.
  intros Hc Hw Hms. revert c Hc Hw. induction Hms as [|m ms Hm _ IH]; intros c Hc Hw; cbn [send_all].
  - eexists. split; [done|]. cbn. by rewrite app_nil_r.
  - cbn [SendMessage framer_transport].
    destruct (framer_send_ok m (mkLengthFramer c cap) Hc Hw Hm) as (c1 & -> & Hc1 & Hw1 & _ & Ho1).
    destruct (IH c1 Hc1 Hw1) as (f & Hs & Ho). exists f. split; [exact Hs|].
    rewrite Ho, Ho1. cbn. by rewrite app_assoc.
Qed.

Lemma framer_read_all ms f :
  c_closed (lf_c f) = false -> Forall (fun m => len m <= MaxFrameSize) ms ->
  rd_bytes (c_in (lf_c f)) = concat (frame_msg <$> ms) ->
  exists f', read_n (length ms) f = (Ret ms, f') /\ rd_bytes (c_in (lf_c f')) = [].
Proof.
  intros Hc Hms. revert f Hc. induction Hms as [|m ms Hm _ IH]; intros f Hc Hr; cbn [length read_n]; [by eauto|].
  cbn [ReadMessage framer_transport].
  destruct (framer_read_ok m f _ Hc Hr Hm) as (r' & cap & Hr' & ->). cbn [sbind].
  edestruct IH as (f' & -> & Hf'); [|exact Hr'|]; [done|]. cbn [sbind]. by eauto.
Qed.

(** No complete message at the front: an error. *)
Lemma framer_read_none f :
  c_closed (lf_c f) = false ->
  let l := rd_bytes (c_in (lf_c f)) in
  msgs_of l = [] ->
  exists e f', LengthFramer_ReadMessage f = (Fail e, f') /\
    (4 <= len l -> MaxFrameSize < be_get (sub l 0 4) ->
     e = ErrFrameTooLarge /\ rd_bytes (c_in (lf_c f')) = sub l 4 (len l)).
Proof.
  cbn zeta. intros Hc Hm. unfold LengthFramer_ReadMessage, conn_ReadFull, lift. rewrite Hc. cbn [andb].
  set (l := rd_bytes (c_in (lf_c f))) in *. change 4%nat with (Z.to_nat 4).
  destruct (ReadFull_cases 4 (c_in (lf_c f))) as [(H4 & r1 & Hr1 & _ & ->)|(H4 & r1 & ->)]; [lia| |].
  2: { do 2 eexists. split; [reflexivity|]. fold l in H4. lia. }
  fold l in H4, Hr1 |- *. cbn [sbind]. pose proof (be_get_range (sub l 0 4)) as Hn.
  rewrite length_sub in Hn by lia. set (n := be_get (sub l 0 4)) in *.
  destruct (Z.ltb_spec MaxFrameSize n) as [Hbig|Hsmall].
  { do 2 eexists. split; [reflexivity|]. cbn. done. }
  cbn [lf_c c_in c_closed c_out c_writes c_closeErr].
  destruct (ReadFull_cases n r1) as [(Hle & _)|(Hlt & r2 & ->)]; [lia| |].
  - rewrite Hr1, length_sub in Hle by lia. exfalso. revert Hm. unfold msgs_of.
    destruct (length l) as [|k] eqn:El; [lia|]. cbn [split_msgs]. fold n.
    rewrite !(proj2 (Z.leb_le _ _)) by lia. done.
  - rewrite andb_false_l. do 2 eexists. split; [reflexivity|]. lia.
Qed.

(** C23: the length framer turns a byte stream into a message transport: when
    every message of a list fits ([<= MaxFrameSize]) and the connection works,
    sending succeeds, and a peer that receives the written bytes, cut into
    chunks in any way whatever, reads exactly these messages in order. *)
Theorem framer_roundtrip ms (c : conn) (c' : conn)
    (Hopen : c_closed c = false) (Hwrites : Forall (fun w => w = None) (c_writes c))
    (Hout : c_out c = []) (Hms : Forall (fun m => len m <= MaxFrameSize) ms)
    (Hopen' : c_closed c' = false) :
  exists f, send_all ms (NewLengthFramer c) = (None, f) /\
    (rd_bytes (c_in c') = c_out (lf_c f) ->
     exists f', read_n (length ms) (NewLengthFramer c') = (Ret ms, f') /\ rd_bytes (c_in (lf_c f')) = []).
Proof.
  destruct (framer_send_all ms c 0) as (f & Hs & Ho); [done..|]. exists f. split; [done|]. rewrite Ho, Hout.
  cbn [app]. intros Hin.
  by apply framer_read_all.
Qed.

(** reading is total and bounded: on every byte stream [ReadMessage] does
    not panic; it returns a message exactly when a complete one of at most
    [MaxFrameSize] bytes is at the front, an announced length beyond that is
    refused with [ErrFrameTooLarge] before the body is read, and a stream
    that ends inside a message is an error. *)
Theorem framer_read_total f (Hopen : c_closed (lf_c f) = false) :
  let l := rd_bytes (c_in (lf_c f)) in
  let n := be_get (sub l 0 4) in
  let '(o, f') := LengthFramer_ReadMessage f in
  o <> Panic /\
  match msgs_of l with
  | m :: ms => o = Ret m /\ l = frame_msg m ++ rd_bytes (c_in (lf_c f')) /\ msgs_of (rd_bytes (c_in (lf_c f'))) = ms
  | [] => exists e, o = Fail e /\
      (4 <= len l -> MaxFrameSize < n -> e = ErrFrameTooLarge /\ rd_bytes (c_in (lf_c f')) = sub l 4 (len l))
  end.
Proof.
  cbn zeta. destruct (msgs_of _) as [|m ms] eqn:Em.
  - destruct (framer_read_none f Hopen Em) as (e & f' & -> & He). split; [done|]. by exists e.
  - apply msgs_of_cons in Em as (rest & Hr & Hm & ->).
    destruct (framer_read_ok m f rest Hopen Hr Hm) as (r' & cap & Hr' & ->). cbn.
    rewrite Hr'. done.
Qed.

(** ** Witnesses *)

Module TransportExamples.
Definition m0 : bytes := str "hello".
Definition m1 : bytes := [].
Definition pristine : conn := mkConn (mkReader [] EOF) [] [] None false None None.
Definition sent : bytes := Eval vm_compute in c_out (lf_c (send_all [m0; m1] (NewLengthFramer pristine)).2).
(** The same bytes, one at a time. *)
Definition trickle : conn := mkConn (mkReader ((fun b => [b]) <$> sent) EOF) [] [] None false None None.
End TransportExamples.
Import TransportExamples.

Lemma framer_roundtrip_witness :
  exists f, send_all [m0; m1] (NewLengthFramer pristine) = (None, f) /\
    (rd_bytes (c_in trickle) = c_out (lf_c f) ->
     exists f', read_n 2 (NewLengthFramer trickle) = (Ret [m0; m1], f') /\ rd_bytes (c_in (lf_c f')) = []).
Proof.
  apply (framer_roundtrip [m0; m1] pristine trickle); try reflexivity; try constructor.
  - vm_compute. congruence.
  - constructor; [vm_compute; congruence|constructor].
Defined.

Lemma framer_read_total_witness :
  let '(o, f') := LengthFramer_ReadMessage (NewLengthFramer trickle) in
  o = Ret m0 /\ msgs_of (rd_bytes (c_in (lf_c f'))) = [m1].
Proof.
  pose proof (framer_read_total (NewLengthFramer trickle) eq_refl) as H. cbn zeta in H.
  assert (Hm : msgs_of (rd_bytes (c_in (lf_c (NewLengthFramer trickle)))) = [m0; m1]) by (vm_compute; reflexivity).
  rewrite Hm in H. destruct (LengthFramer_ReadMessage (NewLengthFramer trickle)) as [o f'].
  destruct H as (_ & Ho & _ & Hr). split; [exact Ho|exact Hr].
Defined.
