(* ===== verification/SecureStream.v ===== *)
(** * The secure stream (src/securestream.go)

    The encrypted channel over a message transport.  A call that takes
    [writeMu] is one step of the model; the wall clock (in nanoseconds) is an
    argument of the calls that read it. *)

From Stdlib Require Export SpecFloat.
From S2P Require Import Prelude Address Crypto Io Kdf Padding Frame Transport.

(** ** State *)

(** [CoverConfig]: durations in nanoseconds, the jitter as a [float64]. *)
Record CoverConfig := mkCoverConfig {
  cfg_Interval : Z;
  cfg_IdleAfter : Z;
  cfg_JitterFrac : spec_float
}.

(** A [chan struct{}] that is only ever closed. *)
Inductive stop_chan := ChanNil | ChanOpen | ChanClosed.

(** The stream over a transport with state [T] and ciphers of type [A].  The
    mutex and the atomics need no state of their own in a sequential step. *)
Record SecureStream (A T : Type) := mkSecureStream {
  ss_tr : T;
  ss_send : FrameAEAD A;
  ss_recv : FrameAEAD A;
  ss_sendBuf : gslice;
  ss_lastSendNs : Z;
  ss_coverStarted : bool;
  ss_coverStop : stop_chan;
  ss_closeOnce : bool;       (* the once has run *)
  ss_closed : bool;
  ss_bytesIn : Z; ss_bytesOut : Z; ss_frmIn : Z; ss_frmOut : Z    (* uint64 *)
}.
Arguments mkSecureStream {A T} _ _ _ _ _ _ _ _ _ _ _ _ _.
Arguments ss_tr {A T} _.
Arguments ss_send {A T} _.
Arguments ss_recv {A T} _.
Arguments ss_sendBuf {A T} _.
Arguments ss_lastSendNs {A T} _.
Arguments ss_coverStarted {A T} _.
Arguments ss_coverStop {A T} _.
Arguments ss_closeOnce {A T} _.
Arguments ss_closed {A T} _.
Arguments ss_bytesIn {A T} _.
Arguments ss_bytesOut {A T} _.
Arguments ss_frmIn {A T} _.
Arguments ss_frmOut {A T} _.

(** [&SecureStream{tr: tr, send: send, recv: recv}] *)
Definition new_stream {A T} (tr : T) (send recv : FrameAEAD A) : SecureStream A T :=
  mkSecureStream tr send recv (mkSlice [] []) 0 false ChanNil false false 0 0 0 0.

(** Assignments to fields. *)
Definition set_tr {A T} (tr : T) (s : SecureStream A T) : SecureStream A T :=
  mkSecureStream tr (ss_send s) (ss_recv s) (ss_sendBuf s) (ss_lastSendNs s) (ss_coverStarted s)
    (ss_coverStop s) (ss_closeOnce s) (ss_closed s) (ss_bytesIn s) (ss_bytesOut s) (ss_frmIn s) (ss_frmOut s).
Definition set_send {A T} (f : FrameAEAD A) (buf : gslice) (s : SecureStream A T) : SecureStream A T :=
  mkSecureStream (ss_tr s) f (ss_recv s) buf (ss_lastSendNs s) (ss_coverStarted s)
    (ss_coverStop s) (ss_closeOnce s) (ss_closed s) (ss_bytesIn s) (ss_bytesOut s) (ss_frmIn s) (ss_frmOut s).
Definition set_recv {A T} (f : FrameAEAD A) (s : SecureStream A T) : SecureStream A T :=
  mkSecureStream (ss_tr s) (ss_send s) f (ss_sendBuf s) (ss_lastSendNs s) (ss_coverStarted s)
    (ss_coverStop s) (ss_closeOnce s) (ss_closed s) (ss_bytesIn s) (ss_bytesOut s) (ss_frmIn s) (ss_frmOut s).
Definition set_lastSendNs {A T} (ns : Z) (s : SecureStream A T) : SecureStream A T :=
  mkSecureStream (ss_tr s) (ss_send s) (ss_recv s) (ss_sendBuf s) ns (ss_coverStarted s)
    (ss_coverStop s) (ss_closeOnce s) (ss_closed s) (ss_bytesIn s) (ss_bytesOut s) (ss_frmIn s) (ss_frmOut s).
Definition set_cover {A T} (started : bool) (stop : stop_chan) (s : SecureStream A T) : SecureStream A T :=
  mkSecureStream (ss_tr s) (ss_send s) (ss_recv s) (ss_sendBuf s) (ss_lastSendNs s) started
    stop (ss_closeOnce s) (ss_closed s) (ss_bytesIn s) (ss_bytesOut s) (ss_frmIn s) (ss_frmOut s).
Definition set_closed {A T} (s : SecureStream A T) : SecureStream A T :=
  mkSecureStream (ss_tr s) (ss_send s) (ss_recv s) (ss_sendBuf s) (ss_lastSendNs s) (ss_coverStarted s)
    (ss_coverStop s) true true (ss_bytesIn s) (ss_bytesOut s) (ss_frmIn s) (ss_frmOut s).
(** [s.bytesOut.Add(n); s.frmOut.Add(1)] and the same for the other direction. *)
Definition count_out {A T} (n : Z) (s : SecureStream A T) : SecureStream A T :=
  mkSecureStream (ss_tr s) (ss_send s) (ss_recv s) (ss_sendBuf s) (ss_lastSendNs s) (ss_coverStarted s)
    (ss_coverStop s) (ss_closeOnce s) (ss_closed s) (ss_bytesIn s) ((ss_bytesOut s + n) mod 2 ^ 64)
    (ss_frmIn s) ((ss_frmOut s + 1) mod 2 ^ 64).
Definition count_in {A T} (n : Z) (s : SecureStream A T) : SecureStream A T :=
  mkSecureStream (ss_tr s) (ss_send s) (ss_recv s) (ss_sendBuf s) (ss_lastSendNs s) (ss_coverStarted s)
    (ss_coverStop s) (ss_closeOnce s) (ss_closed s) ((ss_bytesIn s + n) mod 2 ^ 64) (ss_bytesOut s)
    ((ss_frmIn s + 1) mod 2 ^ 64) (ss_frmOut s).

(** One decoded inbound frame. *)
Record Event := mkEvent {
  ev_Type : FrameType;
  ev_GlobalID : arr 8;
  ev_Address : Address;
  ev_HasAddr : bool;
  ev_Payload : bytes
}.

#[global] Instance Event_eq_dec : EqDecision Event.
Proof. solve_decision. Defined.

(** [int(x)] for a [uint64] on a 64-bit platform. *)
Definition int_of_u64 (x : Z) : Z := if x <? 2 ^ 63 then x else x - 2 ^ 64.

(** [%02x] *)
Definition hex_digit (n : Z) : Ascii.ascii :=
  Ascii.ascii_of_N (Z.to_N (if n <? 10 then 48 + n else 87 + n)).
Definition hex_byte (b : byte) : string :=
  String (hex_digit (byte_val b / 16)) (String (hex_digit (byte_val b mod 16)) EmptyString).

Definition frameTypeName (t : FrameType) : string :=
  if bool_decide (t = FrameTCPData) then "TCP_DATA" else
  if bool_decide (t = FrameUDPData) then "UDP_DATA" else
  if bool_decide (t = FrameUDPNew) then "UDP_NEW" else
  if bool_decide (t = FrameUDPEnd) then "UDP_END" else
  if bool_decide (t = FrameUDPProbeReq) then "UDP_PROBE_REQ" else
  if bool_decide (t = FrameUDPProbeResp) then "UDP_PROBE_RESP" else
  if bool_decide (t = FramePing) then "PING" else
  if bool_decide (t = FramePong) then "PONG" else
  if bool_decide (t = FrameRekeyReq) then "REKEY_REQ" else
  if bool_decide (t = FrameRekeyResp) then "REKEY_RESP" else
  if bool_decide (t = FramePaddingOnly) then "PADDING_ONLY"
  else ("UNKNOWN(0x" ++ hex_byte t ++ ")")%string.

(** ** Meta helpers *)

Definition buildUDPMeta (globalID : arr 8) (target : Address) : outcome bytes :=
  let out := arr_list globalID in
  out ← (if IsDomain target || Netip.AddrPort_IsValid (Addr target) then
           '(out, err) ← Append target out;
           match err with Some e => Fail e | None => Ret out end
         else Ret out);
  fail_if MaxMetaLen <? len out with ErrMetaTooLarge ;;
  Ret out.

Definition ErrUDPMetaShort : error := ErrText "ewp/v2: UDP meta too short".
Definition ErrUDPEndShort : error := ErrText "ewp/v2: UDP_END/PROBE_REQ meta too short".

Definition parseUDPMeta (meta : bytes) : outcome (arr 8 * Address * bool) :=
  fail_if len meta <? 8 with ErrUDPMetaShort ;;
  b ← slice meta 0 8;
  let gid := to_arr 8 b in
  if len meta =? 8 then Ret (gid, zero_Address, false) else
  tail ← slice meta 8 (len meta);
  '(a, _) ← DecodeAddress tail;
  Ret (gid, a, true).

(** Reshape thresholds. *)
Definition reshapeThreshold : Z := 8192.
Definition reshapeMin : Z := 4096.
Definition reshapeMax : Z := 12288.

Section SecureStream.
Context {G : Type} {C : Crypto G} {E : Entropy G}.
Context {T : Type} {MT : MessageTransport T}.

Abbreviation Stream := (SecureStream AEAD T).

Definition NewClientSecureStream (tr : T) (keys : SessionKeys) : outcome Stream :=
  send ← NewFrameAEAD (C2SKey keys) (C2SNonce keys);
  recv ← NewFrameAEAD (S2CKey keys) (S2CNonce keys);
  Ret (new_stream tr send recv).

Definition NewServerSecureStream (tr : T) (keys : SessionKeys) : outcome Stream :=
  send ← NewFrameAEAD (S2CKey keys) (S2CNonce keys);
  recv ← NewFrameAEAD (C2SKey keys) (C2SNonce keys);
  Ret (new_stream tr send recv).

(** ** Lifecycle *)

(** [if s.coverStop != nil { close(s.coverStop) }] *)
Definition close_cover (s : Stream) : Stream :=
  match ss_coverStop s with
  | ChanNil => s
  | _ => set_cover (ss_coverStarted s) ChanClosed s
  end.

(** [err = s.tr.Close()] *)
Definition close_transport (s : Stream) : option error * Stream :=
  let '(err, tr) := CloseTransport (ss_tr s) in (err, set_tr tr s).

Definition Close (s : Stream) : option error * Stream :=
  if ss_closeOnce s then (None, s) else close_transport (close_cover (set_closed s)).

Definition closeUnderlying (s : Stream) : Stream := (Close s).2.

Definition Stats (s : Stream) : Z * Z * Z * Z :=
  (ss_bytesIn s, ss_bytesOut s, ss_frmIn s, ss_frmOut s).

(** ** Sending *)

(** [s.sendBuf] after a failed encode: the slice is not assigned, but its
    storage may have been written. *)
Definition same_len (old new : gslice) : gslice :=
  let all := gs_data new ++ gs_spare new in
  mkSlice (sub all 0 (len (gs_data old))) (sub all (len (gs_data old)) (len all)).

(** [sendFrame] under [writeMu], up to the encoded frame: padding policy, send
    buffer, encoder.  [padLen] comes from the caller and is not checked before
    the buffer is made; the sum wraps around. *)
Definition send_encode (t : FrameType) (meta payload : bytes) (padLen : Z) (st : Stream * G)
  : outcome bytes * (Stream * G) :=
  let '(s, g) := st in
  let rawWire := frameHeaderSize + len meta + len payload + aeadTagLen in
  let '(padLen, g) :=
    if padLen <? 0 then suggestStreamPad rawWire (int_of_u64 (ss_frmOut s)) g else (Ret padLen, g) in
  letS padLen, st := (padLen, (s, g)) ;;
  let total := to_int64 (rawWire + padLen) in
  letS buf, st := (if gs_cap (ss_sendBuf s) <? total then make_cap total else Ret (ss_sendBuf s), (s, g)) ;;
  let s := set_send (ss_send s) buf s in
  letS enc, st := (EncodeFrameAppend (gs_take (ss_sendBuf s) 0) (ss_send s) t meta payload padLen g, (s, g)) ;;
  let '(wireBuf, err, f, g) := enc in
  match err with
  | Some e =>
      (Fail (Wrap ("ewp/v2: encode " ++ frameTypeName t ++ " frame") e),
       (set_send f (same_len (ss_sendBuf s) wireBuf) s, g))
  | None => (Ret (gs_data wireBuf), (set_send f wireBuf s, g))
  end.

(** [s.tr.SendMessage(wireBuf)] *)
Definition send_transmit (wire : bytes) (s : Stream) : option error * Stream :=
  let '(err, tr) := SendMessage wire (ss_tr s) in (err, set_tr tr s).

Definition ErrSend (e : error) : error := Wrap "ewp/v2: transport send" e.

(** The statistics and the time of the last application send. *)
Definition send_account (nowNs : Z) (t : FrameType) (wire : bytes) (s : Stream) : Stream :=
  let s := count_out (len wire) s in
  if bool_decide (t = FramePaddingOnly) then s else set_lastSendNs nowNs s.

Definition sendFrame (nowNs : Z) (t : FrameType) (meta payload : bytes) (padLen : Z)
  (st : Stream * G) : outcome unit * (Stream * G) :=
  if ss_closed st.1 then (Fail ErrClosedPipe, st) else
  letS wire, st := send_encode t meta payload padLen st ;;
  let '(s, g) := st in
  let '(err, s) := send_transmit wire s in
  match err with
  | Some e => (Fail (ErrSend e), (closeUnderlying s, g))
  | None => (Ret tt, (send_account nowNs t wire s, g))
  end.

(** The loop of [SendTCPData]: every iteration sends at least one byte, so
    [len(payload)] iterations are enough; running out of fuel is a panic. *)
Fixpoint reshape_loop (fuel : nat) (nowNs : Z) (payload : bytes) (st : Stream * G)
  : outcome unit * (Stream * G) :=
  if len payload =? 0 then (Ret tt, st) else
  match fuel with
  | O => (Panic, st)
  | S fuel =>
      let '(s, g) := st in
      let chunk := len payload in
      let '(chunk, g) :=
        if reshapeMax <? chunk
        then let '(r, g) := secureRandIntn (reshapeMax - reshapeMin + 1) g in (reshapeMin + r, g)
        else (chunk, g) in
      let chunk := if len payload <? chunk then len payload else chunk in
      letS piece, st := lift (slice payload 0 chunk) (s, g) ;;
      letS _, st := sendFrame nowNs FrameTCPData [] piece (-1) st ;;
      letS payload, st := lift (slice payload chunk (len payload)) st ;;
      reshape_loop fuel nowNs payload st
  end.

Definition SendTCPData (nowNs : Z) (payload : bytes) (st : Stream * G) : outcome unit * (Stream * G) :=
  if len payload <=? reshapeThreshold then sendFrame nowNs FrameTCPData [] payload (-1) st
  else reshape_loop (length payload) nowNs payload st.

Definition SendUDPNew (nowNs : Z) (globalID : arr 8) (target : Address) (initial : bytes)
  (st : Stream * G) : outcome unit * (Stream * G) :=
  letS meta, st := lift (buildUDPMeta globalID target) st ;;
  sendFrame nowNs FrameUDPNew meta initial (-1) st.

Definition SendUDPData (nowNs : Z) (globalID : arr 8) (target : Address) (payload : bytes)
  (st : Stream * G) : outcome unit * (Stream * G) :=
  letS meta, st := lift (buildUDPMeta globalID target) st ;;
  sendFrame nowNs FrameUDPData meta payload (-1) st.

Definition SendUDPEnd (nowNs : Z) (globalID : arr 8) (st : Stream * G) : outcome unit * (Stream * G) :=
  sendFrame nowNs FrameUDPEnd (arr_list globalID) [] (-1) st.

Definition SendProbeReq (nowNs : Z) (globalID : arr 8) (st : Stream * G) : outcome unit * (Stream * G) :=
  sendFrame nowNs FrameUDPProbeReq (arr_list globalID) [] (-1) st.

Definition SendProbeResp (nowNs : Z) (globalID : arr 8) (observed : Address) (st : Stream * G)
  : outcome unit * (Stream * G) :=
  letS meta, st := lift (buildUDPMeta globalID observed) st ;;
  sendFrame nowNs FrameUDPProbeResp meta [] (-1) st.

Definition SendPing (nowNs : Z) (cookie : bytes) (st : Stream * G) : outcome unit * (Stream * G) :=
  sendFrame nowNs FramePing [] cookie (-1) st.

Definition SendPong (nowNs : Z) (cookie : bytes) (st : Stream * G) : outcome unit * (Stream * G) :=
  sendFrame nowNs FramePong [] cookie (-1) st.

Definition SendCoverPad (nowNs : Z) (padLen : Z) (st : Stream * G) : outcome unit * (Stream * G) :=
  sendFrame nowNs FramePaddingOnly [] [] padLen st.

(** ** Cover traffic (started here; its loop is in Cover.v) *)

(** Returns whether the goroutine was started. *)
Definition StartCoverTraffic (cfg : CoverConfig) (s : Stream) : bool * Stream :=
  if (cfg_Interval cfg <=? 0) || (cfg_IdleAfter cfg <=? 0) then (false, s) else
  if ss_coverStarted s then (false, s) else
  (true, set_cover true ChanOpen s).

(** ** Receiving *)

(** The event of a decoded frame. *)
Definition event_of (df : DecodedFrame) : outcome Event :=
  let t := df_Type df in
  if bool_decide (t = FrameUDPNew \/ t = FrameUDPData \/ t = FrameUDPProbeResp) then
    '(gid, addr, hasAddr) ← wrap_err "ewp/v2: parse UDP meta" (parseUDPMeta (df_Meta df));
    Ret (mkEvent t gid addr hasAddr (df_Payload df))
  else if bool_decide (t = FrameUDPEnd \/ t = FrameUDPProbeReq) then
    fail_if len (df_Meta df) <? 8 with ErrUDPEndShort ;;
    b ← slice (df_Meta df) 0 8;
    Ret (mkEvent t (to_arr 8 b) zero_Address false (df_Payload df))
  else if bool_decide (t = FrameTCPData \/ t = FramePing \/ t = FramePong \/ t = FramePaddingOnly
                       \/ t = FrameRekeyReq \/ t = FrameRekeyResp) then
    Ret (mkEvent t (zero_arr 8) zero_Address false (df_Payload df))
  else Fail ErrFrameType.

(** [Recv] on an open stream, up to the close on an error. *)
Definition recv_body (s : Stream) : outcome Event * Stream :=
  let '(wire, tr) := ReadMessage (ss_tr s) in
  let s := set_tr tr s in
  letS wire, s := (wire, s) ;;
  letS dec, s := (wrap_err "ewp/v2: decode frame" (DecodeFrame (bytes_NewReader wire) (ss_recv s)).1, s) ;;
  let '(df, f) := dec in
  let s := count_in (len wire) (set_recv f s) in
  (event_of df, s).

Definition Recv (s : Stream) : outcome Event * Stream :=
  if ss_closed s then (Fail ErrClosedPipe, s) else
  let '(o, s) := recv_body s in
  match o with
  | Fail e => (Fail e, closeUnderlying s)
  | _ => (o, s)
  end.
End SecureStream.
#[global] Arguments sendFrame : simpl never.
#[global] Arguments Close : simpl never.
