(* ===== verification/SecureStreamProofs.v ===== *)
(** * Correctness of the secure stream (src/securestream.go)

    Against the contract of the transport ([TransportLaws]): what a sequence
    of send calls puts on the wire is what a sequence of [Recv] calls on the
    peer returns, in order; the counters match the statistics; errors are
    final; closing is idempotent. *)

From S2P Require Import Prelude Address Crypto Io Kdf Padding Frame Transport SecureStream.

(** ** Meta of UDP frames *)

(** The address of a UDP frame: present when it is a domain or a valid IP. *)
Definition has_target (a : Address) : bool := IsDomain a || Netip.AddrPort_IsValid (Addr a).

(** An address the meta can carry: well formed, and encodable if present. *)
Definition target_ok (a : Address) : Prop :=
  Address_wf a /\ (has_target a = true -> encodable a = true).

Definition target_seen (a : Address) : Address := if has_target a then strip a else zero_Address.

Lemma encodable_has_target a : encodable a = true -> has_target a = true.
Proof. unfold encodable, has_target. by destruct (IsDomain a). Qed.

Lemma buildUDPMeta_cases gid a :
  buildUDPMeta gid a =
    if has_target a then
      if encodable a then Ret (arr_list gid ++ wire_of a) else Fail ErrDomainLen
    else Ret (arr_list gid).
Proof.
  unfold buildUDPMeta. fold (has_target a). rewrite Append_spec. unfold MaxMetaLen.
  destruct (has_target a) eqn:Ht; cbn [mbind outcome_bind].
  - destruct (encodable a) eqn:He; cbn [mbind outcome_bind].
    + pose proof (EncodedLen_bounds a He). pose proof (length_wire_of a He).
      rewrite (proj2 (Z.ltb_ge _ _)) by llia. done.
    + unfold has_target, encodable in *. destruct (IsDomain a); [done|]. cbn in Ht. congruence.
  - rewrite (proj2 (Z.ltb_ge _ _)) by llia. done.
Qed.

Lemma parseUDPMeta_bare gid : parseUDPMeta (arr_list gid) = Ret (gid, zero_Address, false).
Proof.
  unfold parseUDPMeta. rewrite (proj2 (Z.ltb_ge _ _)), !slice_ok by llia. cbn [mbind outcome_bind].
  rewrite (proj2 (Z.eqb_eq _ _)) by llia. rewrite sub_full by llia. by rewrite to_arr_id.
Qed.

Lemma parseUDPMeta_wire gid a rest :
  Address_wf a -> encodable a = true ->
  parseUDPMeta (arr_list gid ++ wire_of a ++ rest) = Ret (gid, strip a, true).
Proof.
  intros Hwf He. pose proof (EncodedLen_bounds a He) as Hb. pose proof (length_wire_of a He) as Hw.
  unfold parseUDPMeta.
  assert (Hl : len (arr_list gid ++ wire_of a ++ rest) = 8 + EncodedLen a + len rest) by llia.
  rewrite (proj2 (Z.ltb_ge _ _)), !slice_ok by lia. cbn [mbind outcome_bind].
  rewrite (proj2 (Z.eqb_neq _ _)) by lia.
  rewrite (sub_app_l (arr_list gid)), (sub_full (arr_list gid)), to_arr_id by llia.
  rewrite (sub_app_r (arr_list gid)), sub_full by llia.
  rewrite DecodeAddress_wire by done. done.
Qed.

(** Building then parsing. *)
Lemma udp_meta_ok gid a :
  target_ok a -> exists meta, buildUDPMeta gid a = Ret meta /\ len meta <= 265 /\
    parseUDPMeta meta = Ret (gid, target_seen a, has_target a).
Proof.
  intros [Hwf He]. rewrite buildUDPMeta_cases. unfold target_seen.
  destruct (has_target a) eqn:Ht.
  - specialize (He eq_refl). rewrite He. eexists. split; [reflexivity|].
    pose proof (EncodedLen_bounds a He). pose proof (length_wire_of a He). split; [llia|].
    rewrite <-(app_nil_r (wire_of a)). by apply parseUDPMeta_wire.
  - eexists. split; [reflexivity|]. split; [llia|]. apply parseUDPMeta_bare.
Qed.

(** ** Frames in flight *)

(** ** Encoding under the write lock *)

Section Encoding.
Context {G : Type} {C : Crypto G} {E : Entropy G} `{!AEADLaws C}.
Context {T : Type}.

(** What a caller may send: a valid type and a frame within the limits. *)
Definition sendable (t : FrameType) (meta payload : bytes) (padLen : Z) : Prop :=
  Valid t = true /\ len meta <= MaxMetaLen /\ padLen <= MaxFramePad /\
  33 + len meta + len payload + Z.max 0 padLen <= MaxFrameSize.

Lemma length_frame_wire f t meta payload pad :
  len (frame_wire f t meta payload pad) = 33 + len meta + len payload + len pad.
Proof. unfold frame_wire. rewrite length_app, Nat2Z.inj_add, length_frame_body. unfold aeadTagLen. lia. Qed.

(** A frame whose buffer [make] may refuse: the meta and the payload, with the
    padding the caller asks for or the policy may choose, exceed what the
    runtime allocates. *)
Definition huge (meta payload : bytes) (padLen : Z) : Prop :=
  maxAlloc < 33 + len meta + len payload + Z.max MaxFramePad padLen.

(** The buffer of a frame of [total] bytes, before the sum wraps around. *)
Lemma send_buffer_cases buf total :
  match (if gs_cap buf <? to_int64 total then make_cap (to_int64 total) else Ret buf) with
  | Ret _ => True
  | Fail _ => False
  | Panic => 0 <= total -> maxAlloc < total
  end.
Proof.
  destruct (Z.ltb_spec (gs_cap buf) (to_int64 total)) as [Hc|]; [|done]. unfold make_cap, gs_cap in *.
  destruct (Z.ltb_spec (to_int64 total) 0); [lia|]. cbn [orb].
  destruct (Z.ltb_spec maxAlloc (to_int64 total)); [|done]. intros Ht. pose proof (to_int64_le total Ht). lia.
Qed.

Lemma send_buffer_ok buf total :
  0 <= total <= maxAlloc ->
  exists b, (if gs_cap buf <? to_int64 total then make_cap (to_int64 total) else Ret buf) = Ret b.
Proof.
  intros Ht. unfold maxAlloc in Ht. rewrite to_int64_id by lia. destruct (gs_cap buf <? total); [|by eexists].
  unfold make_cap, maxAlloc. rewrite (proj2 (Z.ltb_ge total 0)), (proj2 (Z.ltb_ge (2 ^ 48) total)) by lia. by eexists.
Qed.

(** Whatever the randomness source does, encoding touches only the sending
    context and buffer: it advances the context by the frame it returns, or
    leaves it alone.  It panics only on a huge frame, before it has touched
    anything. *)
Lemma send_encode_total t meta payload padLen (s : SecureStream AEAD T) g :
  exists o g' buf, match o with
    | Ret wire => exists pad, encode_error t meta payload (len pad) = None /\
        wire = frame_wire (ss_send s) t meta payload pad /\
        send_encode t meta payload padLen (s, g) =
          (o, (set_send (bump (ss_send s) (fa_counter (ss_send s))) buf s, g'))
    | Fail _ => send_encode t meta payload padLen (s, g) = (o, (set_send (ss_send s) buf s, g'))
    | Panic => huge meta payload padLen /\ send_encode t meta payload padLen (s, g) = (o, (s, g'))
    end.
Proof.
  unfold send_encode. set (raw := frameHeaderSize + len meta + len payload + aeadTagLen).
  assert (Hraw : raw = 33 + len meta + len payload)
    by (unfold raw; change frameHeaderSize with 17; change aeadTagLen with 16; lia).
  assert (Hpad : exists n g1, (if padLen <? 0 then suggestStreamPad raw (int_of_u64 (ss_frmOut s)) g
      else (Ret padLen, g)) = (Ret n, g1) /\ 0 <= n <= Z.max MaxFramePad padLen).
  { destruct (Z.ltb_spec padLen 0); [|exists padLen, g; split; [done|lia]].
    destruct (suggestStreamPad_bounds raw (int_of_u64 (ss_frmOut s)) g) as (n & Hn & Hb & _).
    destruct (suggestStreamPad _ _ g) as [o g1]. cbn in Hn. subst o. exists n, g1. split; [done|lia]. }
  destruct Hpad as (n & g1 & -> & Hn). cbn [sbind].
  pose proof (send_buffer_cases (ss_sendBuf s) (raw + n)) as Hbuf.
  destruct (if gs_cap (ss_sendBuf s) <? to_int64 (raw + n) then _ else _) as [b|e|]; [|done|].
  2: { exists Panic, g1, (ss_sendBuf s). split; [|done]. unfold huge. lia. }
  cbn [sbind]. clear Hbuf. set (s1 := set_send (ss_send s) _ s).
  destruct (encode_error t meta payload n) as [e|] eqn:He.
  - rewrite (EncodeFrameAppend_error _ (ss_send s1) t meta payload n g1 e He). cbn [sbind]. by eexists (Fail _), g1, _.
  - destruct (EncodeFrameAppend_ok (gs_take (ss_sendBuf s1) 0) (ss_send s1) t meta payload n g1 He)
      as (spare & spare' & ->).
    assert (Hp : forall pad g2, (if n <=? 0 then (Some [], g1) else rand_fill (Z.to_nat (Z.max 0 n)) g1) =
      (Some pad, g2) -> encode_error t meta payload (len pad) = None).
    { intros pad g2 Hr. apply encode_error_None in He as (Hv & Hm & Hx & Hl).
      assert (Hlen : len pad = Z.max 0 n).
      { destruct (Z.leb_spec n 0); [injection Hr as <- _; cbn; lia|]. apply rand_fill_length in Hr. lia. }
      apply encode_error_None. rewrite Hlen, (Z.max_r 0 (Z.max 0 n)) by lia. unfold MaxFramePad in *.
      split_and!; [done|done|lia|done]. }
    destruct (if n <=? 0 then _ else _) as [[pad|] g2] eqn:Hr; cbn [sbind gs_data gs_take].
    + rewrite sub_empty by lia. eexists (Ret _), g2, _. exists pad. split; [by eapply Hp|]. by split.
    + by eexists (Fail _), g2, _.
Qed.

(** With working randomness, a frame within the limits is encoded, and fits a
    message. *)
Lemma send_encode_ok `{!EntropyLaws E} t meta payload padLen (s : SecureStream AEAD T) g :
  sendable t meta payload padLen ->
  exists pad g' buf, send_encode t meta payload padLen (s, g) =
      (Ret (frame_wire (ss_send s) t meta payload pad),
       (set_send (bump (ss_send s) (fa_counter (ss_send s))) buf s, g')) /\
    encode_error t meta payload (len pad) = None /\
    len (frame_wire (ss_send s) t meta payload pad) <= MaxFrameSize.
Proof.
  intros (Hv & Hm & Hp & Hsz). unfold send_encode.
  set (raw := frameHeaderSize + len meta + len payload + aeadTagLen).
  assert (Hraw : raw = 33 + len meta + len payload) by (unfold raw; change frameHeaderSize with 17;
    change aeadTagLen with 16; lia).
  assert (Hpad : exists n g1, (if padLen <? 0 then suggestStreamPad raw (int_of_u64 (ss_frmOut s)) g
      else (Ret padLen, g)) = (Ret n, g1) /\ 0 <= n <= MaxFramePad /\ raw + n <= MaxFrameSize).
  { destruct (Z.ltb_spec padLen 0) as [Hneg|Hpos].
    - destruct (suggestStreamPad_fits raw (int_of_u64 (ss_frmOut s)) g) as (n & Hn & Hb & Hf); [lia|].
      destruct (suggestStreamPad _ _ g) as [o g1]. cbn in Hn. subst o. eauto.
    - exists padLen, g. split; [done|]. lia. }
  destruct Hpad as (n & g1 & -> & Hn & Hfit). cbn [sbind]. clear padLen Hp Hsz.
  destruct (send_buffer_ok (ss_sendBuf s) (raw + n)) as [b ->]; [unfold maxAlloc, MaxFrameSize in *; lia|]. cbn [sbind].
  assert (He : encode_error t meta payload n = None).
  { apply encode_error_None. unfold frame_len, frameHdrCounter, frameHdrType, frameHdrMetaLen,
      frameHdrPadLen, aeadTagLen. split_and!; [done|done|lia|lia]. }
  set (s1 := set_send (ss_send s) _ s).
  destruct (EncodeFrameAppend_ok (gs_take (ss_sendBuf s1) 0) (ss_send s1) t meta payload n g1 He)
    as (spare & spare' & ->).
  assert (Hr : exists pad g2, (if n <=? 0 then (Some [], g1) else rand_fill (Z.to_nat (Z.max 0 n)) g1) =
    (Some pad, g2) /\ len pad = n).
  { destruct (Z.leb_spec n 0); [exists [], g1; split; [done|cbn; lia]|].
    destruct (rand_fill_total (Z.to_nat (Z.max 0 n)) g1) as (pad & g2 & -> & Hl). exists pad, g2. split; [done|lia]. }
  destruct Hr as (pad & g2 & -> & Hpl). cbn [sbind gs_data gs_take]. rewrite sub_empty by lia.
  eexists pad, g2, _. split; [reflexivity|]. rewrite length_frame_wire, Hpl. split; [done|lia].
Qed.
End Encoding.

Section Channel.
Context {G : Type} {C : Crypto G} {E : Entropy G} `{!AEADLaws C}.
Context {T : Type} `{TransportLaws T}.

Abbreviation Stream := (SecureStream AEAD T).

(** The content of a frame. *)
Definition content : Type := FrameType * bytes * bytes.

(** The messages [ms] are encodings of the contents [q], from context [f] on. *)
Inductive framed : FrameAEAD AEAD -> list content -> list bytes -> Prop :=
  | framed_nil f : framed f [] []
  | framed_cons f t meta payload pad q ms :
      encode_error t meta payload (len pad) = None ->
      framed (bump f (fa_counter f)) q ms ->
      framed f ((t, meta, payload) :: q) (frame_wire f t meta payload pad :: ms).

Lemma framed_length f q ms : framed f q ms -> length q = length ms.
Proof. induction 1; cbn; lia. Qed.

Lemma framed_app f q ms q' ms' :
  framed f q ms -> framed (bumps (length ms) f) q' ms' -> framed f (q ++ q') (ms ++ ms').
Proof. induction 1; cbn; [done|]. intros. constructor; auto. Qed.

Lemma bumps_plus j k f : bumps (j + k) f = bumps k (bumps j f).
Proof. revert f. induction j as [|j IH]; intros f; [done|]. apply IH. Qed.

Lemma bumps_range k f : 0 <= fa_counter f < 2 ^ 64 -> 0 <= fa_counter (bumps k f) < 2 ^ 64.
Proof. intros Hf. rewrite bumps_counter by done. apply Z.mod_pos_bound. lia. Qed.

(** Sending side: a call that put the messages [ms] on the wire. *)
Record progress (s s' : Stream) (ms : list bytes) : Prop := {
  pr_open : ss_closed s' = false;
  pr_up : up (ss_tr s');
  pr_tx : tx (ss_tr s') = tx (ss_tr s) ++ ms;
  pr_rx : rx (ss_tr s') = rx (ss_tr s);
  pr_send : ss_send s' = bumps (length ms) (ss_send s);
  pr_recv : ss_recv s' = ss_recv s;
  pr_frmOut : ss_frmOut s' = (ss_frmOut s + len ms) mod 2 ^ 64
}.

Lemma progress_trans s1 s2 s3 ms ms' :
  progress s1 s2 ms -> progress s2 s3 ms' -> progress s1 s3 (ms ++ ms').
Proof.
  intros [] []. split; try congruence.
  - rewrite pr_tx1, pr_tx0. by rewrite app_assoc.
  - rewrite pr_send1, pr_send0, length_app. by rewrite bumps_plus.
  - rewrite pr_frmOut1, pr_frmOut0, length_app, Z.add_mod_idemp_l by lia. f_equal. lia.
Qed.

(** A stream in working order. *)
Record working (s : Stream) : Prop := {
  wk_open : ss_closed s = false;
  wk_up : up (ss_tr s);
  wk_send : 0 <= fa_counter (ss_send s) < 2 ^ 64;
  wk_recv : 0 <= fa_counter (ss_recv s) < 2 ^ 64;
  wk_frmOut : 0 <= ss_frmOut s < 2 ^ 64
}.

Lemma progress_working s s' ms : working s -> progress s s' ms -> working s'.
Proof.
  intros [] []. split; [done|done|..].
  - rewrite pr_send0. by apply bumps_range.
  - by rewrite pr_recv0.
  - rewrite pr_frmOut0. by apply Z.mod_pos_bound.
Qed.

#[local] Hint Resolve progress_working : ewp.

Lemma progress_nil s : working s -> progress s s [].
Proof. intros []. split; try done; [by rewrite app_nil_r|]. rewrite Z.add_0_r. by rewrite Z.mod_small. Qed.

Context `{!EntropyLaws E}.

Lemma sendFrame_ok nowNs t meta payload padLen s g :
  working s -> sendable t meta payload padLen ->
  exists pad s' g', sendFrame nowNs t meta payload padLen (s, g) = (Ret tt, (s', g')) /\
    encode_error t meta payload (len pad) = None /\
    progress s s' [frame_wire (ss_send s) t meta payload pad].
Proof.
  intros [] Hs. unfold sendFrame. cbn [fst]. rewrite wk_open0.
  destruct (send_encode_ok t meta payload padLen s g Hs) as (pad & g' & buf & -> & He & Hl). cbn [sbind].
  unfold send_transmit. cbn [set_send ss_tr].
  destruct (SendMessage_ok (frame_wire (ss_send s) t meta payload pad) (ss_tr s)) as (tr' & -> & Hu' & Htx & Hrx);
    [done|by apply fits_frames|].
  eexists pad, _, g'. split; [reflexivity|]. split; [done|]. unfold send_account.
  destruct (bool_decide (t = FramePaddingOnly)); split; cbn; done.
Qed.

(** Receiving side: one message of the peer. *)
Lemma Recv_ok s t meta payload m ms rest ev :
  working s -> framed (ss_recv s) [(t, meta, payload)] [m] -> rx (ss_tr s) = m :: ms ++ rest ->
  (forall c, event_of (mkDecodedFrame c t meta payload) = Ret ev) ->
  exists s', Recv s = (Ret ev, s') /\ working s' /\ rx (ss_tr s') = ms ++ rest /\
    tx (ss_tr s') = tx (ss_tr s) /\ ss_send s' = ss_send s /\
    ss_recv s' = bump (ss_recv s) (fa_counter (ss_recv s)).
Proof.
  intros [] Hf Hrx Hev. inversion Hf as [|? ? ? ? pad ? ? Henc Hrest]; subst.
  unfold Recv, recv_body. rewrite wk_open0.
  destruct (ReadMessage_ok _ _ _ wk_up0 Hrx) as (tr' & -> & Hu' & Htx' & Hrx').
  cbn [sbind ss_recv set_tr].
  destruct (DecodeFrame_wire (bytes_NewReader (frame_wire (ss_recv s) t meta payload pad)) (ss_recv s)
    t meta payload pad []) as (r' & _ & ->); [done|done|by rewrite rd_bytes_NewReader, app_nil_r|].
  cbn [fst wrap_err sbind]. rewrite Hev. eexists. split; [reflexivity|]. split_and!; cbn; try done.
  split; cbn; try done. by apply Z.mod_pos_bound.
Qed.

(** ** Calls of the sending API *)

Definition tcp_frame (chunk : bytes) : content := (FrameTCPData, [], chunk).

(** One frame, as a run of frames. *)
Lemma sendFrame_framed nowNs t meta payload padLen s g :
  working s -> sendable t meta payload padLen ->
  exists ms s' g', sendFrame nowNs t meta payload padLen (s, g) = (Ret tt, (s', g')) /\
    framed (ss_send s) [(t, meta, payload)] ms /\ progress s s' ms.
Proof.
  intros Hw Hs. destruct (sendFrame_ok nowNs t meta payload padLen s g Hw Hs) as (pad & s' & g' & Hr & He & Hp).
  eexists _, s', g'. split; [done|]. split; [|exact Hp]. constructor; [done|constructor].
Qed.

Lemma tcp_sendable chunk : len chunk <= reshapeMax -> sendable FrameTCPData [] chunk (-1).
Proof.
  unfold reshapeMax, sendable, MaxMetaLen, MaxFramePad, MaxFrameSize. intros.
  split_and!; [done|cbn; lia|lia|cbn [length]; lia].
Qed.

Lemma reshape_loop_ok fuel nowNs payload s g :
  working s -> (length payload <= fuel)%nat ->
  exists chunks ms s' g', reshape_loop fuel nowNs payload (s, g) = (Ret tt, (s', g')) /\
    concat chunks = payload /\ Forall (fun c => 0 < len c <= reshapeMax) chunks /\
    framed (ss_send s) (tcp_frame <$> chunks) ms /\ progress s s' ms.
Proof.
  revert payload s g. induction fuel as [|fuel IH]; intros payload s g Hw Hf.
  { destruct payload; [|cbn in Hf; lia]. exists [], [], s, g.
    split_and!; try done; [constructor|by apply progress_nil]. }
  cbn [reshape_loop]. destruct (Z.eqb_spec (len payload) 0) as [H0|H0].
  { destruct payload; [|cbn in H0; lia]. exists [], [], s, g.
    split_and!; try done; [constructor|by apply progress_nil]. }
  set (pick := if reshapeMax <? len payload then _ else _).
  assert (Hc : exists c g1, pick = (c, g1) /\ 0 < c <= reshapeMax).
  { unfold pick, reshapeMax, reshapeMin. destruct (Z.ltb_spec 12288 (len payload)); [|do 2 eexists; split; [done|lia]].
    pose proof (secureRandIntn_bounds (12288 - 4096 + 1) g). destruct (secureRandIntn _ g) as [r g1].
    cbn in *. do 2 eexists. split; [done|lia]. }
  destruct Hc as (c & g1 & -> & Hc). set (chunk := if len payload <? c then len payload else c).
  assert (Hchunk : 0 < chunk <= reshapeMax /\ chunk <= len payload).
  { unfold chunk. destruct (Z.ltb_spec (len payload) c); lia. }
  unfold lift. rewrite slice_ok by lia. cbn [sbind].
  destruct (sendFrame_framed nowNs FrameTCPData [] (sub payload 0 chunk) (-1) s g1 Hw)
    as (ms1 & s1 & g2 & -> & Hf1 & Hp1); [apply tcp_sendable; rewrite length_sub; lia|].
  cbn [sbind]. rewrite slice_ok by lia. cbn [sbind].
  destruct (IH (sub payload chunk (len payload)) s1 g2) as (cs & ms2 & s2 & g3 & -> & Hcat & Hall & Hf2 & Hp2);
    [eauto with ewp|rewrite length_sub_nat; lia|].
  exists (sub payload 0 chunk :: cs), (ms1 ++ ms2), s2, g3. split; [done|]. split_and!.
  - cbn [concat]. rewrite Hcat, <-sub_split, sub_all by lia. done.
  - constructor; [rewrite length_sub by lia; lia|done].
  - apply (framed_app _ [_] ms1 _ ms2 Hf1). by rewrite <-(pr_send _ _ _ Hp1).
  - by eapply progress_trans.
Qed.

(** [SendTCPData]: the payload is cut into chunks of at most 12288 bytes. *)
Lemma SendTCPData_ok nowNs payload s g :
  working s ->
  exists chunks ms s' g', SendTCPData nowNs payload (s, g) = (Ret tt, (s', g')) /\
    concat chunks = payload /\ Forall (fun c => len c <= reshapeMax) chunks /\
    framed (ss_send s) (tcp_frame <$> chunks) ms /\ progress s s' ms.
Proof.
  intros Hw. unfold SendTCPData. destruct (Z.leb_spec (len payload) reshapeThreshold) as [Hle|Hgt].
  - unfold reshapeThreshold in Hle.
    destruct (sendFrame_framed nowNs FrameTCPData [] payload (-1) s g Hw) as (ms & s' & g' & Hr & Hf & Hp);
      [apply tcp_sendable; unfold reshapeMax; lia|].
    exists [payload], ms, s', g'. split_and!; [done|cbn; by rewrite app_nil_r| |done|done].
    constructor; [unfold reshapeMax; lia|constructor].
  - destruct (reshape_loop_ok (length payload) nowNs payload s g Hw) as (cs & ms & s' & g' & Hr & Hc & Ha & Hf & Hp);
      [done|].
    exists cs, ms, s', g'. split_and!; try done. eapply Forall_impl; [exact Ha|]. cbn. lia.
Qed.

(** The calls an application makes. *)
Inductive op :=
  | OpTCP (payload : bytes)
  | OpUDPNew (gid : arr 8) (target : Address) (initial : bytes)
  | OpUDPData (gid : arr 8) (target : Address) (payload : bytes)
  | OpUDPEnd (gid : arr 8)
  | OpProbeReq (gid : arr 8)
  | OpProbeResp (gid : arr 8) (observed : Address)
  | OpPing (cookie : bytes)
  | OpPong (cookie : bytes)
  | OpCover (padLen : Z).

Definition run_op (nowNs : Z) (o : op) (st : Stream * G) : outcome unit * (Stream * G) :=
  match o with
  | OpTCP p => SendTCPData nowNs p st
  | OpUDPNew gid a p => SendUDPNew nowNs gid a p st
  | OpUDPData gid a p => SendUDPData nowNs gid a p st
  | OpUDPEnd gid => SendUDPEnd nowNs gid st
  | OpProbeReq gid => SendProbeReq nowNs gid st
  | OpProbeResp gid a => SendProbeResp nowNs gid a st
  | OpPing c => SendPing nowNs c st
  | OpPong c => SendPong nowNs c st
  | OpCover n => SendCoverPad nowNs n st
  end.

(** The arguments the frame format can carry; TCP payloads are unrestricted. *)
Definition op_ok (o : op) : Prop :=
  match o with
  | OpTCP _ | OpUDPEnd _ | OpProbeReq _ => True
  | OpUDPNew _ a p | OpUDPData _ a p => target_ok a /\ len p <= 65238
  | OpProbeResp _ a => target_ok a
  | OpPing c | OpPong c => len c <= 65503
  | OpCover n => n <= MaxFramePad
  end.

(** The events the peer must see for a call. *)
Definition plain_event (t : FrameType) (payload : bytes) : Event :=
  mkEvent t (zero_arr 8) zero_Address false payload.
Definition udp_event (t : FrameType) (gid : arr 8) (a : Address) (payload : bytes) : Event :=
  mkEvent t gid (target_seen a) (has_target a) payload.

Definition delivers (o : op) (evs : list Event) : Prop :=
  match o with
  | OpTCP p => exists chunks, evs = plain_event FrameTCPData <$> chunks /\ concat chunks = p
  | OpUDPNew gid a p => evs = [udp_event FrameUDPNew gid a p]
  | OpUDPData gid a p => evs = [udp_event FrameUDPData gid a p]
  | OpUDPEnd gid => evs = [mkEvent FrameUDPEnd gid zero_Address false []]
  | OpProbeReq gid => evs = [mkEvent FrameUDPProbeReq gid zero_Address false []]
  | OpProbeResp gid a => evs = [udp_event FrameUDPProbeResp gid a []]
  | OpPing c => evs = [plain_event FramePing c]
  | OpPong c => evs = [plain_event FramePong c]
  | OpCover _ => evs = [plain_event FramePaddingOnly []]
  end.

(** The event a frame content decodes to. *)
Definition decodes (x : content) (ev : Event) : Prop :=
  forall c, event_of (mkDecodedFrame c x.1.1 x.1.2 x.2) = Ret ev.

Lemma decodes_gid t gid payload :
  t = FrameUDPEnd \/ t = FrameUDPProbeReq ->
  decodes (t, arr_list gid, payload) (mkEvent t gid zero_Address false payload).
Proof.
  intros Ht c. unfold event_of. cbn [df_Type df_Meta df_Payload fst snd].
  rewrite (bool_decide_false (t = FrameUDPNew \/ _)) by (destruct Ht as [->| ->]; intros [|[]]; discriminate).
  rewrite bool_decide_true by done. rewrite (proj2 (Z.ltb_ge _ _)), slice_ok by llia.
  cbn [mbind outcome_bind]. by rewrite sub_full, to_arr_id by llia.
Qed.

Lemma decodes_udp t gid a meta payload :
  t = FrameUDPNew \/ t = FrameUDPData \/ t = FrameUDPProbeResp ->
  parseUDPMeta meta = Ret (gid, target_seen a, has_target a) ->
  decodes (t, meta, payload) (udp_event t gid a payload).
Proof.
  intros Ht Hp c. unfold event_of. cbn [df_Type df_Meta df_Payload fst snd].
  rewrite bool_decide_true, Hp by done. done.
Qed.

Lemma decodes_tcp chunks :
  Forall2 decodes (tcp_frame <$> chunks) (plain_event FrameTCPData <$> chunks).
Proof. induction chunks; constructor; [by intros c|done]. Qed.

(** A call puts a run of frames on the wire that decode to its events. *)
Definition op_spec (o : op) (s : Stream) (r : outcome unit * (Stream * G)) : Prop :=
  exists q ms evs s' g', r = (Ret tt, (s', g')) /\ framed (ss_send s) q ms /\ progress s s' ms /\
    Forall2 decodes q evs /\ delivers o evs.

Lemma op_spec_single o nowNs t meta payload padLen ev s g :
  working s -> sendable t meta payload padLen -> decodes (t, meta, payload) ev -> delivers o [ev] ->
  op_spec o s (sendFrame nowNs t meta payload padLen (s, g)).
Proof.
  intros Hw Hs Hd Ho. destruct (sendFrame_framed nowNs t meta payload padLen s g Hw Hs) as (ms & s' & g' & Hr & Hf & Hp).
  exists [(t, meta, payload)], ms, [ev], s', g'. split_and!; try done. by constructor.
Qed.

Lemma op_spec_udp o nowNs t gid a payload s g :
  working s -> t = FrameUDPNew \/ t = FrameUDPData \/ t = FrameUDPProbeResp ->
  target_ok a -> len payload <= 65238 -> delivers o [udp_event t gid a payload] ->
  op_spec o s (letS meta, st := lift (buildUDPMeta gid a) (s, g) ;;
               sendFrame nowNs t meta payload (-1) st).
Proof.
  intros Hw Ht Ha Hlen Ho. destruct (udp_meta_ok gid a Ha) as (meta & -> & Hm & Hp). cbn [lift sbind].
  eapply op_spec_single; [done| |by apply decodes_udp|done].
  unfold sendable, MaxMetaLen, MaxFramePad, MaxFrameSize. split_and!; [|lia|lia|lia].
  by destruct Ht as [->|[->| ->]].
Qed.

Lemma run_op_ok nowNs o s g : working s -> op_ok o -> op_spec o s (run_op nowNs o (s, g)).
Proof.
  intros Hw Hok. destruct o; cbn [run_op op_ok] in *.
  - destruct (SendTCPData_ok nowNs payload s g Hw) as (cs & ms & s' & g' & Hr & Hc & _ & Hf & Hp).
    exists (tcp_frame <$> cs), ms, (plain_event FrameTCPData <$> cs), s', g'.
    split_and!; try done; [apply decodes_tcp|]. by exists cs.
  - apply op_spec_udp; naive_solver.
  - apply op_spec_udp; naive_solver.
  - eapply op_spec_single; [done| |apply decodes_gid; by left|done].
    unfold sendable. rewrite arr_length. done.
  - eapply op_spec_single; [done| |apply decodes_gid; by right|done].
    unfold sendable. rewrite arr_length. done.
  - apply op_spec_udp; [done|naive_solver|done|cbn; lia|done].
  - apply (op_spec_single _ _ _ _ _ _ (plain_event FramePing cookie)); [done| |by intros c|done].
    unfold sendable, MaxFrameSize, MaxMetaLen, MaxFramePad in *. split_and!; [done|cbn; lia|lia|cbn [length]; lia].
  - apply (op_spec_single _ _ _ _ _ _ (plain_event FramePong cookie)); [done| |by intros c|done].
    unfold sendable, MaxFrameSize, MaxMetaLen, MaxFramePad in *. split_and!; [done|cbn; lia|lia|cbn [length]; lia].
  - apply (op_spec_single _ _ _ _ _ _ (plain_event FramePaddingOnly [])); [done| |by intros c|done].
    unfold sendable, MaxFrameSize, MaxMetaLen, MaxFramePad in *. split_and!; [done|cbn; lia|lia|cbn [length]; lia].
Qed.

(** ** Sequences of calls *)

Fixpoint run_ops (ops : list (Z * op)) (st : Stream * G) : outcome unit * (Stream * G) :=
  match ops with
  | [] => (Ret tt, st)
  | (nowNs, o) :: ops => letS _, st := run_op nowNs o st ;; run_ops ops st
  end.

Fixpoint recv_n (n : nat) (s : Stream) : outcome (list Event) * Stream :=
  match n with
  | O => (Ret [], s)
  | S n =>
      letS ev, s := Recv s ;;
      letS evs, s := recv_n n s ;;
      (Ret (ev :: evs), s)
  end.

Lemma run_ops_ok ops s g :
  working s -> Forall (fun x => op_ok x.2) ops ->
  exists q ms evss s' g', run_ops ops (s, g) = (Ret tt, (s', g')) /\ framed (ss_send s) q ms /\
    progress s s' ms /\ Forall2 decodes q (concat evss) /\ Forall2 (fun x => delivers x.2) ops evss.
Proof.
  revert s g. induction ops as [|[nowNs o] ops IH]; intros s g Hw Hok; cbn [run_ops].
  - exists [], [], [], s, g. split_and!; try done; [constructor|by apply progress_nil].
  - inversion Hok as [|?? Ho Hok']; subst.
    destruct (run_op_ok nowNs o s g Hw Ho) as (q & ms & evs & s1 & g1 & -> & Hf & Hp & Hd & Hdel). cbn [sbind].
    destruct (IH s1 g1) as (q' & ms' & evss & s2 & g2 & -> & Hf' & Hp' & Hd' & Hdel');
      [eauto with ewp|done|].
    exists (q ++ q'), (ms ++ ms'), (evs :: evss), s2, g2. split_and!; [done| | | |by constructor].
    + eapply framed_app; [done|]. by rewrite <-(pr_send _ _ _ Hp).
    + by eapply progress_trans.
    + cbn [concat]. by apply Forall2_app.
Qed.

Lemma recv_n_ok s q ms evs rest :
  working s -> framed (ss_recv s) q ms -> rx (ss_tr s) = ms ++ rest -> Forall2 decodes q evs ->
  exists s', recv_n (length evs) s = (Ret evs, s') /\ working s' /\ rx (ss_tr s') = rest /\
    ss_send s' = ss_send s /\ ss_recv s' = bumps (length ms) (ss_recv s).
Proof.
  intros Hw Hf Hrx Hd. revert s ms Hw Hf Hrx.
  induction Hd as [|[[t meta] payload] ev q evs Hx _ IH]; intros s ms Hw Hf Hrx; cbn [length recv_n].
  - inversion Hf; subst. by exists s.
  - inversion Hf as [|? ? ? ? pad ? ms' Henc Hrest]; subst. cbn [app] in Hrx.
    destruct (Recv_ok s t meta payload _ ms' rest ev Hw (framed_cons _ _ _ _ pad _ _ Henc (framed_nil _)) Hrx Hx)
      as (s1 & -> & Hw1 & Hrx1 & _ & Hs1 & Hr1). cbn [sbind].
    destruct (IH s1 ms') as (s2 & -> & Hw2 & Hrx2 & Hs2 & Hr2); [done|by rewrite Hr1|done|]. cbn [sbind].
    exists s2. split_and!; [done..|by rewrite Hs2|]. by rewrite Hr2, Hr1.
Qed.
End Channel.
#[export] Hint Resolve progress_working : ewp.

(** ** Any transport: no panic, errors are final, counters and statistics *)

Section AnyTransport.
Context {G : Type} {C : Crypto G} {E : Entropy G} `{!AEADLaws C}.
Context {T : Type} {MT : MessageTransport T}.

Abbreviation Stream := (SecureStream AEAD T).

(** The facts every reachable stream satisfies: the once and the flag agree;
    every accepted frame is counted; so is every emitted one, but for the one
    whose transmission failed and closed the stream. *)
Record consistent (s : Stream) : Prop := {
  cs_once : ss_closeOnce s = ss_closed s;
  cs_in : ss_frmIn s = fa_counter (ss_recv s);
  cs_out : fa_counter (ss_send s) = ss_frmOut s \/
    ss_closed s = true /\ fa_counter (ss_send s) = (ss_frmOut s + 1) mod 2 ^ 64
}.

(** [Close], field by field. *)
Definition closed_form (s : Stream) : Stream :=
  mkSecureStream (CloseTransport (ss_tr s)).2 (ss_send s) (ss_recv s) (ss_sendBuf s) (ss_lastSendNs s)
    (ss_coverStarted s) (match ss_coverStop s with ChanNil => ChanNil | _ => ChanClosed end) true true
    (ss_bytesIn s) (ss_bytesOut s) (ss_frmIn s) (ss_frmOut s).

Lemma Close_eq s :
  Close s = if ss_closeOnce s then (None, s) else ((CloseTransport (ss_tr s)).1, closed_form s).
Proof.
  unfold Close, close_transport, close_cover, closed_form. destruct s as [tr ? ? ? ? ? stop once ? ? ? ? ?]. cbn.
  destruct once; [done|]. destruct stop; cbn; by destruct (CloseTransport tr).
Qed.

Lemma Close_closed s : consistent s -> ss_closed (Close s).2 = true /\ consistent (Close s).2.
Proof.
  intros [Ho Hi Hout]. rewrite Close_eq. destruct (ss_closeOnce s) eqn:Eo; cbn.
  - split; [done|]. split; [congruence|done|done].
  - split; [done|]. split; cbn; [done|done|]. destruct Hout as [|[]]; [by left|congruence].
Qed.

(** Closing after a frame that was encoded but not sent. *)
Lemma Close_closed_inv s :
  ss_closeOnce s = ss_closed s -> ss_frmIn s = fa_counter (ss_recv s) ->
  fa_counter (ss_send s) = ss_frmOut s \/ fa_counter (ss_send s) = (ss_frmOut s + 1) mod 2 ^ 64 ->
  consistent (closeUnderlying s).
Proof.
  intros Ho Hi Hout. unfold closeUnderlying. rewrite Close_eq. destruct (ss_closeOnce s) eqn:Eo; cbn.
  - split; [congruence|done|]. destruct Hout; [by left|right]. split; congruence.
  - split; [done|done|]. cbn. destruct Hout; [by left|by right].
Qed.

(** A call that keeps a stream consistent, and panics only if [big], without
    touching it. *)
Definition keeps {A} (big : Prop) (s : Stream) (r : outcome A * (Stream * G)) : Prop :=
  (r.1 = Panic -> big /\ r.2.1 = s) /\ consistent r.2.1.

Lemma keeps_weaken {A} (P Q : Prop) s (r : outcome A * (Stream * G)) : (P -> Q) -> keeps P s r -> keeps Q s r.
Proof. intros HPQ [Hp Hc]. split; [|done]. intros H. destruct (Hp H). auto. Qed.

Lemma sendFrame_keeps nowNs t meta payload padLen s g :
  consistent s -> keeps (huge meta payload padLen) s (sendFrame nowNs t meta payload padLen (s, g)).
Proof.
  intros Hs. unfold keeps, sendFrame. cbn [fst]. destruct (ss_closed s) eqn:Ec; [done|].
  destruct (send_encode_total t meta payload padLen s g) as ([wire|e|] & g' & buf & H);
    [..|destruct H as [H ->]; done]; destruct Hs as [Ho Hi Hout];
    (destruct Hout as [Hout|[? _]]; [|congruence]).
  - destruct H as (pad & _ & _ & ->). cbn [sbind]. unfold send_transmit. destruct (SendMessage _ _) as [[e|] tr].
    + split; [done|]. apply Close_closed_inv; cbn; [congruence|done|right; by rewrite Hout].
    + unfold send_account. destruct (bool_decide (t = FramePaddingOnly)); (split; [done|]; split; cbn;
        [congruence|done|]);
        left; by rewrite Hout.
  - rewrite H. split; [done|]. split; cbn; [congruence|done|by left].
Qed.

(** A padding frame leaves the time of the last application send alone. *)
Lemma sendFrame_cover_quiet nowNs s g :
  ss_lastSendNs (sendFrame nowNs FramePaddingOnly [] [] (-1) (s, g)).2.1 = ss_lastSendNs s.
Proof.
  unfold sendFrame. cbn [fst]. destruct (ss_closed s); [done|].
  destruct (send_encode_total FramePaddingOnly [] [] (-1) s g) as ([wire|e|] & g' & buf & H);
    [|by rewrite H|by destruct H as [_ ->]].
  destruct H as (pad & _ & _ & ->). cbn [sbind]. unfold send_transmit.
  destruct (SendMessage _ _) as [[e|] tr]; [|unfold send_account; by rewrite bool_decide_true by done].
  cbn [snd fst]. unfold closeUnderlying. rewrite Close_eq. by destruct (ss_closeOnce _).
Qed.

Lemma reshape_loop_keeps fuel nowNs payload s g :
  consistent s -> (length payload <= fuel)%nat -> keeps False s (reshape_loop fuel nowNs payload (s, g)).
Proof.
  revert payload s g. induction fuel as [|fuel IH]; intros payload s g Hs Hf.
  { destruct payload; [done|cbn in Hf; lia]. }
  cbn [reshape_loop]. destruct (Z.eqb_spec (len payload) 0) as [H0|H0]; [done|].
  set (pick := if reshapeMax <? len payload then _ else _).
  assert (Hc : exists c g1, pick = (c, g1) /\ 0 < c <= 12288).
  { unfold pick, reshapeMax, reshapeMin. destruct (Z.ltb_spec 12288 (len payload)); [|do 2 eexists; split; [done|lia]].
    pose proof (secureRandIntn_bounds (12288 - 4096 + 1) g). destruct (secureRandIntn _ g) as [r g1].
    cbn in *. do 2 eexists. split; [done|lia]. }
  destruct Hc as (c & g1 & -> & Hc). set (chunk := if len payload <? c then len payload else c).
  assert (Hchunk : 0 < chunk <= len payload /\ chunk <= 12288) by (unfold chunk;
    destruct (Z.ltb_spec (len payload) c); lia).
  unfold lift. rewrite slice_ok by lia. cbn [sbind].
  destruct (sendFrame_keeps nowNs FrameTCPData [] (sub payload 0 chunk) (-1) s g1 Hs) as [Hp Hk].
  assert (Hsmall : ~ huge [] (sub payload 0 chunk) (-1)).
  { unfold huge, maxAlloc, MaxFramePad. rewrite length_sub by lia. cbn [length]. lia. }
  destruct (sendFrame _ _ _ _ _ _) as [[[]|e|] [s1 g2]]; cbn [sbind fst snd] in *; [|by split|by destruct Hsmall;
    apply Hp].
  rewrite slice_ok by lia. cbn [sbind].
  destruct (IH (sub payload chunk (len payload)) s1 g2 Hk) as [Hnp Hc']; [rewrite length_sub_nat; lia|].
  split; [by intros [[] _]%Hnp|done].
Qed.

(** The calls that can panic: their frame exceeds what the runtime allocates. *)
Definition op_huge (o : op) : Prop :=
  match o with
  | OpUDPNew _ _ p | OpUDPData _ _ p => maxAlloc < 298 + len p + MaxFramePad
  | OpPing c | OpPong c => maxAlloc < 33 + len c + MaxFramePad
  | OpCover n => maxAlloc < 33 + n
  | OpTCP _ | OpUDPEnd _ | OpProbeReq _ | OpProbeResp _ _ => False
  end.

Lemma run_op_keeps nowNs o s g : consistent s -> keeps (op_huge o) s (run_op nowNs o (s, g)).
Proof.
  intros Hs. assert (Hmeta : forall t gid a payload,
    keeps (maxAlloc < 298 + len payload + MaxFramePad) s (letS meta, st := lift (buildUDPMeta gid a) (s, g) ;;
      sendFrame nowNs t meta payload (-1) st)).
  { intros t gid a payload. unfold lift. rewrite buildUDPMeta_cases.
    destruct (has_target a); [destruct (encodable a) eqn:He|]; cbn [sbind]; [|by split|];
      (eapply keeps_weaken; [|by apply sendFrame_keeps]); unfold huge, MaxFramePad; rewrite ?length_app, arr_length;
        [|lia].
    pose proof (EncodedLen_bounds a He). pose proof (length_wire_of a He). lia. }
  destruct o; cbn [run_op op_huge]; [|by apply Hmeta|by apply Hmeta|..].
  - unfold SendTCPData. destruct (Z.leb_spec (len payload) reshapeThreshold) as [Hl|]; [|by apply reshape_loop_keeps].
    eapply keeps_weaken; [|by apply sendFrame_keeps]. unfold huge, maxAlloc, MaxFramePad, reshapeThreshold in *.
    cbn [length]. lia.
  - eapply keeps_weaken; [|by apply sendFrame_keeps]. unfold huge, maxAlloc, MaxFramePad. rewrite arr_length.
    cbn [length]. lia.
  - eapply keeps_weaken; [|by apply sendFrame_keeps]. unfold huge, maxAlloc, MaxFramePad. rewrite arr_length.
    cbn [length]. lia.
  - eapply keeps_weaken; [|by apply Hmeta]. unfold maxAlloc, MaxFramePad. cbn [length]. lia.
  - eapply keeps_weaken; [|by apply sendFrame_keeps]. unfold huge, MaxFramePad. cbn [length]. lia.
  - eapply keeps_weaken; [|by apply sendFrame_keeps]. unfold huge, MaxFramePad. cbn [length]. lia.
  - eapply keeps_weaken; [|by apply sendFrame_keeps]. unfold huge, maxAlloc, MaxFramePad. cbn [length]. lia.
Qed.

Lemma event_of_no_panic df : event_of df <> Panic.
Proof.
  unfold event_of. case_bool_decide.
  - unfold parseUDPMeta. destruct (Z.ltb_spec (len (df_Meta df)) 8); [done|].
    rewrite !slice_ok by lia. cbn [mbind outcome_bind]. destruct (_ =? 8); [done|].
    pose proof (DecodeAddress_no_panic (sub (df_Meta df) 8 (len (df_Meta df)))).
    by destruct (DecodeAddress _) as [[a n]|e|].
  - case_bool_decide.
    + destruct (Z.ltb_spec (len (df_Meta df)) 8); [done|]. by rewrite slice_ok by lia.
    + by case_bool_decide.
Qed.

(** [Recv]: no panic of its own, consistent, and closed after an error. *)
Lemma Recv_keeps s :
  consistent s ->
  let '(o, s') := Recv s in
  consistent s' /\ (forall e, o = Fail e -> ss_closed s' = true) /\
  (o = Panic -> (ReadMessage (ss_tr s)).1 = Panic).
Proof.
  intros Hs. unfold Recv, recv_body. destruct (ss_closed s) eqn:Ec; [done|].
  destruct (ReadMessage (ss_tr s)) as [o tr]. pose proof Hs as [Ho Hi Hout].
  assert (Hout' : fa_counter (ss_send s) = ss_frmOut s) by (destruct Hout as [|[]]; [done|congruence]).
  assert (Hcl : forall s1, ss_closeOnce s1 = ss_closed s1 -> ss_frmIn s1 = fa_counter (ss_recv s1) ->
    fa_counter (ss_send s1) = ss_frmOut s1 ->
    consistent (closeUnderlying s1) /\ ss_closed (closeUnderlying s1) = true).
  { intros s1 H1 H2 H3. split; [apply Close_closed_inv; auto|].
    unfold closeUnderlying. rewrite Close_eq. destruct (ss_closeOnce s1) eqn:E1; cbn; congruence. }
  destruct o as [wire|e|].
  2: { destruct (Hcl (set_tr tr s)); [done..|]. done. }
  2: { split; [|done]. split; cbn; [done|done|done]. }
  cbn [sbind ss_recv set_tr].
  pose proof (DecodeFrame_inv (bytes_NewReader wire) (ss_recv s)) as Hd.
  destruct (DecodeFrame _ _) as [[[df f]|e|] r]; cbn [fst wrap_err sbind]; [|by destruct (Hcl (set_tr tr s))|done].
  destruct Hd as [_ ->]. set (s1 := count_in _ _).
  assert (H1 : ss_closeOnce s1 = ss_closed s1 /\ ss_frmIn s1 = fa_counter (ss_recv s1)).
  { cbn. by rewrite Hi. }
  destruct H1 as [H1 H2]. pose proof (event_of_no_panic df) as Hne.
  destruct (event_of df) as [ev|e|]; [|by destruct (Hcl s1)|done].
  split_and!; [|done|done]. split; [done|done|]. by left.
Qed.

(** What [Recv] does to the transport of an open stream: a failure closes it. *)
Lemma Recv_closes s :
  ss_closeOnce s = false -> ss_closed s = false ->
  match Recv s with
  | (Ret _, s') => ss_closeOnce s' = false
  | (Fail _, s') => exists tr, ss_closeOnce s' = true /\ ss_tr s' = (CloseTransport tr).2
  | (Panic, _) => True
  end.
Proof.
  intros Ho Hc. unfold Recv, recv_body. rewrite Hc.
  destruct (ReadMessage (ss_tr s)) as [[w|e|] tr]; cbn [sbind]; [| |done].
  - destruct (DecodeFrame _ _) as [[[df f]|e|] r]; cbn [fst wrap_err sbind];
      [|unfold closeUnderlying; rewrite Close_eq; cbn; rewrite Ho; by eexists|done].
    destruct (event_of df) as [ev|e|]; [done| |done].
    unfold closeUnderlying. rewrite Close_eq. cbn. rewrite Ho. by eexists.
  - unfold closeUnderlying. rewrite Close_eq. cbn. rewrite Ho. by eexists.
Qed.

(** ** Calls on a closed stream *)

(** The target of a call, if it has one, can be encoded. *)
Definition op_encodable (o : op) : bool :=
  match o with
  | OpUDPNew _ a _ | OpUDPData _ a _ | OpProbeResp _ a => negb (has_target a) || encodable a
  | _ => true
  end.

Lemma sendFrame_closed nowNs t meta payload padLen s g :
  ss_closed s = true -> sendFrame nowNs t meta payload padLen (s, g) = (Fail ErrClosedPipe, (s, g)).
Proof. intros Hc. unfold sendFrame. cbn [fst]. by rewrite Hc. Qed.

Lemma run_op_closed nowNs o s g :
  ss_closed s = true -> exists g',
    run_op nowNs o (s, g) = (Fail (if op_encodable o then ErrClosedPipe else ErrDomainLen), (s, g')).
Proof.
  intros Hc. assert (Hmeta : forall t gid a p,
    (letS meta, st := lift (buildUDPMeta gid a) (s, g) ;; sendFrame nowNs t meta p (-1) st) =
    (Fail (if negb (has_target a) || encodable a then ErrClosedPipe else ErrDomainLen), (s, g))).
  { intros t gid a p. unfold lift. rewrite buildUDPMeta_cases.
    destruct (has_target a); [destruct (encodable a)|]; cbn [sbind negb orb]; rewrite ?sendFrame_closed by done; done. }
  destruct o; cbn [run_op op_encodable]; try (by eexists; apply Hmeta); try (by eexists; apply sendFrame_closed).
  unfold SendTCPData. destruct (Z.leb_spec (len payload) reshapeThreshold) as [|Hl]; [by eexists;
    apply sendFrame_closed|].
  unfold reshapeThreshold in Hl. destruct (length payload) as [|n] eqn:Hn; [lia|]. cbn [reshape_loop].
  rewrite (proj2 (Z.eqb_neq _ _)) by lia.
  set (pick := if reshapeMax <? len payload then _ else _).
  assert (Hck : 0 < pick.1).
  { unfold pick, reshapeMax, reshapeMin. destruct (Z.ltb_spec 12288 (len payload)); cbn; [|lia].
    pose proof (secureRandIntn_bounds (12288 - 4096 + 1) g). destruct (secureRandIntn _ g). cbn in *. lia. }
  destruct pick as [c g1]. cbn in Hck. unfold lift. rewrite slice_ok by (destruct (Z.ltb_spec (len payload) c); lia).
  cbn [sbind]. rewrite sendFrame_closed by done. by eexists.
Qed.

(** Every stream the API can produce from a fresh one, whatever the transport
    does. *)
Inductive reachable : Stream -> Prop :=
  | reach_new tr send recv : fa_counter send = 0 -> fa_counter recv = 0 -> reachable (new_stream tr send recv)
  | reach_send s g nowNs o : reachable s -> reachable (run_op nowNs o (s, g)).2.1
  | reach_recv s : reachable s -> reachable (Recv s).2
  | reach_close s : reachable s -> reachable (Close s).2
  | reach_cover s cfg : reachable s -> reachable (StartCoverTraffic cfg s).2.

Lemma reachable_consistent s : reachable s -> consistent s.
Proof.
  induction 1 as [tr send recv Hs Hr|s g nowNs o _ IH|s _ IH|s _ IH|s cfg _ IH].
  - split; [done|done|by left].
  - by destruct (run_op_keeps nowNs o s g IH).
  - pose proof (Recv_keeps s IH) as H. destruct (Recv s) as [o s']. apply H.
  - by apply Close_closed.
  - destruct IH. unfold StartCoverTraffic. destruct (_ || _); [by split|].
    destruct (ss_coverStarted s); by split.
Qed.
End AnyTransport.

(** ** Properties *)

Section ChannelProperties.
Context {G : Type} {C : Crypto G} {E : Entropy G} `{!AEADLaws C} `{!EntropyLaws E}.
Context {T : Type} `{TransportLaws T}.

(** C6: the secure channel is a reliable FIFO: over any transport that meets
    its contract, a sequence of send calls with arguments the format can
    carry (TCP payloads of any length) succeeds, and a peer whose receiving
    context is the sender's sending context and to which the emitted messages
    are delivered gets, call by call and in order, exactly the events of
    these calls (a TCP payload as a sequence of chunks that concatenate to
    it), after which the two contexts match again. *)
Theorem secure_channel_fifo (a b : SecureStream AEAD T) ops g rest
    (Ha : working a) (Hb : working b) (Hlink : ss_recv b = ss_send a)
    (Hops : Forall (fun x => op_ok x.2) ops) :
  exists ms evss a' g', run_ops ops (a, g) = (Ret tt, (a', g')) /\
    tx (ss_tr a') = tx (ss_tr a) ++ ms /\ working a' /\
    Forall2 (fun x => delivers x.2) ops evss /\
    (rx (ss_tr b) = ms ++ rest ->
     exists b', recv_n (length (concat evss)) b = (Ret (concat evss), b') /\
       rx (ss_tr b') = rest /\ working b' /\ ss_recv b' = ss_send a').
Proof.
  destruct (run_ops_ok ops a g Ha Hops) as (q & ms & evss & a' & g' & Hr & Hf & Hp & Hd & Hdel).
  exists ms, evss, a', g'. split_and!; [done|apply Hp|eauto with ewp|done|].
  intros Hrx. rewrite <-Hlink in Hf.
  destruct (recv_n_ok b q ms (concat evss) rest Hb Hf Hrx Hd) as (b' & Hb' & Hw' & Hr' & _ & Hc').
  exists b'. split_and!; [done|done|done|]. by rewrite Hc', Hlink, (pr_send _ _ _ Hp).
Qed.

(** C36: reshaping: a TCP payload of any size is sent in frames of at most
    12288 payload bytes whose concatenation is the payload, and the loop
    terminates. *)
Theorem SendTCPData_reshapes nowNs payload s g (Hs : working s) :
  exists chunks ms s' g', SendTCPData nowNs payload (s, g) = (Ret tt, (s', g')) /\
    concat chunks = payload /\ Forall (fun c => len c <= 12288) chunks /\
    framed (ss_send s) (tcp_frame <$> chunks) ms /\ tx (ss_tr s') = tx (ss_tr s) ++ ms /\
    fa_counter (ss_send s') = (fa_counter (ss_send s) + len chunks) mod 2 ^ 64.
Proof.
  destruct (SendTCPData_ok nowNs payload s g Hs) as (cs & ms & s' & g' & Hr & Hc & Ha & Hf & Hp).
  exists cs, ms, s', g'. split_and!; try done; [apply Hp|].
  rewrite (pr_send _ _ _ Hp), bumps_counter by apply Hs.
  apply framed_length in Hf. rewrite length_fmap in Hf. by rewrite Hf.
Qed.
End ChannelProperties.

Section StreamProperties.
Context {G : Type} {C : Crypto G} {E : Entropy G} `{!AEADLaws C}.
Context {T : Type} {MT : MessageTransport T}.


(** C40: a padding length is refused, never clamped, on an open stream: a
    length above [MaxFramePad] makes [SendCoverPad] return [ErrPadTooLarge]
    and leave the sending context and the transport alone, up to the length
    from which [make] panics before the encoder can check it: from there on
    the call panics and leaves the stream as it was (unless the sum with the
    header wraps around). *)
Theorem SendCoverPad_oversize nowNs padLen (s : SecureStream AEAD T) (g : G)
    (Hopen : ss_closed s = false) (Hpad : MaxFramePad < padLen < 2 ^ 63 - 33)
    (Hbuf : gs_cap (ss_sendBuf s) <= maxAlloc) :
  if padLen <=? maxAlloc - 33
  then exists buf, SendCoverPad nowNs padLen (s, g) =
    (Fail (Wrap "ewp/v2: encode PADDING_ONLY frame" ErrPadTooLarge), (set_send (ss_send s) buf s, g))
  else SendCoverPad nowNs padLen (s, g) = (Panic, (s, g)).
Proof.
  unfold SendCoverPad, sendFrame, send_encode. cbn [fst length]. rewrite Hopen.
  unfold MaxFramePad in Hpad. rewrite (proj2 (Z.ltb_ge padLen 0)) by lia. cbn [sbind].
  change (frameHeaderSize + Z.of_nat 0 + Z.of_nat 0 + aeadTagLen) with 33. rewrite to_int64_id by lia.
  destruct (Z.leb_spec padLen (maxAlloc - 33)) as [Hle|Hgt].
  - destruct (send_buffer_ok (ss_sendBuf s) (33 + padLen)) as [b Hb]; [lia|].
    rewrite to_int64_id in Hb by (unfold maxAlloc in *; lia). rewrite Hb. cbn [sbind].
    rewrite (EncodeFrameAppend_error _ _ FramePaddingOnly [] [] padLen g ErrPadTooLarge)
      by (unfold encode_error; cbn [length]; by rewrite (proj2 (Z.ltb_lt MaxFramePad padLen)) by (unfold MaxFramePad;
        lia)).
    cbn [sbind]. by eexists.
  - rewrite (proj2 (Z.ltb_lt _ _)) by lia. unfold make_cap. unfold maxAlloc in *.
    by rewrite (proj2 (Z.ltb_ge (33 + padLen) 0)), (proj2 (Z.ltb_lt (2 ^ 48) (33 + padLen))) by lia.
Qed.

(** C31: receive errors are final: after any error of [Recv] (end of stream
    included) the stream is closed.  From then on [Recv] returns
    [io.ErrClosedPipe]; every call of the sending API returns
    [io.ErrClosedPipe] too, except that a call given a domain that is too long
    returns [ErrDomainLen], since the target is encoded before the stream is
    looked at; [Close] returns nil; and none of them changes the stream. *)
Theorem Recv_error_is_final (s s' : SecureStream AEAD T) e
    (Hs : reachable (G := G) s) (He : Recv s = (Fail e, s')) :
  ss_closed s' = true /\ Recv s' = (Fail ErrClosedPipe, s') /\ Close s' = (None, s') /\
  forall nowNs o g, exists g',
    run_op nowNs o (s', g) = (Fail (if op_encodable o then ErrClosedPipe else ErrDomainLen), (s', g')).
Proof.
  apply reachable_consistent in Hs. pose proof (Recv_keeps s Hs) as Hk. rewrite He in Hk.
  destruct Hk as ([Ho _ _] & Hcl & _). specialize (Hcl e eq_refl).
  split_and!; [done|unfold Recv; by rewrite Hcl|rewrite Close_eq; by rewrite Ho, Hcl|].
  intros nowNs o g. by apply run_op_closed.
Qed.

(** [Close] is idempotent: the transport is closed exactly once, by the
    first call, whose error it reports; every later call returns nil and
    changes nothing. *)
Theorem Close_idempotent (s : SecureStream AEAD T) (Hs : reachable (G := G) s) (Hopen : ss_closed s = false) :
  let '(err, s') := Close s in
  (err, ss_tr s') = CloseTransport (ss_tr s) /\ ss_closed s' = true /\ Close s' = (None, s').
Proof.
  apply reachable_consistent in Hs as [Ho _ _]. rewrite Close_eq, Ho, Hopen.
  rewrite Close_eq. cbn. by destruct (CloseTransport (ss_tr s)).
Qed.

End StreamProperties.

(** the meta of UDP frames: a target that can be carried is recovered
    (with the session id) by the receiver, whatever follows it; an absent
    target stays absent; a domain that is too long is refused with
    [ErrDomainLen]. *)
Theorem udp_meta_roundtrip gid a (Hwf : Address_wf a) :
  match buildUDPMeta gid a with
  | Ret meta => len meta <= 265 /\ parseUDPMeta meta = Ret (gid, target_seen a, has_target a) /\
      (has_target a = true -> forall rest, parseUDPMeta (meta ++ rest) = parseUDPMeta meta)
  | Fail e => e = ErrDomainLen /\ MaxDomainLen < len (Domain a)
  | Panic => False
  end.
Proof.
  destruct (decide (has_target a = true /\ encodable a = false)) as [[Ht He]|Hok].
  - rewrite buildUDPMeta_cases, Ht, He. split; [done|]. revert He Ht. unfold encodable, has_target.
    destruct (IsDomain a); cbn [orb]; [lia|congruence].
  - assert (Hto : target_ok a) by (split; [done|]; destruct (encodable a); naive_solver).
    destruct (udp_meta_ok gid a Hto) as (meta & Hm & Hl & Hp). rewrite Hm. split_and!; [done|done|].
    intros Ht rest. revert Hm. rewrite buildUDPMeta_cases, Ht, (proj2 Hto Ht). intros [= <-].
    rewrite <-app_assoc, parseUDPMeta_wire, Hp by (done || by apply Hto). unfold target_seen. by rewrite Ht.
Qed.

Section Oversize.
Context {G : Type} {C : Crypto G} {E : Entropy G} `{!AEADLaws C}.

(** C39: the two size limits disagree: [EncodeFrameAppend] counts
    [MaxFrameSize] from behind the length field, the length framer counts the
    whole message.  A frame whose meta and payload have 65504 to 65507 bytes
    together is encoded but cannot be sent, and the attempt closes the
    stream. *)
Theorem oversize_frame_closes_stream nowNs t meta payload (s : SecureStream AEAD LengthFramer) (g : G)
    (Hopen : ss_closed s = false) (Honce : ss_closeOnce s = false) (Ht : Valid t = true)
    (Hm : len meta <= MaxMetaLen) (Hl : 65504 <= len meta + len payload <= 65507) :
  exists s', sendFrame nowNs t meta payload (-1) (s, g) =
      (Fail (Wrap "ewp/v2: transport send" ErrFrameTooLarge), (s', g)) /\
    ss_closed s' = true /\ c_closed (lf_c (ss_tr s')) = true /\
    encode_error t meta payload 0 = None.
Proof.
  assert (He : encode_error t meta payload 0 = None).
  { apply encode_error_None. unfold frame_len, frameHdrCounter, frameHdrType, frameHdrMetaLen,
      frameHdrPadLen, aeadTagLen, MaxFramePad, MaxFrameSize. split_and!; [done|done|lia|lia]. }
  unfold sendFrame, send_encode. cbn [fst]. rewrite Hopen. cbn [Z.ltb Z.compare].
  set (raw := frameHeaderSize + len meta + len payload + aeadTagLen).
  assert (Hraw : 65537 <= raw <= 65540).
  { unfold raw. change frameHeaderSize with 17. change aeadTagLen with 16. lia. }
  rewrite (suggestStreamPad_oversize raw) by (unfold maxWire, MaxFrameSize; lia). cbn [sbind].
  destruct (send_buffer_ok (ss_sendBuf s) (raw + 0)) as [b ->]; [unfold maxAlloc; lia|]. cbn [sbind].
  set (s1 := set_send (ss_send s) _ s).
  destruct (EncodeFrameAppend_ok (gs_take (ss_sendBuf s1) 0) (ss_send s1) t meta payload 0 g He)
    as (spare & spare' & ->).
  cbn [Z.leb Z.compare sbind gs_data gs_take]. rewrite sub_empty by lia. cbn [app].
  unfold send_transmit. cbn [SendMessage framer_transport]. unfold LengthFramer_SendMessage.
  rewrite (proj2 (Z.ltb_lt _ _)) by (rewrite length_frame_wire; unfold MaxFrameSize; cbn [length]; lia).
  eexists. split; [reflexivity|]. unfold closeUnderlying. rewrite Close_eq.
  cbn [s1 set_tr set_send ss_closeOnce]. rewrite Honce. cbn. split; [done|]. split; [|done].
  unfold LengthFramer_Close, conn_Close. by destruct (c_closed (lf_c (ss_tr s))) eqn:Ec.
Qed.
End Oversize.

(** ** Witnesses *)

Module StreamExamples.
Definition c2s : FrameAEAD (@AEAD _ Toy.crypto) := mkFrameAEAD (replicate 32 Byte.x61) (to_arr 4 (str "c2s-")) 0.
Definition s2c : FrameAEAD (@AEAD _ Toy.crypto) := mkFrameAEAD (replicate 32 Byte.x62) (to_arr 4 (str "s2c-")) 0.
Definition a0 : SecureStream (@AEAD _ Toy.crypto) LengthFramer :=
  new_stream (NewLengthFramer TransportExamples.pristine) c2s s2c.
Definition gid0 : arr 8 := to_arr 8 (str "session1").
Definition ops0 : list (Z * op) :=
  [(1, OpTCP (str "GET /")); (2, OpUDPNew gid0 (domain_Address (str "example.org") 53) (str "query"));
   (3, OpPing (str "?")); (4, OpCover 7)].
Definition a1 := (run_ops (G := Toy.gen) ops0 (a0, 5)).2.1.
(** The peer, with everything [a1] has written on its way. *)
Definition b0 : SecureStream (@AEAD _ Toy.crypto) LengthFramer :=
  new_stream (NewLengthFramer (mkConn (mkReader [c_out (lf_c (ss_tr a1))] EOF) [] [] None false None None)) s2c c2s.

Lemma working_new tr send recv :
  up tr -> fa_counter send = 0 -> fa_counter recv = 0 -> working (G := Toy.gen) (new_stream tr send recv).
Proof. intros Hu Hs Hr. split; [done|exact Hu|cbn [ss_send ss_recv ss_frmOut new_stream]; lia..]. Qed.

Lemma a0_working : working (G := Toy.gen) a0.
Proof. apply working_new; [|done..]. cbn. split_and!; [done|constructor|]. by exists []. Qed.

Lemma b0_working : working (G := Toy.gen) b0.
Proof. apply working_new; [|done..]. cbn. split_and!; [done|constructor|]. by exists []. Qed.

Lemma ops0_ok : Forall (fun x => op_ok x.2) ops0.
Proof. repeat constructor; vm_compute; congruence. Qed.

Lemma a0_reachable : reachable (G := Toy.gen) a0.
Proof. by constructor. Qed.
End StreamExamples.
Import StreamExamples.

Lemma secure_channel_fifo_witness :
  exists evss b', Forall2 (fun x => delivers x.2) ops0 evss /\
    recv_n (length (concat evss)) b0 = (Ret (concat evss), b') /\ rx (ss_tr b') = [].
Proof.
  destruct (secure_channel_fifo a0 b0 ops0 (5 : Toy.gen) [] a0_working b0_working eq_refl ops0_ok)
    as (ms & evss & a' & g' & Hr & Htx & _ & Hd & Hb).
  assert (Ha : a1 = a') by exact (f_equal (fun r => r.2.1) Hr).
  destruct Hb as (b' & Hb' & Hrx & _).
  - rewrite app_nil_r. change (rx (ss_tr b0)) with (msgs_of (c_out (lf_c (ss_tr a1)) ++ [])).
    rewrite app_nil_r, Ha. exact Htx.
  - exists evss, b'. split; [exact Hd|]. split; [exact Hb'|exact Hrx].
Defined.

Lemma SendTCPData_reshapes_witness :
  exists chunks ms s' g', SendTCPData 1 (str "payload") (a0, 5 : Toy.gen) = (Ret tt, (s', g')) /\
    concat chunks = str "payload" /\ Forall (fun c => len c <= 12288) chunks /\
    framed (ss_send a0) (tcp_frame <$> chunks) ms /\ tx (ss_tr s') = tx (ss_tr a0) ++ ms /\
    fa_counter (ss_send s') = (fa_counter (ss_send a0) + len chunks) mod 2 ^ 64.
Proof. apply (SendTCPData_reshapes 1 (str "payload") a0 (5 : Toy.gen) a0_working). Defined.


Lemma Recv_error_is_final_witness :
  let s' := (Recv a0).2 in Recv a0 = (Fail EOF, s') /\ Recv s' = (Fail ErrClosedPipe, s') /\
  exists g', SendTCPData 1 (str "payload") (s', 5 : Toy.gen) = (Fail ErrClosedPipe, (s', g')).
Proof.
  intros s'. assert (H : Recv a0 = (Fail EOF, s')) by (vm_compute; reflexivity). split; [exact H|].
  destruct (Recv_error_is_final a0 s' EOF a0_reachable H) as (_ & Hr & _ & Hops).
  split; [exact Hr|]. exact (Hops 1 (OpTCP (str "payload")) (5 : Toy.gen)).
Defined.

Lemma SendCoverPad_oversize_witness :
  SendCoverPad 1 (2 ^ 50) (a0, 5 : Toy.gen) = (Panic, (a0, 5)) /\
  exists buf, SendCoverPad 1 5000 (a0, 5 : Toy.gen) =
    (Fail (Wrap "ewp/v2: encode PADDING_ONLY frame" ErrPadTooLarge), (set_send (ss_send a0) buf a0, 5)).
Proof.
  assert (Hb : gs_cap (ss_sendBuf a0) <= maxAlloc) by (vm_compute; congruence). split.
  - apply (SendCoverPad_oversize 1 (2 ^ 50) a0 (5 : Toy.gen) eq_refl); [unfold MaxFramePad; lia|exact Hb].
  - apply (SendCoverPad_oversize 1 5000 a0 (5 : Toy.gen) eq_refl); [unfold MaxFramePad; lia|exact Hb].
Defined.

Lemma Close_idempotent_witness :
  let '(err, s') := Close a0 in
  (err, ss_tr s') = CloseTransport (ss_tr a0) /\ ss_closed s' = true /\ Close s' = (None, s').
Proof. apply (Close_idempotent a0 a0_reachable). reflexivity. Defined.

Lemma udp_meta_roundtrip_witness :
  exists meta, buildUDPMeta gid0 (domain_Address (str "example.org") 53) = Ret meta /\
    parseUDPMeta meta = Ret (gid0, domain_Address (str "example.org") 53, true).
Proof.
  pose proof (udp_meta_roundtrip gid0 (domain_Address (str "example.org") 53)) as H.
  destruct (buildUDPMeta gid0 (domain_Address (str "example.org") 53)) as [meta|e|] eqn:Em.
  - exists meta. split; [reflexivity|]. destruct H as (_ & Hp & _); [split; vm_compute; split; congruence|].
    rewrite Hp. vm_compute. reflexivity.
  - vm_compute in Em. discriminate Em.
  - vm_compute in Em. discriminate Em.
Defined.

Lemma oversize_frame_closes_stream_witness :
  exists s', sendFrame 1 FrameTCPData [] (replicate (Z.to_nat 65504) Byte.x00) (-1) (a0, 5 : Toy.gen) =
      (Fail (Wrap "ewp/v2: transport send" ErrFrameTooLarge), (s', 5)) /\ ss_closed s' = true.
Proof.
  destruct (oversize_frame_closes_stream 1 FrameTCPData [] (replicate (Z.to_nat 65504) Byte.x00) a0 (5 : Toy.gen))
    as (s' & H & Hc & _).
  - reflexivity.
  - reflexivity.
  - reflexivity.
  - vm_compute. congruence.
  - rewrite length_replicate. cbn [length]. lia.
  - exists s'. split; [exact H|exact Hc].
Defined.
