(* ===== verification/Concurrent.v ===== *)
(** * Concurrent use of a secure stream (src/securestream.go)

    Goroutines that call [sendFrame] and [Close] on one stream, interleaved
    step by step.  A call is split where other goroutines can run in between:
    the unlocked test of [closed], the wait for [writeMu], the encoding and
    the transmission under the lock, the accounting; and, for [Close], the
    three statements inside the [sync.Once].  [Recv] and [StartCoverTraffic]
    touch other parts of the stream and are steps of the environment. *)

From S2P Require Import Prelude Address Crypto Io Kdf Padding Frame Transport SecureStream.
From S2P Require Import SecureStreamProofs.

(** ** Calls and where they stand *)

(** The arguments of one [sendFrame]. *)
Record job := mkJob { j_type : FrameType; j_meta : bytes; j_payload : bytes; j_pad : Z }.

Definition j_content (j : job) : content := (j_type j, j_meta j, j_payload j).

(** Who runs the body of [Close]: a caller of [Close], or [closeUnderlying]
    after the failed send of [j]. *)
Inductive closer := ByClose | BySend (j : job) (e : error).

(** Inside [Close]: at the once, after [closed.Store(true)], after the cover
    channel has been closed. *)
Inductive close_pc := AtOnce | Marked | ChannelDone.

Inductive result := SendResult (j : job) (o : outcome unit) | CloseResult (err : option error).

Inductive pc :=
  | Entered (j : job)                   (* before [closed.Load()] *)
  | Waiting (j : job)                   (* at [writeMu.Lock()] *)
  | Holding (j : job) (wire : bytes)    (* lock held, frame encoded *)
  | Sent (j : job) (wire : bytes)       (* lock held, [SendMessage] has returned nil *)
  | Closing (k : close_pc) (who : closer)
  | Returned (r : result).

(** [sync.Once]; a second caller waits until the first one is done. *)
Inductive once_state := OnceIdle | OnceRunning (tid : nat) | OnceDone.

(** A message handed to the transport: by which call, for which job. *)
Definition entry : Type := nat * job * bytes.
Definition e_tid (e : entry) : nat := e.1.1.
Definition e_content (e : entry) : content := j_content e.1.2.
Definition e_wire (e : entry) : bytes := e.2.

Section Concurrent.
Context {G : Type} {C : Crypto G} {E : Entropy G}.
Context {T : Type} {MT : MessageTransport T}.

Abbreviation Stream := (SecureStream AEAD T).

(** The stream, the randomness source, [writeMu], the once, the calls, and the
    messages handed to the transport so far. *)
Record system := mkSystem {
  y_stream : Stream;
  y_gen : G;
  y_lock : option nat;
  y_once : once_state;
  y_calls : gmap nat pc;
  y_log : list entry
}.

Definition start (s : Stream) (g : G) : system := mkSystem s g None OnceIdle ∅ [].

Definition set_stream (s : Stream) (y : system) : system :=
  mkSystem s (y_gen y) (y_lock y) (y_once y) (y_calls y) (y_log y).
Definition goto (tid : nat) (p : pc) (y : system) : system :=
  mkSystem (y_stream y) (y_gen y) (y_lock y) (y_once y) (<[tid := p]> (y_calls y)) (y_log y).
Definition set_lock (l : option nat) (y : system) : system :=
  mkSystem (y_stream y) (y_gen y) l (y_once y) (y_calls y) (y_log y).
Definition set_once (o : once_state) (y : system) : system :=
  mkSystem (y_stream y) (y_gen y) (y_lock y) o (y_calls y) (y_log y).
Definition record_sent (e : entry) (y : system) : system :=
  mkSystem (y_stream y) (y_gen y) (y_lock y) (y_once y) (y_calls y) (y_log y ++ [e]).

(** The end of [Close], or of the [sendFrame] that called it (whose deferred
    unlock runs). *)
Definition finish_close (tid : nat) (who : closer) (err : option error) (y : system) : system :=
  match who with
  | ByClose => goto tid (Returned (CloseResult err)) y
  | BySend j e => goto tid (Returned (SendResult j (Fail (ErrSend e)))) (set_lock None y)
  end.

(** The next step of call [tid]; [None] when it is blocked, finished or
    unknown.  [nowNs] is the clock, read by the accounting step. *)
Definition advance (nowNs : Z) (tid : nat) (y : system) : option system :=
  match y_calls y !! tid with
  | Some (Entered j) =>
      Some (if ss_closed (y_stream y) then goto tid (Returned (SendResult j (Fail ErrClosedPipe))) y
            else goto tid (Waiting j) y)
  | Some (Waiting j) =>
      match y_lock y with
      | Some _ => None
      | None =>
          let '(o, (s, g)) :=
            send_encode (j_type j) (j_meta j) (j_payload j) (j_pad j) (y_stream y, y_gen y) in
          let y := mkSystem s g (y_lock y) (y_once y) (y_calls y) (y_log y) in
          Some (match o with
                | Ret wire => goto tid (Holding j wire) (set_lock (Some tid) y)
                | Fail e => goto tid (Returned (SendResult j (Fail e))) y
                | Panic => goto tid (Returned (SendResult j Panic)) y
                end)
      end
  | Some (Holding j wire) =>
      let '(err, s) := send_transmit wire (y_stream y) in
      let y := record_sent (tid, j, wire) (set_stream s y) in
      Some (match err with
            | None => goto tid (Sent j wire) y
            | Some e => goto tid (Closing AtOnce (BySend j e)) y
            end)
  | Some (Sent j wire) =>
      let y := set_stream (send_account nowNs (j_type j) wire (y_stream y)) y in
      Some (goto tid (Returned (SendResult j (Ret tt))) (set_lock None y))
  | Some (Closing AtOnce who) =>
      match y_once y with
      | OnceIdle =>
          Some (goto tid (Closing Marked who) (set_once (OnceRunning tid) (set_stream (set_closed (y_stream y)) y)))
      | OnceRunning _ => None
      | OnceDone => Some (finish_close tid who None y)
      end
  | Some (Closing Marked who) =>
      Some (goto tid (Closing ChannelDone who) (set_stream (close_cover (y_stream y)) y))
  | Some (Closing ChannelDone who) =>
      let '(err, s) := close_transport (y_stream y) in
      Some (finish_close tid who err (set_once OnceDone (set_stream s y)))
  | Some (Returned _) | None => None
  end.

(** Steps of the system: a call goes on, a new call is made, a frame is
    received (the close that follows an error of [Recv] is a call of [Close]
    of its own), cover traffic is started. *)
Inductive step : system -> system -> Prop :=
  | step_advance nowNs tid y y' : advance nowNs tid y = Some y' -> step y y'
  | step_send tid j y : y_calls y !! tid = None -> step y (goto tid (Entered j) y)
  | step_close tid y : y_calls y !! tid = None -> step y (goto tid (Closing AtOnce ByClose) y)
  | step_recv y : step y (set_stream (recv_body (y_stream y)).2 y)
  | step_cover cfg y : step y (set_stream (StartCoverTraffic cfg (y_stream y)).2 y).

Definition log_of (tid : nat) (log : list entry) : list entry := filter (fun e => e_tid e = tid) log.

(** Calls inside the section that [writeMu] guards. *)
Definition holds (p : pc) : bool :=
  match p with Holding _ _ | Sent _ _ | Closing _ (BySend _ _) => true | _ => false end.
End Concurrent.
Arguments system {G C} T : rename.
#[global] Arguments log_of : simpl never.

(** ** The invariant *)

Section Invariant.
Context {G : Type} {C : Crypto G} {E : Entropy G} `{!AEADLaws C}.
Context {T : Type} {MT : MessageTransport T}.
Context (s0 : SecureStream AEAD T) (g0 : G).

Abbreviation Sys := (system T).

(** The sending context after the logged messages. *)
Definition ctx_after (log : list entry) : FrameAEAD AEAD := bumps (length log) (ss_send s0).
#[local] Arguments ctx_after : simpl never.

(** What a call has in the log, according to where it stands. *)
Definition log_ok (tid : nat) (p : pc) (l : list entry) : Prop :=
  match p with
  | Entered _ | Waiting _ | Holding _ _ | Closing _ ByClose | Returned (CloseResult _) => l = []
  | Sent j _ | Closing _ (BySend j _) | Returned (SendResult j (Ret _)) => exists w, l = [(tid, j, w)]
  | Returned (SendResult j (Fail e)) => l = [] \/ exists w e', l = [(tid, j, w)] /\ e = ErrSend e'
  | Returned (SendResult j Panic) => l = [] /\ huge (j_meta j) (j_payload j) (j_pad j)
  end.

(** What the holder of the lock knows of the sending context. *)
Definition ctx_ok (p : pc) (y : Sys) : Prop :=
  match p with
  | Holding j wire =>
      ss_send (y_stream y) = bump (ctx_after (y_log y)) (fa_counter (ctx_after (y_log y))) /\
      exists pad, encode_error (j_type j) (j_meta j) (j_payload j) (len pad) = None /\
        wire = frame_wire (ctx_after (y_log y)) (j_type j) (j_meta j) (j_payload j) pad
  | Sent _ _ | Closing _ (BySend _ _) => ss_send (y_stream y) = ctx_after (y_log y)
  | _ => True
  end.

(** Inside the once. *)
Definition in_once (p : pc) : bool :=
  match p with Closing Marked _ | Closing ChannelDone _ => true | _ => false end.

Record call_ok (y : Sys) (tid : nat) (p : pc) : Prop := {
  co_lock : holds p = true -> y_lock y = Some tid;
  co_ctx : ctx_ok p y;
  co_once : in_once p = true -> y_once y = OnceRunning tid;
  co_log : log_ok tid p (log_of tid (y_log y))
}.

Record sys_inv (y : Sys) : Prop := {
  iv_log : framed (ss_send s0) (e_content <$> y_log y) (e_wire <$> y_log y);
  iv_calls : forall tid p, y_calls y !! tid = Some p -> call_ok y tid p;
  iv_known : forall e, e ∈ y_log y -> is_Some (y_calls y !! e_tid e);
  iv_free : y_lock y = None -> ss_send (y_stream y) = ctx_after (y_log y);
  iv_held : forall tid, y_lock y = Some tid -> exists p, y_calls y !! tid = Some p /\ holds p = true;
  iv_running : forall tid, y_once y = OnceRunning tid -> exists p, y_calls y !! tid = Some p /\ in_once p = true
}.

Lemma log_of_fresh y tid : sys_inv y -> y_calls y !! tid = None -> log_of tid (y_log y) = [].
Proof.
  intros Hy Hn. destruct (log_of tid (y_log y)) as [|e l] eqn:Hl; [done|].
  assert (He : e ∈ log_of tid (y_log y)) by (rewrite Hl; left).
  apply list_elem_of_filter in He as [<- He]. destruct (iv_known _ Hy e He) as [p Hp]. congruence.
Qed.

Lemma log_of_snoc tid log e :
  log_of tid (log ++ [e]) = log_of tid log ++ (if bool_decide (e_tid e = tid) then [e] else []).
Proof.
  unfold log_of. rewrite filter_app. f_equal. rewrite filter_cons. by case_bool_decide; case_decide.
Qed.

(** The other calls do not notice a step of [tid]: the lock and the once can
    only have been taken or given back by [tid] itself. *)
Lemma others_ok y y' tid tid' p :
  sys_inv y -> tid' <> tid -> y_calls y !! tid' = Some p ->
  (y_lock y = Some tid' -> y_lock y' = y_lock y /\ ss_send (y_stream y') = ss_send (y_stream y) /\ y_log y' =
    y_log y) ->
  (y_once y = OnceRunning tid' -> y_once y' = y_once y) ->
  log_of tid' (y_log y') = log_of tid' (y_log y) -> call_ok y' tid' p.
Proof.
  intros Hy Hne Hp Hlock Honce Hlog. destruct (iv_calls _ Hy _ _ Hp) as [Hl Hc Ho Hg]. split.
  - intros Hh. destruct (Hlock (Hl Hh)) as [-> _]. by apply Hl.
  - destruct (holds p) eqn:Hh.
    + destruct (Hlock (Hl eq_refl)) as (_ & Hs & Hlg). revert Hc. unfold ctx_ok. by rewrite Hs, Hlg.
    + destruct p as [| | | |k [|]|]; try done; by destruct k.
  - intros Hi. rewrite (Honce (Ho Hi)). by apply Ho.
  - by rewrite Hlog.
Qed.

(** A step in which call [tid] moves to [p]. *)
Lemma sys_inv_move y y' tid p :
  sys_inv y -> y_calls y' = <[tid := p]> (y_calls y) -> call_ok y' tid p ->
  framed (ss_send s0) (e_content <$> y_log y') (e_wire <$> y_log y') ->
  (exists l, y_log y' = y_log y ++ l /\ Forall (fun e => e_tid e = tid) l) ->
  (forall t, t <> tid -> y_lock y = Some t ->
     y_lock y' = y_lock y /\ ss_send (y_stream y') = ss_send (y_stream y) /\ y_log y' = y_log y) ->
  (forall t, t <> tid -> y_lock y' = Some t -> y_lock y = Some t) ->
  (forall t, t <> tid -> y_once y = OnceRunning t <-> y_once y' = OnceRunning t) ->
  (y_lock y' = Some tid -> holds p = true) ->
  (y_once y' = OnceRunning tid -> in_once p = true) ->
  (y_lock y' = None -> ss_send (y_stream y') = ctx_after (y_log y')) ->
  sys_inv y'.
Proof.
  intros Hy Hcalls Hp Hfr (l & Hlog & Hl) Hlock Hlock' Honce Hheld Hrun Hfree. split; [done|..|done| |].
  - intros t p'. rewrite Hcalls. destruct (decide (t = tid)) as [->|Hne].
    + rewrite lookup_insert_eq. by intros [= <-].
    + rewrite lookup_insert_ne by done. intros Ht. apply (others_ok y y' tid t p' Hy Hne Ht).
      * by apply Hlock.
      * intros Ho. rewrite Ho. by apply Honce.
      * unfold log_of. rewrite Hlog, filter_app.
        assert (filter (fun e => e_tid e = t) l = []) as ->; [|by rewrite app_nil_r].
        clear -Hl Hne. induction Hl as [|e l He _ IH]; [done|]. by rewrite filter_cons_False by congruence.
  - intros e. rewrite Hlog, elem_of_app, Hcalls. intros [He|He].
    + destruct (decide (e_tid e = tid)) as [->|Hne]; [rewrite lookup_insert_eq; by eexists|].
      rewrite lookup_insert_ne by done. by apply (iv_known _ Hy).
    + rewrite Forall_forall in Hl. rewrite (Hl _ He), lookup_insert_eq. by eexists.
  - intros t Ht. rewrite Hcalls. destruct (decide (t = tid)) as [->|Hne].
    + exists p. rewrite lookup_insert_eq. auto.
    + rewrite lookup_insert_ne by done. by apply (iv_held _ Hy), Hlock'.
  - intros t Ht. rewrite Hcalls. destruct (decide (t = tid)) as [->|Hne].
    + exists p. rewrite lookup_insert_eq. auto.
    + rewrite lookup_insert_ne by done. by apply (iv_running _ Hy), Honce.
Qed.

(** A step that leaves lock, once, log and sending context alone. *)
Lemma sys_inv_quiet y y' tid p :
  sys_inv y -> y_calls y' = <[tid := p]> (y_calls y) -> y_lock y' = y_lock y -> y_once y' = y_once y ->
  y_log y' = y_log y -> ss_send (y_stream y') = ss_send (y_stream y) ->
  holds p = false -> in_once p = false -> log_ok tid p (log_of tid (y_log y)) ->
  y_lock y <> Some tid -> y_once y <> OnceRunning tid -> sys_inv y'.
Proof.
  intros Hy Hcalls Hl Ho Hlog Hs Hh Hi Hlg Hnl Hno.
  apply (sys_inv_move y y' tid p); rewrite ?Hl, ?Ho, ?Hs, ?Hlog; try done; [..|apply Hy].
  - split; rewrite ?Hh, ?Hi, ?Hlog; try done. destruct p as [| | | |k [|]|]; try done; by destruct k.
  - apply Hy.
  - exists []. by rewrite app_nil_r.
Qed.

(** The call [tid] neither holds the lock nor runs the once unless it says so. *)
Lemma lock_other y tid p :
  sys_inv y -> y_calls y !! tid = Some p -> holds p = false -> y_lock y <> Some tid.
Proof. intros Hy Hp Hh Hl. destruct (iv_held _ Hy _ Hl) as (p' & Hp' & Hh'). congruence. Qed.

Lemma once_other y tid p :
  sys_inv y -> y_calls y !! tid = Some p -> in_once p = false -> y_once y <> OnceRunning tid.
Proof. intros Hy Hp Hh Hl. destruct (iv_running _ Hy _ Hl) as (p' & Hp' & Hh'). congruence. Qed.

(** The steps of a call. *)
Lemma inv_entered y tid j :
  sys_inv y -> y_calls y !! tid = Some (Entered j) ->
  sys_inv (goto tid (Waiting j) y) /\ sys_inv (goto tid (Returned (SendResult j (Fail ErrClosedPipe))) y).
Proof.
  intros Hy Hp. pose proof (co_log _ _ _ (iv_calls _ Hy _ _ Hp)) as Hl. cbn in Hl.
  split; (eapply (sys_inv_quiet y);
    [done|reflexivity|done|done|done|done|done|done|cbn; auto|by eapply lock_other|by eapply once_other]).
Qed.

Lemma inv_waiting y tid j s g o :
  sys_inv y -> y_calls y !! tid = Some (Waiting j) -> y_lock y = None ->
  send_encode (j_type j) (j_meta j) (j_payload j) (j_pad j) (y_stream y, y_gen y) = (o, (s, g)) ->
  sys_inv (let y := mkSystem s g (y_lock y) (y_once y) (y_calls y) (y_log y) in
           match o with
           | Ret wire => goto tid (Holding j wire) (set_lock (Some tid) y)
           | Fail e => goto tid (Returned (SendResult j (Fail e))) y
           | Panic => goto tid (Returned (SendResult j Panic)) y
           end).
Proof.
  intros Hy Hp Hlock He. pose proof (co_log _ _ _ (iv_calls _ Hy _ _ Hp)) as Hl. cbn in Hl.
  pose proof (iv_free _ Hy Hlock) as Hctx. pose proof (once_other _ _ _ Hy Hp eq_refl) as Honce.
  destruct (send_encode_total (j_type j) (j_meta j) (j_payload j) (j_pad j) (y_stream y) (y_gen y))
    as ([wire|e|] & g' & buf & H).
  - destruct H as (pad & Henc & Hw & H). rewrite He in H. injection H as -> -> ->. cbn zeta.
    apply (sys_inv_move y _ tid (Holding j wire)); cbn; try done.
    + split; [done| |done|done]. cbn. rewrite <-Hctx. split; [done|]. by exists pad.
    + apply Hy.
    + exists []. by rewrite app_nil_r.
    + congruence.
    + congruence.
  - rewrite He in H. injection H as -> -> ->. cbn zeta.
    eapply (sys_inv_quiet y); cbn; try done; [by left|]. congruence.
  - destruct H as [Hbig H]. rewrite He in H. injection H as -> -> ->. cbn zeta.
    eapply (sys_inv_quiet y); cbn; try done. congruence.
Qed.

Lemma ctx_after_snoc log e :
  ctx_after (log ++ [e]) = bump (ctx_after log) (fa_counter (ctx_after log)).
Proof. unfold ctx_after. by rewrite length_app, bumps_plus. Qed.

Lemma inv_holding y tid j wire err s :
  sys_inv y -> y_calls y !! tid = Some (Holding j wire) -> send_transmit wire (y_stream y) = (err, s) ->
  sys_inv (let y := record_sent (tid, j, wire) (set_stream s y) in
           match err with
           | None => goto tid (Sent j wire) y
           | Some e => goto tid (Closing AtOnce (BySend j e)) y
           end).
Proof.
  intros Hy Hp Ht. destruct (iv_calls _ Hy _ _ Hp) as [Hl (Hctx & pad & Henc & Hw) _ Hg]. cbn in Hl, Hg.
  pose proof (once_other _ _ _ Hy Hp eq_refl) as Honce. specialize (Hl eq_refl).
  assert (Hs : ss_send s = ss_send (y_stream y)).
  { revert Ht. unfold send_transmit. destruct (SendMessage wire _) as [e tr]. by intros [= _ <-]. }
  assert (Hfr : framed (ss_send s0) (e_content <$> y_log y ++ [(tid, j, wire)])
    (e_wire <$> y_log y ++ [(tid, j, wire)])).
  { rewrite !fmap_app. eapply framed_app; [apply Hy|]. rewrite length_fmap. subst wire.
    apply framed_cons; [done|constructor]. }
  assert (Hlog : log_of tid (y_log y ++ [(tid, j, wire)]) = [(tid, j, wire)]).
  { by rewrite log_of_snoc, Hg, bool_decide_true. }
  assert (Hsnoc : ss_send s = ctx_after (y_log y ++ [(tid, j, wire)])) by (rewrite ctx_after_snoc; congruence).
  destruct err as [e|]; cbn zeta; (eapply (sys_inv_move y _ tid); [done|reflexivity|..]); cbn; try done; try congruence;
    try (by eexists; split; [reflexivity|repeat constructor]).
  all: split; cbn; [done|done|done|exists wire; exact Hlog].
Qed.

Lemma inv_sent y tid j wire nowNs :
  sys_inv y -> y_calls y !! tid = Some (Sent j wire) ->
  sys_inv (goto tid (Returned (SendResult j (Ret tt)))
    (set_lock None (set_stream (send_account nowNs (j_type j) wire (y_stream y)) y))).
Proof.
  intros Hy Hp. destruct (iv_calls _ Hy _ _ Hp) as [Hl Hctx _ Hg]. cbn in Hl, Hctx, Hg. specialize (Hl eq_refl).
  pose proof (once_other _ _ _ Hy Hp eq_refl) as Honce.
  assert (Hs : ss_send (send_account nowNs (j_type j) wire (y_stream y)) = ss_send (y_stream y))
    by (unfold send_account; by case_bool_decide).
  eapply (sys_inv_move y _ tid); [done|reflexivity|..]; cbn; try done; try congruence.
  - apply Hy.
  - exists []. by rewrite app_nil_r.
Qed.

(** The closing steps: [s] is the stream after the step. *)
Lemma inv_closing y tid k k' who s once :
  sys_inv y -> y_calls y !! tid = Some (Closing k who) -> ss_send s = ss_send (y_stream y) ->
  (in_once (Closing k who) = true \/ y_once y = OnceIdle) -> in_once (Closing k' who) = true ->
  once = OnceRunning tid ->
  sys_inv (goto tid (Closing k' who) (set_once once (set_stream s y))).
Proof.
  intros Hy Hp Hs Ho Hk ->. destruct (iv_calls _ Hy _ _ Hp) as [Hl Hctx Hco Hg].
  assert (Hmine : forall t, t <> tid -> y_once y <> OnceRunning t).
  { intros t Ht. destruct Ho as [Ho|Ho]; [rewrite (Hco Ho)|]; congruence. }
  eapply (sys_inv_move y _ tid); [done|reflexivity|..]; cbn.
  - split; cbn; [done| |done|by destruct who].
    destruct who; [done|]. cbn in *. congruence.
  - apply Hy.
  - exists []. by rewrite app_nil_r.
  - intros t _. by rewrite Hs.
  - done.
  - intros t Ht. split; [intros Hr; by destruct (Hmine t Ht)|congruence].
  - intros Ht. destruct (iv_held _ Hy _ Ht) as (p & Hp' & Hh). rewrite Hp in Hp'. injection Hp' as <-. by destruct who.
  - done.
  - rewrite Hs. apply Hy.
Qed.

Lemma inv_finish y tid k who s once err :
  sys_inv y -> y_calls y !! tid = Some (Closing k who) -> ss_send s = ss_send (y_stream y) ->
  (in_once (Closing k who) = true \/ y_once y = OnceDone) -> once = OnceDone ->
  sys_inv (finish_close tid who err (set_once once (set_stream s y))).
Proof.
  intros Hy Hp Hs Ho ->. destruct (iv_calls _ Hy _ _ Hp) as [Hl Hctx Hco Hg].
  assert (Hmine : forall t, t <> tid -> y_once y <> OnceRunning t).
  { intros t Ht. destruct Ho as [Ho|Ho]; [rewrite (Hco Ho)|]; congruence. }
  destruct who as [|j e]; cbn [finish_close].
  - pose proof (lock_other _ _ _ Hy Hp eq_refl) as Hnl.
    eapply (sys_inv_move y _ tid); [done|reflexivity|..]; cbn; rewrite ?Hs; try done; [apply Hy|..|apply Hy].
    + exists []. by rewrite app_nil_r.
    + intros t Ht. split; [intros Hr; by destruct (Hmine t Ht)|congruence].
  - specialize (Hl eq_refl). cbn in Hctx.
    eapply (sys_inv_move y _ tid); [done|reflexivity|..]; cbn; rewrite ?Hs; try done; try congruence.
    + split; cbn; try done. destruct Hg as [w Hg]. right. by exists w, e.
    + apply Hy.
    + exists []. by rewrite app_nil_r.
    + intros t Ht. split; [intros Hr; by destruct (Hmine t Ht)|congruence].
Qed.

Lemma inv_advance nowNs tid y y' : sys_inv y -> advance nowNs tid y = Some y' -> sys_inv y'.
Proof.
  intros Hy. unfold advance. destruct (y_calls y !! tid) as [p|] eqn:Hp; [|done].
  destruct p as [j|j|j wire|j wire|k who|r]; [..|done].
  - intros [= <-]. destruct (inv_entered y tid j Hy Hp). by destruct (ss_closed _).
  - destruct (y_lock y) eqn:Hl; [done|]. destruct (send_encode _ _ _ _ _) as [o [s g]] eqn:He.
    intros [= <-]. rewrite <-Hl. by apply (inv_waiting y tid j s g o).
  - destruct (send_transmit _ _) as [err s] eqn:Ht. intros [= <-]. by apply (inv_holding y tid j wire err s).
  - intros [= <-]. by apply inv_sent.
  - assert (Hcover : ss_send (close_cover (y_stream y)) = ss_send (y_stream y))
      by (unfold close_cover; by destruct (ss_coverStop _)).
    destruct k.
    + destruct (y_once y) eqn:Ho; [|done|]; intros [= <-].
      * eapply inv_closing; [done|done|done|by right|done|done].
      * replace y with (set_once OnceDone (set_stream (y_stream y) y)) by (destruct y; cbn in *; by subst).
        eapply inv_finish; [done|done|done|by right|done].
    + intros [= <-]. pose proof (co_once _ _ _ (iv_calls _ Hy _ _ Hp) eq_refl) as Ho.
      replace (set_stream (close_cover (y_stream y)) y) with
        (set_once (OnceRunning tid) (set_stream (close_cover (y_stream y)) y)) by (destruct y; cbn in *; by subst).
      eapply inv_closing; [done|done|done|by left|done|done].
    + destruct (close_transport _) as [err s] eqn:Hc. intros [= <-].
      eapply inv_finish; [done|done| |by left|done].
      revert Hc. unfold close_transport. destruct (CloseTransport _). by intros [= _ <-].
Qed.

(** A new call, and the steps of the environment. *)
Lemma inv_call y tid p :
  sys_inv y -> y_calls y !! tid = None -> holds p = false -> in_once p = false -> log_ok tid p [] ->
  sys_inv (goto tid p y).
Proof.
  intros Hy Hn Hh Hi Hl. eapply (sys_inv_quiet y); [done|reflexivity|done|done|done|done|done|done|..].
  - by rewrite log_of_fresh.
  - intros Ht. destruct (iv_held _ Hy _ Ht) as (p' & Hp' & _). congruence.
  - intros Ht. destruct (iv_running _ Hy _ Ht) as (p' & Hp' & _). congruence.
Qed.

Lemma inv_env y s : sys_inv y -> ss_send s = ss_send (y_stream y) -> sys_inv (set_stream s y).
Proof.
  intros Hy Hs. pose proof Hy as [Hlog Hcalls Hknown Hfree Hheld Hrun].
  split; cbn; [done| |done|by rewrite Hs|done|done].
  intros tid p Hp. destruct (Hcalls tid p Hp) as [Hl Hc Ho Hg]. split; try done.
  destruct p as [| | | |k [|]|]; cbn in *; rewrite ?Hs; done.
Qed.

Lemma recv_body_send s : ss_send (recv_body (T := T) s).2 = ss_send s.
Proof.
  unfold recv_body. destruct (ReadMessage _) as [[w|e|] tr]; cbn; [|done..].
  destruct (DecodeFrame _ _) as [[[df f]|e|] r]; done.
Qed.

Lemma inv_step y y' : sys_inv y -> step y y' -> sys_inv y'.
Proof.
  intros Hy Hs. destruct Hs as [nowNs tid y y' Ha|tid j y Hn|tid y Hn|y|cfg y].
  - by eapply inv_advance.
  - by apply inv_call.
  - by apply inv_call.
  - apply inv_env; [done|apply recv_body_send].
  - apply inv_env; [done|]. unfold StartCoverTraffic. destruct (_ || _); [done|]. by destruct (ss_coverStarted _).
Qed.

Lemma inv_start : sys_inv (start s0 g0).
Proof. split; cbn; try done; [constructor|]. intros e He. by apply not_elem_of_nil in He. Qed.

Lemma inv_steps y y' : sys_inv y -> rtc step y y' -> sys_inv y'.
Proof. intros Hy Hr. induction Hr as [|y1 y2 y3 Hs _ IH]; [done|]. eauto using inv_step. Qed.

Lemma inv_reach y : rtc step (start s0 g0) y -> sys_inv y.
Proof. apply inv_steps, inv_start. Qed.

(** The log only grows, by calls that have not returned. *)
Lemma advance_log nowNs tid y y' :
  advance nowNs tid y = Some y' ->
  exists p l, y_calls y' = <[tid := p]> (y_calls y) /\ y_log y' = y_log y ++ l /\ Forall (fun e => e_tid e = tid) l /\
    forall r, y_calls y !! tid <> Some (Returned r).
Proof.
  unfold advance. destruct (y_calls y !! tid) as [p|]; [|done].
  destruct p as [j|j|j wire|j wire|k who|r]; [..|done].
  - intros [= <-]. destruct (ss_closed _); eexists _, []; rewrite app_nil_r; done.
  - destruct (y_lock y); [done|]. destruct (send_encode _ _ _ _ _) as [[w|e|] [s g]]; intros [= <-];
      eexists _, []; rewrite app_nil_r; done.
  - destruct (send_transmit _ _) as [[e|] s]; intros [= <-]; eexists _, [(tid, j, wire)]; by repeat constructor.
  - intros [= <-]. eexists _, []; rewrite app_nil_r; done.
  - destruct k.
    + destruct (y_once y); [|done|]; intros [= <-]; [|destruct who]; eexists _, []; rewrite app_nil_r; done.
    + intros [= <-]. eexists _, []; rewrite app_nil_r; done.
    + destruct (close_transport _) as [err s]. intros [= <-]. destruct who; eexists _, []; rewrite app_nil_r; done.
Qed.

Lemma step_log y y' :
  step y y' ->
  exists l, y_log y' = y_log y ++ l /\
    forall tid r, y_calls y !! tid = Some (Returned r) ->
      y_calls y' !! tid = Some (Returned r) /\ log_of tid l = [].
Proof.
  assert (Hq : forall tid p (y1 : Sys), y_calls y1 !! tid = None ->
    exists l, y_log (goto tid p y1) = y_log y1 ++ l /\
      forall t r, y_calls y1 !! t = Some (Returned r) -> y_calls (goto tid p y1) !! t = Some (Returned r) /\
        log_of t l = []).
  { intros tid p y1 Hn. exists []. rewrite app_nil_r. split; [done|]. intros t r Ht. cbn.
    rewrite lookup_insert_ne by congruence. done. }
  intros Hs. destruct Hs as [nowNs tid y y' Ha|tid j y Hn|tid y Hn|y|cfg y]; [|by apply Hq..| |].
  - destruct (advance_log _ _ _ _ Ha) as (p & l & Hc & Hl & Hall & Hret). exists l. split; [done|].
    intros t r Ht. destruct (decide (t = tid)) as [->|Hne]; [by destruct (Hret r)|].
    rewrite Hc, lookup_insert_ne by done. split; [done|]. clear -Hall Hne. unfold log_of.
    induction Hall as [|e l He _ IH]; [done|]. by rewrite filter_cons_False by congruence.
  - exists []. by rewrite app_nil_r.
  - exists []. by rewrite app_nil_r.
Qed.

Lemma steps_log y y' :
  rtc step y y' ->
  exists l, y_log y' = y_log y ++ l /\
    forall tid r, y_calls y !! tid = Some (Returned r) ->
      y_calls y' !! tid = Some (Returned r) /\ log_of tid l = [].
Proof.
  induction 1 as [y|y1 y2 y3 Hs _ (l' & Hl' & Hr')]; [exists []; by rewrite app_nil_r|].
  destruct (step_log _ _ Hs) as (l & Hl & Hr). exists (l ++ l'). rewrite Hl', Hl, app_assoc. split; [done|].
  intros tid r Ht. destruct (Hr tid r Ht) as [H1 H2]. destruct (Hr' tid r H1) as [H3 H4].
  split; [done|]. unfold log_of in *. by rewrite filter_app, H2, H4.
Qed.

(** ** Progress *)

(** The steps a call has still to make, at most. *)
Definition weight (p : pc) : nat :=
  match p with
  | Entered _ => 7
  | Waiting _ => 6
  | Holding _ _ => 5
  | Sent _ _ => 1
  | Closing AtOnce _ => 4
  | Closing Marked _ => 3
  | Closing ChannelDone _ => 2
  | Returned _ => 0
  end.

Definition pending (calls : gmap nat pc) : nat := map_fold (fun _ p n => (weight p + n)%nat) 0%nat calls.

Lemma pending_insert calls tid p p' :
  calls !! tid = Some p -> (weight p' < weight p)%nat -> (pending (<[tid := p']> calls) < pending calls)%nat.
Proof.
  intros Hp Hw. unfold pending. rewrite <-insert_delete_eq.
  rewrite map_fold_insert_L; [|intros; lia|apply lookup_delete_eq].
  rewrite (map_fold_delete_L _ _ tid p calls); [lia|intros; lia|done].
Qed.

Lemma advance_decreases nowNs tid y y' :
  advance nowNs tid y = Some y' -> (pending (y_calls y') < pending (y_calls y))%nat.
Proof.
  unfold advance. destruct (y_calls y !! tid) as [p|] eqn:Hp; [|done].
  destruct p as [j|j|j wire|j wire|k who|r]; [..|done].
  - intros [= <-]. destruct (ss_closed _); (eapply pending_insert; [exact Hp|cbn; lia]).
  - destruct (y_lock y); [done|]. destruct (send_encode _ _ _ _ _) as [[w|e|] [s g]]; intros [= <-];
      (eapply pending_insert; [exact Hp|cbn; lia]).
  - destruct (send_transmit _ _) as [[e|] s]; intros [= <-]; (eapply pending_insert; [exact Hp|cbn; lia]).
  - intros [= <-]. (eapply pending_insert; [exact Hp|cbn; lia]).
  - destruct k.
    + destruct (y_once y); [|done|]; intros [= <-]; [|destruct who]; (eapply pending_insert; [exact Hp|cbn; lia]).
    + intros [= <-]. (eapply pending_insert; [exact Hp|cbn; lia]).
    + destruct (close_transport _) as [err s]. intros [= <-].
      destruct who; (eapply pending_insert; [exact Hp|cbn; lia]).
Qed.

(** The holder of the once can always go on; without one, so can the holder of
    the lock; without either, anybody. *)
Lemma advance_enabled nowNs y tid p :
  sys_inv y -> y_calls y !! tid = Some p -> (forall r, p <> Returned r) ->
  exists tid' y', advance nowNs tid' y = Some y'.
Proof.
  intros Hy Hp Hnr.
  assert (Hgo : forall t p', y_calls y !! t = Some p' -> (forall r, p' <> Returned r) ->
    (forall j, p' = Waiting j -> y_lock y = None) ->
    (forall who t', p' = Closing AtOnce who -> y_once y <> OnceRunning t') -> exists t' y', advance nowNs t' y =
      Some y').
  { intros t p' Ht Hr Hw Hc. exists t. unfold advance. rewrite Ht. destruct p' as [j|j|j wire|j wire|k who|r].
    - by eexists.
    - rewrite (Hw j eq_refl). destruct (send_encode _ _ _ _ _) as [[w|e|] [s g]]; by eexists.
    - destruct (send_transmit _ _) as [[e|] s]; by eexists.
    - by eexists.
    - destruct k; [|by eexists|destruct (close_transport _); by eexists].
      destruct (y_once y) as [|t'|] eqn:Ho; [by eexists|by destruct (Hc who t' eq_refl)|by eexists].
    - by destruct (Hr r). }
  destruct (y_once y) as [|t|] eqn:Ho.
  2: { destruct (iv_running _ Hy t Ho) as (p' & Hp' & Hi). apply (Hgo t p' Hp').
       - intros r ->. done.
       - intros j ->. done.
       - intros who t' ->. done. }
  all: destruct (y_lock y) as [t|] eqn:Hl; [|by apply (Hgo tid p Hp)].
  all: destruct (iv_held _ Hy t Hl) as (p' & Hp' & Hi); apply (Hgo t p' Hp'); try done; intros r ->; done.
Qed.

(** ** Properties *)

(** C8: concurrent senders are serialised: however the calls of any number of
    goroutines are interleaved with each other, with [Close], [Recv] and the
    start of cover traffic, and whatever the transport does, the messages
    handed to the transport are encodings of sent frames under consecutive
    counters, in exactly this order (no counter is reused, skipped or
    reordered); at most one call is inside the critical section; a call that
    has returned nil has handed over exactly its frame, once, and a failed
    one at most once; a call panics only if its frame, with the padding it
    asked for, exceeds what the runtime allocates, and then it has handed over
    nothing; and a call that returned before another one started comes before
    it. *)
Theorem concurrent_sends_serialised y y'
    (Hy : rtc step (start s0 g0) y) (Hy' : rtc step y y') :
  framed (ss_send s0) (e_content <$> y_log y') (e_wire <$> y_log y') /\
  (forall t1 t2 p1 p2, y_calls y' !! t1 = Some p1 -> y_calls y' !! t2 = Some p2 ->
     holds p1 = true -> holds p2 = true -> t1 = t2) /\
  (forall tid j o, y_calls y' !! tid = Some (Returned (SendResult j o)) ->
     match o with
     | Ret _ => exists w, log_of tid (y_log y') = [(tid, j, w)]
     | Fail e => log_of tid (y_log y') = [] \/ exists w e', log_of tid (y_log y') = [(tid, j, w)] /\ e = ErrSend e'
     | Panic => log_of tid (y_log y') = [] /\ huge (j_meta j) (j_payload j) (j_pad j)
     end) /\
  exists l, y_log y' = y_log y ++ l /\
    (forall tid r, y_calls y !! tid = Some (Returned r) -> log_of tid l = []) /\
    (forall tid, y_calls y !! tid = None -> log_of tid (y_log y) = []).
Proof.
  apply inv_reach in Hy as Hi. pose proof (inv_steps _ _ Hi Hy') as Hi'. split_and!.
  - apply Hi'.
  - intros t1 t2 p1 p2 H1 H2 Hh1 Hh2. pose proof (co_lock _ _ _ (iv_calls _ Hi' _ _ H1) Hh1).
    pose proof (co_lock _ _ _ (iv_calls _ Hi' _ _ H2) Hh2). congruence.
  - intros tid j o Ht. pose proof (co_log _ _ _ (iv_calls _ Hi' _ _ Ht)) as Hl. by destruct o.
  - destruct (steps_log _ _ Hy') as (l & Hl & Hr). exists l. split_and!; [done| |].
    + intros tid r Ht. by apply (Hr tid r).
    + intros tid Hn. by apply log_of_fresh.
Qed.

(** every call returns: once no new calls are made, the calls in progress
    take a bounded number of steps altogether, whatever the schedule, and a
    system in which none of them can go on is one in which all have returned;
    neither [writeMu] nor the once of [Close] can deadlock. *)
Theorem concurrent_calls_return nowNs y n y'
    (Hy : rtc step (start s0 g0) y)
    (Hrun : nsteps (fun y1 y2 => exists now tid, advance now tid y1 = Some y2) n y y') :
  (n <= pending (y_calls y))%nat /\
  ((forall tid, advance nowNs tid y' = None) ->
   forall tid p, y_calls y' !! tid = Some p -> exists r, p = Returned r).
Proof.
  apply inv_reach in Hy. assert (Hn : (n + pending (y_calls y') <= pending (y_calls y))%nat /\ sys_inv y').
  { induction Hrun as [y|n y1 y2 y3 (now & tid & Ha) _ IH]; [done|].
    pose proof (advance_decreases _ _ _ _ Ha). destruct IH as [IH ?]; [by eapply inv_advance|]. split; [lia|done]. }
  destruct Hn as [Hn Hy']. split; [lia|]. intros Hstuck tid p Hp.
  destruct p as [j|j|j wire|j wire|k who|r]; [| | | | |by exists r];
    destruct (advance_enabled nowNs y' tid _ Hy' Hp) as (t & y2 & Ht); try done; by rewrite Hstuck in Ht.
Qed.
End Invariant.

(** ** A call on its own *)

Section Solo.
Context {G : Type} {C : Crypto G} {E : Entropy G}.
Context {T : Type} {MT : MessageTransport T}.

Fixpoint run_call (fuel : nat) (nowNs : Z) (tid : nat) (y : system (G := G) T) : system T :=
  match fuel with
  | O => y
  | S fuel => match advance nowNs tid y with Some y => run_call fuel nowNs tid y | None => y end
  end.

Lemma run_call_S fuel nowNs tid y :
  run_call (S fuel) nowNs tid y =
    match advance nowNs tid y with Some y => run_call fuel nowNs tid y | None => y end.
Proof. done. Qed.

Ltac solo_simpl :=
  cbn [y_calls y_stream y_lock y_once y_gen y_log goto set_lock set_once set_stream record_sent finish_close];
  rewrite ?insert_insert_eq, ?lookup_insert_eq; cbv iota beta.
Ltac solo_step := rewrite run_call_S; unfold advance; solo_simpl.
Ltac solo_done := repeat solo_step; solo_simpl; done.

Lemma send_encode_once t meta payload padLen (s : SecureStream AEAD T) (g : G) :
  ss_closeOnce (send_encode t meta payload padLen (s, g)).2.1 = ss_closeOnce s.
Proof.
  unfold send_encode. destruct (if padLen <? 0 then _ else _) as [[n|?|] ?]; cbn [sbind]; [|done..].
  destruct (if _ <? _ then _ else _) as [b|?|]; cbn [sbind]; [|done..].
  by destruct (EncodeFrameAppend _ _ _ _ _ _) as [[[[? [?|]] ?] ?]|?|]; cbn [sbind].
Qed.

(** The once of a stream that nobody is closing. *)
Definition once_of (s : SecureStream AEAD T) : once_state := if ss_closeOnce s then OnceDone else OnceIdle.

(** The steps of a call that is not interrupted make up [sendFrame]. *)
Theorem solo_send nowNs tid j s g calls log :
  let y := run_call 6 nowNs tid (mkSystem s g None (once_of s) (<[tid := Entered j]> calls) log) in
  let '(o, (s', g')) := sendFrame nowNs (j_type j) (j_meta j) (j_payload j) (j_pad j) (s, g) in
  y_stream y = s' /\ y_gen y = g' /\ y_lock y = None /\ y_once y = once_of s' /\
  y_calls y = <[tid := Returned (SendResult j o)]> calls.
Proof.
  cbn zeta. unfold once_of, sendFrame. cbn [fst].
  solo_step. destruct (ss_closed s) eqn:Hc; [solo_done|].
  solo_step. pose proof (send_encode_once (j_type j) (j_meta j) (j_payload j) (j_pad j) s g) as He.
  destruct (send_encode _ _ _ _ _) as [[wire|e|] [s1 g1]]; cbn [sbind fst snd] in *; rewrite <-?He; [|solo_done..].
  solo_step. destruct (send_transmit wire s1) as [[e|] s2] eqn:Ht.
  all: assert (Ho : ss_closeOnce s2 = ss_closeOnce s1)
    by (revert Ht; unfold send_transmit; destruct (SendMessage _ _); by intros [= _ <-]).
  - unfold closeUnderlying, Close. rewrite Ho. solo_step.
    destruct (ss_closeOnce s1) eqn:Hc1; [repeat solo_step; solo_simpl; cbn [snd]; by rewrite Ho|].
    do 2 solo_step. unfold close_transport. destruct (CloseTransport _) as [err tr]. cbn [run_call].
    repeat solo_step; solo_simpl. cbn [snd].
    unfold close_cover. cbn [ss_coverStop set_closed]. by destruct (ss_coverStop s2).
  - repeat solo_step. solo_simpl. split_and!; try done. by unfold send_account; case_bool_decide; cbn; rewrite Ho.
Qed.
End Solo.

(** ** Delivery over a transport that meets its contract *)

Section Delivery.
Context {G : Type} {C : Crypto G} {E : Entropy G} `{!AEADLaws C} `{!EntropyLaws E}.
Context {T : Type} `{TransportLaws T}.

Abbreviation Sys := (system T).

(** A frame that may be sent and that the receiver understands. *)
Definition job_ok (j : job) : Prop :=
  sendable (j_type j) (j_meta j) (j_payload j) (j_pad j) /\ exists ev, decodes (j_content j) ev.

(** Goroutines that only send. *)
Inductive send_step : Sys -> Sys -> Prop :=
  | send_advance nowNs tid y y' : advance nowNs tid y = Some y' -> send_step y y'
  | send_call tid j y : y_calls y !! tid = None -> job_ok j -> send_step y (goto tid (Entered j) y).

Lemma send_step_step y y' : send_step y y' -> step y y'.
Proof. destruct 1; by econstructor. Qed.

(** As long as nobody closes the stream, the calls are these. *)
Definition sending (p : pc) : Prop :=
  match p with
  | Entered j | Waiting j | Sent j _ => job_ok j
  | Holding j wire => job_ok j /\ len wire <= MaxFrameSize
  | Returned (SendResult _ (Ret _)) => True
  | _ => False
  end.

Record delivering (s0 : SecureStream AEAD T) (y : Sys) : Prop := {
  dl_open : ss_closed (y_stream y) = false;
  dl_up : up (ss_tr (y_stream y));
  dl_tx : tx (ss_tr (y_stream y)) = tx (ss_tr s0) ++ (e_wire <$> y_log y);
  dl_calls : forall tid p, y_calls y !! tid = Some p -> sending p;
  dl_log : Forall (fun e => job_ok e.1.2) (y_log y)
}.

(** A call moves on and the stream keeps its transport. *)
Lemma delivering_move s0 y y' tid p :
  delivering s0 y -> ss_closed (y_stream y') = false -> ss_tr (y_stream y') = ss_tr (y_stream y) ->
  y_log y' = y_log y -> y_calls y' = <[tid := p]> (y_calls y) -> sending p -> delivering s0 y'.
Proof.
  intros [] Ho Ht Hl Hc Hp. split; [done|by rewrite Ht|by rewrite Ht, Hl| |by rewrite Hl].
  intros t p'. rewrite Hc, lookup_insert_Some. intros [[_ <-]|[_ ?]]; eauto.
Qed.

Lemma delivering_advance s0 y y' nowNs tid :
  delivering s0 y -> advance nowNs tid y = Some y' -> delivering s0 y'.
Proof.
  intros Hy. unfold advance. destruct (y_calls y !! tid) as [p|] eqn:Hp; [|done].
  pose proof (dl_calls _ _ Hy _ _ Hp) as Hj. destruct p as [j|j|j wire|j wire|k who|r]; [..|done|done].
  - rewrite (dl_open _ _ Hy). intros [= <-]. by eapply delivering_move; [done|apply Hy|..].
  - destruct (y_lock y); [done|].
    destruct (send_encode_ok _ _ _ _ (y_stream y) (y_gen y) (proj1 Hj)) as (pad & g' & buf & -> & _ & Hl).
    intros [= <-]. by eapply delivering_move; [done|apply Hy|..].
  - destruct Hj as [Hj Hl]. unfold send_transmit.
    destruct (SendMessage_ok wire (ss_tr (y_stream y)) (dl_up _ _ Hy)) as (tr' & -> & Hu & Htx & _);
      [by apply fits_frames; lia|].
    intros [= <-]. destruct Hy as [Ho _ Ht Hc Hlog]. split; cbn; [done|done| | |].
    + by rewrite Htx, Ht, fmap_app, app_assoc.
    + intros t p'. rewrite lookup_insert_Some. intros [[_ <-]|[_ ?]]; eauto.
    + apply Forall_app. split; [done|]. constructor; [exact Hj|constructor].
  - intros [= <-]. eapply delivering_move; [done| | |done|done|done];
      cbn; unfold send_account; case_bool_decide; (done || apply Hy).
Qed.

Lemma delivering_reach s0 g0 y :
  working s0 -> rtc send_step (start s0 g0) y -> delivering s0 y.
Proof.
  intros Hw Hr. assert (Hs : delivering s0 (start s0 g0)).
  { split; cbn; [apply Hw|apply Hw|by rewrite app_nil_r|done|done]. }
  induction Hr as [|y1 y2 y3 Hst _ IH]; [done|]. apply IH. destruct Hst as [nowNs tid y1 y2 Ha|tid j y1 Hn Hj].
  - by eapply delivering_advance.
  - by eapply delivering_move; [done|apply Hs|..].
Qed.

(** C9: a secure stream shared by any number of sending goroutines is a FIFO
    channel: over a transport that meets its contract, at every moment of
    every interleaving, what is on the wire is exactly the logged frames,
    every call that has returned has returned nil, and a peer whose context
    matches receives the logged frames as events, in the order of the log. *)
Theorem concurrent_sends_delivered (a b : SecureStream AEAD T) g y rest
    (Ha : working a) (Hb : working b) (Hlink : ss_recv b = ss_send a)
    (Hy : rtc send_step (start a g) y) :
  tx (ss_tr (y_stream y)) = tx (ss_tr a) ++ (e_wire <$> y_log y) /\
  (forall tid r, y_calls y !! tid = Some (Returned r) ->
     exists j w, r = SendResult j (Ret tt) /\ (tid, j, w) ∈ y_log y) /\
  (rx (ss_tr b) = (e_wire <$> y_log y) ++ rest ->
   exists evs b', Forall2 (fun e => decodes (e_content e)) (y_log y) evs /\
     recv_n (length evs) b = (Ret evs, b') /\ rx (ss_tr b') = rest).
Proof.
  pose proof (delivering_reach a g y Ha Hy) as Hd.
  assert (Hi : sys_inv a y).
  { eapply inv_reach, rtc_subrel; [|exact Hy]. apply send_step_step. }
  split_and!.
  - apply Hd.
  - intros tid r Hr. pose proof (dl_calls _ _ Hd _ _ Hr) as Hs. cbn in Hs.
    destruct r as [j [[]|e|]|]; [|done..]. destruct (co_log _ _ _ _ (iv_calls _ _ Hi _ _ Hr)) as [w Hw].
    exists j, w. split; [done|]. assert (Hin : (tid, j, w) ∈ log_of tid (y_log y)) by (rewrite Hw; left).
    by apply list_elem_of_filter in Hin as [_ Hin].
  - intros Hrx. assert (He : exists evs, Forall2 (fun e => decodes (e_content e)) (y_log y) evs).
    { clear -Hd. pose proof (dl_log _ _ Hd) as Hl. induction Hl as [|e l [_ [ev Hev]] _ [evs IH]].
      - exists []. constructor.
      - exists (ev :: evs). by constructor. }
    destruct He as [evs Hev]. pose proof (iv_log _ _ Hi) as Hf. rewrite <-Hlink in Hf.
    destruct (recv_n_ok b _ _ evs rest Hb Hf Hrx) as (b' & Hr & _ & Hrest & _); [by apply Forall2_fmap_l|].
    by exists evs, b'.
Qed.
End Delivery.

(** ** Witnesses *)

(** Runs given by a schedule: which call makes the next step. *)
Section Schedule.
Context {G : Type} {C : Crypto G} {E : Entropy G}.
Context {T : Type} {MT : MessageTransport T}.

Fixpoint run_schedule (nowNs : Z) (tids : list nat) (y : system T) : option (system T) :=
  match tids with
  | [] => Some y
  | tid :: tids => match advance nowNs tid y with Some y => run_schedule nowNs tids y | None => None end
  end.

Lemma run_schedule_nsteps nowNs tids y y' :
  run_schedule nowNs tids y = Some y' ->
  nsteps (fun y1 y2 => exists now tid, advance now tid y1 = Some y2) (length tids) y y'.
Proof.
  revert y. induction tids as [|tid tids IH]; intros y; cbn; [intros [= <-]; constructor|].
  destruct (advance nowNs tid y) as [y1|] eqn:Ha; [|done]. intros Hr. econstructor; [by exists nowNs, tid|by apply IH].
Qed.

Lemma run_schedule_rtc nowNs tids y y' : run_schedule nowNs tids y = Some y' -> rtc step y y'.
Proof.
  revert y. induction tids as [|tid tids IH]; intros y; cbn; [intros [= <-]; constructor|].
  destruct (advance nowNs tid y) as [y1|] eqn:Ha; [|done]. intros Hr.
  econstructor; [by eapply step_advance|by apply IH].
Qed.

Lemma run_schedule_sends nowNs tids y y' : run_schedule nowNs tids y = Some y' -> rtc send_step y y'.
Proof.
  revert y. induction tids as [|tid tids IH]; intros y; cbn; [intros [= <-]; constructor|].
  destruct (advance nowNs tid y) as [y1|] eqn:Ha; [|done]. intros Hr.
  econstructor; [by eapply send_advance|by apply IH].
Qed.
End Schedule.

Module ConcurrentExamples.
Import StreamExamples.
Definition ping (c : string) : job := mkJob FramePing [] (str c) (-1).
(** Two calls, the second of which overtakes the first at the lock. *)
Definition y0 := goto 2 (Entered (ping "two")) (goto 1 (Entered (ping "one")) (start a0 (5 : Toy.gen))).
Definition y1 := default y0 (run_schedule 9 [1; 2; 2]%nat y0).
Definition y2 := default y0 (run_schedule 9 [2; 2; 1; 1; 1]%nat y1).
Definition peer : SecureStream (@AEAD _ Toy.crypto) LengthFramer :=
  new_stream (NewLengthFramer (mkConn (mkReader [c_out (lf_c (ss_tr (y_stream y2)))] EOF) [] [] None false None None))
    s2c c2s.

Lemma y0_reach : rtc step (start a0 (5 : Toy.gen)) y0.
Proof. eapply rtc_l; [by apply (step_send 1)|]. eapply rtc_l; [by apply (step_send 2)|]. constructor. Qed.

Lemma ping_ok c : len (str c) <= 100 -> job_ok (ping c).
Proof.
  intros H. split; [|exists (plain_event FramePing (str c)); intros n; reflexivity].
  unfold sendable, MaxMetaLen, MaxFramePad, MaxFrameSize. cbn in *. split_and!; [done|lia|lia|lia].
Qed.

Lemma y0_sends : rtc send_step (start a0 (5 : Toy.gen)) y0.
Proof.
  apply (rtc_l _ _ (goto 1 (Entered (ping "one")) (start a0 (5 : Toy.gen)))).
  - apply send_call; [done|apply ping_ok; vm_compute; congruence].
  - apply rtc_once, send_call; [done|apply ping_ok; vm_compute; congruence].
Qed.

Lemma y1_run : run_schedule 9 [1; 2; 2]%nat y0 = Some y1.
Proof.
  assert (H : bool_decide (is_Some (run_schedule 9 [1; 2; 2]%nat y0)) = true) by (vm_compute; reflexivity).
  apply bool_decide_eq_true in H as [y H]. unfold y1. rewrite H. reflexivity.
Qed.

Lemma y2_run : run_schedule 9 [2; 2; 1; 1; 1]%nat y1 = Some y2.
Proof.
  assert (H : bool_decide (is_Some (run_schedule 9 [2; 2; 1; 1; 1]%nat y1)) = true) by (vm_compute; reflexivity).
  apply bool_decide_eq_true in H as [y H]. unfold y2. rewrite H. reflexivity.
Qed.

Lemma receiver_working : working (G := Toy.gen) peer.
Proof. apply working_new; [|done..]. cbn. split_and!; [done|constructor|]. by exists []. Qed.
End ConcurrentExamples.
Import ConcurrentExamples.

Lemma concurrent_sends_serialised_witness :
  framed (ss_send StreamExamples.a0) (e_content <$> y_log y2) (e_wire <$> y_log y2) /\ e_tid <$> y_log y2 = [2; 1]%nat.
Proof.
  destruct (concurrent_sends_serialised StreamExamples.a0 (5 : Toy.gen) y1 y2) as (Hf & _).
  - exact (transitivity y0_reach (run_schedule_rtc _ _ _ _ y1_run)).
  - exact (run_schedule_rtc _ _ _ _ y2_run).
  - split; [exact Hf|]. vm_compute. reflexivity.
Defined.

Lemma concurrent_calls_return_witness : (5 <= pending (y_calls y1))%nat.
Proof.
  destruct (concurrent_calls_return StreamExamples.a0 (5 : Toy.gen) 9 y1 5 y2) as [Hn _].
  - exact (transitivity y0_reach (run_schedule_rtc _ _ _ _ y1_run)).
  - exact (run_schedule_nsteps _ _ _ _ y2_run).
  - exact Hn.
Defined.

Lemma concurrent_sends_delivered_witness :
  exists evs b', Forall2 (fun e => decodes (e_content e)) (y_log y2) evs /\ recv_n (length evs) peer = (Ret evs, b').
Proof.
  destruct (concurrent_sends_delivered StreamExamples.a0 peer (5 : Toy.gen) y2 []) as (Htx & _ & H).
  - exact StreamExamples.a0_working.
  - exact receiver_working.
  - reflexivity.
  - exact (transitivity y0_sends (transitivity
      (run_schedule_sends _ _ _ _ y1_run) (run_schedule_sends _ _ _ _ y2_run))).
  - destruct H as (evs & b' & Hd & Hr & _).
    + change (rx (ss_tr peer)) with (msgs_of (c_out (lf_c (ss_tr (y_stream y2))) ++ [])).
      rewrite !app_nil_r. exact Htx.
    + exists evs, b'. split; [exact Hd|exact Hr].
Defined.
