(* ===== verification/Cover.v ===== *)
(** * Cover traffic (src/securestream.go: StartCoverTraffic, coverLoop)

    The jittered timer with its [float64] arithmetic (IEEE 754 binary64, from
    the Standard Library's specification of floating point), one round of the
    loop, and the goroutine as a step relation on top of Concurrent.v: the
    start of the goroutine is two steps (the compare-and-swap, the channel),
    each test of the loop is one, and the padding frame it sends is a call of
    [sendFrame] among the others, with its test of [closed], its wait for
    [writeMu] and its transmission as separate steps; other senders, [Recv]
    and [Close] can run in between. *)

From S2P Require Import Prelude Address Crypto Io Kdf Padding Frame Transport SecureStream.
From S2P Require Import SecureStreamProofs Concurrent.

(** ** Floating point *)

(** [float64(n)] for an [int64]. *)
Definition float64_of_int (n : Z) : spec_float := binary_normalize 53 1024 n 0 false.

(** [a * b] on [float64]. *)
Definition float64_mul (a b : spec_float) : spec_float := SFmul 53 1024 a b.

(** [int(f)]: truncation towards zero.  The conversion of a value that does not
    fit (or is not a number) is implementation-dependent: [undef]. *)
Definition int_of_float64 (undef : Z) (f : spec_float) : Z :=
  match f with
  | S754_zero _ => 0
  | S754_finite sign m e =>
      let abs := if 0 <=? e then Z.pos m * 2 ^ e else Z.pos m / 2 ^ (- e) in
      let n := if sign then - abs else abs in
      if (- 2 ^ 63 <=? n) && (n <? 2 ^ 63) then n else to_int64 undef
  | _ => to_int64 undef
  end.

(** 0.5 *)
Definition half : spec_float := S754_finite false (2 ^ 52) (-53).

(** ** The timer *)

Definition Millisecond : Z := 1000000.

Definition DefaultCoverConfig : CoverConfig := mkCoverConfig (500 * Millisecond) (500 * Millisecond) half.

(** [spanNs := int(float64(cfg.Interval) * cfg.JitterFrac * 2)] *)
Definition spanNs (undef : Z) (cfg : CoverConfig) : Z :=
  int_of_float64 undef
    (float64_mul (float64_mul (float64_of_int (cfg_Interval cfg)) (cfg_JitterFrac cfg)) (float64_of_int 2)).

Section Cover.
Context {G : Type} {C : Crypto G} {E : Entropy G}.
Context {T : Type} {MT : MessageTransport T}.
Context (undef : Z) (cfg : CoverConfig).

Abbreviation Stream := (SecureStream AEAD T).

Definition nextDelay (g : G) : Z * G :=
  if SFleb (cfg_JitterFrac cfg) (S754_zero false) then (cfg_Interval cfg, g) else
  let span := spanNs undef cfg in
  if span <? 1 then (cfg_Interval cfg, g) else
  let '(r, g) := secureRandIntn span g in
  (to_int64 (cfg_Interval cfg + (r - Z.quot span 2)), g).

(** [time.Since(last) >= cfg.IdleAfter] *)
Definition idle (nowNs : Z) (s : Stream) : bool := cfg_IdleAfter cfg <=? nowNs - ss_lastSendNs s.

(** One round of [coverLoop] once the timer has fired (at [nowNs]); [None]
    when the loop returns, otherwise the next delay. *)
Definition cover_tick (nowNs : Z) (st : Stream * G) : option Z * (Stream * G) :=
  let '(s, g) := st in
  if ss_closed s then (None, (s, g)) else
  let '(s, g) := if idle nowNs s then (SendCoverPad nowNs (-1) (s, g)).2 else (s, g) in
  let '(d, g) := nextDelay g in (Some d, (s, g)).

(** ** The goroutine *)

(** Where the caller of [StartCoverTraffic], and then [coverLoop], stands. *)
Inductive cover_pc :=
  | NotStarted
  | Starting              (* the compare-and-swap has succeeded *)
  | Spawned               (* channel made, goroutine created *)
  | Selecting             (* in the select, the timer armed *)
  | Fired                 (* the timer has fired *)
  | Checking              (* [closed] was false *)
  | Measured (last : Z)   (* [lastSendNs] has been read *)
  | Sending               (* the stream was idle *)
  | InFrame (tid : nat)   (* inside [SendCoverPad], which is call [tid] *)
  | Resetting             (* before [t.Reset] *)
  | Exited.

(** The stream with the calls on it, the goroutine, and the delay its timer
    was last set to. *)
Record cover_sys := mkCover { cv_sys : system T; cv_pc : cover_pc; cv_timer : Z }.

Definition at_pc (p : cover_pc) (y : cover_sys) : cover_sys := mkCover (cv_sys y) p (cv_timer y).
Definition with_sys (x : system T) (y : cover_sys) : cover_sys := mkCover x (cv_pc y) (cv_timer y).

(** [s.SendCoverPad(-1)] *)
Definition cover_job : job := mkJob FramePaddingOnly [] [] (-1).

(** [t.Reset(nextDelay())], or the first [time.NewTimer(nextDelay())]. *)
Definition arm (y : cover_sys) : cover_sys :=
  let x := cv_sys y in
  let '(d, g) := nextDelay (y_gen x) in
  mkCover (mkSystem (y_stream x) g (y_lock x) (y_once x) (y_calls x) (y_log x)) Selecting d.

(** The next step on the way of the goroutine, outside [SendCoverPad]; [stop]
    chooses the case of the select and [tid] names the call of [SendCoverPad],
    [None] when the step is blocked.  A second [StartCoverTraffic] fails its
    compare-and-swap and changes nothing.  The error of [SendCoverPad] is
    ignored; a panic would not be. *)
Definition cover_step (stop : bool) (nowNs : Z) (tid : nat) (y : cover_sys) : option cover_sys :=
  let x := cv_sys y in
  let s := y_stream x in
  match cv_pc y with
  | NotStarted =>
      if (cfg_Interval cfg <=? 0) || (cfg_IdleAfter cfg <=? 0) || ss_coverStarted s then None
      else Some (at_pc Starting (with_sys (set_stream (set_cover true (ss_coverStop s) s) x) y))
  | Starting => Some (at_pc Spawned (with_sys (set_stream (set_cover true ChanOpen s) x) y))
  | Spawned => Some (arm y)
  | Selecting =>
      if stop then match ss_coverStop s with ChanClosed => Some (at_pc Exited y) | _ => None end
      else Some (at_pc Fired y)
  | Fired => Some (at_pc (if ss_closed s then Exited else Checking) y)
  | Checking => Some (at_pc (Measured (ss_lastSendNs s)) y)
  | Measured last => Some (at_pc (if cfg_IdleAfter cfg <=? nowNs - last then Sending else Resetting) y)
  | Sending =>
      match y_calls x !! tid with
      | Some _ => None
      | None => Some (at_pc (InFrame tid) (with_sys (goto tid (Entered cover_job) x) y))
      end
  | InFrame t =>
      match y_calls x !! t with
      | Some (Returned (SendResult _ (Ret _ | Fail _))) => Some (at_pc Resetting y)
      | _ => None
      end
  | Resetting => Some (arm y)
  | Exited => None
  end.

(** A step of another goroutine: any step of the stream except those of the
    frame the cover goroutine is sending, and except the winning call of
    [StartCoverTraffic], which is the one followed here. *)
Definition other_step (y : cover_sys) (x : system T) : Prop :=
  step (cv_sys y) x /\ ss_coverStarted (y_stream x) = ss_coverStarted (y_stream (cv_sys y)) /\
  forall tid, cv_pc y = InFrame tid -> y_calls x !! tid = y_calls (cv_sys y) !! tid.

(** Runs, with the number of steps the goroutine has made and the messages it
    has handed to the transport. *)
Inductive cover_run : nat -> list entry -> cover_sys -> cover_sys -> Prop :=
  | run_nil y : cover_run 0 [] y y
  | run_own n es stop nowNs tid y y1 y' :
      cover_step stop nowNs tid y = Some y1 -> cover_run n es y1 y' -> cover_run (S n) es y y'
  | run_frame n es e tid nowNs y x y' :
      cv_pc y = InFrame tid -> advance nowNs tid (cv_sys y) = Some x -> y_log x = y_log (cv_sys y) ++ e ->
      cover_run n es (with_sys x y) y' -> cover_run (S n) (e ++ es) y y'
  | run_other n es y x y' : other_step y x -> cover_run n es (with_sys x y) y' -> cover_run n es y y'.

(** A stream on which nothing has been called yet. *)
Definition cover_start (s : Stream) (g : G) : cover_sys := mkCover (start s g) NotStarted 0.
End Cover.
Arguments cover_sys {G C} T : rename.

#[global] Instance cover_pc_eq_dec : EqDecision cover_pc.
Proof. solve_decision. Defined.

(** ** Lemmas *)

Section CoverLemmas.
Context {G : Type} {C : Crypto G} {E : Entropy G} `{!AEADLaws C}.
Context {T : Type} {MT : MessageTransport T}.
Context (undef : Z) (cfg : CoverConfig).

Abbreviation Sys := (cover_sys T).

Lemma spanNs_range : spanNs undef cfg < 2 ^ 63.
Proof.
  assert (Hu : to_int64 undef < 2 ^ 63).
  { unfold to_int64. pose proof (Z.mod_pos_bound (undef + 2 ^ 63) (2 ^ 64) eq_refl). lia. }
  unfold spanNs, int_of_float64. destruct (float64_mul _ _) as [| | |sign m e]; try done.
  cbn zeta. destruct ((_ <=? _) && (_ <? _)) eqn:Hb; [|done].
  by apply andb_prop in Hb as [_ Hb%Z.ltb_lt].
Qed.

(** The delay before it is wrapped stays in range, for intervals up to 292
    years. *)
Lemma nextDelay_value (g : G) :
  0 < cfg_Interval cfg <= 2 ^ 63 - 2 ^ 31 ->
  SFleb (cfg_JitterFrac cfg) (S754_zero false) = false -> 1 <= spanNs undef cfg ->
  (nextDelay undef cfg g).1 =
  cfg_Interval cfg + ((secureRandIntn (spanNs undef cfg) g).1 - Z.quot (spanNs undef cfg) 2).
Proof.
  intros Hi Hj Hs. unfold nextDelay. rewrite Hj. destruct (Z.ltb_spec (spanNs undef cfg) 1); [lia|].
  pose proof (secureRandIntn_bounds (spanNs undef cfg) g) as Hr. pose proof spanNs_range.
  destruct (secureRandIntn _ g) as [r g']. cbn [fst] in *. apply to_int64_id.
  pose proof (Z.quot_pos (spanNs undef cfg) 2). pose proof (Z.quot_lt (spanNs undef cfg) 2). lia.
Qed.

Lemma nextDelay_bounds (g : G) :
  0 < cfg_Interval cfg <= 2 ^ 63 - 2 ^ 31 ->
  let span := spanNs undef cfg in
  let d := (nextDelay undef cfg g).1 in
  (d = cfg_Interval cfg \/ 1 <= span /\
    cfg_Interval cfg - Z.quot span 2 <= d < cfg_Interval cfg - Z.quot span 2 + Z.min span (2 ^ 31)).
Proof.
  intros Hi. cbn zeta. destruct (SFleb (cfg_JitterFrac cfg) (S754_zero false)) eqn:Hj.
  { left. unfold nextDelay. by rewrite Hj. }
  destruct (Z.ltb_spec (spanNs undef cfg) 1) as [Hlt|Hge].
  { left. unfold nextDelay. rewrite Hj. by destruct (Z.ltb_spec (spanNs undef cfg) 1); [|lia]. }
  right. split; [done|]. rewrite nextDelay_value by done.
  pose proof (secureRandIntn_bounds (spanNs undef cfg) g). lia.
Qed.

(** A closed stream stays closed, whoever acts. *)
Lemma send_encode_closed t meta payload padLen (s : SecureStream AEAD T) (g : G) :
  ss_closed (send_encode t meta payload padLen (s, g)).2.1 = ss_closed s.
Proof.
  destruct (send_encode_total t meta payload padLen s g) as ([w|e|] & g' & buf & H).
  - by destruct H as (pad & _ & _ & ->).
  - by rewrite H.
  - by destruct H as [_ ->].
Qed.

Lemma advance_closed nowNs tid (x x' : system T) :
  advance nowNs tid x = Some x' -> ss_closed (y_stream x) = true -> ss_closed (y_stream x') = true.
Proof.
  unfold advance. destruct (y_calls x !! tid) as [p|]; [|done]. destruct p as [j|j|j wire|j wire|k who|r]; [..|done].
  - intros [= <-] Hc. by rewrite Hc.
  - destruct (y_lock x); [done|].
    pose proof (send_encode_closed (j_type j) (j_meta j) (j_payload j) (j_pad j) (y_stream x) (y_gen x)) as He.
    destruct (send_encode _ _ _ _ _) as [[w|e|] [s g]]; cbn in He; intros [= <-] Hc; cbn; congruence.
  - unfold send_transmit. destruct (SendMessage _ _) as [[e|] tr]; by intros [= <-].
  - intros [= <-] Hc. cbn. unfold send_account. by case_bool_decide.
  - destruct k.
    + destruct (y_once x); [|done|]; intros [= <-]; [done|by destruct who].
    + intros [= <-]. cbn. unfold close_cover. by destruct (ss_coverStop _).
    + unfold close_transport. destruct (CloseTransport _). intros [= <-]. by destruct who.
Qed.

Lemma step_closed (x x' : system T) :
  step x x' -> ss_closed (y_stream x) = true -> ss_closed (y_stream x') = true.
Proof.
  intros Hs Hc. destruct Hs as [nowNs tid x x' Ha|tid j x Hn|tid x Hn|x|cfg' x];
    [by eapply advance_closed|done|done| |].
  - cbn. unfold recv_body. destruct (ReadMessage _) as [[w|e|] tr]; cbn; [|done..].
    by destruct (DecodeFrame _ _) as [[[df f]|e|] r].
  - cbn. unfold StartCoverTraffic. destruct (_ || _); [done|]. by destruct (ss_coverStarted _).
Qed.

(** Where a call of [SendCoverPad(-1)] can stand. *)
Definition cover_call (p : pc) : Prop :=
  match p with
  | Entered j | Waiting j | Holding j _ | Sent j _ | Closing _ (BySend j _) | Returned (SendResult j _) => j = cover_job
  | _ => False
  end.

Lemma advance_cover_call nowNs tid (x x' : system T) p :
  y_calls x !! tid = Some p -> cover_call p -> advance nowNs tid x = Some x' ->
  exists p', y_calls x' !! tid = Some p' /\ cover_call p'.
Proof.
  intros Hp Hj. unfold advance. rewrite Hp. destruct p as [j|j|j wire|j wire|k who|r]; [..|done]; cbn in Hj.
  - intros [= <-]. destruct (ss_closed _); cbn; rewrite lookup_insert_eq; by eexists.
  - destruct (y_lock x); [done|]. destruct (send_encode _ _ _ _ _) as [[w|e|] [s g]]; intros [= <-]; cbn;
      rewrite lookup_insert_eq; by eexists.
  - destruct (send_transmit _ _) as [[e|] s]; intros [= <-]; cbn; rewrite lookup_insert_eq; by eexists.
  - intros [= <-]. cbn. rewrite lookup_insert_eq. by eexists.
  - destruct who as [|j e]; [by destruct k|].
    destruct k; [destruct (y_once x); [|done|]| |destruct (close_transport _)];
      intros [= <-]; cbn; rewrite lookup_insert_eq; by eexists.
Qed.

(** The invariant of Concurrent.v, and a goroutine that is inside a frame is
    inside a call of [SendCoverPad]. *)
Record cover_inv (s0 : SecureStream AEAD T) (y : Sys) : Prop := {
  ci_sys : sys_inv s0 (cv_sys y);
  ci_frame : forall tid, cv_pc y = InFrame tid -> exists p, y_calls (cv_sys y) !! tid = Some p /\ cover_call p
}.

Lemma sys_inv_gen s0 (x : system (G := G) T) g :
  sys_inv s0 x -> sys_inv s0 (mkSystem (y_stream x) g (y_lock x) (y_once x) (y_calls x) (y_log x)).
Proof. intros [H1 H2 H3 H4 H5 H6]. split; try done. intros t p Hp. destruct (H2 t p Hp). by split. Qed.

Lemma cover_inv_arm s0 (y : Sys) : cover_inv s0 y -> cover_inv s0 (arm undef cfg y).
Proof.
  intros [Hx _]. unfold arm. destruct (nextDelay undef cfg _) as [d g]. split; cbn; [by apply sys_inv_gen|done].
Qed.

Lemma cover_inv_step s0 stop nowNs tid (y y' : Sys) :
  cover_inv s0 y -> cover_step undef cfg stop nowNs tid y = Some y' -> cover_inv s0 y'.
Proof.
  intros Hy. pose proof (cover_inv_arm s0 y Hy) as Harm. destruct Hy as [Hx Hf]. unfold cover_step.
  destruct (cv_pc y) as [| | | | | |last| |t| |].
  - destruct (_ || ss_coverStarted _); [done|]. intros [= <-]. split; cbn; [by apply inv_env|done].
  - intros [= <-]. split; cbn; [by apply inv_env|done].
  - by intros [= <-].
  - destruct stop; [destruct (ss_coverStop _); [done|done|]|]; intros [= <-]; split; cbn; done.
  - intros [= <-]. split; cbn; [done|]. by destruct (ss_closed _).
  - intros [= <-]. by split; cbn.
  - intros [= <-]. split; cbn; [done|]. by destruct (_ <=? _).
  - destruct (y_calls _ !! tid) eqn:Ht; [done|]. intros [= <-]. split; cbn; [by apply inv_call|].
    intros t [= <-]. rewrite lookup_insert_eq. by eexists.
  - destruct (y_calls _ !! t) as [[| | | | |[j [|e|]|]]|]; try done; intros [= <-]; by split; cbn.
  - by intros [= <-].
  - done.
Qed.

Lemma cover_inv_run s0 n es (y y' : Sys) : cover_inv s0 y -> cover_run undef cfg n es y y' -> cover_inv s0 y'.
Proof.
  intros Hy Hr. induction Hr as [y|n es stop nowNs tid y y1 y' Hs _ IH|n es e tid nowNs y x y' Hpc Ha _ _ IH
    |n es y x y' (Hs & _ & Hk) _ IH]; [done|..]; apply IH.
  - by eapply cover_inv_step.
  - split; cbn; [eapply inv_advance; [apply Hy|done]|]. intros t Ht. rewrite Hpc in Ht. injection Ht as <-.
    destruct (ci_frame _ _ Hy _ Hpc) as (p & Hp & Hj). by eapply advance_cover_call.
  - split; cbn; [eapply inv_step; [apply Hy|done]|]. intros t Ht. rewrite (Hk t Ht). by apply (ci_frame _ _ Hy).
Qed.

Lemma cover_inv_start s0 g0 : cover_inv s0 (cover_start s0 g0).
Proof. split; [apply inv_start|done]. Qed.

(** The steps the goroutine has left on a closed stream, at most. *)
Definition frame_weight (p : pc) : nat := match p with Entered _ => 1 | _ => weight p end.

Definition cover_weight (y : Sys) : nat :=
  match cv_pc y with
  | Exited => 0 | Fired => 1 | Selecting => 2 | Spawned | Resetting => 3
  | Starting => 4 | NotStarted => 5 | Sending => 6 | Measured _ => 7 | Checking => 8
  | InFrame tid => 4 + default 0 (frame_weight <$> y_calls (cv_sys y) !! tid)
  end%nat.

(** What the goroutine may still hand over on a closed stream: the frame that
    is already past the test of [closed]. *)
Definition may_send (y : Sys) (es : list entry) : Prop :=
  es = [] \/ exists tid w, cv_pc y = InFrame tid /\ es = [(tid, cover_job, w)] /\
    (y_calls (cv_sys y) !! tid = Some (Waiting cover_job) \/ y_calls (cv_sys y) !! tid = Some (Holding cover_job w)).

Lemma arm_closed (y : Sys) :
  y_stream (cv_sys (arm undef cfg y)) = y_stream (cv_sys y) /\ cv_pc (arm undef cfg y) = Selecting.
Proof. unfold arm. by destruct (nextDelay undef cfg _). Qed.

Lemma own_step_closed stop nowNs tid (y y' : Sys) :
  cover_step undef cfg stop nowNs tid y = Some y' -> ss_closed (y_stream (cv_sys y)) = true ->
  ss_closed (y_stream (cv_sys y')) = true /\ (cover_weight y' < cover_weight y)%nat /\
  forall es, may_send y' es -> es = [].
Proof.
  assert (Hmay : forall y1 : Sys, (forall t, cv_pc y1 <> InFrame t) -> forall es, may_send y1 es -> es = []).
  { intros y1 Hn es [->|(t & w & Ht & _)]; [done|by destruct (Hn t)]. }
  destruct (arm_closed y) as [Hst Hpc]. unfold cover_step, cover_weight at 2. intros Hs Hc.
  destruct (cv_pc y) as [| | | | | |last| |t| |] eqn:Hy.
  - destruct (_ || ss_coverStarted _); [done|]. injection Hs as <-. cbn. split_and!; [done|lia|by apply Hmay].
  - injection Hs as <-. cbn. split_and!; [done|lia|by apply Hmay].
  - injection Hs as <-. unfold cover_weight. rewrite Hst, Hpc. split_and!; [done|lia|apply Hmay; by rewrite Hpc].
  - destruct stop; [destruct (ss_coverStop _); [done|done|]|]; injection Hs as <-; cbn;
      (split_and!; [done|lia|by apply Hmay]).
  - rewrite Hc in Hs. injection Hs as <-. cbn. split_and!; [done|lia|by apply Hmay].
  - injection Hs as <-. cbn. split_and!; [done|lia|by apply Hmay].
  - injection Hs as <-. destruct (_ <=? _); cbn; (split_and!; [done|lia|by apply Hmay]).
  - destruct (y_calls _ !! tid) eqn:Ht; [done|]. injection Hs as <-. cbn.
    rewrite lookup_insert_eq. cbn. split_and!; [done|lia|].
    intros es [->|(t & w & [= <-] & _ & H)]; [done|]. cbn in H. rewrite lookup_insert_eq in H. by destruct H.
  - destruct (y_calls _ !! t) as [[| | | | |[j [|e|]|]]|]; try done; injection Hs as <-; cbn;
      (split_and!; [done|lia|by apply Hmay]).
  - injection Hs as <-. unfold cover_weight. rewrite Hst, Hpc. split_and!; [done|lia|apply Hmay; by rewrite Hpc].
  - done.
Qed.

(** A step of the frame on a closed stream. *)
Lemma frame_step_closed nowNs tid (y : Sys) x e es p :
  cv_pc y = InFrame tid -> y_calls (cv_sys y) !! tid = Some p -> cover_call p ->
  advance nowNs tid (cv_sys y) = Some x -> y_log x = y_log (cv_sys y) ++ e ->
  ss_closed (y_stream (cv_sys y)) = true ->
  (cover_weight (with_sys x y) < cover_weight y)%nat /\ (may_send (with_sys x y) es -> may_send y (e ++ es)).
Proof.
  intros Hpc Hp Hj. unfold cover_weight. cbn. rewrite Hpc, Hp. unfold advance. rewrite Hp. intros Ha He Hc.
  (* the two kinds of steps: without a message, and the transmission *)
  assert (Hquiet : forall p', y_calls x !! tid = Some p' -> y_log x = y_log (cv_sys y) ->
    (forall w, p' <> Waiting cover_job /\ (p' = Holding cover_job w -> p = Waiting cover_job)) ->
    may_send (with_sys x y) es -> may_send y (e ++ es)).
  { intros p' Hp' Hlog Hno Hm. rewrite Hlog in He. assert (e = []) as ->.
    { apply (app_inv_head (y_log (cv_sys y))). by rewrite app_nil_r. }
    destruct Hm as [->|(t & w & Ht & -> & Hor)]; [by left|]. cbn in Ht, Hor. rewrite Hpc in Ht. injection Ht as <-.
    right. exists tid, w. split_and!; [done|done|]. left. destruct (Hno w) as [Hn1 Hn2].
    destruct Hor as [Hor|Hor]; rewrite Hp' in Hor; injection Hor as ->; [by destruct Hn1|]. by rewrite Hp, Hn2. }
  destruct p as [j|j|j wire|j wire|k who|r]; cbn in Hj; [..|done].
  - rewrite Hc in Ha. injection Ha as <-. cbn. rewrite lookup_insert_eq. cbn. split; [lia|].
    eapply Hquiet; [by cbn; rewrite lookup_insert_eq|done|done].
  - destruct (y_lock _); [done|]. subst j. destruct (send_encode _ _ _ _ _) as [[w|er|] [s g]]; injection Ha as <-;
      cbn; rewrite lookup_insert_eq; cbn; (split; [lia|]);
      (eapply Hquiet; [by cbn; rewrite lookup_insert_eq|done|done]).
  - subst j. destruct (send_transmit _ _) as [err s]. assert (Hx : e = [(tid, cover_job, wire)] /\
      exists p', y_calls x !! tid = Some p' /\ (frame_weight p' < 5)%nat /\
        forall w, p' <> Waiting cover_job /\ p' <> Holding cover_job w).
    { destruct err as [er|]; injection Ha as <-; cbn in *; apply app_inv_head in He; rewrite lookup_insert_eq;
        (split; [done|]; eexists; split_and!; [done|cbn; lia|done]). }
    destruct Hx as (-> & p' & Hp' & Hw & Hno). rewrite Hp'. cbn. split; [lia|].
    intros [->|(t & w & Ht & _ & Hor)].
    + right. exists tid, wire. split_and!; [done|done|by right].
    + cbn in Ht, Hor. rewrite Hpc in Ht. injection Ht as <-. rewrite Hp' in Hor. destruct (Hno w).
      destruct Hor as [[= ?]|[= ?]]; done.
  - injection Ha as <-. cbn. rewrite lookup_insert_eq. cbn. split; [lia|].
    eapply Hquiet; [by cbn; rewrite lookup_insert_eq|done|done].
  - destruct who as [|j er]; [by destruct k|].
    destruct k; [destruct (y_once _); [|done|]| |destruct (close_transport _)]; injection Ha as <-;
      cbn; rewrite lookup_insert_eq; cbn; (split; [lia|]);
      (eapply Hquiet; [by cbn; rewrite lookup_insert_eq|done|done]).
Qed.

Lemma other_step_closed (y : Sys) x es :
  other_step y x -> ss_closed (y_stream (cv_sys y)) = true ->
  ss_closed (y_stream x) = true /\ cover_weight (with_sys x y) = cover_weight y /\
  (may_send (with_sys x y) es -> may_send y es).
Proof.
  intros (Hs & _ & Hk) Hc. split; [by eapply step_closed|]. split.
  - unfold cover_weight. cbn. destruct (cv_pc y) eqn:Hpc; try done. by rewrite (Hk tid eq_refl).
  - intros [->|(t & w & Ht & -> & Hor)]; [by left|]. cbn in Ht, Hor. right. exists t, w.
    rewrite <-(Hk t Ht). by split_and!.
Qed.

(** On a closed stream. *)
Lemma closed_run s0 n es (y y' : Sys) :
  cover_inv s0 y -> cover_run undef cfg n es y y' -> ss_closed (y_stream (cv_sys y)) = true ->
  (n + cover_weight y' <= cover_weight y)%nat /\ ss_closed (y_stream (cv_sys y')) = true /\ may_send y es.
Proof.
  intros Hy Hr. induction Hr as [y|n es stop nowNs tid y y1 y' Hs Hr IH|n es e tid nowNs y x y' Hpc Ha He Hr IH
    |n es y x y' Ho Hr IH]; intros Hc.
  - split_and!; [lia|done|by left].
  - destruct (own_step_closed _ _ _ _ _ Hs Hc) as (Hc1 & Hw & Hm).
    destruct IH as (IHw & IHc & IHm); [by eapply cover_inv_step|done|].
    split_and!; [lia|done|]. left. by apply Hm.
  - destruct (ci_frame _ _ Hy _ Hpc) as (p & Hp & Hj).
    destruct (frame_step_closed _ _ _ _ _ es _ Hpc Hp Hj Ha He Hc) as [Hw Hm].
    destruct IH as (IHw & IHc & IHm); [| |split_and!; [lia|done|by apply Hm]].
    + eapply cover_inv_run; [exact Hy|]. by eapply run_frame; [..|apply run_nil].
    + by eapply advance_closed.
  - destruct (other_step_closed _ _ es Ho Hc) as (Hc1 & Hw & Hm).
    destruct IH as (IHw & IHc & IHm); [|done|split_and!; [lia|done|by apply Hm]].
    eapply cover_inv_run; [exact Hy|]. by eapply run_other; [|apply run_nil].
Qed.

(** Only the end, or a goroutine that was never started, is stuck: the timer
    case of the select is always ready in the end, and a goroutine inside a
    frame waits, at most, for a call that can go on. *)
Lemma cover_progress s0 nowNs (y : Sys) :
  cover_inv s0 y -> cv_pc y <> NotStarted -> cv_pc y <> Exited ->
  (exists tid y', cover_step undef cfg false nowNs tid y = Some y') \/
  (exists tid, cv_pc y = InFrame tid) /\ exists tid x, advance nowNs tid (cv_sys y) = Some x.
Proof.
  intros Hy H1 H2. unfold cover_step. destruct (cv_pc y) as [| | | | | |last| |t| |] eqn:Hpc; try done;
    try (left; exists 0%nat; by eexists).
  - left. exists (fresh (dom (y_calls (cv_sys y)))).
    rewrite (proj1 (not_elem_of_dom _ _) (is_fresh (dom (y_calls (cv_sys y))))). by eexists.
  - destruct (ci_frame _ _ Hy _ Hpc) as (p & Hp & Hj).
    destruct p as [j|j|j wire|j wire|k who|r];
      try (right; split; [by eexists|by eapply (advance_enabled s0); [apply Hy|done|]]).
    left. exists 0%nat. rewrite Hp. destruct r as [j [[]|e|]|]; [by eexists|by eexists| |done].
    pose proof (proj2 (co_log _ _ _ _ (iv_calls _ _ (ci_sys _ _ Hy) _ _ Hp))) as Hh. cbn in Hj, Hh. rewrite Hj in Hh.
    vm_compute in Hh. done.
Qed.

(** ** Properties *)

(** C34: the goroutine ends with the stream.  At any moment of any interleaving
    at which the stream is closed (even when [Close] ran between the two
    statements that start the goroutine and so missed its channel), and
    whatever other goroutines do from then on: the stream stays closed; the
    goroutine makes at most ten more steps, those inside [sendFrame]
    included; the only message it can still hand to the transport is the
    padding frame that was already past the test of [closed] at that moment;
    and until it has exited it can make its next step, or it is inside that
    frame and the call it waits for can go on. *)
Theorem cover_goroutine_exits (s0 : SecureStream AEAD T) (g0 : G) n0 es0 n es (y y' : Sys)
    (Hreach : cover_run undef cfg n0 es0 (cover_start s0 g0) y)
    (Hclosed : ss_closed (y_stream (cv_sys y)) = true) (Hrun : cover_run undef cfg n es y y') :
  (n <= 10)%nat /\ ss_closed (y_stream (cv_sys y')) = true /\
  (es = [] \/ exists tid w, cv_pc y = InFrame tid /\ es = [(tid, cover_job, w)] /\
     (y_calls (cv_sys y) !! tid = Some (Waiting cover_job) \/
      y_calls (cv_sys y) !! tid = Some (Holding cover_job w))) /\
  (cv_pc y' = NotStarted \/ cv_pc y' = Exited \/
   forall nowNs, (exists tid y2, cover_step undef cfg false nowNs tid y' = Some y2) \/
     (exists tid, cv_pc y' = InFrame tid) /\ exists tid x, advance nowNs tid (cv_sys y') = Some x).
Proof.
  pose proof (cover_inv_run _ _ _ _ _ (cover_inv_start s0 g0) Hreach) as Hy.
  pose proof (cover_inv_run _ _ _ _ _ Hy Hrun) as Hy'.
  destruct (closed_run _ _ _ _ _ Hy Hrun Hclosed) as (Hw & Hc & Hm). split_and!; [|done|exact Hm|].
  - assert (cover_weight y <= 10)%nat; [|lia]. unfold cover_weight. destruct (cv_pc y); try lia.
    destruct (y_calls _ !! tid) as [p|]; cbn; [|lia]. unfold frame_weight, weight.
    destruct p as [| | | |[]|]; lia.
  - destruct (decide (cv_pc y' = NotStarted \/ cv_pc y' = Exited)) as [|Hn]; [tauto|].
    right. right. intros nowNs. apply (cover_progress s0); tauto.
Qed.
End CoverLemmas.

(** ** The policy *)

(** Every delay of the default configuration is in [[250ms, 750ms)], as
    [JitterFrac = 0.5] promises. *)
Theorem default_cover_delay {G} {E : Entropy G} undef (g : G) :
  250 * Millisecond <= (nextDelay undef DefaultCoverConfig g).1 < 750 * Millisecond.
Proof.
  assert (Hs : spanNs undef DefaultCoverConfig = 500 * Millisecond) by (vm_compute; reflexivity).
  pose proof (nextDelay_bounds undef DefaultCoverConfig g ltac:(vm_compute; split; congruence)) as H.
  cbn zeta in H. rewrite Hs in H.
  change (cfg_Interval DefaultCoverConfig) with (500 * Millisecond) in H.
  change (Z.quot (500 * Millisecond) 2) with 250000000 in H. unfold Millisecond in *. lia.
Qed.

(** Random numbers have 31 bits: with a span of [2^32] ns (4.3 s) or more,
    every tick comes before [Interval], and the upper half of the promised
    range is never reached. *)
Theorem cover_jitter_short {G} {E : Entropy G} undef cfg (g : G)
    (Hinterval : 0 < cfg_Interval cfg <= 2 ^ 63 - 2 ^ 31)
    (Hjitter : SFleb (cfg_JitterFrac cfg) (S754_zero false) = false) (Hspan : 2 ^ 32 <= spanNs undef cfg) :
  (nextDelay undef cfg g).1 < cfg_Interval cfg.
Proof.
  rewrite nextDelay_value by (done || lia). pose proof (secureRandIntn_bounds (spanNs undef cfg) g).
  assert (2 ^ 31 <= Z.quot (spanNs undef cfg) 2) by (apply Z.quot_le_lower_bound; lia). lia.
Qed.

Lemma cover_jitter_short_witness :
  (nextDelay 0 (mkCoverConfig (10000 * Millisecond) 1 half) (5 : Toy.gen)).1 < 10000 * Millisecond.
Proof.
  apply (cover_jitter_short 0 (mkCoverConfig (10000 * Millisecond) 1 half) (5 : Toy.gen)).
  - vm_compute. split; congruence.
  - vm_compute. reflexivity.
  - vm_compute. congruence.
Defined.

Section Policy.
Context {G : Type} {C : Crypto G} {E : Entropy G} `{!AEADLaws C} `{!EntropyLaws E}.
Context {T : Type} `{TransportLaws T}.
Context (undef : Z) (cfg : CoverConfig).

Lemma cover_run_trans n es n' es' (y1 y2 y3 : cover_sys T) :
  cover_run undef cfg n es y1 y2 -> cover_run undef cfg n' es' y2 y3 -> cover_run undef cfg (n + n') (es ++ es') y1 y3.
Proof.
  intros H1 H2. induction H1; cbn; [done|by eapply run_own; eauto| |by eapply run_other; eauto].
  rewrite <-app_assoc. eapply run_frame; eauto.
Qed.

(** The steps of a frame without interference. *)
Lemma run_call_cover fuel nowNs tid (y : cover_sys T) :
  cv_pc y = InFrame tid ->
  exists n es, cover_run undef cfg n es y (with_sys (run_call fuel nowNs tid (cv_sys y)) y).
Proof.
  revert y. induction fuel as [|fuel IH]; intros y Hpc.
  { exists 0%nat, []. cbn. destruct y. apply run_nil. }
  cbn. destruct (advance nowNs tid (cv_sys y)) as [x|] eqn:Ha; [|exists 0%nat, []; destruct y; apply run_nil].
  destruct (advance_log _ _ _ _ Ha) as (p & e & _ & Hl & _). destruct (IH (with_sys x y) Hpc) as (n & es & Hr).
  exists (S n), (e ++ es). by eapply run_frame.
Qed.

Lemma cover_no_panic nowNs (s : SecureStream AEAD T) (g : G) :
  (sendFrame nowNs FramePaddingOnly [] [] (-1) (s, g)).1 <> Panic.
Proof.
  unfold sendFrame. cbn [fst]. destruct (ss_closed s); [done|].
  destruct (send_encode_total FramePaddingOnly [] [] (-1) s g) as ([w|e|] & g' & buf & Hs).
  - destruct Hs as (pad & _ & _ & ->). cbn [sbind]. by destruct (send_transmit w _) as [[e|] s'].
  - rewrite Hs. done.
  - destruct Hs as [Hh _]. vm_compute in Hh. done.
Qed.

(** The steps of a round without interference make up [cover_tick]. *)
Theorem cover_round_solo nowNs (s : SecureStream AEAD T) (g : G) calls log d :
  let y := mkCover (mkSystem s g None (once_of s) calls log) Fired d in
  let '(d', (s', g')) := cover_tick undef cfg nowNs (s, g) in
  exists n es y', cover_run undef cfg n es y y' /\ y_stream (cv_sys y') = s' /\ y_gen (cv_sys y') = g' /\
    match d' with None => cv_pc y' = Exited | Some d' => cv_pc y' = Selecting /\ cv_timer y' = d' end.
Proof.
  cbn zeta. unfold cover_tick. destruct (ss_closed s) eqn:Hc.
  { exists 1%nat, []. eexists. split.
    - eapply (run_own _ _ _ _ false nowNs 0); [|apply run_nil]. unfold cover_step. cbn. by rewrite Hc.
    - done. }
  destruct (idle cfg nowNs s) eqn:Hi; unfold idle in Hi.
  - set (tid := fresh (dom calls)). assert (Ht : calls !! tid = None) by apply not_elem_of_dom, is_fresh.
    pose proof (solo_send nowNs tid cover_job s g calls log) as Hsolo. cbn zeta in Hsolo.
    set (x1 := mkSystem s g None (once_of s) (<[tid := Entered cover_job]> calls) log) in *.
    set (x2 := run_call 6 nowNs tid x1) in *. pose proof (cover_no_panic nowNs s g) as Hnp.
    unfold SendCoverPad. cbn [j_type j_meta j_payload j_pad cover_job] in Hsolo.
    destruct (sendFrame nowNs FramePaddingOnly [] [] (-1) (s, g)) as [o [s' g']]. cbn [fst snd] in *.
    destruct Hsolo as (Hs' & Hg' & _ & _ & Hcalls). destruct (nextDelay undef cfg g') as [d' g2] eqn:Hd.
    destruct (run_call_cover 6 nowNs tid (mkCover x1 (InFrame tid) d) eq_refl) as (n & es & Hr).
    exists (4 + (n + 2))%nat, (es ++ []). eexists. split.
    + eapply (run_own _ _ _ _ false nowNs 0); [unfold cover_step; cbn; by rewrite Hc|].
      eapply (run_own _ _ _ _ false nowNs 0); [done|].
      eapply (run_own _ _ _ _ false nowNs 0); [unfold cover_step; cbn; by rewrite Hi|].
      eapply (run_own _ _ _ _ false nowNs tid); [unfold cover_step; cbn; by rewrite Ht|].
      eapply cover_run_trans; [exact Hr|]. cbn [cv_sys].
      eapply (run_own _ _ _ _ false nowNs 0).
      { unfold cover_step. cbn [cv_pc cv_sys with_sys]. fold x2. rewrite Hcalls, lookup_insert_eq. by destruct o. }
      eapply (run_own _ _ _ _ false nowNs 0); [done|apply run_nil].
    + unfold arm. cbn [cv_sys at_pc with_sys]. fold x2. by rewrite Hg', Hd.
  - destruct (nextDelay undef cfg g) as [d' g2] eqn:Hd. exists 4%nat, []. eexists. split.
    + eapply (run_own _ _ _ _ false nowNs 0); [unfold cover_step; cbn; by rewrite Hc|].
      eapply (run_own _ _ _ _ false nowNs 0); [done|].
      eapply (run_own _ _ _ _ false nowNs 0); [unfold cover_step; cbn; by rewrite Hi|].
      eapply (run_own _ _ _ _ false nowNs 0); [done|apply run_nil].
    + unfold arm. cbn. by rewrite Hd.
Qed.

(** C35: one round of the cover loop on a working stream: when the application
    has been silent for [IdleAfter], exactly one padding frame goes out, which
    does not count as application activity; otherwise nothing is sent; the
    next delay is the interval, or within half a span around it. *)
Theorem cover_tick_policy nowNs (s : SecureStream AEAD T) (g : G) (Hs : working s)
    (Hinterval : 0 < cfg_Interval cfg <= 2 ^ 63 - 2 ^ 31) :
  exists d s' g' ms, cover_tick undef cfg nowNs (s, g) = (Some d, (s', g')) /\
    progress s s' ms /\ ss_lastSendNs s' = ss_lastSendNs s /\
    (if cfg_IdleAfter cfg <=? nowNs - ss_lastSendNs s
     then framed (ss_send s) [(FramePaddingOnly, [], [])] ms else ms = [] /\ s' = s) /\
    (d = cfg_Interval cfg \/
     cfg_Interval cfg - Z.quot (spanNs undef cfg) 2 <= d <
       cfg_Interval cfg - Z.quot (spanNs undef cfg) 2 + spanNs undef cfg).
Proof.
  unfold cover_tick. rewrite (wk_open _ Hs). unfold idle.
  assert (Hd : forall g1, exists d g2, nextDelay undef cfg g1 = (d, g2) /\ (d = cfg_Interval cfg \/
     cfg_Interval cfg - Z.quot (spanNs undef cfg) 2 <= d <
       cfg_Interval cfg - Z.quot (spanNs undef cfg) 2 + spanNs undef cfg)).
  { intros g1. pose proof (nextDelay_bounds undef cfg g1 Hinterval) as Hb. cbn zeta in Hb.
    destruct (nextDelay undef cfg g1) as [d g2]. exists d, g2. split; [done|]. cbn in Hb. lia. }
  destruct (Z.leb_spec (cfg_IdleAfter cfg) (nowNs - ss_lastSendNs s)).
  - destruct (sendFrame_framed nowNs FramePaddingOnly [] [] (-1) s g Hs) as (ms & s' & g' & Hr & Hf & Hp);
      [by unfold sendable, MaxMetaLen, MaxFramePad, MaxFrameSize; cbn; split_and!|].
    pose proof (sendFrame_cover_quiet nowNs s g) as Hq. unfold SendCoverPad. rewrite Hr in *. cbn [snd fst] in *.
    destruct (Hd g') as (d & g2 & -> & Hb). by exists d, s', g2, ms.
  - destruct (Hd g) as (d & g2 & -> & Hb). exists d, s, g2, []. split_and!; try done. by apply progress_nil.
Qed.
End Policy.

(** ** Witnesses *)

Module CoverExamples.
Import StreamExamples.
Abbreviation Sys := (cover_sys (G := Toy.gen) LengthFramer).
Definition own (y : Sys) : Sys := default y (cover_step 0 DefaultCoverConfig false 9000000000 7 y).
Definition of_frame (y : Sys) : Sys := with_sys (default (cv_sys y) (advance 9 7 (cv_sys y))) y.
Definition of_close (y : Sys) : Sys := with_sys (default (cv_sys y) (advance 9 1 (cv_sys y))) y.

(** The goroutine is started and gets past the test of [closed] inside
    [SendCoverPad]; then [Close] marks the stream. *)
Definition fresh0 : Sys := cover_start a0 (5 : Toy.gen).
Definition entered : Sys := own (own (own (own (own (own (own (own fresh0))))))).
Definition past_test : Sys := of_frame entered.
Definition called : Sys := with_sys (goto 1 (Closing AtOnce ByClose) (cv_sys past_test)) past_test.
Definition raced : Sys := of_close called.
(** Its frame still goes out; in the next round it exits. *)
Definition sent : Sys := of_frame (of_frame (of_frame raced)).
Definition ended : Sys := own (own (own (own sent))).

Lemma own_run (y : Sys) :
  bool_decide (is_Some (cover_step 0 DefaultCoverConfig false 9000000000 7 y)) = true ->
  cover_run 0 DefaultCoverConfig 1 [] y (own y).
Proof.
  intros [y1 Hy1]%bool_decide_eq_true. unfold own. rewrite Hy1. eapply run_own; [exact Hy1|apply run_nil].
Qed.

Lemma frame_run (y : Sys) :
  cv_pc y = InFrame 7 -> bool_decide (is_Some (advance 9 7 (cv_sys y))) = true ->
  exists es, cover_run 0 DefaultCoverConfig 1 es y (of_frame y).
Proof.
  intros Hpc [x Hx]%bool_decide_eq_true. destruct (advance_log _ _ _ _ Hx) as (p & e & _ & Hl & _).
  exists (e ++ []). unfold of_frame. rewrite Hx. eapply run_frame; [done|done|done|apply run_nil].
Qed.

(** The call of [Close], and a step of it. *)
Lemma call_run (y : Sys) :
  cv_pc y = InFrame 7 -> bool_decide (y_calls (cv_sys y) !! 1%nat = None) = true ->
  cover_run 0 DefaultCoverConfig 0 [] y (with_sys (goto 1 (Closing AtOnce ByClose) (cv_sys y)) y).
Proof.
  intros Hpc Hn%bool_decide_eq_true. eapply run_other; [|apply run_nil].
  split_and!; [by apply step_close|done|]. intros tid Ht. rewrite Hpc in Ht. injection Ht as <-.
  by apply lookup_insert_ne.
Qed.

Lemma close_run (y : Sys) :
  cv_pc y = InFrame 7 -> bool_decide (is_Some (advance 9 1 (cv_sys y))) = true ->
  ss_coverStarted (y_stream (cv_sys (of_close y))) = ss_coverStarted (y_stream (cv_sys y)) ->
  cover_run 0 DefaultCoverConfig 0 [] y (of_close y).
Proof.
  intros Hpc [x Hx]%bool_decide_eq_true. unfold of_close. rewrite Hx. intros Hcov.
  eapply run_other; [|apply run_nil]. split_and!; [by eapply step_advance|done|].
  destruct (advance_log _ _ _ _ Hx) as (p & e & Hcalls & _). intros tid Ht. rewrite Hpc in Ht. injection Ht as <-.
  cbn. rewrite Hcalls. by apply lookup_insert_ne.
Qed.

Ltac own_step := eapply (cover_run_trans _ _ _ [] 1 []); [|apply own_run; vm_compute; reflexivity].

Lemma entered_reach : exists n, cover_run 0 DefaultCoverConfig n [] fresh0 entered.
Proof. eexists. unfold entered. do 8 own_step. apply run_nil. Qed.

Lemma raced_reach : exists n es, cover_run 0 DefaultCoverConfig n es fresh0 raced.
Proof.
  destruct entered_reach as [n Hn].
  destruct (frame_run entered) as [es Hes]; [vm_compute; reflexivity|vm_compute; reflexivity|].
  eexists _, _. eapply cover_run_trans; [exact Hn|]. eapply cover_run_trans; [exact Hes|].
  eapply cover_run_trans; [apply call_run; vm_compute; reflexivity|].
  apply close_run; vm_compute; reflexivity.
Qed.

(** The steps of the goroutine after the stream has been closed. *)
Lemma ended_reach : exists es, cover_run 0 DefaultCoverConfig 7 es raced ended.
Proof.
  destruct (frame_run raced) as [e1 H1]; [vm_compute; reflexivity|vm_compute; reflexivity|].
  destruct (frame_run (of_frame raced)) as [e2 H2]; [vm_compute; reflexivity|vm_compute; reflexivity|].
  destruct (frame_run (of_frame (of_frame raced))) as [e3 H3]; [vm_compute; reflexivity|vm_compute; reflexivity|].
  exists (e1 ++ e2 ++ e3 ++ []). apply (cover_run_trans _ _ 1 e1 6 (e2 ++ e3 ++ []) _ (of_frame raced) _ H1).
  apply (cover_run_trans _ _ 1 e2 5 (e3 ++ []) _ (of_frame (of_frame raced)) _ H2).
  apply (cover_run_trans _ _ 1 e3 4 [] _ sent _ H3). unfold ended.
  change 4%nat with (0 + 1 + 1 + 1 + 1)%nat. do 4 own_step. apply run_nil.
Qed.
End CoverExamples.
Import CoverExamples.

(** The frame that was past the test goes out after [Close], and the goroutine
    then exits. *)
Lemma cover_goroutine_exits_witness :
  cv_pc ended = Exited /\ ss_closed (y_stream (cv_sys ended)) = true /\
  y_log (cv_sys raced) = [] /\ (e_tid <$> y_log (cv_sys ended)) = [7%nat].
Proof.
  destruct raced_reach as (n0 & es0 & H0). destruct ended_reach as (es & H1).
  destruct (cover_goroutine_exits 0 DefaultCoverConfig StreamExamples.a0 (5 : Toy.gen) n0 es0 7 es raced ended)
    as (_ & Hc & _).
  - exact H0.
  - vm_compute. reflexivity.
  - exact H1.
  - split_and!; [vm_compute; reflexivity|exact Hc|vm_compute; reflexivity|vm_compute; reflexivity].
Defined.

Lemma cover_tick_policy_witness :
  exists d s' g' ms, cover_tick 0 DefaultCoverConfig (600 * Millisecond) (StreamExamples.a0, 5 : Toy.gen) =
    (Some d, (s', g')) /\
    framed (ss_send StreamExamples.a0) [(FramePaddingOnly, [], [])] ms.
Proof.
  destruct (cover_tick_policy 0 DefaultCoverConfig (600 * Millisecond) StreamExamples.a0 (5 : Toy.gen))
    as (d & s' & g' & ms & Hr & _ & _ & Hf & _).
  - exact StreamExamples.a0_working.
  - vm_compute. split; congruence.
  - exists d, s', g', ms. split; [exact Hr|exact Hf].
Defined.
