(* ===== verification/Channel.v ===== *)
(** * The channel under an active attacker (src/securestream.go, src/frame.go)

    Two ends of a session whose network belongs to an attacker: what
    [ReadMessage] returns at either end, and what becomes of the messages
    given to [SendMessage], is up to him (he may replace a transport by any
    other at any time).  Cryptography is ideal in one respect: a message that
    starts with a frame whose ciphertext is valid under the key of the
    session carries a ciphertext that the peer has made ([unforged]).  The
    system is shown to refine a FIFO channel that can at worst be cut. *)

From S2P Require Import Prelude Address Crypto Io Kdf Padding Frame Transport SecureStream.
From S2P Require Import SecureStreamProofs.

(** ** Ciphertexts *)

(** An encryption: nonce, plaintext and additional data. *)
Definition sealing : Type := bytes * bytes * bytes.

Section Sealings.
Context {G : Type} {C : Crypto G} {E : Entropy G} `{!AEADLaws C}.

(** The encryptions behind the sent frames (each with its message), from the
    context [f] on. *)
Fixpoint sealings (f : FrameAEAD AEAD) (xs : list (content * bytes)) : list sealing :=
  match xs with
  | [] => []
  | ((_, meta, payload), wire) :: xs =>
      (arr_list (composeNonce f (fa_counter f)), meta ++ payload, sub wire 0 frameHeaderSize)
      :: sealings (bump f (fa_counter f)) xs
  end.

(** If [wire] starts with a frame that is valid under the key of [f], its
    encryption is among [made]. *)
Definition unforged (f : FrameAEAD AEAD) (made : list sealing) (wire : bytes) : Prop :=
  forall c t meta payload padLen rest,
    0 <= c < 2 ^ 64 -> 0 <= padLen -> encode_error t meta payload padLen = None ->
    wire = frame_body f c t meta payload padLen ++ rest ->
    (arr_list (composeNonce f c), meta ++ payload, frame_header c t meta payload padLen) ∈ made.

Lemma frame_body_bumps n f c t meta payload padLen :
  frame_body (bumps n f) c t meta payload padLen = frame_body f c t meta payload padLen.
Proof. unfold frame_body, composeNonce. by destruct (bumps_key n f) as [-> ->]. Qed.

Lemma sealings_elem f xs nonce pt aad :
  framed f xs.*1 xs.*2 -> (nonce, pt, aad) ∈ sealings f xs ->
  exists i t meta payload (pad : bytes) wire, xs !! i = Some ((t, meta, payload), wire) /\
    encode_error t meta payload (len pad) = None /\
    nonce = arr_list (composeNonce f (fa_counter (bumps i f))) /\ pt = meta ++ payload /\
    aad = frame_header (fa_counter (bumps i f)) t meta payload (len pad).
Proof.
  revert f. induction xs as [|[[[t meta] payload] wire] xs IH]; intros f Hf Hin;
    [by apply not_elem_of_nil in Hin|]. cbn in Hf.
  inversion Hf as [|? ? ? ? pad ? ? He Hrest]; subst. cbn [sealings] in Hin.
  apply elem_of_cons in Hin as [[= -> -> ->]|Hin].
  - eexists 0%nat, t, meta, payload, pad, _. split; [done|]. split; [exact He|].
    split; [done|]. split; [done|]. cbn [bumps].
    unfold frame_wire, frame_body. change frameHeaderSize with 17. rewrite <-app_assoc. by sub_simpl.
  - destruct (IH _ Hrest Hin) as (i & t' & meta' & payload' & pad' & wire' & Hi & He' & -> & -> & ->).
    by exists (S i), t', meta', payload', pad', wire'.
Qed.

(** The fields a header determines. *)
Lemma frame_header_inj c t meta payload n c' t' meta' payload' n' :
  0 <= c < 2 ^ 64 -> 0 <= c' < 2 ^ 64 -> encode_error t meta payload n = None -> encode_error t' meta' payload' n' =
    None ->
  frame_header c t meta payload n = frame_header c' t' meta' payload' n' ->
  c = c' /\ t = t' /\ length meta = length meta'.
Proof.
  intros Hc Hc' (_ & Hm & _)%encode_error_None (_ & Hm' & _)%encode_error_None Heq.
  unfold MaxMetaLen in *.
  destruct (frame_header_fields c t meta payload n) as (_ & H1 & H2 & H3 & _).
  destruct (frame_header_fields c' t' meta' payload' n') as (_ & H1' & H2' & H3' & _).
  rewrite <-Heq in H1', H2', H3'. split_and!; [|congruence|].
  - apply (be_put_inj 8); [lia|lia|congruence].
  - apply Nat2Z.inj, (be_put_inj 2); [lia|lia|congruence].
Qed.

(** The next frame the receiver accepts is the next one sent. *)
Lemma unforged_next f xs n t meta payload pad rest :
  fa_counter f = 0 -> framed f xs.*1 xs.*2 -> (n <= length xs)%nat -> Z.of_nat (length xs) < 2 ^ 64 ->
  encode_error t meta payload (len pad) = None ->
  unforged f (sealings f xs)
    (frame_body (bumps n f) (fa_counter (bumps n f)) t meta payload (len pad) ++ pad ++ rest) ->
  xs.*1 !! n = Some (t, meta, payload).
Proof.
  intros H0 Hf Hn Hlen He Hu.
  assert (Hcnt : forall k, (k <= length xs)%nat -> fa_counter (bumps k f) = Z.of_nat k).
  { intros k Hk. rewrite bumps_counter, H0 by lia. apply Z.mod_small. lia. }
  rewrite frame_body_bumps, (Hcnt n Hn) in Hu.
  specialize (Hu (Z.of_nat n) t meta payload (len pad) (pad ++ rest) ltac:(lia) ltac:(lia) He eq_refl).
  apply (sealings_elem f xs _ _ _ Hf) in Hu as (i & t' & meta' & payload' & pad' & wire & Hi & He' & _ & Hpt & Haad).
  assert (Hle : (i <= length xs)%nat) by exact (Nat.lt_le_incl _ _ (lookup_lt_Some _ _ _ Hi)).
  rewrite (Hcnt i Hle) in Haad.
  destruct (frame_header_inj (Z.of_nat n) t meta payload (len pad) (Z.of_nat i) t' meta' payload' (len pad'))
    as (Hni & <- & Hl); [lia|lia|done..|].
  apply Nat2Z.inj in Hni as <-. apply app_inj_1 in Hpt as [<- <-]; [|done].
  exact (eq_trans (list_lookup_fmap fst xs n) (f_equal (fmap fst) Hi)).
Qed.

(** The messages of the peer are not forgeries. *)
Lemma sent_unforged f t meta payload pad made :
  0 <= fa_counter f < 2 ^ 64 -> encode_error t meta payload (len pad) = None ->
  (arr_list (composeNonce f (fa_counter f)), meta ++ payload,
   frame_header (fa_counter f) t meta payload (len pad)) ∈ made ->
  unforged f made (frame_wire f t meta payload pad).
Proof.
  intros Hc He Hin c t' meta' payload' n rest Hc' Hn He' Hw. unfold frame_wire, frame_body in Hw.
  rewrite <-!app_assoc in Hw. apply app_inj_1 in Hw as [Hh Hw]; [|by rewrite !length_frame_header].
  destruct (frame_header_inj _ _ _ _ _ _ _ _ _ _ Hc Hc' He He' Hh) as (<- & <- & Hl).
  assert (Hlen : length (meta ++ payload) = length (meta' ++ payload')).
  { destruct (frame_header_fields (fa_counter f) t meta payload (len pad)) as (H1 & _ & _ & _ & H5).
    destruct (frame_header_fields (fa_counter f) t meta' payload' n) as (H1' & _ & _ & _ & H5').
    rewrite <-Hh in H1', H5'. apply encode_error_None in He as (_ & ? & Hp & Hf).
    apply encode_error_None in He' as (_ & ? & Hp' & Hf').
    unfold frame_len, MaxFramePad, MaxFrameSize, frameHdrCounter, frameHdrType, frameHdrMetaLen, frameHdrPadLen, aeadTagLen in *.
    rewrite Z.max_r in Hf, Hf' by lia.
    assert (Hpad : len pad = n) by (apply (be_put_inj 2); [lia|lia|congruence]).
    rewrite H1 in H1'. apply (be_put_inj 4) in H1'; [|lia|lia]. rewrite !length_app. lia. }
  apply app_inj_1 in Hw as [Hs _]; [|rewrite !length_Seal; lia].
  rewrite Hh in Hs. pose proof (Open_Seal (fa_aead f) (arr_list (composeNonce f (fa_counter f))) (meta ++ payload)
    (frame_header (fa_counter f) t meta' payload' n)) as Ho.
  rewrite Hs, Open_Seal in Ho. injection Ho as ->. by rewrite <-Hh.
Qed.

(** A message too short for a frame is not one. *)
Lemma short_unforged f made wire : len wire < 33 -> unforged f made wire.
Proof.
  intros Hl c t meta payload n rest _ _ _ ->. unfold frame_body in Hl.
  rewrite !length_app, length_frame_header, length_Seal in Hl. lia.
Qed.
End Sealings.

(** ** Two ends and a network *)

Inductive side := Left | Right.
Definition other (d : side) : side := match d with Left => Right | Right => Left end.

Section Session.
Context {G : Type} {C : Crypto G} {E : Entropy G}.
Context {T : Type} {MT : MessageTransport T}.
(** The sending context each side starts with. *)
Context (base : side -> FrameAEAD AEAD).

(** One end: its stream, the frames it has sealed (each with its message) and
    the events it has received. *)
Record peer := mkPeer {
  p_stream : SecureStream AEAD T;
  p_sent : list (content * bytes);
  p_got : list Event
}.

Definition contents (p : peer) : list content := (p_sent p).*1.

Record session := mkSession { s_left : peer; s_right : peer; s_gen : G }.

Definition at_side (d : side) (s : session) : peer := match d with Left => s_left s | Right => s_right s end.
Definition put (d : side) (p : peer) (g : G) (s : session) : session :=
  match d with
  | Left => mkSession p (s_right s) g
  | Right => mkSession (s_left s) p g
  end.

Definition fresh_peer (tr : T) (d : side) : peer := mkPeer (new_stream tr (base d) (base (other d))) [] [].
Definition open_session (trl trr : T) (g : G) : session :=
  mkSession (fresh_peer trl Left) (fresh_peer trr Right) g.

(** The frame a call of [sendFrame] seals, if it gets that far. *)
Definition sealed_by (t : FrameType) (meta payload : bytes) (padLen : Z) (st : SecureStream AEAD T * G)
  : list (content * bytes) :=
  if ss_closed st.1 then [] else
  match (send_encode t meta payload padLen st).1 with
  | Ret wire => [((t, meta, payload), wire)]
  | _ => []
  end.

Definition peer_send (nowNs : Z) (t : FrameType) (meta payload : bytes) (padLen : Z) (p : peer) (g : G) : peer * G :=
  let st := (p_stream p, g) in
  let '(_, (s, g)) := sendFrame nowNs t meta payload padLen st in
  (mkPeer s (p_sent p ++ sealed_by t meta payload padLen st) (p_got p), g).

Definition peer_recv (p : peer) : peer :=
  let '(o, s) := Recv (p_stream p) in
  mkPeer s (p_sent p) (p_got p ++ match o with Ret ev => [ev] | _ => [] end).

Definition with_p (s : SecureStream AEAD T) (p : peer) : peer := mkPeer s (p_sent p) (p_got p).

(** What may happen: an end sends, receives, closes or starts cover traffic;
    the attacker replaces the transport of an end, and with it everything that
    will be read from it; somebody else uses the randomness source. *)
Inductive net_step : session -> session -> Prop :=
  | ns_send d nowNs t meta payload padLen s p g :
      peer_send nowNs t meta payload padLen (at_side d s) (s_gen s) = (p, g) ->
      net_step s (put d p g s)
  | ns_recv d s :
      (forall wire tr, ReadMessage (ss_tr (p_stream (at_side d s))) = (Ret wire, tr) ->
         unforged (base (other d)) (sealings (base (other d)) (p_sent (at_side (other d) s))) wire) ->
      net_step s (put d (peer_recv (at_side d s)) (s_gen s) s)
  | ns_close d s :
      net_step s (put d (with_p (Close (p_stream (at_side d s))).2 (at_side d s)) (s_gen s) s)
  | ns_cover d cfg s :
      net_step s (put d (with_p (StartCoverTraffic cfg (p_stream (at_side d s))).2 (at_side d s)) (s_gen s) s)
  | ns_attack d tr s :
      net_step s (put d (with_p (set_tr tr (p_stream (at_side d s))) (at_side d s)) (s_gen s) s)
  | ns_rand g s : net_step s (mkSession (s_left s) (s_right s) g).

(** ** The ideal channel *)

(** What has been sent and not delivered, what has been delivered, and whether
    the channel has been cut. *)
Record ideal := mkIdeal { i_queue : list content; i_got : list Event; i_cut : bool }.

Inductive ideal_step : ideal -> ideal -> Prop :=
  | is_send x q got cut : ideal_step (mkIdeal q got cut) (mkIdeal (q ++ [x]) got cut)
  | is_deliver x q got ev :
      decodes x ev -> ideal_step (mkIdeal (x :: q) got false) (mkIdeal q (got ++ [ev]) false)
  | is_cut q got cut : ideal_step (mkIdeal q got cut) (mkIdeal q got true).

(** The direction from [d] of a session, as an ideal channel. *)
Definition abstract (d : side) (s : session) : ideal :=
  let got := p_got (at_side (other d) s) in
  mkIdeal (drop (length got) (contents (at_side d s))) got (ss_closed (p_stream (at_side (other d) s))).
End Session.
Arguments peer {G C} T : rename.
Arguments session {G C} T : rename.

(** ** The invariant *)

Section Refinement.
Context {G : Type} {C : Crypto G} {E : Entropy G} `{!AEADLaws C}.
Context {T : Type} {MT : MessageTransport T}.
Context (base : side -> FrameAEAD AEAD) (Hbase : forall d, fa_counter (base d) = 0).

Abbreviation Session := (session T).

Lemma at_put d p g (s : Session) : at_side d (put d p g s) = p.
Proof. by destruct d. Qed.
Lemma at_put_other d p g (s : Session) : at_side (other d) (put d p g s) = at_side (other d) s.
Proof. by destruct d. Qed.
Lemma other_other d : other (other d) = d.
Proof. by destruct d. Qed.

(** The sending and the receiving half of the direction from [d]. *)
Record sender_ok (d : side) (p : peer T) : Prop := {
  sk_consistent : consistent (p_stream p);
  sk_framed : framed (base d) (contents p) (p_sent p).*2;
  sk_ctx : ss_send (p_stream p) = bumps (length (p_sent p)) (base d)
}.

Record receiver_ok (d : side) (sent : list content) (q : peer T) : Prop := {
  rk_got : Forall2 decodes (take (length (p_got q)) sent) (p_got q);
  rk_ctx : ss_closed (p_stream q) = false -> ss_recv (p_stream q) = bumps (length (p_got q)) (base d)
}.

(** Whatever the transport does, a call of [sendFrame] seals at most its own
    frame. *)
Lemma sendFrame_sealed nowNs t meta payload padLen (s : SecureStream AEAD T) (g : G) :
  let '(o, (s', g')) := sendFrame nowNs t meta payload padLen (s, g) in
  let xs := sealed_by t meta payload padLen (s, g) in
  framed (ss_send s) xs.*1 xs.*2 /\ ss_send s' = bumps (length xs) (ss_send s) /\
  ss_recv s' = ss_recv s /\ (ss_closed s = true -> ss_closed s' = true).
Proof.
  unfold sendFrame, sealed_by. cbn [fst]. destruct (ss_closed s) eqn:Hc; [by split_and!; [constructor|..]|].
  destruct (send_encode_total t meta payload padLen s g) as ([wire|e|] & g' & buf & H).
  - destruct H as (pad & He & -> & ->). cbn [sbind fst].
    assert (Hf : framed (ss_send s) [(t, meta, payload)] [frame_wire (ss_send s) t meta payload pad])
      by (constructor; [done|constructor]).
    unfold send_transmit. destruct (SendMessage _ _) as [[e|] tr].
    + split; [exact Hf|]. unfold closeUnderlying. rewrite Close_eq. by destruct (ss_closeOnce _).
    + split; [exact Hf|]. unfold send_account. by destruct (bool_decide _).
  - rewrite H. cbn [sbind fst]. by split_and!; [constructor|..].
  - destruct H as [_ ->]. cbn [sbind fst]. by split_and!; [constructor|..].
Qed.

Lemma peer_send_ok d nowNs t meta payload padLen (p : peer T) (g : G) p' g' :
  peer_send nowNs t meta payload padLen p g = (p', g') -> sender_ok d p ->
  sender_ok d p' /\ (exists xs, p_sent p' = p_sent p ++ xs /\ (length xs <= 1)%nat) /\ p_got p' = p_got p /\
  ss_recv (p_stream p') = ss_recv (p_stream p) /\ (ss_closed (p_stream p) = true -> ss_closed (p_stream p') = true).
Proof.
  unfold peer_send. pose proof (sendFrame_sealed nowNs t meta payload padLen (p_stream p) g) as Hs.
  pose proof (sendFrame_keeps nowNs t meta payload padLen (p_stream p) g) as Hk.
  destruct (sendFrame _ _ _ _ _ _) as [o [s1 g1]]. destruct Hs as (Hf & Hsend & Hrecv & Hcl).
  set (xs := sealed_by _ _ _ _ _) in *. intros [= <- <-] [H1 H2 H3]. cbn.
  destruct (Hk H1) as [_ Hcons]. split_and!; try done.
  - split; cbn; [done| |].
    + unfold contents in *. cbn. rewrite !fmap_app. eapply framed_app; [done|]. by rewrite length_fmap, <-H3.
    + by rewrite Hsend, H3, length_app, bumps_plus.
  - exists xs. split; [done|]. unfold xs, sealed_by. destruct (ss_closed _); [cbn; lia|].
    destruct (send_encode _ _ _ _ _) as [[w|e|] st]; cbn; lia.
Qed.

(** What one [Recv] of the receiver means for the direction from [d]. *)
Inductive recv_effect (sent : list content) (q q' : peer T) : Prop :=
  | re_next x ev :
      sent !! length (p_got q) = Some x -> decodes x ev ->
      ss_closed (p_stream q) = false -> ss_closed (p_stream q') = false -> p_got q' = p_got q ++ [ev] ->
      recv_effect sent q q'
  | re_none :
      p_got q' = p_got q -> (ss_closed (p_stream q) = true -> ss_closed (p_stream q') = true) ->
      recv_effect sent q q'.

Lemma Recv_send (s : SecureStream AEAD T) : ss_send (Recv s).2 = ss_send s.
Proof.
  unfold Recv. destruct (ss_closed _); [done|]. unfold recv_body, closeUnderlying.
  destruct (ReadMessage _) as [[w|e|] tr]; cbn [sbind]; [| |done].
  - destruct (DecodeFrame _ _) as [[[df f]|e|] r]; cbn [fst wrap_err sbind]; [| |done].
    + destruct (event_of df); [done| |done]. rewrite Close_eq. by destruct (ss_closeOnce _).
    + rewrite Close_eq. by destruct (ss_closeOnce _).
  - rewrite Close_eq. by destruct (ss_closeOnce _).
Qed.

Lemma peer_recv_sender d (q : peer T) :
  sender_ok d q -> sender_ok d (peer_recv q) /\ p_sent (peer_recv q) = p_sent q.
Proof.
  intros [Hqc Hqf Hqs]. unfold peer_recv. pose proof (Recv_keeps (p_stream q) Hqc) as Hk.
  pose proof (Recv_send (p_stream q)) as Hs. destruct (Recv (p_stream q)) as [o s']. split; [|done].
  split; cbn in *; [apply Hk|done|congruence].
Qed.

(** A frame that the receiver decodes is the next one of the sender. *)
Lemma recv_body_next d (p : peer T) n (s s' : SecureStream AEAD T) o :
  framed (base d) (contents p) (p_sent p).*2 -> (n <= length (p_sent p))%nat ->
  Z.of_nat (length (p_sent p)) < 2 ^ 64 -> ss_recv s = bumps n (base d) ->
  (forall wire tr, ReadMessage (ss_tr s) = (Ret wire, tr) ->
     unforged (base d) (sealings (base d) (p_sent p)) wire) ->
  recv_body s = (o, s') ->
  ss_closed s' = ss_closed s /\
  match o with
  | Ret ev => exists x, contents p !! n = Some x /\ decodes x ev /\ ss_recv s' = bumps (S n) (base d)
  | Fail _ => True
  | Panic => ss_recv s' = ss_recv s
  end.
Proof.
  intros Hfr Hn Hlen Hctx Hun. unfold recv_body.
  destruct (ReadMessage _) as [[w|e|] tr] eqn:Hr; cbn [sbind]; [|by intros [= <- <-]..].
  pose proof (DecodeFrame_inv (bytes_NewReader w) (ss_recv (set_tr tr s))) as Hd.
  destruct (DecodeFrame _ _) as [[[df f]|e|] r]; cbn [fst wrap_err sbind]; [|by intros [= <- <-]|done].
  destruct Hd as [(pad & Hw & _ & He) ->]. cbn [ss_recv set_tr] in *. rewrite Hctx in *.
  intros [= Hev <-]. rewrite rd_bytes_NewReader in Hw. split; [done|].
  pose proof (event_of_no_panic df) as Hne. destruct o as [ev|e|]; [|done|congruence].
  exists (df_Type df, df_Meta df, df_Payload df). split_and!.
  - eapply (unforged_next (base d) (p_sent p)); [done|exact Hfr|done|done|exact He|]. rewrite <-Hw. by eapply Hun.
  - intros c. exact Hev.
  - symmetry. rewrite <-(Nat.add_1_r n). exact (bumps_plus n 1 (base d)).
Qed.

Lemma got_le d sent (q : peer T) : receiver_ok d sent q -> (length (p_got q) <= length sent)%nat.
Proof. intros [Hg _]. apply Forall2_length in Hg. rewrite length_take in Hg. lia. Qed.

Lemma peer_recv_ok d (p q : peer T) :
  sender_ok d p -> receiver_ok d (contents p) q -> consistent (p_stream q) ->
  Z.of_nat (length (p_sent p)) < 2 ^ 64 ->
  (forall wire tr, ReadMessage (ss_tr (p_stream q)) = (Ret wire, tr) ->
     unforged (base d) (sealings (base d) (p_sent p)) wire) ->
  receiver_ok d (contents p) (peer_recv q) /\ recv_effect (contents p) q (peer_recv q).
Proof.
  intros [_ Hfr _] Hrk Hqc Hlen Hun. pose proof (got_le _ _ _ Hrk) as Hle. destruct Hrk as [Hgot Hctx].
  unfold contents at 1 in Hle. rewrite length_fmap in Hle.
  pose proof (Recv_keeps (p_stream q) Hqc) as Hk. unfold peer_recv, Recv in *.
  destruct (ss_closed (p_stream q)) eqn:Hcl.
  { cbn. rewrite app_nil_r. split; [split; cbn; [done|congruence]|]. by apply re_none. }
  destruct (recv_body (p_stream q)) as [o s1] eqn:Hb.
  destruct (recv_body_next d p _ _ _ _ Hfr Hle Hlen (Hctx eq_refl) Hun Hb) as [Hc1 Hx].
  destruct o as [ev|e|]; rewrite ?app_nil_r.
  - destruct Hx as (x & Hlk & Hdec & Hr1). split; [|eapply re_next; [done|done|done|by rewrite <-Hcl|done]].
    split; cbn; rewrite length_app, Nat.add_1_r; [|done].
    rewrite (take_S_r _ _ _ Hlk). apply Forall2_app; [done|]. by constructor.
  - destruct Hk as (_ & Hcl' & _). specialize (Hcl' e eq_refl).
    split; [split; cbn; [done|congruence]|]. by apply re_none.
  - split; [split; cbn; [done|intros _; rewrite Hx; by apply Hctx]|]. apply re_none; [done|]. cbn. congruence.
Qed.

Definition ideal0 : ideal := mkIdeal [] [] false.

(** Both directions; delivery is in order as long as counters do not repeat. *)
Definition session_ok (s : Session) : Prop := forall d,
  sender_ok d (at_side d s) /\
  (Z.of_nat (length (p_sent (at_side d s))) < 2 ^ 64 ->
   receiver_ok d (contents (at_side d s)) (at_side (other d) s) /\ rtc ideal_step ideal0 (abstract d s)).

(** The queue of the ideal channel takes up what is sent. *)
Lemma ideal_extend xs q got cut : rtc ideal_step (mkIdeal q got cut) (mkIdeal (q ++ xs) got cut).
Proof.
  revert q. induction xs as [|x xs IH]; intros q; [by rewrite app_nil_r|].
  eapply rtc_l; [apply (is_send x)|]. specialize (IH (q ++ [x])). by rewrite <-app_assoc in IH.
Qed.

(** An end does anything but receive. *)
Lemma session_quiet s d p' g xs :
  session_ok s -> let p := at_side d s in
  sender_ok d p' -> p_sent p' = p_sent p ++ xs -> p_got p' = p_got p ->
  ss_recv (p_stream p') = ss_recv (p_stream p) ->
  (ss_closed (p_stream p) = true -> ss_closed (p_stream p') = true) ->
  session_ok (put d p' g s).
Proof.
  intros Hs p Hsend Hsent Hgot Hrecv Hcl.
  assert (Hd : forall e, e = d \/ e = other d) by (intros e; destruct e, d; auto).
  intros e. destruct (Hd e) as [->| ->].
  - unfold abstract. rewrite at_put, at_put_other. split; [done|]. rewrite Hsent, length_app. intros Hlen.
    destruct (proj2 (Hs d)) as [Hr Hi]; [fold p; lia|]. pose proof (got_le _ _ _ Hr) as Hle. fold p in Hr, Hle.
    assert (Hc : contents p' = contents p ++ xs.*1) by (unfold contents; by rewrite Hsent, fmap_app).
    rewrite Hc. split.
    + destruct Hr as [Hr1 Hr2]. split; [|done]. by rewrite take_app_le.
    + rewrite drop_app_le by done. eapply rtc_trans; [exact Hi|]. apply ideal_extend.
  - unfold abstract. rewrite other_other, at_put, at_put_other. destruct (Hs (other d)) as [Hso Hr].
    split; [done|]. intros Hlen. destruct (Hr Hlen) as [[Hr1 Hr2] Hi]. unfold abstract in Hi.
    rewrite other_other in Hr1, Hr2, Hi. fold p in Hr1, Hr2, Hi. rewrite Hgot. split.
    + split; [by rewrite Hgot|]. rewrite Hgot, Hrecv. intros Hf. apply Hr2.
      destruct (ss_closed (p_stream p)); [|done]. by rewrite Hcl in Hf.
    + eapply rtc_trans; [exact Hi|]. destruct (ss_closed (p_stream p)), (ss_closed (p_stream p')) eqn:Hc2;
        [done|by specialize (Hcl eq_refl)|apply rtc_once, is_cut|done].
Qed.

Lemma session_recv s d :
  session_ok s ->
  (forall wire tr, ReadMessage (ss_tr (p_stream (at_side d s))) = (Ret wire, tr) ->
     unforged (base (other d)) (sealings (base (other d)) (p_sent (at_side (other d) s))) wire) ->
  session_ok (put d (peer_recv (at_side d s)) (s_gen s) s).
Proof.
  intros Hs Hun. destruct (peer_recv_sender d (at_side d s) (proj1 (Hs d))) as [Hsd Hsent].
  assert (Hd : forall e, e = d \/ e = other d) by (intros e; destruct e, d; auto).
  intros e. destruct (Hd e) as [->| ->].
  - unfold abstract, contents. rewrite at_put, at_put_other, Hsent. split; [done|]. apply (Hs d).
  - unfold abstract. rewrite other_other, at_put, at_put_other. destruct (Hs (other d)) as [Hso Hr].
    split; [done|]. intros Hlen. destruct (Hr Hlen) as [Hrk Hi]. unfold abstract in Hi. rewrite other_other in Hrk, Hi.
    destruct (peer_recv_ok (other d) _ _ Hso Hrk (sk_consistent _ _ (proj1 (Hs d))) Hlen Hun) as [Hrk' Heff].
    split; [done|]. eapply rtc_trans; [exact Hi|].
    destruct Heff as [x ev Hlk Hdec Hc Hc' Hg|Hg Hc].
    + rewrite Hc, Hc', Hg, length_app, Nat.add_1_r, (drop_S _ _ _ Hlk). apply rtc_once. by constructor.
    + rewrite Hg. destruct (ss_closed (p_stream (at_side d s))), (ss_closed (p_stream (peer_recv (at_side d s)))) eqn:Hc2;
        [done|by specialize (Hc eq_refl)|apply rtc_once, is_cut|done].
Qed.

Lemma sender_same d (p : peer T) s :
  sender_ok d p -> consistent s -> ss_send s = ss_send (p_stream p) -> sender_ok d (with_p s p).
Proof. intros [H1 H2 H3] Hc Hs. split; cbn; [done|done|congruence]. Qed.

Lemma session_step s s' : session_ok s -> net_step base s s' -> session_ok s'.
Proof.
  intros Hs Hst. destruct Hst as [d nowNs t meta payload padLen s p g Hp|d s Hun|d s|d cfg s|d tr s|g s].
  - destruct (peer_send_ok d _ _ _ _ _ _ _ _ _ Hp (proj1 (Hs d))) as (H1 & (xs & Hxs & _) & H2 & H3 & H4).
    by eapply session_quiet.
  - by apply session_recv.
  - destruct (Close_closed _ (sk_consistent _ _ (proj1 (Hs d)))) as [H1 H2].
    eapply (session_quiet s d _ _ []); [done| | |done| |by intros _]; cbn.
    + apply sender_same; [apply Hs|done|]. rewrite Close_eq. by destruct (ss_closeOnce _).
    + by rewrite app_nil_r.
    + rewrite Close_eq. by destruct (ss_closeOnce _).
  - pose proof (sk_consistent _ _ (proj1 (Hs d))) as [H1 H2 H3].
    assert (Hc : consistent (StartCoverTraffic cfg (p_stream (at_side d s))).2 /\
      ss_send (StartCoverTraffic cfg (p_stream (at_side d s))).2 = ss_send (p_stream (at_side d s)) /\
      ss_recv (StartCoverTraffic cfg (p_stream (at_side d s))).2 = ss_recv (p_stream (at_side d s)) /\
      ss_closed (StartCoverTraffic cfg (p_stream (at_side d s))).2 = ss_closed (p_stream (at_side d s))).
    { unfold StartCoverTraffic. destruct (_ || _); [by split_and!|]. destruct (ss_coverStarted _); by split_and!. }
    destruct Hc as (Hc & Hse & Hre & Hcl). eapply (session_quiet s d _ _ []); [done|..]; cbn; try done.
    + apply sender_same; [apply Hs|done|done].
    + by rewrite app_nil_r.
    + congruence.
  - pose proof (sk_consistent _ _ (proj1 (Hs d))) as [H1 H2 H3].
    eapply (session_quiet s d _ _ []); [done|..]; cbn; try done.
    + apply sender_same; [apply Hs|by split|done].
    + by rewrite app_nil_r.
  - exact Hs.
Qed.

Lemma session_start trl trr g : session_ok (open_session base trl trr g).
Proof.
  intros d. assert (Hp : forall tr, sender_ok d (fresh_peer base tr d)).
  { intros tr. split; cbn; [|constructor|done]. split; cbn; [done|by rewrite Hbase|left; by rewrite Hbase]. }
  destruct d; (split; [apply Hp|]); intros _; (split; [split; [constructor|done]|constructor]).
Qed.

(** The calls of the application are such steps: a call of the sending API,
    whatever becomes of it, is a run of them. *)
Definition call_runs (d : side) (s : Session) (r : outcome unit * (SecureStream AEAD T * G)) : Prop :=
  exists xs, rtc (net_step base) s (put d (mkPeer r.2.1 (p_sent (at_side d s) ++ xs) (p_got (at_side d s))) r.2.2 s).

Lemma put_same d (s : Session) g :
  put d (mkPeer (p_stream (at_side d s)) (p_sent (at_side d s) ++ []) (p_got (at_side d s))) g s =
  mkSession (s_left s) (s_right s) g.
Proof. destruct s as [[? ? ?] [? ? ?] ?], d; cbn; by rewrite app_nil_r. Qed.

Lemma put_put d p g p' g' (s : Session) : put d p' g' (put d p g s) = put d p' g' s.
Proof. by destruct d. Qed.

Lemma frame_runs d nowNs t meta payload padLen (s : Session) :
  call_runs d s (sendFrame nowNs t meta payload padLen (p_stream (at_side d s), s_gen s)).
Proof.
  exists (sealed_by t meta payload padLen (p_stream (at_side d s), s_gen s)). apply rtc_once.
  apply (ns_send base d nowNs t meta payload padLen). unfold peer_send.
  by destruct (sendFrame _ _ _ _ _ _) as [o [s' g']].
Qed.

(** Randomness is drawn, then the call goes on. *)
Lemma rand_runs d (s : Session) g r :
  call_runs d (mkSession (s_left s) (s_right s) g) r -> call_runs d s r.
Proof. intros [xs Hr]. exists xs. eapply rtc_l; [apply (ns_rand base g)|]. by destruct d. Qed.

(** One call after the other. *)
Lemma calls_run d (s : Session) s1 g1 o1 (k : SecureStream AEAD T * G -> outcome unit * (SecureStream AEAD T * G)) :
  call_runs d s (o1, (s1, g1)) ->
  (forall s2, p_stream (at_side d s2) = s1 -> s_gen s2 = g1 -> call_runs d s2 (k (s1, g1))) ->
  call_runs d s (k (s1, g1)).
Proof.
  intros [xs Hx] Hk. cbn [fst snd] in Hx.
  edestruct (Hk (put d (mkPeer s1 (p_sent (at_side d s) ++ xs) (p_got (at_side d s))) g1 s))
    as [ys Hy]; [by rewrite at_put|by destruct d|].
  exists (xs ++ ys). eapply rtc_trans; [exact Hx|]. rewrite at_put, put_put in Hy. cbn [p_sent p_got] in Hy.
  by rewrite app_assoc.
Qed.

Lemma reshape_runs d fuel nowNs payload (s : Session) :
  call_runs d s (reshape_loop fuel nowNs payload (p_stream (at_side d s), s_gen s)).
Proof.
  assert (Hstop : forall s1 g, exists xs : list (content * bytes), rtc (net_step base) s1
    (put d (mkPeer (p_stream (at_side d s1)) (p_sent (at_side d s1) ++ xs) (p_got (at_side d s1))) g s1)).
  { intros s1 g. exists []. rewrite put_same. apply rtc_once, ns_rand. }
  revert payload s. induction fuel as [|fuel IH]; intros payload s; cbn [reshape_loop];
    (destruct (len payload =? 0); [apply Hstop|]); [apply Hstop|].
  destruct (if reshapeMax <? len payload then _ else _) as [c g1]. unfold lift.
  destruct (slice payload 0 _) as [piece|e|]; cbn [sbind]; [|apply Hstop..].
  apply (rand_runs d s g1).
  pose proof (frame_runs d nowNs FrameTCPData [] piece (-1) (mkSession (s_left s) (s_right s) g1)) as Hf.
  replace (p_stream (at_side d (mkSession (s_left s)
    (s_right s) g1))) with (p_stream (at_side d s)) in Hf by (by destruct d).
  cbn [s_gen] in Hf. destruct (sendFrame _ _ _ _ _ _) as [[[]|e|] [s1 g2]]; cbn [sbind]; [|exact Hf..].
  destruct (slice payload _ _) as [rest|e|]; cbn [sbind]; [|exact Hf..].
  eapply calls_run; [exact Hf|]. intros s2 <- <-. apply IH.
Qed.

Lemma run_op_runs d nowNs o (s : Session) :
  call_runs d s (run_op nowNs o (p_stream (at_side d s), s_gen s)).
Proof.
  assert (Hmeta : forall t gid a payload, call_runs d s
    (letS meta, st := lift (buildUDPMeta gid a) (p_stream (at_side d s), s_gen s) ;;
      sendFrame nowNs t meta payload (-1) st)).
  { intros t gid a payload. unfold lift. destruct (buildUDPMeta gid a); cbn [sbind]; [apply frame_runs|..];
      (exists []; cbn [fst snd]; rewrite put_same; apply rtc_once, ns_rand). }
  destruct o; cbn [run_op]; try (by apply Hmeta); try (by apply frame_runs).
  unfold SendTCPData. destruct (_ <=? _); [apply frame_runs|apply reshape_runs].
Qed.

(** The application bytes of TCP mode: in frames, and in events. *)
Definition stream_sent (q : list content) : bytes :=
  concat ((fun x => if bool_decide (x.1.1 = FrameTCPData) then x.2 else []) <$> q).
Definition stream_got (evs : list Event) : bytes :=
  concat ((fun ev => if bool_decide (ev_Type ev = FrameTCPData) then ev_Payload ev else []) <$> evs).

Lemma decodes_fields x ev : decodes x ev -> ev_Type ev = x.1.1 /\ ev_Payload ev = x.2.
Proof.
  destruct x as [[t meta] payload]. intros Hd. specialize (Hd 0). revert Hd. unfold event_of.
  cbn [df_Type df_Meta df_Payload].
  case_bool_decide; [|case_bool_decide; [|case_bool_decide; [|done]]].
  - destruct (parseUDPMeta _) as [[[gid a] has]|e|]; cbn; [|done..]. by intros [= <-].
  - destruct (_ <? 8); [done|]. destruct (slice _ 0 8); cbn; [|done..]. by intros [= <-].
  - by intros [= <-].
Qed.

Lemma decodes_stream q evs : Forall2 decodes q evs -> stream_got evs = stream_sent q.
Proof.
  induction 1 as [|x ev q evs Hx _ IH]; [done|]. apply decodes_fields in Hx as [Ht Hp].
  unfold stream_got, stream_sent in *. cbn [fmap list_fmap concat]. by rewrite IH, Ht, Hp.
Qed.

Lemma stream_sent_prefix n q : stream_sent (take n q) `prefix_of` stream_sent q.
Proof.
  exists (stream_sent (drop n q)). unfold stream_sent. by rewrite <-concat_app, <-fmap_app, take_drop.
Qed.

(** What the invariant says of a reachable session. *)
Lemma channel_refines trl trr g s d :
  rtc (net_step base) (open_session base trl trr g) s -> Z.of_nat (length (p_sent (at_side d s))) < 2 ^ 64 ->
  let got := p_got (at_side (other d) s) in
  Forall2 decodes (take (length got) (contents (at_side d s))) got /\
  stream_got got `prefix_of` stream_sent (contents (at_side d s)) /\
  rtc ideal_step ideal0 (abstract d s).
Proof.
  intros Hrun Hcount. assert (Hs : session_ok s).
  { revert Hrun. apply (rtc_ind_r session_ok); [apply session_start|]. intros y z _ Hyz Hy. by eapply session_step. }
  destruct (proj2 (Hs d) Hcount) as [[Hg _] Hi]. split; [exact Hg|]. split; [|exact Hi].
  rewrite (decodes_stream _ _ Hg). apply stream_sent_prefix.
Qed.

(** C7: integrity and order against an active attacker: whatever the network
    delivers (dropped, repeated, reordered, truncated, altered or invented
    messages) and however the calls of the two ends are interleaved, each
    direction of a session behaves like a FIFO channel that can at worst be
    cut: as long as fewer than 2^64 frames are sent, the events received so
    far are those of a prefix of the frames sent, in order (in TCP mode, the
    bytes received are a prefix of the bytes sent), and every run is a run of
    the ideal channel.  The only assumption about the attacker is
    that he cannot make ciphertexts of the session himself. *)
Theorem channel_integrity trl trr g s d
    (Hrun : rtc (net_step base) (open_session base trl trr g) s)
    (Hcount : Z.of_nat (length (p_sent (at_side d s))) < 2 ^ 64) :
  let got := p_got (at_side (other d) s) in
  Forall2 decodes (take (length got) (contents (at_side d s))) got /\
  stream_got got `prefix_of` stream_sent (contents (at_side d s)) /\
  rtc ideal_step ideal0 (abstract d s).
Proof. by apply channel_refines with trl trr g. Qed.
End Refinement.

(** ** Witness *)

Module ChannelExamples.
Import StreamExamples.
(** A transport in the hands of the attacker: what will be read from it. *)
Definition mailbox := list bytes.
#[global] Instance mailbox_transport : MessageTransport mailbox := {
  SendMessage _ l := (None, l);
  ReadMessage l := match l with [] => (Fail EOF, []) | m :: l => (Ret m, l) end;
  CloseTransport l := (None, l)
}.

Definition base0 (d : side) : FrameAEAD (@AEAD _ Toy.crypto) := match d with Left => c2s | Right => s2c end.
Definition session0 : session (G := Toy.gen) mailbox := open_session base0 [] [] (5 : Toy.gen).
(** The left end sends a ping; the attacker delivers it twice. *)
Definition sent0 : peer mailbox * Toy.gen := peer_send 1 FramePing [] (str "ping") (-1) (at_side Left session0)
  (5 : Toy.gen).
Definition session1 := put Left sent0.1 sent0.2 session0.
Definition ping0 : bytes := Eval vm_compute in match p_sent sent0.1 with (_, w) :: _ => w | [] => [] end.
Definition attack (s : session (G := Toy.gen) mailbox) (l : list bytes) : session mailbox :=
  put Right (with_p (set_tr l (p_stream (at_side Right s))) (at_side Right s)) (s_gen s) s.
Definition session2 := attack session1 [ping0; ping0].
Definition received (s : session (G := Toy.gen) mailbox) : session mailbox :=
  put Right (peer_recv (at_side Right s)) (s_gen s) s.
Definition session4 := received (received session2).

Lemma ping0_unforged : unforged c2s (sealings c2s (p_sent (at_side Left session1))) ping0.
Proof.
  change ping0 with (frame_wire c2s FramePing [] (str "ping") (sub ping0 37 (len ping0))).
  apply sent_unforged; [cbn; lia|vm_compute; reflexivity|]. vm_compute. left.
Qed.

Lemma recv_step s :
  p_sent (at_side Left s) = p_sent (at_side Left session1) ->
  (forall wire tr, ReadMessage (ss_tr (p_stream (at_side Right s))) = (Ret wire, tr) -> wire = ping0) ->
  net_step base0 s (received s).
Proof.
  intros Hs Hw. apply (ns_recv base0 Right s). intros wire tr Hr. change (base0 (other Right)) with c2s.
  change (at_side (other Right) s) with (at_side Left s). rewrite Hs, (Hw wire tr Hr). exact ping0_unforged.
Qed.

Lemma received_left s : at_side Left (received s) = at_side Left s.
Proof. done. Qed.
Lemma attack_left s l : at_side Left (attack s l) = at_side Left s.
Proof. done. Qed.
Lemma attack_right s l : ss_tr (p_stream (at_side Right (attack s l))) = l.
Proof. done. Qed.

Lemma session2_reached : rtc (net_step base0) session0 session2.
Proof.
  eapply rtc_l; [exact (ns_send base0 Left 1 FramePing [] (str "ping") (-1) session0 sent0.1 sent0.2
    (surjective_pairing sent0))|].
  apply rtc_once. exact (ns_attack base0 Right [ping0; ping0] session1).
Qed.

Lemma session4_reached : rtc (net_step base0) session0 session4.
Proof.
  eapply rtc_trans; [exact session2_reached|]. unfold session4, session2.
  apply (rtc_l _ _ (received (attack session1 [ping0; ping0]))).
  - apply recv_step; [by rewrite attack_left|]. rewrite attack_right. by intros wire tr [= <- _].
  - apply rtc_once, recv_step; [by rewrite received_left, attack_left|].
    assert (Hm : ss_tr (p_stream (at_side Right (received (attack session1 [ping0; ping0])))) =
      [ping0]) by (vm_compute; reflexivity).
    rewrite Hm. by intros wire tr [= <- _].
Qed.
End ChannelExamples.
Import ChannelExamples.

Lemma channel_integrity_witness :
  Forall2 decodes [(FramePing, [], str "ping")] (p_got (at_side Right session4)) /\
  ss_closed (p_stream (at_side Right session4)) = true.
Proof.
  destruct (channel_integrity (G := Toy.gen) base0 ltac:(intros [];
    reflexivity) [] [] (5 : Toy.gen) session4 Left) as [H _].
  - exact session4_reached.
  - vm_compute. reflexivity.
  - split; [|vm_compute; reflexivity].
    assert (Hl : length (p_got (at_side Right session4)) = 1%nat) by (vm_compute; reflexivity).
    assert (Hc : contents (at_side Left session4) = [(FramePing, [], str "ping")]) by (vm_compute; reflexivity).
    cbn zeta in H. change (other Left) with Right in H. rewrite Hl, Hc in H. exact H.
Defined.
