(* ===== verification/StreamConn.v ===== *)
(** * TCP mode: streamConn (src/client.go)

    The [net.Conn] adapter over a secure stream.  The connection passed as
    [underlying] is the one inside the transport, so closing it acts on the
    transport's state ([Underlying]). *)

From S2P Require Import Prelude Address Crypto Io Kdf Padding Frame Transport SecureStream.
From S2P Require Import SecureStreamProofs.

(** What the adapters call on the [net.Conn] under a transport. *)
Class Underlying (T : Type) := {
  CloseUnderlyingConn : T -> option error * T;
  UnderlyingSetDeadline : option Z -> T -> option error * T;
  UnderlyingSetReadDeadline : option Z -> T -> option error * T;
  UnderlyingSetWriteDeadline : option Z -> T -> option error * T
}.

Definition on_conn (op : conn -> option error * conn) (f : LengthFramer) : option error * LengthFramer :=
  let '(err, c) := op (lf_c f) in (err, mkLengthFramer c (lf_readBuf_cap f)).

#[global] Instance framer_underlying : Underlying LengthFramer := {
  CloseUnderlyingConn := on_conn conn_Close;
  UnderlyingSetDeadline t := on_conn (conn_SetDeadline t);
  UnderlyingSetReadDeadline t := on_conn (conn_SetReadDeadline t);
  UnderlyingSetWriteDeadline t := on_conn (conn_SetWriteDeadline t)
}.

Record streamConn (A T : Type) := mkStreamConn {
  sc_stream : SecureStream A T;
  sc_underlying : bool;          (* [underlying != nil] *)
  sc_readBuf : bytes;            (* unread part of the last payload *)
  sc_closeOnce : bool;
  sc_closeErr : option error
}.
Arguments mkStreamConn {A T} _ _ _ _ _.
Arguments sc_stream {A T} _.
Arguments sc_underlying {A T} _.
Arguments sc_readBuf {A T} _.
Arguments sc_closeOnce {A T} _.
Arguments sc_closeErr {A T} _.

(** [&streamConn{SecureStream: stream, underlying: conn}] *)
Definition new_streamConn {A T} (s : SecureStream A T) (underlying : bool) : streamConn A T :=
  mkStreamConn s underlying [] false None.

Definition ErrUnexpectedTCP : error := ErrText "ewp: unexpected frame type in TCP stream".

Section StreamConn.
Context {G : Type} {C : Crypto G} {E : Entropy G}.
Context {T : Type} {MT : MessageTransport T} {U : Underlying T}.

Abbreviation Conn := (streamConn AEAD T).

Definition with_stream (s : SecureStream AEAD T) (buf : bytes) (c : Conn) : Conn :=
  mkStreamConn s (sc_underlying c) buf (sc_closeOnce c) (sc_closeErr c).

(** The loop of [Read] that fills [readBuf]: every round receives one frame.
    [None] when [fuel] rounds were not enough (the call is still waiting). *)
Fixpoint fill_readBuf (fuel : nat) (c : Conn) : option (outcome unit) * Conn :=
  if negb (len (sc_readBuf c) =? 0) then (Some (Ret tt), c) else
  match fuel with
  | O => (None, c)
  | S fuel =>
      let '(o, s) := Recv (sc_stream c) in
      match o with
      | Panic => (Some Panic, with_stream s (sc_readBuf c) c)
      | Fail e => (Some (Fail e), with_stream s (sc_readBuf c) c)
      | Ret ev =>
          let t := ev_Type ev in
          if bool_decide (t = FrameTCPData) then
            if len (ev_Payload ev) =? 0 then fill_readBuf fuel (with_stream s (sc_readBuf c) c)
            else fill_readBuf fuel (with_stream s (ev_Payload ev) c)
          else if bool_decide (t = FramePaddingOnly \/ t = FramePing \/ t = FramePong) then
            fill_readBuf fuel (with_stream s (sc_readBuf c) c)
          else (Some (Fail ErrUnexpectedTCP), with_stream s (sc_readBuf c) c)
      end
  end.

(** [Read(p)] with [len(p) = n]: the bytes copied into [p]. *)
Definition StreamConn_Read (fuel : nat) (n : Z) (c : Conn) : option (outcome bytes) * Conn :=
  let '(o, c) := fill_readBuf fuel c in
  match o with
  | None => (None, c)
  | Some Panic => (Some Panic, c)
  | Some (Fail e) => (Some (Fail e), c)
  | Some (Ret _) =>
      let k := Z.min n (len (sc_readBuf c)) in
      (Some (Ret (sub (sc_readBuf c) 0 k)),
       with_stream (sc_stream c) (sub (sc_readBuf c) k (len (sc_readBuf c))) c)
  end.

Definition maxPayload : Z := MaxFrameSize - 256.

(** The loop of [Write]; the results are the count written and the error. *)
Fixpoint write_loop (fuel : nat) (nowNs : Z) (p : bytes) (written : Z) (st : Conn * G)
  : outcome (Z * option error) * (Conn * G) :=
  if len p =? 0 then (Ret (written, None), st) else
  match fuel with
  | O => (Panic, st)
  | S fuel =>
      let '(c, g) := st in
      letS chunk, st := lift (if maxPayload <? len p then slice p 0 maxPayload else Ret p) (c, g) ;;
      let '(o, (s, g)) := SendTCPData nowNs chunk (sc_stream c, g) in
      let c := with_stream s (sc_readBuf c) c in
      match o with
      | Panic => (Panic, (c, g))
      | Fail e => (Ret (written, Some e), (c, g))
      | Ret _ =>
          letS p, st := lift (slice p (len chunk) (len p)) (c, g) ;;
          write_loop fuel nowNs p (written + len chunk) st
      end
  end.

Definition StreamConn_Write (nowNs : Z) (p : bytes) (st : Conn * G)
  : outcome (Z * option error) * (Conn * G) :=
  if len p =? 0 then (Ret (0, None), st) else write_loop (length p) nowNs p 0 st.

Definition StreamConn_Close (c : Conn) : option error * Conn :=
  if sc_closeOnce c then (sc_closeErr c, c) else
  let '(err, s) := Close (sc_stream c) in
  let '(err, s) :=
    if sc_underlying c then
      let '(err2, tr) := CloseUnderlyingConn (ss_tr s) in
      (match err2, err with Some e, None => Some e | _, _ => err end, set_tr tr s)
    else (err, s) in
  (err, mkStreamConn s (sc_underlying c) (sc_readBuf c) true err).

(** The deadline setters forward to the connection, if there is one. *)
Definition StreamConn_forward (set : T -> option error * T) (c : Conn) : option error * Conn :=
  if sc_underlying c then
    let '(err, tr) := set (ss_tr (sc_stream c)) in
    (err, with_stream (set_tr tr (sc_stream c)) (sc_readBuf c) c)
  else (None, c).
Definition StreamConn_SetDeadline (t : option Z) := StreamConn_forward (UnderlyingSetDeadline t).
Definition StreamConn_SetReadDeadline (t : option Z) := StreamConn_forward (UnderlyingSetReadDeadline t).
Definition StreamConn_SetWriteDeadline (t : option Z) := StreamConn_forward (UnderlyingSetWriteDeadline t).
End StreamConn.

(** ** Writing *)

Section Writing.
Context {G : Type} {C : Crypto G} {E : Entropy G} `{!AEADLaws C} `{!EntropyLaws E}.
Context {T : Type} `{TransportLaws T}.

Lemma write_loop_ok fuel nowNs p written c g :
  working (sc_stream c) -> (length p <= fuel)%nat ->
  exists chunks ms s' g', write_loop fuel nowNs p written (c, g) =
      (Ret (written + len p, None), (with_stream s' (sc_readBuf c) c, g')) /\
    concat chunks = p /\ framed (ss_send (sc_stream c)) (tcp_frame <$> chunks) ms /\
    progress (sc_stream c) s' ms.
Proof.
  revert p written c g. induction fuel as [|fuel IH]; intros p written c g Hw Hf.
  { destruct p; [|cbn in Hf; lia]. exists [], [], (sc_stream c), g.
    cbn. rewrite Z.add_0_r. split_and!; [by destruct c|done|constructor|by apply progress_nil]. }
  cbn [write_loop]. destruct (Z.eqb_spec (len p) 0) as [H0|H0].
  { destruct p; [|cbn in H0; lia]. exists [], [], (sc_stream c), g.
    cbn. rewrite Z.add_0_r. split_and!; [by destruct c|done|constructor|by apply progress_nil]. }
  unfold maxPayload, MaxFrameSize in *. set (k := Z.min (65536 - 256) (len p)).
  assert (Hk : (if 65536 - 256 <? len p then slice p 0 (65536 - 256) else Ret p) = Ret (sub p 0 k)).
  { unfold k. destruct (Z.ltb_spec (65536 - 256) (len p)); [by rewrite Z.min_l, slice_ok by lia|].
    by rewrite Z.min_r, sub_all by lia. }
  unfold lift. rewrite Hk. cbn [sbind].
  destruct (SendTCPData_ok nowNs (sub p 0 k) (sc_stream c) g Hw)
    as (cs & ms & s1 & g1 & -> & Hc & _ & Hfr & Hp). cbn [sbind].
  rewrite length_sub, Z.sub_0_r, slice_ok by lia. cbn [sbind].
  destruct (IH (sub p k (len p)) (written + k) (with_stream s1 (sc_readBuf c) c) g1)
    as (cs' & ms' & s2 & g2 & -> & Hc' & Hfr' & Hp');
    [eauto with ewp|rewrite length_sub_nat; lia|].
  exists (cs ++ cs'), (ms ++ ms'), s2, g2. split_and!.
  - rewrite length_sub by lia. do 3 f_equal. lia.
  - rewrite concat_app, Hc, Hc', <-sub_split, sub_all by lia. done.
  - rewrite fmap_app. eapply framed_app; [done|]. cbn [sc_stream with_stream] in Hfr'.
    by rewrite <-(pr_send _ _ _ Hp).
  - by eapply progress_trans.
Qed.

Lemma StreamConn_Write_ok nowNs p c g :
  working (sc_stream c) ->
  exists chunks ms s' g', StreamConn_Write nowNs p (c, g) =
      (Ret (len p, None), (with_stream s' (sc_readBuf c) c, g')) /\
    concat chunks = p /\ framed (ss_send (sc_stream c)) (tcp_frame <$> chunks) ms /\
    progress (sc_stream c) s' ms.
Proof.
  intros Hw. unfold StreamConn_Write. destruct (Z.eqb_spec (len p) 0) as [H0|H0].
  - destruct p; [|cbn in H0; lia]. exists [], [], (sc_stream c), g.
    split_and!; [by destruct c|done|constructor|by apply progress_nil].
  - destruct (write_loop_ok (length p) nowNs p 0 c g Hw) as (cs & ms & s' & g' & -> & Hr); [done|]. eauto 10.
Qed.
End Writing.

(** ** Reading *)

Section Reading.
Context {G : Type} {C : Crypto G} {E : Entropy G} `{!AEADLaws C}.
Context {T : Type} `{TransportLaws T}.

Abbreviation Conn := (streamConn AEAD T).

(** Frames that may occur in TCP mode. *)
Definition tcp_mode (x : content) : Prop :=
  x.1.1 = FrameTCPData \/ x.1.1 = FramePaddingOnly \/ x.1.1 = FramePing \/ x.1.1 = FramePong.

(** The application bytes of a run of frames. *)
Definition tcp_bytes (q : list content) : bytes :=
  concat ((fun x => if bool_decide (x.1.1 = FrameTCPData) then x.2 else []) <$> q).

(** What a reader will still get: the unread bytes, and a run of frames in
    flight that ends the arriving messages; [out] is the sending side, which
    reading leaves alone: the context and the messages sent so far. *)
Definition arriving (out : FrameAEAD AEAD * list bytes) (c : Conn) (q : list content) : Prop :=
  working (sc_stream c) /\ Forall tcp_mode q /\
  (ss_send (sc_stream c), tx (ss_tr (sc_stream c))) = out /\
  exists ms, framed (ss_recv (sc_stream c)) q ms /\ rx (ss_tr (sc_stream c)) = ms.

Lemma decodes_plain t meta payload :
  t = FrameTCPData \/ t = FramePaddingOnly \/ t = FramePing \/ t = FramePong ->
  decodes (t, meta, payload) (plain_event t payload).
Proof. intros Ht c. destruct Ht as [->|[->|[->| ->]]]; done. Qed.

(** One frame in TCP mode. *)
Lemma Recv_tcp_mode s x q ms :
  working s -> tcp_mode x -> framed (ss_recv s) (x :: q) ms -> rx (ss_tr s) = ms ->
  exists s' ms', Recv s = (Ret (plain_event x.1.1 x.2), s') /\ working s' /\
    (ss_send s', tx (ss_tr s')) = (ss_send s, tx (ss_tr s)) /\ framed (ss_recv s') q ms' /\ rx (ss_tr s') = ms'.
Proof.
  intros Hw Ht Hf Hrx. destruct x as [[t meta] payload]. inversion Hf as [|? ? ? ? pad ? ms' He Hrest]; subst.
  destruct (Recv_ok s t meta payload _ ms' [] (plain_event t payload) Hw
    (framed_cons _ _ _ _ pad _ _ He (framed_nil _))) as (s' & Hr & Hw' & Hrx' & Htx' & Hsnd & Hrecv).
  - rewrite app_nil_r. congruence.
  - by apply decodes_plain.
  - exists s', ms'. rewrite app_nil_r in Hrx'. rewrite Hrecv, Htx', Hsnd. done.
Qed.

Lemma fill_readBuf_ok fuel out c q :
  arriving out c q -> (length q < fuel)%nat -> sc_readBuf c ++ tcp_bytes q <> [] ->
  exists c' q', fill_readBuf fuel c = (Some (Ret tt), c') /\ sc_readBuf c' <> [] /\ arriving out c' q' /\
    (length q' <= length q)%nat /\ sc_readBuf c' ++ tcp_bytes q' = sc_readBuf c ++ tcp_bytes q.
Proof.
  revert fuel c. induction q as [|x q IH]; intros fuel c Ha Hf Hne.
  - destruct fuel as [|fuel]; [lia|]. cbn [fill_readBuf]. unfold tcp_bytes in *. cbn in Hne |- *.
    rewrite app_nil_r in *. destruct (Z.eqb_spec (len (sc_readBuf c)) 0) as [H0|H0].
    + destruct (sc_readBuf c); [done|cbn in H0; lia].
    + exists c, []. cbn. rewrite !app_nil_r. done.
  - destruct fuel as [|fuel]; [lia|]. cbn [length] in Hf. cbn [fill_readBuf].
    destruct (Z.eqb_spec (len (sc_readBuf c)) 0) as [H0|H0]; cbn [negb].
    2: { exists c, (x :: q). split_and!; try done. intros Hn. by rewrite Hn in H0. }
    assert (Hb : sc_readBuf c = []) by (destruct (sc_readBuf c); [done|cbn in H0; lia]).
    destruct Ha as (Hw & Hall & Hout & ms & Hfr & <-). apply Forall_cons in Hall as [Hx Hall'].
    destruct (Recv_tcp_mode (sc_stream c) x q _ Hw Hx Hfr eq_refl) as (s' & ms' & -> & Hw' & Hsnd & Hfr' & Hrx').
    assert (Hnext : forall buf, arriving out (with_stream s' buf c) q)
      by (intros buf; split_and!; [done|done|exact (eq_trans Hsnd Hout)|by exists ms']).
    cbn [ev_Type ev_Payload plain_event]. rewrite Hb in *. cbn [app] in *.
    change (tcp_bytes (x :: q)) with ((if bool_decide (x.1.1 = FrameTCPData) then x.2 else []) ++ tcp_bytes q) in *.
    case_bool_decide as Ht.
    + destruct (Z.eqb_spec (len x.2) 0) as [Hx0|Hx0].
      * assert (Hx2 : x.2 = []) by (destruct x.2; [done|cbn in Hx0; lia]). rewrite Hx2 in *. cbn [app] in *.
        destruct (IH fuel (with_stream s' [] c)) as (c' & q' & Hr & Hr1 & Hr2 & Hr3 & Hr4); [done|lia|done|].
        exists c', q'. split_and!; [done..|cbn; lia|done].
      * destruct (IH fuel (with_stream s' x.2 c)) as (c' & q' & Hr & Hr1 & Hr2 & Hr3 & Hr4); [done|lia|done|].
        exists c', q'. split_and!; [done..|cbn; lia|done].
    + rewrite bool_decide_true by (destruct Hx as [|]; [done|naive_solver]). cbn [app] in *.
      destruct (IH fuel (with_stream s' [] c)) as (c' & q' & Hr & Hr1 & Hr2 & Hr3 & Hr4); [done|lia|done|].
      exists c', q'. split_and!; [done..|cbn; lia|done].
Qed.

(** [Read] delivers the front of what is to come. *)
Lemma StreamConn_Read_ok fuel n out c q :
  arriving out c q -> (length q < fuel)%nat -> sc_readBuf c ++ tcp_bytes q <> [] -> 0 < n ->
  exists d c' q', StreamConn_Read fuel n c = (Some (Ret d), c') /\ 0 < len d <= n /\ arriving out c' q' /\
    (length q' <= length q)%nat /\ d ++ sc_readBuf c' ++ tcp_bytes q' = sc_readBuf c ++ tcp_bytes q.
Proof.
  intros Ha Hf Hne Hn. unfold StreamConn_Read.
  destruct (fill_readBuf_ok fuel out c q Ha Hf Hne) as (c1 & q1 & -> & Hb & Ha1 & Hq1 & Heq).
  set (buf := sc_readBuf c1) in *. assert (Hl : 0 < len buf) by (destruct buf; [done|cbn; lia]).
  eexists _, _, q1. split; [reflexivity|]. split; [rewrite length_sub; lia|]. split; [exact Ha1|]. split; [done|].
  cbn [sc_readBuf with_stream]. rewrite app_assoc, <-sub_split, sub_all by lia. done.
Qed.
End Reading.

(** ** Properties *)

Section StreamProperties.
Context {G : Type} {C : Crypto G} {E : Entropy G} `{!AEADLaws C} `{!EntropyLaws E}.
Context {T : Type} `{TransportLaws T}.

(** [io.ReadFull(c, buf)] with [len(buf) = n] over the connection: at most [n]
    reads, each allowed [fuel] frames. *)
Fixpoint read_full (reads fuel : nat) (n : Z) (c : streamConn AEAD T) : option (outcome bytes) * streamConn AEAD T :=
  if n <=? 0 then (Some (Ret []), c) else
  match reads with
  | O => (None, c)
  | S reads =>
      let '(o, c) := StreamConn_Read fuel n c in
      match o with
      | Some (Ret d) =>
          let '(o, c) := read_full reads fuel (n - len d) c in
          (match o with Some (Ret ds) => Some (Ret (d ++ ds)) | _ => o end, c)
      | _ => (o, c)
      end
  end.

(** Reading consumes frames, so the fuel that is enough stays enough. *)
Lemma read_full_ok reads fuel n out c q :
  arriving out c q -> (length q < fuel)%nat -> n <= len (sc_readBuf c ++ tcp_bytes q) ->
  (Z.to_nat n <= reads)%nat ->
  exists c' q', read_full reads fuel n c = (Some (Ret (sub (sc_readBuf c ++ tcp_bytes q) 0 n)), c') /\
    arriving out c' q'.
Proof.
  revert n c q. induction reads as [|reads IH]; intros n c q Ha Hf Hn Hr; cbn [read_full].
  - destruct (Z.leb_spec n 0); [|lia]. rewrite sub_empty by lia. by exists c, q.
  - destruct (Z.leb_spec n 0); [rewrite sub_empty by lia; by exists c, q|].
    destruct (StreamConn_Read_ok fuel n out c q Ha Hf) as (d & c1 & q1 & -> & Hd & Ha1 & Hq1 & Heq);
      [intros Hnil; rewrite Hnil in Hn; cbn in Hn; lia|lia|].
    assert (Hlen : len d + len (sc_readBuf c1 ++ tcp_bytes q1) = len (sc_readBuf c ++ tcp_bytes q))
      by (rewrite <-Heq; llia).
    destruct (IH (n - len d) c1 q1) as (c2 & q2 & -> & Ha2); [done|lia|lia|lia|].
    exists c2, q2. split; [|done]. do 3 f_equal. rewrite <-Heq.
    set (rest := sc_readBuf c1 ++ tcp_bytes q1) in *.
    rewrite (sub_app_mid d rest 0 n), sub_all by lia. done.
Qed.

(** Bytes sent in chunks are read back by a reader whose context matches, which
    can then send as before. *)
Lemma read_full_written (r : streamConn AEAD T) f cs ms n :
  working (sc_stream r) -> ss_recv (sc_stream r) = f -> sc_readBuf r = [] ->
  framed f (tcp_frame <$> cs) ms -> rx (ss_tr (sc_stream r)) = ms -> 0 <= n <= len (concat cs) ->
  exists r', read_full (Z.to_nat n) (S (length ms)) n r = (Some (Ret (sub (concat cs) 0 n)), r') /\
    working (sc_stream r') /\ ss_send (sc_stream r') = ss_send (sc_stream r) /\
    tx (ss_tr (sc_stream r')) = tx (ss_tr (sc_stream r)).
Proof.
  intros Hr Hlink Hempty Hf Hrx Hn.
  assert (Hb : tcp_bytes (tcp_frame <$> cs) = concat cs).
  { unfold tcp_bytes. rewrite <-list_fmap_compose. f_equal.
    rewrite <-(list_fmap_id cs) at 2. by apply list_fmap_ext. }
  assert (Ha : arriving (ss_send (sc_stream r), tx (ss_tr (sc_stream r))) r (tcp_frame <$> cs)).
  { split_and!; [done| |done|exists ms; by rewrite Hlink]. apply Forall_fmap, Forall_true. by left. }
  pose proof (framed_length _ _ _ Hf) as Hlen.
  destruct (read_full_ok (Z.to_nat n) (S (length ms)) n _ r (tcp_frame <$> cs) Ha)
    as (r' & q' & Hrd & Hw' & _ & [= Hsnd Htx] & _);
    [lia|rewrite Hempty, Hb; cbn; lia|lia|].
  rewrite Hempty, Hb in Hrd. by exists r'.
Qed.

(** TCP mode end to end: [Write] of a byte string of any length returns
    its length and no error, and a reader whose context matches, once the
    emitted messages are delivered to it, reads with [io.ReadFull] any
    leading part of exactly these bytes. *)
Theorem tcp_stream_end_to_end (w r : streamConn AEAD T) nowNs p n g
    (Hw : working (sc_stream w)) (Hr : working (sc_stream r))
    (Hlink : ss_recv (sc_stream r) = ss_send (sc_stream w)) (Hempty : sc_readBuf r = [])
    (Hn : 0 <= n <= len p) :
  exists w' g' ms, StreamConn_Write nowNs p (w, g) = (Ret (len p, None), (w', g')) /\
    tx (ss_tr (sc_stream w')) = tx (ss_tr (sc_stream w)) ++ ms /\
    (rx (ss_tr (sc_stream r)) = ms ->
     exists r', read_full (Z.to_nat n) (S (length ms)) n r = (Some (Ret (sub p 0 n)), r')).
Proof.
  destruct (StreamConn_Write_ok nowNs p w g Hw) as (cs & ms & s' & g' & Hwr & Hc & Hf & Hp).
  subst p. eexists _, g', ms. split; [exact Hwr|]. split; [apply Hp|]. intros Hrx.
  destruct (read_full_written r _ cs ms n Hr Hlink Hempty Hf Hrx Hn) as (r' & Hrd & _). by exists r'.
Qed.
End StreamProperties.

(** closing a connection dialled over a length framer closes the same
    [net.Conn] twice, once through the framer and once directly, so a clean
    first [Close] reports the error of the second one; later calls repeat
    that result without touching the connection. *)
Theorem streamConn_double_close {G} {C : Crypto G} (c : streamConn AEAD LengthFramer)
    (Hnew : sc_closeOnce c = false) (Hund : sc_underlying c = true)
    (Honce : ss_closeOnce (sc_stream c) = false)
    (Hopen : c_closed (lf_c (ss_tr (sc_stream c))) = false)
    (Hclean : c_closeErr (lf_c (ss_tr (sc_stream c))) = None) :
  let '(err, c') := StreamConn_Close c in
  err = Some ErrNetClosed /\ c_closed (lf_c (ss_tr (sc_stream c'))) = true /\
  StreamConn_Close c' = (err, c').
Proof.
  unfold StreamConn_Close at 1. rewrite Hnew, Hund. rewrite Close_eq, Honce.
  unfold closed_form. cbn [CloseTransport framer_transport ss_tr]. unfold LengthFramer_Close, conn_Close.
  rewrite Hopen, Hclean. cbn. done.
Qed.

(** ** Witnesses *)

Module StreamConnExamples.
Definition w0 : streamConn (@AEAD _ Toy.crypto) LengthFramer := new_streamConn StreamExamples.a0 true.
Definition p0 : bytes := str "hello, world".
Definition w1 := (StreamConn_Write 1 p0 (w0, 5 : Toy.gen)).2.1.
Definition r0 : streamConn (@AEAD _ Toy.crypto) LengthFramer :=
  new_streamConn (new_stream (NewLengthFramer
    (mkConn (mkReader [c_out (lf_c (ss_tr (sc_stream w1)))] EOF) [] [] None false None None))
    StreamExamples.s2c StreamExamples.c2s) true.

Lemma r0_working : working (G := Toy.gen) (sc_stream r0).
Proof. apply StreamExamples.working_new; [|done..]. cbn. split_and!; [done|constructor|]. by exists []. Qed.
End StreamConnExamples.
Import StreamConnExamples.

Lemma tcp_stream_end_to_end_witness :
  exists k r', read_full 5 k 5 r0 = (Some (Ret (str "hello")), r').
Proof.
  destruct (tcp_stream_end_to_end w0 r0 1 p0 5 (5 : Toy.gen)) as (w' & g' & ms & Hw & Htx & Hr).
  - exact StreamExamples.a0_working.
  - exact r0_working.
  - reflexivity.
  - reflexivity.
  - vm_compute. split; congruence.
  - assert (Ha : w1 = w') by exact (f_equal (fun r => r.2.1) Hw).
    destruct Hr as (r' & Hr).
    + change (rx (ss_tr (sc_stream r0))) with (msgs_of (c_out (lf_c (ss_tr (sc_stream w1))) ++ [])).
      rewrite app_nil_r, Ha. exact Htx.
    + exists (S (length ms)), r'. exact Hr.
Defined.

Lemma streamConn_double_close_witness : (StreamConn_Close w0).1 = Some ErrNetClosed.
Proof.
  pose proof (streamConn_double_close w0 eq_refl eq_refl eq_refl eq_refl eq_refl) as H.
  destruct (StreamConn_Close w0) as [err c']. exact (proj1 H).
Defined.
