(* ===== verification/ConcurrentWrites.v ===== *)
(** * Concurrent writes to a connection (src/client.go, src/securestream.go)

    [DialConn] promises that the connection it returns "allows concurrent
    Write".  Goroutines that run [streamConn.Write] on one connection are
    interleaved here frame by frame, and with every other use of the stream:
    a write is split at the head of its own loop, at the head of the loop of
    [SendTCPData], and inside [sendFrame], whose steps are those of
    Concurrent.v. *)

From S2P Require Import Prelude Address Crypto Io Kdf Padding Frame Transport SecureStream.
From S2P Require Import SecureStreamProofs Concurrent StreamConn.

(** Where a call of [Write] stands.  [p] is the part of the argument the loop
    of [Write] has not reached, [n] the length of the chunk that has been given
    to [SendTCPData], [payload] the part of this chunk without a frame. *)
Inductive write_pc :=
  | WLoop (p : bytes) (written : Z)
  | WSend (payload p : bytes) (written n : Z)
  | WFrame (tid : nat) (payload p : bytes) (written n : Z)   (* inside [sendFrame], the call [tid] *)
  | WReturned (written : Z) (err : option error).

(** A call of [Write]: its argument, where it stands, its calls of
    [sendFrame] so far. *)
Record writer := mkWriter { wr_arg : bytes; wr_pc : write_pc; wr_calls : list nat }.

(** The frame of [piece]. *)
Definition tcp_job (piece : bytes) : job := mkJob FrameTCPData [] piece (-1).

Section Writes.
Context {G : Type} {C : Crypto G} {E : Entropy G}.
Context {T : Type} {MT : MessageTransport T}.

Record wsystem := mkWSystem { x_sys : system (G := G) T; x_writers : gmap nat writer }.

Definition wstart (s : SecureStream AEAD T) (g : G) : wsystem := mkWSystem (start s g) ∅.

Definition wgoto (i : nat) (w : writer) (x : wsystem) : wsystem := mkWSystem (x_sys x) (<[i := w]> (x_writers x)).

(** The call of [sendFrame] for [piece], under the unused id [tid]. *)
Definition begin_frame (i tid : nat) (w : writer) (piece payload p : bytes) (written n : Z) (g : G)
  (x : wsystem) : option wsystem :=
  let y := x_sys x in
  match y_calls y !! tid with
  | Some _ => None
  | None =>
      let y := mkSystem (y_stream y) g (y_lock y) (y_once y) (y_calls y) (y_log y) in
      Some (wgoto i (mkWriter (wr_arg w) (WFrame tid payload p written n) (wr_calls w ++ [tid]))
              (mkWSystem (goto tid (Entered (tcp_job piece)) y) (x_writers x)))
  end.

(** How many bytes of [payload] go into the next frame. *)
Definition piece_len (payload : bytes) (g : G) : Z * G :=
  let chunk := len payload in
  let '(chunk, g) :=
    if reshapeMax <? chunk
    then let '(r, g) := secureRandIntn (reshapeMax - reshapeMin + 1) g in (reshapeMin + r, g)
    else (chunk, g) in
  (if len payload <? chunk then len payload else chunk, g).

(** The next step of the write [i], outside of [sendFrame]. *)
Definition wadvance (i tid : nat) (x : wsystem) : option wsystem :=
  match x_writers x !! i with
  | None => None
  | Some w =>
      match wr_pc w with
      | WLoop p written =>
          if len p =? 0 then Some (wgoto i (mkWriter (wr_arg w) (WReturned written None) (wr_calls w)) x) else
          let chunk := if maxPayload <? len p then sub p 0 maxPayload else p in
          let rest := sub p (len chunk) (len p) in
          if len chunk <=? reshapeThreshold
          then begin_frame i tid w chunk [] rest written (len chunk) (y_gen (x_sys x)) x
          else Some (wgoto i (mkWriter (wr_arg w) (WSend chunk rest written (len chunk)) (wr_calls w)) x)
      | WSend payload p written n =>
          if len payload =? 0 then Some (wgoto i (mkWriter (wr_arg w) (WLoop p (written + n)) (wr_calls w)) x) else
          let '(k, g) := piece_len payload (y_gen (x_sys x)) in
          begin_frame i tid w (sub payload 0 k) (sub payload k (len payload)) p written n g x
      | WFrame t payload p written n =>
          match y_calls (x_sys x) !! t with
          | Some (Returned (SendResult _ (Ret _))) =>
              Some (wgoto i (mkWriter (wr_arg w) (WSend payload p written n) (wr_calls w)) x)
          | Some (Returned (SendResult _ (Fail e))) =>
              Some (wgoto i (mkWriter (wr_arg w) (WReturned written (Some e)) (wr_calls w)) x)
          | _ => None
          end
      | WReturned _ _ => None
      end
  end.

(** Steps: a write goes on, a write is called, anything happens to the stream
    (the calls of [sendFrame] of the writes and of others, [Close], [Recv]). *)
Inductive write_step : wsystem -> wsystem -> Prop :=
  | w_advance i tid x x' : wadvance i tid x = Some x' -> write_step x x'
  | w_write i p x : x_writers x !! i = None -> write_step x (wgoto i (mkWriter p (WLoop p 0) []) x)
  | w_stream y x : step (x_sys x) y -> write_step x (mkWSystem y (x_writers x)).

(** The frames of a list of calls, in the order of the wire, and the bytes
    they carry. *)
Definition frames_of (calls : list nat) (log : list entry) : list entry := filter (fun e => e_tid e ∈ calls) log.
Definition bytes_of (es : list entry) : bytes := concat ((fun e : entry => j_payload e.1.2) <$> es).
Definition sent_bytes (w : writer) (x : wsystem) : bytes := bytes_of (frames_of (wr_calls w) (y_log (x_sys x))).
End Writes.
Arguments wsystem {G C} T : rename.
#[global] Arguments frames_of : simpl never.
#[global] Arguments bytes_of : simpl never.

(** ** The invariant *)

Section WriteInvariant.
Context {G : Type} {C : Crypto G} {E : Entropy G} `{!AEADLaws C}.
Context {T : Type} {MT : MessageTransport T}.
Context (s0 : SecureStream AEAD T) (g0 : G).

Abbreviation Sys := (system (G := G) T).
Abbreviation WSys := (wsystem (G := G) T).

(** The job of a call of [sendFrame]. *)
Definition job_of (p : pc) : option job :=
  match p with
  | Entered j | Waiting j | Holding j _ | Sent j _ | Closing _ (BySend j _) | Returned (SendResult j _) => Some j
  | _ => None
  end.

Definition call_job (y : Sys) (tid : nat) (j : job) : Prop :=
  exists p, y_calls y !! tid = Some p /\ job_of p = Some j.

Definition returned (y : Sys) (tid : nat) : Prop := exists r, y_calls y !! tid = Some (Returned r).

Lemma advance_job nowNs tid (y y' : Sys) t j : advance nowNs tid y = Some y' -> call_job y t j -> call_job y' t j.
Proof.
  intros Ha (p & Hp & Hj). destruct (decide (t = tid)) as [->|Hne].
  - revert Ha. unfold advance. rewrite Hp. unfold call_job. destruct p as [j'|j'|j' wire|j' wire|k who|r]; [..|done].
    + intros [= <-]. destruct (ss_closed _); cbn; rewrite lookup_insert_eq; by eexists.
    + destruct (y_lock y); [done|]. destruct (send_encode _ _ _ _ _) as [[w|e|] [s g]]; intros [= <-];
        cbn; rewrite lookup_insert_eq; by eexists.
    + destruct (send_transmit _ _) as [[e|] s]; intros [= <-]; cbn; rewrite lookup_insert_eq; by eexists.
    + intros [= <-]. cbn; rewrite lookup_insert_eq; by eexists.
    + destruct who as [|j' e]; [done|]. destruct k.
      * destruct (y_once y); [|done|]; intros [= <-]; cbn; rewrite lookup_insert_eq; by eexists.
      * intros [= <-]. cbn; rewrite lookup_insert_eq; by eexists.
      * destruct (close_transport _) as [err s]. intros [= <-]. cbn; rewrite lookup_insert_eq; by eexists.
  - destruct (advance_log _ _ _ _ Ha) as (p' & l & Hc & _). exists p. by rewrite Hc, lookup_insert_ne.
Qed.

Lemma step_job (y y' : Sys) t j : step y y' -> call_job y t j -> call_job y' t j.
Proof.
  intros Hs Hj. destruct Hs as [nowNs tid y y' Ha|tid j' y Hn|tid y Hn|y|cfg y]; [by eapply advance_job| | |done|done].
  all: destruct Hj as (p & Hp & Hj); exists p; cbn; by rewrite lookup_insert_ne by congruence.
Qed.

Lemma step_known (y y' : Sys) t : step y y' -> is_Some (y_calls y !! t) -> is_Some (y_calls y' !! t).
Proof.
  intros Hs Ht. destruct Hs as [nowNs tid y y' Ha|tid j' y Hn|tid y Hn|y|cfg y]; [| | |done|done].
  - destruct (advance_log _ _ _ _ Ha) as (p' & l & -> & _). rewrite lookup_insert_is_Some'. by right.
  - cbn. rewrite lookup_insert_is_Some'. by right.
  - cbn. rewrite lookup_insert_is_Some'. by right.
Qed.

(** The entries of one call. *)
Lemma call_entries y tid j :
  sys_inv s0 y -> call_job y tid j -> log_of tid (y_log y) = [] \/ exists w, log_of tid (y_log y) = [(tid, j, w)].
Proof.
  intros Hy (p & Hp & Hj). pose proof (co_log _ _ _ _ (iv_calls _ _ Hy _ _ Hp)) as Hl.
  destruct p as [j'|j'|j' wire|j' wire|k [|j' e]|[j' [[]|e|]|err]]; cbn in *; try done; injection Hj as ->;
    auto; [destruct Hl as [Hl|(w & e' & Hl & _)]; [by left|right; by exists w]|destruct Hl as [Hl _]; by left].
Qed.

Lemma frames_of_app calls l l' : frames_of calls (l ++ l') = frames_of calls l ++ frames_of calls l'.
Proof. apply filter_app. Qed.

Lemma frames_of_none calls l : (forall t, t ∈ calls -> log_of t l = []) -> frames_of calls l = [].
Proof.
  intros Hl. destruct (frames_of calls l) as [|e es] eqn:Hf; [done|].
  assert (He : e ∈ frames_of calls l) by (rewrite Hf; left). apply list_elem_of_filter in He as [Hc He].
  assert (He' : e ∈ log_of (e_tid e) l) by (by apply list_elem_of_filter). rewrite Hl in He' by done.
  by apply not_elem_of_nil in He'.
Qed.

Lemma frames_of_snoc calls tid l :
  frames_of calls l = [] -> frames_of (calls ++ [tid]) l = log_of tid l.
Proof.
  unfold frames_of, log_of. induction l as [|e l IH]; [done|]. rewrite !filter_cons.
  destruct (decide (e_tid e ∈ calls)); [done|]. intros Hf. rewrite (IH Hf).
  destruct (decide (e_tid e = tid)), (decide (e_tid e ∈ calls ++ [tid])); set_solver.
Qed.

Lemma bytes_of_app l l' : bytes_of (l ++ l') = bytes_of l ++ bytes_of l'.
Proof. unfold bytes_of. by rewrite fmap_app, concat_app. Qed.

Lemma frames_of_fresh calls tid l : log_of tid l = [] -> frames_of (calls ++ [tid]) l = frames_of calls l.
Proof.
  unfold frames_of, log_of. induction l as [|e l IH]; [done|]. rewrite !filter_cons.
  destruct (decide (e_tid e = tid)); [done|]. intros Hf. rewrite (IH Hf).
  destruct (decide (e_tid e ∈ calls)), (decide (e_tid e ∈ calls ++ [tid])); set_solver.
Qed.

(** All of these calls have returned. *)
Definition quiet (y : Sys) (calls : list nat) : Prop := forall t, t ∈ calls -> returned y t.

(** How the argument of a write is divided, according to where it stands. *)
Definition divided (y : Sys) (w : writer) : Prop :=
  let frames cs := frames_of cs (y_log y) in
  let sent := bytes_of (frames (wr_calls w)) in
  match wr_pc w with
  | WLoop p written => quiet y (wr_calls w) /\ wr_arg w = sent ++ p /\ written = len sent
  | WSend payload p written n =>
      quiet y (wr_calls w) /\ wr_arg w = sent ++ payload ++ p /\ written + n = len sent + len payload /\
        written <= len sent
  | WFrame tid payload p written n => exists cs piece,
      wr_calls w = cs ++ [tid] /\ quiet y cs /\ call_job y tid (tcp_job piece) /\
      frames (cs ++ [tid]) = frames cs ++ log_of tid (y_log y) /\
      wr_arg w = bytes_of (frames cs) ++ piece ++ payload ++ p /\
      written + n = len (bytes_of (frames cs)) + len piece + len payload /\ written <= len (bytes_of (frames cs)) /\
      len piece <= reshapeMax
  | WReturned n None => quiet y (wr_calls w) /\ sent = wr_arg w /\ n = len (wr_arg w)
  | WReturned n (Some _) => quiet y (wr_calls w) /\ sent `prefix_of` wr_arg w /\ n <= len sent
  end.

(** A write that fits into one frame. *)
Definition one_frame (w : writer) : Prop :=
  len (wr_arg w) <= reshapeThreshold ->
  match wr_pc w with
  | WLoop p _ => wr_calls w = [] /\ p = wr_arg w \/ p = [] /\ (length (wr_calls w) <= 1)%nat
  | WSend payload p _ _ | WFrame _ payload p _ _ => payload = [] /\ p = [] /\ (length (wr_calls w) <= 1)%nat
  | WReturned _ _ => (length (wr_calls w) <= 1)%nat
  end.

Record writer_ok (y : Sys) (w : writer) : Prop := {
  wo_known : forall t, t ∈ wr_calls w -> is_Some (y_calls y !! t);
  wo_tcp : Forall (fun e => exists piece, e.1.2 = tcp_job piece) (frames_of (wr_calls w) (y_log y));
  wo_divided : divided y w;
  wo_one : one_frame w
}.

Record wsys_inv (x : WSys) : Prop := {
  wv_sys : sys_inv s0 (x_sys x);
  wv_writers : map_Forall (fun _ w => writer_ok (x_sys x) w) (x_writers x);
  wv_disjoint : forall i j wi wj t, x_writers x !! i = Some wi -> x_writers x !! j = Some wj ->
    t ∈ wr_calls wi -> t ∈ wr_calls wj -> i = j
}.

(** A step of the stream, seen by a write. *)
Lemma quiet_step y y' calls :
  step y y' -> quiet y calls -> quiet y' calls /\ frames_of calls (y_log y') = frames_of calls (y_log y).
Proof.
  intros Hs Hq. destruct (step_log _ _ Hs) as (l & Hl & Hr). split.
  - intros t Ht. destruct (Hq t Ht) as [r Hret]. exists r. by apply (Hr t r).
  - rewrite Hl, frames_of_app, (frames_of_none _ l), app_nil_r; [done|]. intros t Ht.
    destruct (Hq t Ht) as [r Hret]. by apply (Hr t r).
Qed.

Lemma frame_step y y' cs tid :
  step y y' -> quiet y cs -> frames_of (cs ++ [tid]) (y_log y) = frames_of cs (y_log y) ++ log_of tid (y_log y) ->
  frames_of (cs ++ [tid]) (y_log y') = frames_of cs (y_log y') ++ log_of tid (y_log y').
Proof.
  intros Hs Hq Hf. destruct (quiet_step _ _ _ Hs Hq) as [_ Heq]. rewrite Heq.
  destruct (step_log _ _ Hs) as (l & Hl & Hr). rewrite Hl, frames_of_app, Hf.
  rewrite (frames_of_snoc _ _ l).
  - unfold log_of. by rewrite filter_app, app_assoc.
  - apply frames_of_none. intros t Ht. destruct (Hq t Ht) as [r Hret]. by apply (Hr t r).
Qed.

Lemma divided_step y y' w : step y y' -> divided y w -> divided y' w.
Proof.
  intros Hs. unfold divided. cbn zeta.
  destruct (wr_pc w) as [p written|payload p written n|tid payload p written n|n [e|]].
  3: { intros (cs & piece & Hc & Hq & Hj & Hf & Ha & Hn & Hle & Hsz). destruct (quiet_step _ _ _ Hs Hq) as [Hq' Heq].
       exists cs, piece. rewrite Heq. split_and!; try done; [by eapply step_job|].
       rewrite <-Heq. by eapply frame_step. }
  all: intros [Hq H]; destruct (quiet_step _ _ _ Hs Hq) as [Hq' Heq]; by rewrite Heq.
Qed.

Lemma tcp_frames y tid piece :
  sys_inv s0 y -> call_job y tid (tcp_job piece) -> Forall (fun e : entry => exists piece, e.1.2 = tcp_job piece)
    (log_of tid (y_log y)).
Proof.
  intros Hy Hj. destruct (call_entries y tid _ Hy Hj) as [->|[w ->]]; [constructor|]. apply Forall_singleton.
  by exists piece.
Qed.

Lemma writer_step y y' w : sys_inv s0 y -> step y y' -> writer_ok y w -> writer_ok y' w.
Proof.
  intros Hy Hs [Hk Ht Hd Ho]. pose proof (divided_step _ _ _ Hs Hd) as Hd'. split; [|clear Hk|done|done].
  { intros t Htc. by apply (step_known y), Hk. }
  pose proof (inv_step _ _ _ Hy Hs) as Hy'. revert Hd. unfold divided. cbn zeta. revert Hd'. unfold divided. cbn zeta.
  destruct (wr_pc w) as [p written|payload p written n|tid payload p written n|n [e|]].
  3: { intros (cs & piece & Hc & _ & Hj' & Hf' & _) (cs2 & piece2 & Hc2 & Hq & Hj & Hf & _).
       rewrite Hc in Hc2. apply app_inj_2 in Hc2 as [<- _]; [|done]. rewrite Hc, Hf'.
       destruct (quiet_step _ _ _ Hs Hq) as [_ Heq]. rewrite Hc, Hf, Forall_app in Ht.
       rewrite Heq. apply Forall_app. split; [apply Ht|]. by eapply tcp_frames. }
  all: intros _ [Hq _]; destruct (quiet_step _ _ _ Hs Hq) as [_ Heq]; by rewrite Heq.
Qed.

Lemma wsys_inv_stream x y : wsys_inv x -> step (x_sys x) y -> wsys_inv (mkWSystem y (x_writers x)).
Proof.
  intros [Hy Hw Hd] Hs. split; cbn; [by eapply inv_step| |done].
  eapply map_Forall_impl; [exact Hw|]. intros i w. by apply writer_step.
Qed.

(** A step of write [i] that makes no call. *)
Lemma wsys_inv_quiet x i w w' :
  wsys_inv x -> x_writers x !! i = Some w -> wr_calls w' = wr_calls w -> divided (x_sys x) w' -> one_frame w' ->
  wsys_inv (wgoto i w' x).
Proof.
  intros [Hy Hw Hdis] Hi Hc Hd Ho. destruct (Hw i w Hi) as [Hk Ht _ _]. split; cbn; [done| |].
  - apply map_Forall_insert_2; [|done]. split; rewrite ?Hc; done.
  - intros a b wa wb t. rewrite !lookup_insert_Some.
    intros [[<- <-]|[Hna Ha]] [[<- <-]|[Hnb Hb]]; rewrite ?Hc; [done|eauto..].
Qed.

(** The randomness source does not matter. *)
Lemma wsys_inv_gen x g :
  wsys_inv x -> let y := x_sys x in
  wsys_inv (mkWSystem (mkSystem (y_stream y) g (y_lock y) (y_once y) (y_calls y) (y_log y)) (x_writers x)).
Proof.
  intros [[Hl Hc Hk Hf Hh Hr] Hw Hd]. split; cbn; [|clear Hd|done].
  - split; try done. intros tid p Hp. by destruct (Hc tid p Hp).
  - intros i w Hi. by destruct (Hw i w Hi).
Qed.

(** A step of write [i] that calls [sendFrame]. *)
Lemma begin_frame_inv x x' i tid w piece payload p written n g :
  wsys_inv x -> x_writers x !! i = Some w -> begin_frame i tid w piece payload p written n g x = Some x' ->
  quiet (x_sys x) (wr_calls w) -> wr_arg w = sent_bytes w x ++ piece ++ payload ++ p ->
  written + n = len (sent_bytes w x) + len piece + len payload -> written <= len (sent_bytes w x) ->
  len piece <= reshapeMax -> one_frame (mkWriter (wr_arg w) (WFrame tid payload p written n) (wr_calls w ++ [tid])) ->
    wsys_inv x'.
Proof.
  intros Hx Hi Hb Hq Ha Hn Hle Hsz Ho. unfold begin_frame in Hb. destruct (y_calls (x_sys x) !! tid) eqn:Hfree; [done|].
  injection Hb as <-. pose proof (wsys_inv_gen x g Hx) as Hx1. set (y1 := mkSystem _ g _ _ _ _) in *.
  assert (Hs : step y1 (goto tid (Entered (tcp_job piece)) y1)) by (by apply step_send).
  pose proof (wsys_inv_stream _ _ Hx1 Hs) as [Hy Hw Hdis]. cbn [x_sys x_writers] in Hy, Hw, Hdis.
  assert (Hnew : forall wj j, x_writers x !! j = Some wj -> tid ∉ wr_calls wj).
  { intros wj j Hj Hin. destruct (wo_known _ _ (wv_writers _ Hx j wj Hj) tid Hin) as [q Hq']. congruence. }
  assert (Hlog : log_of tid (y_log y1) = []) by (by apply (log_of_fresh s0 y1 tid); [apply Hx1|]).
  split; cbn [wgoto x_sys x_writers]; [done| |].
  - apply map_Forall_insert_2; [|done]. destruct (Hw i w Hi) as [Hk Ht _ _]. cbn [y_log goto] in Ht.
    split; cbn [wr_calls wr_pc wr_arg]; [|by cbn [y_log goto]; rewrite frames_of_fresh| |done].
    + intros t [Hin| ->%list_elem_of_singleton]%elem_of_app; [by apply Hk|]. cbn. rewrite lookup_insert_eq. by eexists.
    + unfold divided. cbn [wr_calls wr_pc wr_arg y_log goto]. exists (wr_calls w), piece. unfold sent_bytes in *.
      split_and!; try done.
      * intros t Hin. destruct (Hq t Hin) as [r Hr]. exists r. cbn. rewrite lookup_insert_ne by congruence. done.
      * eexists. cbn. rewrite lookup_insert_eq. done.
      * by rewrite frames_of_fresh, Hlog, app_nil_r.
  - intros a b wa wb t. rewrite !lookup_insert_Some.
    intros [[<- <-]|[Hna Hwa]] [[<- <-]|[Hnb Hwb]]; cbn [wr_calls]; rewrite ?elem_of_app, ?list_elem_of_singleton;
      [done|..|eauto].
    + intros [Hin| ->] Hin'; [by eauto|]. by destruct (Hnew wb b Hwb).
    + intros Hin' [Hin| ->]; [by eauto|]. by destruct (Hnew wa a Hwa).
Qed.

Lemma split_at (p : bytes) k : 0 <= k <= len p -> sub p 0 k ++ sub p k (len p) = p.
Proof. intros Hk. rewrite <-sub_split by lia. apply sub_all. Qed.

Lemma piece_len_bounds payload (g : G) :
  0 < len payload -> 0 < (piece_len payload g).1 <= len payload /\ (piece_len payload g).1 <= reshapeMax.
Proof.
  intros Hp. unfold piece_len. pose proof (secureRandIntn_bounds (reshapeMax - reshapeMin + 1) g) as [Hr _].
  unfold reshapeMax, reshapeMin in *. destruct (Z.ltb_spec 12288 (len payload)).
  - destruct (secureRandIntn _ g) as [r g']. cbn [fst] in *. destruct (Z.ltb_spec (len payload) (4096 + r)); lia.
  - cbn [fst]. destruct (Z.ltb_spec (len payload) (len payload)); lia.
Qed.

Lemma loop_inv x x' i tid w p written :
  wsys_inv x -> x_writers x !! i = Some w -> wr_pc w = WLoop p written -> wadvance i tid x = Some x' -> wsys_inv x'.
Proof.
  intros Hx Hi Hpc. unfold wadvance. rewrite Hi, Hpc. pose proof (wv_writers _ Hx i w Hi) as [_ _ Hd Ho].
  unfold divided in Hd. unfold one_frame in Ho. rewrite Hpc in Hd, Ho. destruct Hd as (Hq & Ha & Hw).
  destruct (Z.eqb_spec (len p) 0) as [Hz|Hz].
  - intros [= <-]. apply (wsys_inv_quiet x i w); [done|done|done|..].
    + cbn. destruct p; [|done]. rewrite app_nil_r in Ha. rewrite Ha. by split_and!.
    + intros Hs. cbn in *. destruct (Ho Hs) as [[-> _]|[_ H]]; [cbn; lia|exact H].
  - set (chunk := if maxPayload <? len p then _ else _).
    assert (Hc : 0 < len chunk <= len p /\ p = chunk ++ sub p (len chunk) (len p) /\
      (len p <= maxPayload -> chunk = p)).
    { unfold chunk. destruct (Z.ltb_spec maxPayload (len p)); unfold maxPayload, MaxFrameSize in *.
      - rewrite length_sub by lia. split_and!; [lia..| |lia]. rewrite Z.sub_0_r. by rewrite split_at by lia.
      - split_and!; [lia..| |done]. rewrite sub_empty by lia. by rewrite app_nil_r. }
    destruct Hc as (Hc & Hsplit & Hwhole). set (rest := sub p _ _) in *.
    destruct (Z.leb_spec (len chunk) reshapeThreshold).
    + intros Hb. eapply (begin_frame_inv x x' i tid w); [done|done|exact Hb|done|..].
      * cbn [app]. unfold sent_bytes. by rewrite <-Hsplit.
      * unfold sent_bytes. cbn. lia.
      * unfold sent_bytes. lia.
      * unfold reshapeThreshold, reshapeMax in *. lia.
      * intros Hs. cbn in *. destruct (Ho Hs) as [[-> Hp]|[-> _]]; [|done]. split_and!; [done| |done].
        unfold rest. rewrite Hwhole by (rewrite Hp; unfold maxPayload, MaxFrameSize, reshapeThreshold in *; lia).
        by apply sub_empty.
    + intros [= <-]. apply (wsys_inv_quiet x i w); [done|done|done|..].
      * cbn. rewrite <-Hsplit. split_and!; [done|done|lia|lia].
      * intros Hs. cbn in *. destruct (Ho Hs) as [[_ ->]|[-> _]]; [lia|done].
Qed.

Lemma send_inv x x' i tid w payload p written n :
  wsys_inv x -> x_writers x !! i = Some w -> wr_pc w = WSend payload p written n -> wadvance i tid x = Some x' ->
    wsys_inv x'.
Proof.
  intros Hx Hi Hpc. unfold wadvance. rewrite Hi, Hpc. pose proof (wv_writers _ Hx i w Hi) as [_ _ Hd Ho].
  unfold divided in Hd. unfold one_frame in Ho. rewrite Hpc in Hd, Ho. destruct Hd as (Hq & Ha & Hn & Hle).
  destruct (Z.eqb_spec (len payload) 0) as [Hz|Hz].
  - intros [= <-]. apply (wsys_inv_quiet x i w); [done|done|done|..].
    + cbn. destruct payload; [|done]. cbn in *. split_and!; [done|done|lia].
    + intros Hs. cbn in *. right. by apply (Ho Hs).
  - pose proof (piece_len_bounds payload (y_gen (x_sys x))) as Hk. destruct (piece_len _ _) as [k g]. cbn [fst] in Hk.
    intros Hb. eapply (begin_frame_inv x x' i tid w); [done|done|exact Hb|done|..]; unfold sent_bytes;
      [|rewrite !length_sub; lia|lia|rewrite length_sub; lia|].
    + rewrite (app_assoc (sub payload 0 k)), split_at by lia. done.
    + intros Hs. cbn in *. by destruct (Ho Hs) as (-> & _).
Qed.

Lemma returned_inv x x' i tid w t payload p written n :
  wsys_inv x -> x_writers x !! i = Some w -> wr_pc w = WFrame t payload p written n -> wadvance i tid x = Some x' ->
    wsys_inv x'.
Proof.
  intros Hx Hi Hpc. unfold wadvance. rewrite Hi, Hpc. pose proof (wv_writers _ Hx i w Hi) as [_ _ Hd Ho].
  unfold divided in Hd. unfold one_frame in Ho. rewrite Hpc in Hd, Ho.
  destruct Hd as (cs & piece & Hc & Hq & (q & Hcall & Hj) & Hf & Ha & Hn & Hle & _). rewrite Hcall.
  destruct q as [| | | | |[j o|]]; try done. cbn in Hj. injection Hj as ->.
  pose proof (co_log _ _ _ _ (iv_calls _ _ (wv_sys _ Hx) _ _ Hcall)) as Hl.
  assert (Hquiet : quiet (x_sys x) (wr_calls w)).
  { rewrite Hc. intros t' [Hin| ->%list_elem_of_singleton]%elem_of_app; [by apply Hq|by eexists]. }
  assert (Hone : forall wire, bytes_of [(t, tcp_job piece, wire)] = piece) by (intros wire; apply app_nil_r).
  destruct o as [[]|e|]; [| |done]; intros [= <-]; (apply (wsys_inv_quiet x i w); [done|done|done|..]).
  - destruct Hl as [wire Hl]. unfold divided. cbn [wr_pc wr_calls wr_arg].
    rewrite Hc, Hf, Hl, bytes_of_app, Hone, length_app.
    rewrite <-Hc, <-app_assoc. split_and!; [done|done|lia|lia].
  - exact Ho.
  - unfold divided. cbn [wr_pc wr_calls wr_arg]. rewrite Hc, Hf, bytes_of_app, <-Hc, length_app, Ha.
    destruct Hl as [->|(wire & e' & -> & _)]; rewrite ?Hone; split_and!; try done; try lia.
    + rewrite app_nil_r. by apply prefix_app_r.
    + apply prefix_app. by apply prefix_app_r.
  - intros Hs. by apply (Ho Hs).
Qed.

Lemma wsys_inv_step x x' : wsys_inv x -> write_step x x' -> wsys_inv x'.
Proof.
  intros Hx Hs. destruct Hs as [i tid x x' Ha|i p x Hn|y x Hs].
  - destruct (x_writers x !! i) as [w|] eqn:Hi; [|by unfold wadvance in Ha; rewrite Hi in Ha].
    destruct (wr_pc w) as [p written|payload p written n|t payload p written n|n err] eqn:Hpc.
    + by eapply loop_inv.
    + by eapply send_inv.
    + by eapply returned_inv.
    + unfold wadvance in Ha. by rewrite Hi, Hpc in Ha.
  - destruct Hx as [Hy Hw Hd]. split; cbn; [done| |].
    + apply map_Forall_insert_2; [|done].
      split; cbn; [set_solver|rewrite frames_of_none; [constructor|set_solver]| |by left].
      unfold divided. cbn. rewrite frames_of_none by set_solver. split_and!; [|done|done]. intros t Ht.
      by apply not_elem_of_nil in Ht.
    + intros a b wa wb t. rewrite !lookup_insert_Some.
      intros [[<- <-]|[Hna Ha]] [[<- <-]|[Hnb Hb]]; cbn; [done|..|eauto].
      * intros Ht. by apply not_elem_of_nil in Ht.
      * intros _ Ht. by apply not_elem_of_nil in Ht.
  - by apply wsys_inv_stream.
Qed.

Lemma wsys_inv_reach x : rtc write_step (wstart s0 g0) x -> wsys_inv x.
Proof.
  intros Hr. refine (rtc_ind_r (fun x => wsys_inv x) _ _ _ _ Hr).
  - split; cbn; [apply inv_start|apply map_Forall_empty|done].
  - intros y z _ Hs Hi. by apply (wsys_inv_step y z).
Qed.

(** ** Properties *)

Lemma log_at_most_one y tid p : sys_inv s0 y -> y_calls y !! tid = Some p -> (length (log_of tid (y_log y)) <= 1)%nat.
Proof.
  intros Hy Hp. pose proof (co_log _ _ _ _ (iv_calls _ _ Hy _ _ Hp)) as Hl. revert Hl.
  generalize (log_of tid (y_log y)).
  intros l Hl. destruct p as [j'|j'|j' wire|j' wire|k [|j' e]|[j' [[]|e|]|err]]; cbn in Hl; try done; try (subst l;
    cbn; lia);
    try (destruct Hl as [w ->]; cbn; lia); try (destruct Hl as [-> _]; cbn; lia).
  destruct Hl as [->|(w & e' & -> & _)]; cbn; lia.
Qed.

Lemma one_frame_log x w :
  sys_inv s0 (x_sys x) -> writer_ok (x_sys x) w -> (length (wr_calls w) <= 1)%nat ->
  (length (frames_of (wr_calls w) (y_log (x_sys x))) <= 1)%nat.
Proof.
  intros Hy Hw Hl. destruct (wr_calls w) as [|t [|t' ts]] eqn:Hc; [| |cbn in Hl; lia].
  - rewrite frames_of_none; [cbn; lia|set_solver].
  - rewrite (frames_of_snoc [] t) by (apply frames_of_none; set_solver).
    destruct (wo_known _ _ Hw t) as [p Hp]; [rewrite Hc; left|]. by eapply log_at_most_one.
Qed.

Lemma sent_prefix x w : sys_inv s0 (x_sys x) -> writer_ok (x_sys x) w -> sent_bytes w x `prefix_of` wr_arg w.
Proof.
  intros Hy [_ _ Hd _]. unfold divided, sent_bytes in *. cbn zeta in Hd.
  destruct (wr_pc w) as [p written|payload p written n|tid payload p written n|n [e|]].
  - destruct Hd as (_ & Ha & _). exists p. by rewrite <-Ha.
  - destruct Hd as (_ & Ha & _). exists (payload ++ p). by rewrite <-Ha.
  - destruct Hd as (cs & piece & -> & _ & Hj & -> & -> & _). rewrite bytes_of_app. apply prefix_app.
    destruct (call_entries _ _ _ Hy Hj) as [->|[wire ->]]; [apply prefix_nil|].
    change (bytes_of [(tid, tcp_job piece, wire)]) with (piece ++ []). rewrite app_nil_r. by apply prefix_app_r.
  - apply Hd.
  - destruct Hd as (_ & -> & _). done.
Qed.

(** C10: concurrent writes to one connection: however any number of calls of
    [streamConn.Write] are interleaved, with each other and with every other
    use of the stream (sends, [Close], [Recv], cover traffic), and whatever
    the transport does, the frames on the wire carry consecutive counters, each
    of them belongs to at most one write, and the frames of a write are
    TCP_DATA frames that carry, in order, a prefix of its argument: all of it
    if the write returned without error, at least the bytes it reports if it
    failed.  A write of at most 8192 bytes is atomic: it is a single frame. *)
Theorem concurrent_writes x (Hreach : rtc write_step (wstart s0 g0) x) :
  let log := y_log (x_sys x) in
  framed (ss_send s0) (e_content <$> log) (e_wire <$> log) /\
  forall i w, x_writers x !! i = Some w ->
    sent_bytes w x `prefix_of` wr_arg w /\
    Forall (fun e => exists piece, e_content e = (FrameTCPData, [], piece)) (frames_of (wr_calls w) log) /\
    (forall n, wr_pc w = WReturned n None -> n = len (wr_arg w) /\ sent_bytes w x = wr_arg w) /\
    (forall n e, wr_pc w = WReturned n (Some e) -> n <= len (sent_bytes w x)) /\
    (len (wr_arg w) <= 8192 -> (length (frames_of (wr_calls w) log) <= 1)%nat) /\
    (forall j w' e, x_writers x !! j = Some w' -> e ∈ frames_of (wr_calls w) log -> e ∈ frames_of (wr_calls w') log ->
      i = j).
Proof.
  cbn zeta. apply wsys_inv_reach in Hreach as [Hy Hw Hdis]. split; [apply Hy|]. intros i w Hi.
  pose proof (Hw i w Hi) as Hok. pose proof Hok as [_ Ht Hd Ho]. unfold divided in Hd. unfold one_frame in Ho.
  split_and!.
  - by apply sent_prefix.
  - eapply Forall_impl; [exact Ht|]. intros e [piece He]. exists piece. unfold e_content. by rewrite He.
  - intros n Hpc. rewrite Hpc in Hd. by destruct Hd as (_ & H1 & H2).
  - intros n e Hpc. rewrite Hpc in Hd. by destruct Hd as (_ & _ & H).
  - intros Hs. apply one_frame_log; [done|done|]. specialize (Ho Hs).
    destruct (wr_pc w); [destruct Ho as [[-> _]|[_ H]]; [cbn; lia|done]|apply Ho..].
  - intros j w' e Hj [He _]%list_elem_of_filter [He' _]%list_elem_of_filter. by eapply Hdis.
Qed.
(** ** Progress *)

(** The steps a write has still to make at most, those of the calls of
    [sendFrame] it has still to begin included: a frame takes at least one
    byte. *)
Definition write_weight (w : writer) : nat :=
  match wr_pc w with
  | WLoop p _ => 12 * length p + 2
  | WSend payload p _ _ => 12 * (length payload + length p) + (if (len payload =? 0)%Z then 3 else 1)
  | WFrame _ payload p _ _ => 12 * (length payload + length p) + 4
  | WReturned _ _ => 0
  end%nat.

Definition writes_pending (ws : gmap nat writer) : nat := map_fold (fun _ w n => (write_weight w + n)%nat) 0%nat ws.

(** The steps that are left. *)
Definition total (x : WSys) : nat := (pending (y_calls (x_sys x)) + writes_pending (x_writers x))%nat.

Lemma writes_pending_insert ws i w w' :
  ws !! i = Some w -> (writes_pending (<[i := w']> ws) + write_weight w = writes_pending ws + write_weight w')%nat.
Proof.
  intros Hw. unfold writes_pending. rewrite <-insert_delete_eq.
  rewrite map_fold_insert_L; [|intros; lia|apply lookup_delete_eq].
  rewrite (map_fold_delete_L _ _ i w ws); [lia|intros; lia|done].
Qed.

Lemma pending_new calls tid j : calls !! tid = None -> pending (<[tid := Entered j]> calls) = (7 + pending calls)%nat.
Proof. intros Hn. unfold pending. by rewrite map_fold_insert_L by (done || intros; lia). Qed.

Lemma wgoto_decreases x i w w' :
  x_writers x !! i = Some w -> (write_weight w' < write_weight w)%nat -> (total (wgoto i w' x) < total x)%nat.
Proof. intros Hi Hw. unfold total. cbn. pose proof (writes_pending_insert _ i w w' Hi). lia. Qed.

Lemma begin_decreases x x' i tid w piece payload p written n g :
  x_writers x !! i = Some w -> begin_frame i tid w piece payload p written n g x = Some x' ->
  (12 * (length payload + length p) + 11 < write_weight w)%nat -> (total x' < total x)%nat.
Proof.
  unfold begin_frame. destruct (y_calls (x_sys x) !! tid) eqn:Hfree; [done|]. intros Hi [= <-] Hw. unfold total. cbn.
  rewrite pending_new by done. set (w' := mkWriter _ _ _).
  pose proof (writes_pending_insert (x_writers x) i w w' Hi) as H.
  change (write_weight w') with (12 * (length payload + length p) + 4)%nat in H. lia.
Qed.

Lemma wadvance_decreases i tid x x' : wadvance i tid x = Some x' -> (total x' < total x)%nat.
Proof.
  unfold wadvance. destruct (x_writers x !! i) as [w|] eqn:Hi; [|done].
  assert (Hgo : forall pc, (write_weight (mkWriter (wr_arg w) pc (wr_calls w)) < write_weight w)%nat ->
    Some (wgoto i (mkWriter (wr_arg w) pc (wr_calls w)) x) = Some x' -> (total x' < total x)%nat).
  { intros pc Hw [= <-]. by apply (wgoto_decreases x i w). }
  pose proof (eq_refl (write_weight w)) as Hw. unfold write_weight in Hw at 1.
  destruct (wr_pc w) as [p written|payload p written n|t payload p written n|n err]; [| | |done].
  - destruct (Z.eqb_spec (len p) 0); [apply Hgo; cbn; lia|].
    set (chunk := if maxPayload <? len p then _ else _).
    assert (Hc : 0 < len chunk <= len p) by (unfold chunk; destruct (Z.ltb_spec maxPayload (len p));
      unfold maxPayload, MaxFrameSize in *; rewrite ?length_sub; lia).
    assert (Hr : len (sub p (len chunk) (len p)) = len p - len chunk) by (rewrite length_sub; lia).
    destruct (_ <=? _); [intros Hb; apply (begin_decreases _ _ _ _ _ _ _ _ _ _ _ Hi Hb); cbn [length]; lia|].
    apply Hgo. cbn. rewrite (proj2 (Z.eqb_neq _ _)) by lia. lia.
  - destruct (Z.eqb_spec (len payload) 0); [apply Hgo; cbn; lia|].
    pose proof (piece_len_bounds payload (y_gen (x_sys x))) as Hk. destruct (piece_len _ _) as [k g]. cbn [fst] in Hk.
    assert (Hr : len (sub payload k (len payload)) = len payload - k) by (rewrite length_sub; lia).
    intros Hb. apply (begin_decreases _ _ _ _ _ _ _ _ _ _ _ Hi Hb). lia.
  - destruct (y_calls (x_sys x) !! t) as [[| | | | |[j [[]|e|]|]]|]; try done; apply Hgo; cbn; [|lia].
    destruct (_ =? _); lia.
Qed.

(** A write that has not returned, with no call in progress, can go on. *)
Lemma wadvance_enabled x i w :
  wsys_inv x -> x_writers x !! i = Some w -> (forall n err, wr_pc w <> WReturned n err) ->
  (forall t p, y_calls (x_sys x) !! t = Some p -> exists r, p = Returned r) -> exists tid x', wadvance i tid x =
    Some x'.
Proof.
  intros Hx Hi Hnr Hcalls. set (tid := fresh (dom (y_calls (x_sys x)))).
  assert (Hfree : y_calls (x_sys x) !! tid = None) by (apply not_elem_of_dom, is_fresh).
  pose proof (wo_divided _ _ (wv_writers _ Hx i w Hi)) as Hd. unfold divided in Hd.
  exists tid. unfold wadvance, begin_frame. rewrite Hi, Hfree.
  destruct (wr_pc w) as [p written|payload p written n|t payload p written n|n err]; [| | |by destruct (Hnr n err)].
  - destruct (_ =? 0); [by eexists|]. destruct (_ <=? _); by eexists.
  - destruct (_ =? 0); [by eexists|]. destruct (piece_len _ _). by eexists.
  - destruct Hd as (cs & piece & _ & _ & (q & Hq & Hj) & _ & _ & _ & _ & Hsz). destruct (Hcalls t q Hq) as [r ->].
    pose proof (co_log _ _ _ _ (iv_calls _ _ (wv_sys _ Hx) _ _ Hq)) as Hl. rewrite Hq.
    destruct r as [j [[]|e|]|]; [by eexists|by eexists| |done]. destruct Hl as [_ Hl]. injection Hj as ->.
    unfold huge, maxAlloc, MaxFramePad, reshapeMax in *. cbn in Hl, Hsz. lia.
Qed.

(** C33: every write returns: once no new calls are made, the writes and the
    calls in progress take a bounded number of steps altogether, whatever the
    schedule and the transport, and a system in which nothing can go on is one
    in which all writes and all calls have returned; neither [writeMu] nor
    the once of [Close] can deadlock, and no loop runs for ever. *)
Theorem concurrent_writes_return nowNs x n x'
    (Hreach : rtc write_step (wstart s0 g0) x)
    (Hrun : nsteps (fun x1 x2 => (exists i tid, wadvance i tid x1 = Some x2) \/
      exists now tid y, advance now tid (x_sys x1) = Some y /\ x2 = mkWSystem y (x_writers x1)) n x x') :
  (n <= total x)%nat /\
  ((forall i tid, wadvance i tid x' = None) -> (forall tid, advance nowNs tid (x_sys x') = None) ->
   (forall i w, x_writers x' !! i = Some w -> exists k err, wr_pc w = WReturned k err) /\
   (forall tid p, y_calls (x_sys x') !! tid = Some p -> exists r, p = Returned r)).
Proof.
  apply wsys_inv_reach in Hreach. assert (Hn : (n + total x' <= total x)%nat /\ wsys_inv x').
  { induction Hrun as [x|n x1 x2 x3 Hs _ IH]; [done|]. destruct Hs as [(i & tid & Ha)|(now & tid & y & Ha & ->)].
    - pose proof (wadvance_decreases _ _ _ _ Ha). destruct IH as [IH ?]; [by eapply wsys_inv_step, w_advance|].
      split; [lia|done].
    - pose proof (advance_decreases _ _ _ _ Ha). unfold total at 2 in IH. cbn in IH.
      destruct IH as [IH ?]; [by eapply wsys_inv_stream, step_advance|]. split; [unfold total at 2; lia|done]. }
  destruct Hn as [Hn Hx']. split; [lia|]. intros Hw Hs.
  assert (Hcalls : forall tid p, y_calls (x_sys x') !! tid = Some p -> exists r, p = Returned r).
  { intros tid p Hp. destruct p as [j|j|j wire|j wire|k who|r]; [| | | | |by exists r];
      destruct (advance_enabled s0 nowNs (x_sys x') tid _ (wv_sys _ Hx') Hp) as (t & y2 & Ht); try done;
        by rewrite Hs in Ht. }
  split; [|done]. intros i w Hi.
  destruct (wr_pc w) as [p k|payload p k m|t payload p k m|k err] eqn:Hpc; [| | |by exists k, err].
  all: destruct (wadvance_enabled x' i w Hx' Hi) as (tid & x2 & Ha); [by rewrite Hpc|done|by rewrite Hw in Ha].
Qed.
End WriteInvariant.

(** ** A write on its own *)

Section SoloWrite.
Context {G : Type} {C : Crypto G} {E : Entropy G}.
Context {T : Type} {MT : MessageTransport T}.

(** One write, and no other use of the stream. *)
Definition alone (s : SecureStream AEAD T) (g : G) (calls : gmap nat pc) (log : list entry) (w : writer) : wsystem T :=
  mkWSystem (mkSystem s g None (once_of s) calls log) {[0%nat := w]}.

Lemma run_call_steps fuel nowNs tid (y : system T) : rtc (step (G := G)) y (run_call fuel nowNs tid y).
Proof.
  revert y. induction fuel as [|fuel IH]; intros y; [done|]. rewrite run_call_S.
  destruct (advance nowNs tid y) as [y'|] eqn:Ha; [|done]. eapply rtc_l; [by eapply step_advance|apply IH].
Qed.

Lemma stream_steps (y y' : system (G := G) T) ws :
  rtc step y y' -> rtc (write_step (G := G)) (mkWSystem y ws) (mkWSystem y' ws).
Proof. induction 1 as [|y1 y2 y3 Hs _ IH]; [done|]. eapply rtc_l; [by apply (w_stream y2 (mkWSystem y1 ws))|done]. Qed.

(** Where a write goes on after [sendFrame]. *)
Definition resumed (o : outcome unit) (payload p : bytes) (written n : Z) : write_pc :=
  match o with Fail e => WReturned written (Some e) | _ => WSend payload p written n end.

(** From the call of [sendFrame] to the step after its return. *)
Lemma alone_frame nowNs s (g : G) calls log tid arg piece payload p written n cs s' g' o :
  sendFrame nowNs FrameTCPData [] piece (-1) (s, g) = (o, (s', g')) -> o <> Panic ->
  exists calls' log', rtc write_step
    (alone s g (<[tid := Entered (tcp_job piece)]> calls) log (mkWriter arg (WFrame tid payload p written n) cs))
    (alone s' g' calls' log' (mkWriter arg (resumed o payload p written n) cs)).
Proof.
  intros Hsend Ho. pose proof (solo_send nowNs tid (tcp_job piece) s g calls log) as Hrun. cbn zeta in Hrun.
  cbn [tcp_job j_type j_meta j_payload j_pad] in Hrun. rewrite Hsend in Hrun. fold (tcp_job piece) in Hrun.
  pose proof (run_call_steps 6 nowNs tid (mkSystem s g None (once_of s)
    (<[tid:=Entered (tcp_job piece)]> calls) log)) as Hsteps.
  destruct (run_call _ _ _ _) as [s1 g1 l1 on1 calls1 log1]. cbn in Hrun. destruct Hrun as (-> & -> & -> & -> & ->).
  exists (<[tid := Returned (SendResult (tcp_job piece) o)]> calls), log1.
  etrans; [by apply stream_steps|]. apply rtc_once, (w_advance 0 tid). unfold wadvance.
  cbn [alone x_writers x_sys y_calls]. rewrite lookup_singleton_eq. cbn [wr_pc]. rewrite lookup_insert_eq.
  destruct o as [[]|e|]; [| |done]; unfold wgoto; cbn [x_sys x_writers wr_arg wr_calls]; by rewrite insert_singleton_eq.
Qed.

(** The next call of [sendFrame]. *)
Lemma alone_begin nowNs s (g g1 : G) calls log arg pc cs piece payload p written n o s' g' :
  (forall tid (x : wsystem T), x = alone s g calls log (mkWriter arg pc cs) ->
     wadvance 0 tid x = begin_frame 0 tid (mkWriter arg pc cs) piece payload p written n g1 x) ->
  sendFrame nowNs FrameTCPData [] piece (-1) (s, g1) = (o, (s', g')) -> o <> Panic ->
  exists calls' log' cs', rtc write_step (alone s g calls log (mkWriter arg pc cs))
    (alone s' g' calls' log' (mkWriter arg (resumed o payload p written n) cs')).
Proof.
  intros Hadv Hsend Ho. set (tid := fresh (dom calls)).
  assert (Hfree : calls !! tid = None) by (apply not_elem_of_dom, is_fresh).
  destruct (alone_frame nowNs s g1 calls log tid arg piece payload p written n (cs ++ [tid]) s' g' o Hsend Ho) as (calls' & log' & Hr).
  exists calls', log', (cs ++ [tid]). eapply rtc_l; [|exact Hr]. apply (w_advance 0 tid). rewrite Hadv by done.
  unfold begin_frame. cbn [alone x_sys y_calls]. rewrite Hfree. unfold wgoto, alone, goto. cbn.
  by rewrite insert_singleton_eq.
Qed.

Lemma alone_goto s (g : G) calls log arg pc pc' cs tid :
  (forall x : wsystem T, x = alone s g calls log (mkWriter arg pc cs) ->
     wadvance 0 tid x = Some (wgoto 0 (mkWriter arg pc' cs) x)) ->
  rtc write_step (alone s g calls log (mkWriter arg pc cs)) (alone s g calls log (mkWriter arg pc' cs)).
Proof.
  intros Hadv. apply rtc_once, (w_advance 0 tid). rewrite Hadv by done. unfold wgoto, alone. cbn.
  by rewrite insert_singleton_eq.
Qed.

Lemma alone_reshape fuel nowNs : forall payload s (g : G) o s' g' calls log arg p written n cs,
  reshape_loop fuel nowNs payload (s, g) = (o, (s', g')) -> o <> Panic ->
  exists calls' log' cs', rtc write_step (alone s g calls log (mkWriter arg (WSend payload p written n) cs))
    (alone s' g' calls' log' (mkWriter arg (resumed o [] p written n) cs')).
Proof.
  induction fuel as [|fuel IH]; intros payload s g o s' g' calls log arg p written n cs.
  - cbn [reshape_loop]. destruct (Z.eqb_spec (len payload) 0); intros [= <- <- <-] Ho; [|done].
    exists calls, log, cs. destruct payload; [apply rtc_refl|done].
  - cbn [reshape_loop]. destruct (Z.eqb_spec (len payload) 0) as [|Hz].
    { intros [= <- <- <-] _. exists calls, log, cs. destruct payload; [apply rtc_refl|done]. }
    pose proof (piece_len_bounds payload g) as Hk. pose proof (eq_refl (piece_len payload g)) as Hfl.
    unfold piece_len in Hfl at 1.
    destruct (if reshapeMax <? len payload then _ else _) as [chunk g1]. rewrite <-Hfl in Hk. cbn [fst] in Hk.
    set (k := if len payload <? chunk then _ else _) in *. unfold lift. rewrite slice_ok by lia. cbn [sbind].
    destruct (sendFrame _ _ _ _ _ _) as [o1 [s1 g2]] eqn:Hsend. intros Hl Ho.
    destruct (alone_begin nowNs s g g1 calls log arg (WSend payload p written n) cs (sub payload 0 k)
      (sub payload k (len payload)) p written n o1 s1 g2) as (calls1 & log1 & cs1 & Hr); [|done| |].
    + intros tid x ->. unfold wadvance. cbn [alone x_writers x_sys y_gen]. rewrite lookup_singleton_eq. cbn [wr_pc].
      rewrite (proj2 (Z.eqb_neq _ _)), <-Hfl by done. done.
    + intros ->. cbn [sbind] in Hl. congruence.
    + destruct o1 as [[]|e|]; cbn [sbind] in Hl; [| |congruence].
      * rewrite slice_ok in Hl by lia. cbn [sbind] in Hl.
        destruct (IH _ _ _ _ _ _ calls1 log1 arg p written n cs1 Hl Ho) as (calls2 & log2 & cs2 & Hr2).
        exists calls2, log2, cs2. by etrans.
      * injection Hl as <- <- <-. by exists calls1, log1, cs1.
Qed.

Lemma alone_send nowNs chunk p rest s (g : G) o s' g' calls log arg written cs :
  0 < len p -> chunk = (if maxPayload <? len p then sub p 0 maxPayload else p) -> rest = sub p (len chunk) (len p) ->
  SendTCPData nowNs chunk (s, g) = (o, (s', g')) -> o <> Panic ->
  exists calls' log' cs', rtc write_step (alone s g calls log (mkWriter arg (WLoop p written) cs))
    (alone s' g' calls' log' (mkWriter arg (resumed o [] rest written (len chunk)) cs')).
Proof.
  intros Hp Hchunk Hrest. unfold SendTCPData.
  assert (Hadv : forall tid (x : wsystem T), x = alone s g calls log (mkWriter arg (WLoop p written) cs) ->
    wadvance 0 tid x =
      if len chunk <=? reshapeThreshold then begin_frame 0 tid (mkWriter arg (WLoop p written) cs) chunk [] rest written (len chunk) g x
      else Some (wgoto 0 (mkWriter arg (WSend chunk rest written (len chunk)) cs) x)).
  { intros tid x ->. unfold wadvance. cbn [alone x_writers x_sys y_gen]. rewrite lookup_singleton_eq. cbn [wr_pc].
    rewrite (proj2 (Z.eqb_neq _ _)) by lia. rewrite <-Hchunk, <-Hrest. done. }
  destruct (len chunk <=? reshapeThreshold); intros Hs Ho; [by eapply alone_begin|].
  destruct (alone_reshape _ _ _ _ _ _ _ _ calls log arg rest written (len chunk) cs Hs Ho) as (calls' & log' & cs' & Hr).
  exists calls', log', cs'. etrans; [|exact Hr]. apply (alone_goto _ _ _ _ _ _ _ _ 0). intros x. apply Hadv.
Qed.

Lemma alone_write fuel nowNs : forall p written c (g : G) n err c' g' calls log arg cs,
  write_loop fuel nowNs p written (c, g) = (Ret (n, err), (c', g')) ->
  exists calls' log' cs', rtc write_step (alone (sc_stream c) g calls log (mkWriter arg (WLoop p written) cs))
    (alone (sc_stream c') g' calls' log' (mkWriter arg (WReturned n err) cs')).
Proof.
  induction fuel as [|fuel IH]; intros p written c g n err c' g' calls log arg cs; cbn [write_loop].
  all: destruct (Z.eqb_spec (len p) 0) as [Hz|Hz]; [intros [= <- <- <- <-]; exists calls, log, cs;
      apply (alone_goto _ _ _ _ _ _ _ _ 0);
    intros x ->; unfold wadvance; cbn [alone x_writers]; rewrite lookup_singleton_eq; cbn [wr_pc]; by rewrite Hz|].
  { done. }
  set (chunk := if maxPayload <? len p then sub p 0 maxPayload else p). unfold lift.
  assert (Hc : (if maxPayload <? len p then slice p 0 maxPayload else Ret p) = Ret chunk /\ 0 < len chunk <= len p).
  { unfold chunk, maxPayload, MaxFrameSize. destruct (Z.ltb_spec (65536 - 256) (len p)).
    - rewrite slice_ok, length_sub by lia. split; [done|lia].
    - split; [done|lia]. }
  destruct Hc as [-> Hc]. cbn [sbind]. destruct (SendTCPData _ _ _) as [o [s1 g1]] eqn:Hs. intros Hw.
  destruct (alone_send nowNs chunk p _ (sc_stream c) g o s1 g1 calls log arg written cs ltac:(lia) eq_refl eq_refl Hs)
    as (calls1 & log1 & cs1 & Hr); [by intros ->|].
  destruct o as [[]|e|]; [| |done].
  - rewrite slice_ok in Hw by lia. cbn [sbind] in Hw. set (rest := sub p _ _) in *.
    destruct (IH _ _ _ _ _ _ _ _ calls1 log1 arg cs1 Hw) as (calls2 & log2 & cs2 & Hr2).
    exists calls2, log2, cs2. etrans; [exact Hr|]. etrans; [|exact Hr2]. apply (alone_goto _ _ _ _ _ _ _ _ 0).
    intros x ->. unfold wadvance. cbn [alone x_writers]. by rewrite lookup_singleton_eq.
  - injection Hw as <- <- <- <-. by exists calls1, log1, cs1.
Qed.

(** [StreamConn_Write] is what the steps make up when nothing intervenes. *)
Theorem solo_stream_write nowNs p c (g : G) n err c' g' :
  ss_closeOnce (sc_stream c) = false -> StreamConn_Write nowNs p (c, g) = (Ret (n, err), (c', g')) ->
  exists x w, rtc write_step (wstart (sc_stream c) g) x /\ x_writers x = {[0%nat := w]} /\
    wr_arg w = p /\ wr_pc w = WReturned n err /\ y_stream (x_sys x) = sc_stream c' /\ y_gen (x_sys x) = g'.
Proof.
  intros Honce Hw.
  assert (Hl : write_loop (length p) nowNs p 0 (c, g) = (Ret (n, err), (c', g'))).
  { revert Hw. unfold StreamConn_Write. destruct (Z.eqb_spec (len p) 0) as [Hz|]; [|done]. by destruct p. }
  destruct (alone_write _ _ _ _ _ _ _ _ _ _ ∅ [] p [] Hl) as (calls & log & cs & Hr).
  exists (alone (sc_stream c') g' calls log (mkWriter p (WReturned n err) cs)), (mkWriter p (WReturned n err) cs).
  split_and!; try done. eapply rtc_l; [by apply (w_write 0 p)|]. unfold wgoto, wstart, start, alone, once_of in *.
  cbn in *.
  rewrite Honce in Hr. exact Hr.
Qed.
End SoloWrite.

(** ** Witness *)

Lemma concurrent_writes_witness :
  exists (x : wsystem (G := Toy.gen) LengthFramer) w, x_writers x !! 0%nat = Some w /\ wr_pc w = WReturned 12 None /\
    sent_bytes w x = str "hello, world" /\ (length (frames_of (wr_calls w) (y_log (x_sys x))) <= 1)%nat.
Proof.
  destruct (StreamConn_Write 1 StreamConnExamples.p0 (StreamConnExamples.w0, 5 : Toy.gen)) as [o [c' g']] eqn:Hw.
  assert (Ho : o = Ret (12, None)) by (apply (f_equal fst) in Hw; cbn [fst] in Hw; rewrite <-Hw; vm_compute;
    reflexivity).
  rewrite Ho in Hw. destruct (solo_stream_write 1 _ StreamConnExamples.w0 (5 : Toy.gen) 12 None c' g' eq_refl Hw)
    as (x & w & Hr & Hws & Harg & Hpc & _).
  destruct (concurrent_writes _ _ x Hr) as [_ H].
  assert (Hi : x_writers x !! 0%nat = Some w) by (rewrite Hws; apply lookup_singleton_eq).
  destruct (H 0%nat w Hi) as (_ & _ & Hall & _ & Hone & _). exists x, w. split; [exact Hi|]. split; [exact Hpc|]. split.
  - rewrite (proj2 (Hall 12 Hpc)), Harg. reflexivity.
  - apply Hone. rewrite Harg. vm_compute. congruence.
Defined.

Lemma concurrent_writes_return_witness :
  exists (x x' : wsystem (G := Toy.gen) LengthFramer), (1 <= total x)%nat /\ total x = 146%nat /\
    ((forall i tid, wadvance i tid x' = None) -> (forall tid, advance 1 tid (x_sys x') = None) ->
     forall i w, x_writers x' !! i = Some w -> exists k err, wr_pc w = WReturned k err).
Proof.
  set (w := mkWriter StreamConnExamples.p0 (WLoop StreamConnExamples.p0 0) []).
  set (x := wgoto 0 w (wstart StreamExamples.a0 (5 : Toy.gen))).
  assert (Hr : rtc write_step (wstart StreamExamples.a0 (5 : Toy.gen)) x) by (apply rtc_once, w_write; reflexivity).
  assert (Hs : match wadvance 0 0 x with Some _ => true | None => false end = true) by (vm_compute; reflexivity).
  destruct (wadvance 0 0 x) as [x'|] eqn:Ha; [|discriminate Hs].
  destruct (concurrent_writes_return StreamExamples.a0 (5 : Toy.gen) 1 x 1 x' Hr) as [Hn Hdone].
  - eapply nsteps_l; [left; exists 0%nat, 0%nat; exact Ha|constructor].
  - exists x, x'. split; [exact Hn|]. split; [vm_compute; reflexivity|]. intros H1 H2. apply (Hdone H1 H2).
Defined.
