(* ===== verification/PacketConn.v ===== *)
(** * UDP mode: packetConn (src/packetconn.go)

    The [net.PacketConn] adapter for one UDP sub-session, and the conversion
    between [net.Addr] and protocol addresses.  [WriteToAddress] reads
    [opened] outside the mutex: the unlocked test and the rest of the call
    are separate steps, so that two first writes can be interleaved. *)

From S2P Require Import Prelude Address Crypto Io Kdf Padding Frame Transport SecureStream.
From S2P Require Import SecureStreamProofs StreamConn.
Import Netip.

(** ** Addresses *)

(** [net.Addr] values: the two of package [net] the code knows (IP bytes, port
    and zone), its own [FqdnAddr], and any other implementation. *)
Inductive NetAddr :=
  | UDPAddr (ip : bytes) (port : Z) (zone : bytes)
  | TCPAddr (ip : bytes) (port : Z) (zone : bytes)
  | FqdnAddr (fqdn : bytes) (port : Z)
  | OtherAddr.

#[global] Instance NetAddr_eq_dec : EqDecision NetAddr.
Proof. solve_decision. Defined.

(** The addresses of the connection under a transport; [None] is nil. *)
Class ConnAddrs (T : Type) := {
  UnderlyingLocalAddr : T -> option NetAddr;
  UnderlyingRemoteAddr : T -> option NetAddr
}.

Definition ErrInvalidIP : error := ErrText "ewp: invalid IP".
Definition ErrUnsupportedAddr : error := ErrText "ewp: unsupported net.Addr type".

(** [uint16(port)] *)
Definition u16 (z : Z) : Z := z mod 2 ^ 16.

Definition addrToEWP (addr : NetAddr) : outcome Address :=
  match addr with
  | UDPAddr ip port _ | TCPAddr ip port _ =>
      match AddrFromSlice ip with
      | None => Fail ErrInvalidIP
      | Some ap => Ret (ip_Address (AddrPortFrom (Unmap ap) (u16 port)))
      end
  | FqdnAddr fqdn port =>
      fail_if MaxDomainLen <? len fqdn with ErrDomainLen ;;
      Ret (domain_Address fqdn port)
  | OtherAddr => Fail ErrUnsupportedAddr
  end.

(** [addr.AsSlice()] and [addr.Zone()] *)
Definition AsSlice (a : Netip.Addr) : bytes :=
  match a with AddrZero => [] | Addr4 l => arr_list l | Addr6 l _ => arr_list l end.
Definition Zone (a : Netip.Addr) : bytes := match a with Addr6 _ z => z | _ => [] end.

(** [None] is the nil interface. *)
Definition ewpToNetAddr (a : Address) : option NetAddr :=
  if IsDomain a then Some (FqdnAddr (Domain a) (Port a)) else
  if AddrPort_IsValid (Address.Addr a)
  then Some (UDPAddr (AsSlice (ap_addr (Address.Addr a))) (ap_port (Address.Addr a)) (Zone (ap_addr (Address.Addr a))))
  else None.

(** ** The connection *)

Record packetConn (A T : Type) := mkPacketConn {
  pc_stream : SecureStream A T;
  pc_underlying : bool;
  pc_globalID : arr 8;
  pc_defaultDst : Address;
  pc_isServer : bool;
  pc_pendingFirst : option bytes;     (* [None] is nil *)
  pc_pendingFirstSrc : Address;
  pc_opened : bool;
  pc_closeOnce : bool;
  pc_closeErr : option error
}.
Arguments mkPacketConn {A T} _ _ _ _ _ _ _ _ _ _.
Arguments pc_stream {A T} _.
Arguments pc_underlying {A T} _.
Arguments pc_globalID {A T} _.
Arguments pc_defaultDst {A T} _.
Arguments pc_isServer {A T} _.
Arguments pc_pendingFirst {A T} _.
Arguments pc_pendingFirstSrc {A T} _.
Arguments pc_opened {A T} _.
Arguments pc_closeOnce {A T} _.
Arguments pc_closeErr {A T} _.

Definition ErrUnexpectedUDP : error := ErrText "ewp: unexpected frame type on packet conn".

Section PacketConn.
Context {G : Type} {C : Crypto G} {E : Entropy G}.
Context {T : Type} {MT : MessageTransport T} {U : Underlying T}.

Abbreviation PConn := (packetConn AEAD T).

Definition newClientPacketConn (stream : SecureStream AEAD T) (underlying : bool) (dst : Address) (g : G)
  : outcome PConn * G :=
  letS gid, g := NewGlobalID g ;;
  (Ret (mkPacketConn stream underlying gid dst false None zero_Address false false None), g).

Definition newServerPacketConn (stream : SecureStream AEAD T) (underlying : bool) (globalID : arr 8)
  (defaultDst : Address) (initial : option bytes) : PConn :=
  mkPacketConn stream underlying globalID defaultDst true initial defaultDst true false None.

Definition pc_with (s : SecureStream AEAD T) (opened : bool) (p : PConn) : PConn :=
  mkPacketConn s (pc_underlying p) (pc_globalID p) (pc_defaultDst p) (pc_isServer p) (pc_pendingFirst p)
    (pc_pendingFirstSrc p) opened (pc_closeOnce p) (pc_closeErr p).

(** Runs under [openedMu]. *)
Definition ensureOpen (nowNs : Z) (payload : bytes) (st : PConn * G) : outcome unit * (PConn * G) :=
  let '(p, g) := st in
  if pc_opened p then (Ret tt, (p, g)) else
  let '(o, (s, g)) := SendUDPNew nowNs (pc_globalID p) (pc_defaultDst p) payload (pc_stream p, g) in
  match o with
  | Ret _ => (Ret tt, (pc_with s true p, g))
  | _ => (o, (pc_with s false p, g))
  end.

(** The unlocked test [!p.isServer && !p.opened] ... *)
Definition write_test (p : PConn) : bool := negb (pc_isServer p) && negb (pc_opened p).

(** ... and the rest of the call, given its result. *)
Definition write_rest (first : bool) (nowNs : Z) (b : bytes) (target : Address) (st : PConn * G)
  : outcome Z * (PConn * G) :=
  if first then
    letS _, st := ensureOpen nowNs b st ;; (Ret (len b), st)
  else
    let '(p, g) := st in
    let '(o, (s, g)) := SendUDPData nowNs (pc_globalID p) target b (pc_stream p, g) in
    letS _, st := (o, (pc_with s (pc_opened p) p, g)) ;; (Ret (len b), st).

Definition WriteToAddress (nowNs : Z) (b : bytes) (target : Address) (st : PConn * G)
  : outcome Z * (PConn * G) :=
  write_rest (write_test st.1) nowNs b target st.

Definition WriteTo (nowNs : Z) (b : bytes) (addr : NetAddr) (st : PConn * G) : outcome Z * (PConn * G) :=
  letS target, st := lift (addrToEWP addr) st ;;
  WriteToAddress nowNs b target st.

(** What one received event means to [ReadFrom]: a datagram, the end, a frame
    to skip, or a violation. *)
Inductive verdict := Deliver (payload : bytes) (src : Address) | EndOfSession | Skip | Violation.

Definition judge (p : PConn) (ev : Event) : verdict :=
  let t := ev_Type ev in
  if bool_decide (t = FrameUDPData \/ t = FrameUDPNew) then
    if negb (bool_decide (ev_GlobalID ev = pc_globalID p)) then Skip
    else Deliver (ev_Payload ev) (if ev_HasAddr ev then ev_Address ev else pc_defaultDst p)
  else if bool_decide (t = FrameUDPEnd) then
    if bool_decide (ev_GlobalID ev = pc_globalID p) then EndOfSession else Skip
  else if bool_decide (t = FramePing \/ t = FramePong \/ t = FramePaddingOnly
                       \/ t = FrameUDPProbeReq \/ t = FrameUDPProbeResp) then Skip
  else Violation.

(** [ReadFrom(b)] with [len(b) = n]: the bytes copied and the source; [None]
    when [fuel] frames were not enough. *)
Fixpoint read_loop_from (fuel : nat) (n : Z) (p : PConn) : option (outcome (bytes * option NetAddr)) * PConn :=
  match fuel with
  | O => (None, p)
  | S fuel =>
      let '(o, s) := Recv (pc_stream p) in
      let p := pc_with s (pc_opened p) p in
      match o with
      | Panic => (Some Panic, p)
      | Fail e => (Some (Fail e), p)
      | Ret ev =>
          match judge p ev with
          | Deliver payload src => (Some (Ret (sub payload 0 (Z.min n (len payload)), ewpToNetAddr src)), p)
          | EndOfSession => (Some (Fail EOF), p)
          | Skip => read_loop_from fuel n p
          | Violation => (Some (Fail ErrUnexpectedUDP), p)
          end
      end
  end.

Definition ReadFrom (fuel : nat) (n : Z) (p : PConn) : option (outcome (bytes * option NetAddr)) * PConn :=
  match pc_pendingFirst p with
  | Some first =>
      (Some (Ret (sub first 0 (Z.min n (len first)), ewpToNetAddr (pc_pendingFirstSrc p))),
       mkPacketConn (pc_stream p) (pc_underlying p) (pc_globalID p) (pc_defaultDst p) (pc_isServer p) None
         (pc_pendingFirstSrc p) (pc_opened p) (pc_closeOnce p) (pc_closeErr p))
  | None => read_loop_from fuel n p
  end.

(** The best-effort UDP_END of [Close], between two settings of the write
    deadline; [nowDl] is the clock when the deadline is set, [nowNs] the one of
    the send. *)
Definition send_end (nowDl nowNs : Z) (globalID : arr 8) (st : SecureStream AEAD T * G) : SecureStream AEAD T * G :=
  let '(s, g) := st in
  let s := set_tr (UnderlyingSetWriteDeadline (Some (nowDl + 100 * 1000000)) (ss_tr s)).2 s in
  let '(_, (s, g)) := SendUDPEnd nowNs globalID (s, g) in
  (set_tr (UnderlyingSetWriteDeadline None (ss_tr s)).2 s, g).

(** Closing the stream, then the connection; the first error counts. *)
Definition close_both (underlying : bool) (s : SecureStream AEAD T) : option error * SecureStream AEAD T :=
  let '(err, s) := Close s in
  if underlying then
    let '(err2, tr) := CloseUnderlyingConn (ss_tr s) in
    (match err2, err with Some e, None => Some e | _, _ => err end, set_tr tr s)
  else (err, s).

Definition PacketConn_Close (nowDl nowNs : Z) (st : PConn * G) : option error * (PConn * G) :=
  let '(p, g) := st in
  if pc_closeOnce p then (pc_closeErr p, (p, g)) else
  let '(s, g) :=
    if pc_opened p && pc_underlying p then send_end nowDl nowNs (pc_globalID p) (pc_stream p, g)
    else (pc_stream p, g) in
  let '(err, s) := close_both (pc_underlying p) s in
  (err, (mkPacketConn s (pc_underlying p) (pc_globalID p) (pc_defaultDst p) (pc_isServer p)
           (pc_pendingFirst p) (pc_pendingFirstSrc p) (pc_opened p) true err, g)).

(** The deadline setters forward to the connection, if there is one. *)
Definition PacketConn_forward (set : T -> option error * T) (p : PConn) : option error * PConn :=
  if pc_underlying p then
    let '(err, tr) := set (ss_tr (pc_stream p)) in
    (err, pc_with (set_tr tr (pc_stream p)) (pc_opened p) p)
  else (None, p).
Definition PacketConn_SetDeadline (t : option Z) := PacketConn_forward (UnderlyingSetDeadline t).
Definition PacketConn_SetReadDeadline (t : option Z) := PacketConn_forward (UnderlyingSetReadDeadline t).
Definition PacketConn_SetWriteDeadline (t : option Z) := PacketConn_forward (UnderlyingSetWriteDeadline t).

(** The addresses come from the connection, nil when there is none. *)
Context {CA : ConnAddrs T}.
Definition PacketConn_LocalAddr (p : PConn) : option NetAddr :=
  if pc_underlying p then UnderlyingLocalAddr (ss_tr (pc_stream p)) else None.
Definition StreamConn_LocalAddr (c : streamConn AEAD T) : option NetAddr :=
  if sc_underlying c then UnderlyingLocalAddr (ss_tr (sc_stream c)) else None.
Definition StreamConn_RemoteAddr (c : streamConn AEAD T) : option NetAddr :=
  if sc_underlying c then UnderlyingRemoteAddr (ss_tr (sc_stream c)) else None.
End PacketConn.

Lemma newClientPacketConn_Ret {G} {C : Crypto G} {E : Entropy G} {T} (stream : SecureStream AEAD T) und dst g p g' :
  newClientPacketConn stream und dst g = (Ret p, g') ->
  exists gid, p = mkPacketConn stream und gid dst false None zero_Address false false None.
Proof.
  unfold newClientPacketConn, NewGlobalID. destruct (rand_read 8 g) as [[gid|] g1]; cbn; [|done].
  intros [= <- _]. by eexists.
Qed.

(** ** Address conversion *)

(** Converting an address to [net.Addr] and back: the wire form is kept
    (IPv4-mapped IPv6 addresses become IPv4, zones are dropped). *)
Definition canonical (a : Address) : Address :=
  if IsDomain a then domain_Address (Domain a) (Port a)
  else match ap_addr (Address.Addr a) with
       | Addr6 l _ => ip_Address (AddrPortFrom (Unmap (Addr6 l [])) (ap_port (Address.Addr a)))
       | _ => ip_Address (Address.Addr a)
       end.

Lemma strip_canonical a : strip (canonical a) = canonical a.
Proof.
  unfold canonical. destruct (IsDomain a) eqn:Ed.
  - unfold strip. unfold IsDomain in *. cbn [Domain domain_Address] in *. by rewrite Ed.
  - unfold strip. destruct (Address.Addr a) as [[|l|l z] port]; cbn [ap_addr ap_port]; rewrite IsDomain_ip; try done.
    unfold Unmap. by destruct (Is4In6 (Addr6 l [])).
Qed.

Lemma canonical_strip a : canonical (strip a) = canonical a.
Proof.
  unfold canonical at 2, strip. destruct (IsDomain a) eqn:Ed.
  - unfold canonical. unfold IsDomain in *. cbn [Domain domain_Address] in *. by rewrite Ed.
  - destruct (Address.Addr a) as [[|l|l z] port]; cbn [ap_addr ap_port]; unfold canonical; by rewrite IsDomain_ip.
Qed.

Lemma canonical_roundtrip a :
  Address_wf a -> encodable a = true ->
  exists na, ewpToNetAddr a = Some na /\ addrToEWP na = Ret (canonical a).
Proof.
  intros [Hp1 Hp2] He. unfold ewpToNetAddr, canonical. unfold encodable in He.
  destruct (IsDomain a) eqn:Ed.
  - eexists. split; [reflexivity|]. cbn. rewrite (proj2 (Z.ltb_ge _ _)) by lia. done.
  - rewrite He. eexists. split; [reflexivity|]. destruct (Address.Addr a) as [ip port]. cbn in *.
    unfold u16. rewrite (Z.mod_small port) by done.
    destruct ip as [|l|l z]; [done|..]; cbn [AsSlice]; unfold AddrFromSlice, AddrFrom4, AddrFrom16;
      rewrite arr_length; cbn; by rewrite to_arr_id.
Qed.

Section Packets.
Context {G : Type} {C : Crypto G} {E : Entropy G} `{!AEADLaws C}.
Context {T : Type} `{TransportLaws T}.

Abbreviation PConn := (packetConn AEAD T).

(** Skipped frames, then a datagram. *)
Lemma read_loop_from_ok n (p : PConn) q ms evs ev payload src :
  working (pc_stream p) -> framed (ss_recv (pc_stream p)) q ms -> rx (ss_tr (pc_stream p)) = ms ->
  Forall2 decodes q (evs ++ [ev]) -> Forall (fun e => judge p e = Skip) evs ->
  judge p ev = Deliver payload src ->
  exists p', read_loop_from (length q) n p =
    (Some (Ret (sub payload 0 (Z.min n (len payload)), ewpToNetAddr src)), p').
Proof.
  revert p q ms. induction evs as [|e evs IH]; intros p q ms Hw Hf Hrx Hd Hskip Hj;
    (apply Forall2_cons_inv_r in Hd as ([[t meta] pl] & q' & Hx & Hd & ->));
    (inversion Hf as [|? ? ? ? pad ? ms' He Hrest]; subst); cbn [length read_loop_from].
  - destruct (Recv_ok (pc_stream p) t meta pl _ ms' [] ev Hw (framed_cons _ _ _ _ pad _ _ He (framed_nil _)))
      as (s' & -> & _); [rewrite app_nil_r; congruence|exact Hx|].
    change (judge (pc_with s' (pc_opened p) p) ev) with (judge p ev). rewrite Hj. by eexists.
  - destruct (Recv_ok (pc_stream p) t meta pl _ ms' [] e Hw (framed_cons _ _ _ _ pad _ _ He (framed_nil _)))
      as (s' & -> & Hw' & Hrx' & _ & _ & Hrecv); [rewrite app_nil_r; congruence|exact Hx|].
    inversion Hskip as [|?? Hs Hskip']; subst.
    change (judge (pc_with s' (pc_opened p) p) e) with (judge p e). rewrite Hs.
    rewrite app_nil_r in Hrx'. apply (IH (pc_with s' (pc_opened p) p) q' ms'); try done.
    cbn [pc_stream pc_with]. by rewrite Hrecv.
Qed.

(** Calls whose frames a packet connection of session [gid] ignores. *)
Definition op_skipped (gid : arr 8) (o : op) : Prop :=
  match o with
  | OpPing _ | OpPong _ | OpCover _ | OpProbeReq _ | OpProbeResp _ _ => True
  | OpUDPNew gid' _ _ | OpUDPData gid' _ _ | OpUDPEnd gid' => gid' <> gid
  | OpTCP _ => False
  end.

Lemma skipped_judge (p : PConn) o evs :
  op_skipped (pc_globalID p) o -> delivers o evs -> Forall (fun e => judge p e = Skip) evs.
Proof.
  destruct o; cbn [op_skipped delivers]; intros Hs; try done; intros ->;
    apply Forall_singleton; unfold judge; cbn; try done; by rewrite (bool_decide_false (gid = _)).
Qed.

Lemma skipped_all (p : PConn) (ops : list (Z * op)) evss :
  Forall (fun x => op_skipped (pc_globalID p) x.2) ops -> Forall2 (fun x => delivers x.2) ops evss ->
  Forall (fun e => judge p e = Skip) (concat evss).
Proof.
  intros Hs Hd. induction Hd as [|x evs ops evss Hx _ IH]; [constructor|].
  inversion Hs; subst. cbn [concat]. apply Forall_app. split; [by eapply skipped_judge|auto].
Qed.

Context `{!EntropyLaws E}.

(** A datagram on an open session is one [SendUDPData]. *)
Lemma WriteToAddress_opened nowNs b target (p : PConn) g :
  pc_isServer p || pc_opened p = true ->
  WriteToAddress nowNs b target (p, g) =
    let '(o, (s, g)) := run_op nowNs (OpUDPData (pc_globalID p) target b) (pc_stream p, g) in
    (match o with Ret _ => Ret (len b) | Fail e => Fail e | Panic => Panic end,
     (pc_with s (pc_opened p) p, g)).
Proof.
  intros Ho. unfold WriteToAddress, write_test. cbn [fst].
  replace (negb (pc_isServer p) && negb (pc_opened p)) with false by (destruct (pc_isServer p), (pc_opened p); done).
  cbn [write_rest run_op]. destruct (SendUDPData _ _ _ _ _) as [[[]|e|] [s g']]; done.
Qed.

(** A datagram on an open session reaches the peer. *)
Lemma packet_delivered (p r : PConn) nowNs ops b target n g s1 g1
    (Hp : working (pc_stream p)) (Hr : working (pc_stream r))
    (Hlink : ss_recv (pc_stream r) = ss_send (pc_stream p))
    (Hgid : pc_globalID r = pc_globalID p) (Hopen : pc_isServer p || pc_opened p = true)
    (Hnone : pc_pendingFirst r = None) (Htarget : target_ok target) (Hlen : len b <= 65238)
    (Hops : Forall (fun x => op_ok x.2 /\ op_skipped (pc_globalID p) x.2) ops)
    (Hrun : run_ops ops (pc_stream p, g) = (Ret tt, (s1, g1))) :
  exists p' g' ms, WriteToAddress nowNs b target (pc_with s1 (pc_opened p) p, g1) = (Ret (len b), (p', g')) /\
    tx (ss_tr (pc_stream p')) = tx (ss_tr (pc_stream p)) ++ ms /\
    (rx (ss_tr (pc_stream r)) = ms ->
     exists r', ReadFrom (length ms) n r =
       (Some (Ret (sub b 0 (Z.min n (len b)),
                   ewpToNetAddr (if has_target target then strip target else pc_defaultDst r))), r')).
Proof.
  destruct (run_ops_ok ops (pc_stream p) g Hp) as (q & ms & evss & s1' & g1' & Hrun' & Hf & Hpr & Hd & Hdel);
    [eapply Forall_impl; [exact Hops|]; naive_solver|].
  rewrite Hrun in Hrun'. injection Hrun' as -> ->.
  rewrite WriteToAddress_opened by done. cbn [pc_stream pc_with pc_globalID].
  destruct (run_op_ok nowNs (OpUDPData (pc_globalID p) target b) s1' g1')
    as (q2 & ms2 & evs2 & s2 & g2 & -> & Hf2 & Hpr2 & Hd2 & Hdel2);
    [eauto with ewp|done|].
  pose proof (progress_trans _ _ _ _ _ Hpr Hpr2) as Hpr3.
  eexists _, g2, (ms ++ ms2). split; [reflexivity|]. split; [apply Hpr3|]. intros Hrx.
  cbn [delivers] in Hdel2. subst evs2.
  assert (Hf3 : framed (ss_recv (pc_stream r)) (q ++ q2) (ms ++ ms2)).
  { rewrite Hlink. eapply framed_app; [done|]. by rewrite <-(pr_send _ _ _ Hpr). }
  unfold ReadFrom. rewrite Hnone, <-(framed_length _ _ _ Hf3).
  destruct (read_loop_from_ok n r (q ++ q2) (ms ++ ms2) (concat evss)
    (udp_event FrameUDPData (pc_globalID p) target b) b
    (if has_target target then strip target else pc_defaultDst r)) as (r' & Hread); try done.
  - by apply Forall2_app.
  - apply (skipped_all r ops); [|done]. rewrite Hgid. eapply Forall_impl; [exact Hops|]. naive_solver.
  - unfold judge. cbn [ev_Type udp_event ev_GlobalID ev_Payload ev_HasAddr ev_Address]. rewrite Hgid.
    rewrite (bool_decide_true (_ \/ _)) by (by left). rewrite bool_decide_true by done. cbn [negb].
    unfold target_seen. by destruct (has_target target).
  - by exists r'.
Qed.

(** C22: UDP mode end to end: on an open session a datagram that fits is sent
    to its target and reported with its length; a peer connection of the same
    session, once everything sent before and with it is delivered, returns it
    from [ReadFrom] with the target as source (its own default when none was
    given), truncated to the caller's buffer, whatever pings, cover frames,
    probes or frames of other sub-sessions were sent in between. *)
Theorem packet_delivery (p r : PConn) nowNs ops b target n g s1 g1
    (Hp : working (pc_stream p)) (Hr : working (pc_stream r))
    (Hlink : ss_recv (pc_stream r) = ss_send (pc_stream p))
    (Hgid : pc_globalID r = pc_globalID p) (Hopen : pc_isServer p || pc_opened p = true)
    (Hnone : pc_pendingFirst r = None) (Htarget : target_ok target) (Hlen : len b <= 65238)
    (Hops : Forall (fun x => op_ok x.2 /\ op_skipped (pc_globalID p) x.2) ops)
    (Hrun : run_ops ops (pc_stream p, g) = (Ret tt, (s1, g1))) :
  exists p' g' ms, WriteToAddress nowNs b target (pc_with s1 (pc_opened p) p, g1) = (Ret (len b), (p', g')) /\
    tx (ss_tr (pc_stream p')) = tx (ss_tr (pc_stream p)) ++ ms /\
    (rx (ss_tr (pc_stream r)) = ms ->
     exists r', ReadFrom (length ms) n r =
       (Some (Ret (sub b 0 (Z.min n (len b)),
                   ewpToNetAddr (if has_target target then strip target else pc_defaultDst r))), r')).
Proof. by eapply packet_delivered. Qed.

(** The first write of a client sends UDP_NEW to the default destination. *)
Lemma first_write_opens (p : PConn) nowNs b target g :
  pc_isServer p = false -> pc_opened p = false ->
  working (pc_stream p) -> target_ok (pc_defaultDst p) -> len b <= 65238 ->
  exists p' g' m q, WriteToAddress nowNs b target (p, g) = (Ret (len b), (p', g')) /\
    pc_opened p' = true /\ pc_pendingFirst p' = pc_pendingFirst p /\ pc_globalID p' = pc_globalID p /\
    progress (pc_stream p) (pc_stream p') [m] /\
    framed (ss_send (pc_stream p)) [q] [m] /\
    decodes q (udp_event FrameUDPNew (pc_globalID p) (pc_defaultDst p) b).
Proof.
  intros Hclient Hnew Hw Ht Hl. unfold WriteToAddress, write_test. cbn [fst]. rewrite Hclient, Hnew.
  cbn [negb andb write_rest]. unfold ensureOpen. rewrite Hnew.
  destruct (run_op_ok nowNs (OpUDPNew (pc_globalID p) (pc_defaultDst p) b) (pc_stream p) g Hw)
    as (q & ms & evs & s' & g' & Hr & Hf & Hp & Hd & Hdel); [done|].
  cbn [run_op] in Hr. rewrite Hr. cbn [delivers] in Hdel. subst evs.
  apply Forall2_cons_inv_r in Hd as (x & q' & Hx & Hd & ->). apply Forall2_nil_inv_r in Hd as ->.
  inversion Hf as [|? ? ? ? pad ? ms' He Hrest]; subst. inversion Hrest; subst.
  eexists _, g', _, _. split; [reflexivity|]. done.
Qed.

(** the first datagram ignores its target: a client connection that is
    not open yet sends its first datagram as UDP_NEW to the default
    destination of the connection, whatever target the caller asked for. *)
Theorem first_write_ignores_target (p : PConn) nowNs b target target' g
    (Hclient : pc_isServer p = false) (Hnew : pc_opened p = false) :
  WriteToAddress nowNs b target (p, g) = WriteToAddress nowNs b target' (p, g) /\
  (working (pc_stream p) -> target_ok (pc_defaultDst p) -> len b <= 65238 ->
   exists p' g' m q, WriteToAddress nowNs b target (p, g) = (Ret (len b), (p', g')) /\
     pc_opened p' = true /\ tx (ss_tr (pc_stream p')) = tx (ss_tr (pc_stream p)) ++ [m] /\
     framed (ss_send (pc_stream p)) [q] [m] /\
     decodes q (udp_event FrameUDPNew (pc_globalID p) (pc_defaultDst p) b)).
Proof.
  split.
  - unfold WriteToAddress, write_test. cbn [fst]. by rewrite Hclient, Hnew.
  - intros Hw Ht Hl. destruct (first_write_opens p nowNs b target g) as (p' & g' & m & q & Hr & Ho & _ & _ & Hp & Hq);
      [done..|]. exists p', g', m, q. split_and!; [done|done|apply Hp|apply Hq..].
Qed.

(** two concurrent first writes lose a datagram: when both calls pass the
    unlocked test before either opens the session, the second one reports its
    datagram as sent although no frame is emitted for it and nothing
    changes. *)
Theorem concurrent_first_writes_drop (p p1 : PConn) nowNs nowNs' b b' target target' g g1 n
    (Hclient : pc_isServer p = false) (Hnew : pc_opened p = false)
    (Hfirst : write_rest (write_test p) nowNs b target (p, g) = (Ret n, (p1, g1))) :
  write_rest (write_test p) nowNs' b' target' (p1, g1) = (Ret (len b'), (p1, g1)).
Proof.
  revert Hfirst. unfold write_test. rewrite Hclient, Hnew. cbn [negb andb write_rest].
  unfold ensureOpen at 1. rewrite Hnew.
  destruct (SendUDPNew _ _ _ _ _) as [[[]|e|] [s g']]; cbn [sbind]; [|done..].
  intros [= _ <- <-]. unfold ensureOpen. done.
Qed.
End Packets.

(** [net.Addr] conversion: an encodable address becomes a [net.Addr] and
    converting that back gives the same destination (an IPv4-mapped IPv6
    address as its IPv4 form, without a zone). *)
Theorem netaddr_roundtrip a (Hwf : Address_wf a) (He : encodable a = true) :
  exists na, ewpToNetAddr a = Some na /\ addrToEWP na = Ret (canonical a).
Proof. by apply canonical_roundtrip. Qed.

(** ** Witnesses *)

Module PacketExamples.
Definition dst0 : Address := domain_Address (str "dns.example") 53.
Definition target0 : Address := ip_Address (AddrPortFrom (Addr4 (to_arr 4 [Byte.x08; Byte.x08; Byte.x04;
  Byte.x04])) 53).
Definition pc0 (opened : bool) : packetConn (@AEAD _ Toy.crypto) LengthFramer :=
  mkPacketConn StreamExamples.a0 true StreamExamples.gid0 dst0 false None zero_Address opened false None.
Definition noise : list (Z * op) := [(1, OpPing (str "?")); (2, OpCover 3)].
Definition ran := (run_ops noise (StreamExamples.a0, 5 : Toy.gen)).2.
Lemma ran_eq : run_ops noise (StreamExamples.a0, 5 : Toy.gen) = (Ret tt, (ran.1, ran.2)).
Proof.
  assert (Ho : (run_ops noise (StreamExamples.a0, 5 : Toy.gen)).1 = Ret tt) by (vm_compute; reflexivity).
  unfold ran. revert Ho. by destruct (run_ops noise _) as [o [s g]]; cbn; intros ->.
Qed.
Definition pc1 := (WriteToAddress 3 (str "query") target0 (pc_with ran.1 true (pc0 true), ran.2)).2.1.
Definition peer : packetConn (@AEAD _ Toy.crypto) LengthFramer :=
  newServerPacketConn (new_stream (NewLengthFramer
    (mkConn (mkReader [c_out (lf_c (ss_tr (pc_stream pc1)))] EOF) [] [] None false None None))
    StreamExamples.s2c StreamExamples.c2s) true StreamExamples.gid0 dst0 None.

Lemma peer_working : working (G := Toy.gen) (pc_stream peer).
Proof. apply StreamExamples.working_new; [|done..]. cbn. split_and!; [done|constructor|]. by exists []. Qed.

Lemma noise_ok :
  Forall (fun x => op_ok x.2 /\ op_skipped (pc_globalID (pc0 true)) x.2) noise.
Proof. repeat constructor; vm_compute; congruence. Qed.

Lemma target0_ok : target_ok target0.
Proof. split; [split; vm_compute; split; congruence|reflexivity]. Qed.

Lemma dst0_ok : target_ok dst0.
Proof. split; [split; vm_compute; split; congruence|reflexivity]. Qed.
End PacketExamples.
Import PacketExamples.

Lemma packet_delivery_witness :
  exists k r', ReadFrom k 3 peer = (Some (Ret (str "que", ewpToNetAddr target0)), r').
Proof.
  destruct (packet_delivery (pc0 true) peer 3 noise (str "query") target0 3 (5 : Toy.gen) ran.1 ran.2)
    as (p' & g' & ms & Hw & Htx & Hr).
  - exact StreamExamples.a0_working.
  - exact peer_working.
  - reflexivity.
  - reflexivity.
  - reflexivity.
  - reflexivity.
  - exact target0_ok.
  - vm_compute. congruence.
  - exact noise_ok.
  - exact ran_eq.
  - assert (Ha : pc1 = p') by exact (f_equal (fun r => r.2.1) Hw).
    destruct Hr as (r' & Hr).
    + change (rx (ss_tr (pc_stream peer))) with (msgs_of (c_out (lf_c (ss_tr (pc_stream pc1))) ++ [])).
      rewrite app_nil_r, Ha. exact Htx.
    + exists (length ms), r'. exact Hr.
Defined.

Lemma first_write_ignores_target_witness :
  WriteToAddress 1 (str "query") target0 (pc0 false, 5 : Toy.gen) =
    WriteToAddress 1 (str "query") dst0 (pc0 false, 5 : Toy.gen) /\
  exists p' g', WriteToAddress 1 (str "query") target0 (pc0 false, 5 : Toy.gen) = (Ret 5, (p', g')).
Proof.
  destruct (first_write_ignores_target (pc0 false) 1 (str "query") target0 dst0 (5 : Toy.gen) eq_refl eq_refl)
    as [Heq H].
  split; [exact Heq|]. destruct H as (p' & g' & m & q & Hw & _).
  - exact StreamExamples.a0_working.
  - exact dst0_ok.
  - vm_compute. congruence.
  - exists p', g'. exact Hw.
Defined.

Lemma concurrent_first_writes_drop_witness :
  exists st1, write_rest true 1 (str "one") target0 (pc0 false, 5 : Toy.gen) = (Ret 3, st1) /\
    write_rest true 2 (str "three") dst0 st1 = (Ret 5, st1).
Proof.
  destruct (write_rest true 1 (str "one") target0 (pc0 false, 5 : Toy.gen)) as [o [p1 g1]] eqn:Hf.
  assert (Ho : o = Ret 3) by (change o with (o, (p1, g1)).1; rewrite <-Hf; vm_compute; reflexivity). subst o.
  exists (p1, g1). split; [reflexivity|].
  exact (concurrent_first_writes_drop (pc0 false) p1 1 2 (str "one") (str "three") target0 dst0 (5 : Toy.gen) g1 3
    eq_refl eq_refl Hf).
Defined.

Lemma netaddr_roundtrip_witness :
  exists na, ewpToNetAddr target0 = Some na /\ addrToEWP na = Ret (canonical target0).
Proof. apply netaddr_roundtrip; [exact (proj1 target0_ok)|reflexivity]. Defined.
