(* ===== verification/ConcurrentPackets.v ===== *)
(** * Concurrent use of a packet connection (src/packetconn.go)

    Goroutines that call [WriteToAddress] and [Close] on one client
    connection, while [ReadFrom] runs in another one.  A call is split at the
    unlocked test of [opened], at [openedMu], between the send of UDP_NEW and
    the assignment of [opened], and inside the once of [Close].  The calls of
    the stream are single steps: they are serialised by its own lock
    (Concurrent.v). *)

From S2P Require Import Prelude Address Crypto Io Kdf Padding Frame Transport SecureStream.
From S2P Require Import SecureStreamProofs Channel StreamConn PacketConn.

(** What has become of a datagram: sent with UDP_NEW, sent with UDP_DATA,
    reported as sent although there is no frame for it, or failed. *)
Inductive fate := SentNew | SentData | Dropped | Failed (o : outcome unit).

(** Where a call stands. *)
Inductive packet_pc :=
  | WEntered (b : bytes) (target : Address)
  | WFirst (b : bytes)                      (* the test said "not opened" *)
  | WHeld (b : bytes)                       (* [openedMu] held, not opened *)
  | WOpened (b : bytes)                     (* UDP_NEW sent, [opened] not yet assigned *)
  | WData (b : bytes) (target : Address)    (* the test said "opened" *)
  | WDone (b : bytes) (f : fate)
  | CEntered
  | CRunning                                (* inside the once *)
  | CEnding                                 (* [opened] was true *)
  | CClosing
  | CDone (err : option error).

Section Packets.
Context {G : Type} {C : Crypto G} {E : Entropy G}.
Context {T : Type} {MT : MessageTransport T} {U : Underlying T}.

Abbreviation PConn := (packetConn AEAD T).

(** The connection, the randomness source, [openedMu], the call inside the once
    of [Close], the calls, and the frames sealed so far. *)
Record psystem := mkPSystem {
  z_conn : PConn;
  z_gen : G;
  z_mu : option nat;
  z_closing : option nat;
  z_calls : gmap nat packet_pc;
  z_log : list content
}.

Definition pstart (p : PConn) (g : G) : psystem := mkPSystem p g None None ∅ [].

Definition pgoto (tid : nat) (k : packet_pc) (z : psystem) : psystem :=
  mkPSystem (z_conn z) (z_gen z) (z_mu z) (z_closing z) (<[tid := k]> (z_calls z)) (z_log z).
Definition set_mu (l : option nat) (z : psystem) : psystem :=
  mkPSystem (z_conn z) (z_gen z) l (z_closing z) (z_calls z) (z_log z).
Definition set_closing (l : option nat) (z : psystem) : psystem :=
  mkPSystem (z_conn z) (z_gen z) (z_mu z) l (z_calls z) (z_log z).
Definition set_conn (p : PConn) (z : psystem) : psystem :=
  mkPSystem p (z_gen z) (z_mu z) (z_closing z) (z_calls z) (z_log z).

(** A call of the stream: its new state, the randomness, the sealed frames. *)
Definition on_stream (s : SecureStream AEAD T) (g : G) (sealed : list (content * bytes)) (z : psystem) : psystem :=
  mkPSystem (pc_with s (pc_opened (z_conn z)) (z_conn z)) g (z_mu z) (z_closing z) (z_calls z) (z_log z ++ sealed.*1).

(** The frame sealed by a UDP send. *)
Definition sealed_udp (t : FrameType) (gid : arr 8) (a : Address) (payload : bytes) (st : SecureStream AEAD T * G)
  : list (content * bytes) :=
  match buildUDPMeta gid a with
  | Ret meta => sealed_by t meta payload (-1) st
  | _ => []
  end.

(** The next step of call [tid]; [None] when it is blocked, finished or
    unknown. *)
Definition padvance (nowDl nowNs : Z) (tid : nat) (z : psystem) : option psystem :=
  let p := z_conn z in
  let st := (pc_stream p, z_gen z) in
  match z_calls z !! tid with
  | Some (WEntered b target) => Some (pgoto tid (if write_test p then WFirst b else WData b target) z)
  | Some (WFirst b) =>
      match z_mu z with
      | Some _ => None
      | None => Some (if pc_opened p then pgoto tid (WDone b Dropped) z
                      else pgoto tid (WHeld b) (set_mu (Some tid) z))
      end
  | Some (WHeld b) =>
      let '(o, (s, g)) := SendUDPNew nowNs (pc_globalID p) (pc_defaultDst p) b st in
      let z := on_stream s g (sealed_udp FrameUDPNew (pc_globalID p) (pc_defaultDst p) b st) z in
      Some (match o with
            | Ret _ => pgoto tid (WOpened b) z
            | _ => pgoto tid (WDone b (Failed o)) (set_mu None z)
            end)
  | Some (WOpened b) =>
      Some (pgoto tid (WDone b SentNew) (set_mu None (set_conn (pc_with (pc_stream p) true p) z)))
  | Some (WData b target) =>
      let '(o, (s, g)) := SendUDPData nowNs (pc_globalID p) target b st in
      let z := on_stream s g (sealed_udp FrameUDPData (pc_globalID p) target b st) z in
      Some (pgoto tid (WDone b (match o with Ret _ => SentData | _ => Failed o end)) z)
  | Some CEntered =>
      if pc_closeOnce p then Some (pgoto tid (CDone (pc_closeErr p)) z) else
      match z_closing z with
      | Some _ => None
      | None => Some (pgoto tid CRunning (set_closing (Some tid) z))
      end
  | Some CRunning => Some (pgoto tid (if pc_opened p && pc_underlying p then CEnding else CClosing) z)
  | Some CEnding =>
      let '(s, g) := send_end nowDl nowNs (pc_globalID p) st in
      let armed := set_tr (UnderlyingSetWriteDeadline (Some (nowDl + 100 * 1000000))
        (ss_tr (pc_stream p))).2 (pc_stream p) in
      Some (pgoto tid CClosing
        (on_stream s g (sealed_by FrameUDPEnd (arr_list (pc_globalID p)) [] (-1) (armed, z_gen z)) z))
  | Some CClosing =>
      let '(err, s) := close_both (pc_underlying p) (pc_stream p) in
      let p := mkPacketConn s (pc_underlying p) (pc_globalID p) (pc_defaultDst p) (pc_isServer p)
                 (pc_pendingFirst p) (pc_pendingFirstSrc p) (pc_opened p) true err in
      Some (pgoto tid (CDone err) (set_closing None (set_conn p z)))
  | Some (WDone _ _) | Some (CDone _) | None => None
  end.

(** Steps: a call goes on, a call is made (with a datagram that fits into the
    address space), [ReadFrom] receives a frame. *)
Inductive pstep : psystem -> psystem -> Prop :=
  | ps_advance nowDl nowNs tid z z' : padvance nowDl nowNs tid z = Some z' -> pstep z z'
  | ps_write tid b target z : z_calls z !! tid = None -> len b <= maxSlice -> pstep z (pgoto tid (WEntered b target) z)
  | ps_close tid z : z_calls z !! tid = None -> pstep z (pgoto tid CEntered z)
  | ps_read z :
      pstep z (set_conn (pc_with (Recv (pc_stream (z_conn z))).2 (pc_opened (z_conn z)) (z_conn z)) z).
End Packets.
Arguments psystem {G C} T : rename.

(** ** The invariant *)

Section PacketInvariant.
Context {G : Type} {C : Crypto G} {E : Entropy G} `{!AEADLaws C}.
Context {T : Type} {MT : MessageTransport T} {U : Underlying T}.

Abbreviation PSys := (psystem T).

(** A UDP frame of session [gid] and type [t]. *)
Definition udp_frame (t : FrameType) (gid : arr 8) (payload : bytes) (x : content) : Prop :=
  exists meta, x = (t, arr_list gid ++ meta, payload).

(** The shape of the log of an opened session: one UDP_NEW, then UDP_DATA and
    UDP_END frames of the same session. *)
Definition opened_log (gid : arr 8) (l : list content) : Prop :=
  exists b x rest, l = x :: rest /\ udp_frame FrameUDPNew gid b x /\
    Forall (fun y => exists t b', (t = FrameUDPData \/ t = FrameUDPEnd) /\ udp_frame t gid b' y) rest.

(** What a call of [sendFrame] leaves behind, whatever the transport does. *)
Lemma sendFrame_result nowNs t meta payload padLen (s : SecureStream AEAD T) (g : G) :
  consistent s ->
  let '(o, (s', g')) := sendFrame nowNs t meta payload padLen (s, g) in
  let xs := sealed_by t meta payload padLen (s, g) in
  consistent s' /\ (ss_closed s = true -> xs = [] /\ s' = s) /\
  match o with
  | Ret _ => exists w, xs = [((t, meta, payload), w)]
  | Fail _ => xs = [] \/ (exists w, xs = [((t, meta, payload), w)]) /\ ss_closed s' = true
  | Panic => xs = [] /\ huge meta payload padLen
  end.
Proof.
  intros Hs. pose proof (sendFrame_keeps nowNs t meta payload padLen s g Hs) as [_ Hk]. revert Hk.
  unfold sendFrame, sealed_by. cbn [fst]. destruct (ss_closed s) eqn:Hc; [by auto|].
  destruct (send_encode_total t meta payload padLen s g) as ([wire|e|] & g' & buf & H).
  - destruct H as (pad & He & -> & ->). cbn [sbind fst]. unfold send_transmit. destruct (SendMessage _ _) as [[e|] tr].
    + intros Hk. split_and!; [done|done|]. right. split; [by eexists|]. unfold closeUnderlying in *. cbn in Hk.
      destruct Hs as [Ho _ _]. rewrite Close_eq in *. cbn [ss_closeOnce set_tr set_send] in *. by rewrite Ho, Hc in *.
    + intros Hk. split_and!; [done|done|by eexists].
  - rewrite H. cbn [sbind fst snd]. intros Hk. split_and!; [done|done|by left].
  - destruct H as [Hb ->]. cbn [sbind fst snd]. intros Hk. by split_and!.
Qed.

(** A datagram for which [make] may panic. *)
Definition udp_huge (payload : bytes) : Prop := maxAlloc < 298 + len payload + MaxFramePad.

(** The same for the UDP frames. *)
Lemma udp_result nowNs t gid a payload (s : SecureStream AEAD T) (g : G) :
  consistent s ->
  let '(o, (s', g')) := (letS meta, st := lift (buildUDPMeta gid a) (s, g) ;; sendFrame nowNs t meta payload (-1) st) in
  let xs := (sealed_udp t gid a payload (s, g)).*1 in
  consistent s' /\ (ss_closed s = true -> xs = []) /\ (ss_closed s = true -> ss_closed s' = true) /\
  match o with
  | Ret _ => exists x, xs = [x] /\ udp_frame t gid payload x
  | Fail _ => xs = [] \/ (exists x, xs = [x] /\ udp_frame t gid payload x) /\ ss_closed s' = true
  | Panic => xs = [] /\ udp_huge payload
  end.
Proof.
  intros Hs. unfold lift, sealed_udp. rewrite buildUDPMeta_cases.
  assert (Hgo : forall m, len m <= 257 -> let '(o, (s', g')) := sendFrame nowNs t (arr_list gid ++ m) payload (-1)
    (s, g) in
    let xs := (sealed_by t (arr_list gid ++ m) payload (-1) (s, g)).*1 in
    consistent s' /\ (ss_closed s = true -> xs = []) /\ (ss_closed s = true -> ss_closed s' = true) /\
    match o with
    | Ret _ => exists x, xs = [x] /\ udp_frame t gid payload x
    | Fail _ => xs = [] \/ (exists x, xs = [x] /\ udp_frame t gid payload x) /\ ss_closed s' = true
    | Panic => xs = [] /\ udp_huge payload
    end).
  { intros m Hm. pose proof (sendFrame_result nowNs t (arr_list gid ++ m) payload (-1) s g Hs) as H.
    destruct (sendFrame _ _ _ _ _ _) as [o [s' g']]. destruct H as (H1 & H2 & H3).
    assert (Hx : forall (w : bytes) (xs : list (content * bytes)), xs = [((t, arr_list gid ++ m, payload), w)] ->
      exists x, xs.*1 = [x] /\ udp_frame t gid payload x) by (intros w xs ->; eexists; split; [done|by exists m]).
    split_and!; [done|by intros [-> _]%H2|by intros Hc; destruct (H2 Hc) as [_ ->]|].
    destruct o; [destruct H3 as [w H3]; by eapply Hx|destruct H3 as [->|[[w H3] Hc]]; [by left|right; split;
      [by eapply Hx|done]]|].
    destruct H3 as [-> H3]. split; [done|]. unfold huge, udp_huge, MaxFramePad in *.
    rewrite length_app, arr_length in H3. lia. }
  destruct (has_target a); [destruct (encodable a) eqn:He|]; cbn [sbind].
  - apply Hgo. pose proof (EncodedLen_bounds a He). pose proof (length_wire_of a He). lia.
  - split_and!; try done. by left.
  - specialize (Hgo []). rewrite app_nil_r in Hgo. apply Hgo. cbn. lia.
Qed.

Context (gid : arr 8).

(** What is true of a call, according to where it stands. *)
Definition pcall_ok (z : PSys) (tid : nat) (k : packet_pc) : Prop :=
  match k with
  | WHeld _ => z_mu z = Some tid
  | WOpened b => z_mu z = Some tid /\ exists x, z_log z = [x] /\ udp_frame FrameUDPNew gid b x
  | WData _ _ | CEnding | WDone _ Dropped => pc_opened (z_conn z) = true
  | WDone b SentNew =>
      pc_opened (z_conn z) = true /\ exists x, z_log z !! 0%nat = Some x /\ udp_frame FrameUDPNew gid b x
  | WDone b SentData =>
      pc_opened (z_conn z) = true /\ exists x, x ∈ z_log z /\ udp_frame FrameUDPData gid b x
  | WDone b (Failed o) => (exists e, o = Fail e) \/ o = Panic /\ udp_huge b
  | _ => True
  end.

Definition holds_mu (k : packet_pc) : bool := match k with WHeld _ | WOpened _ => true | _ => false end.

Record pinv (z : PSys) : Prop := {
  pv_stream : consistent (pc_stream (z_conn z));
  pv_client : pc_isServer (z_conn z) = false;
  pv_gid : pc_globalID (z_conn z) = gid;
  pv_mu : forall tid, z_mu z = Some tid ->
    pc_opened (z_conn z) = false /\ exists k, z_calls z !! tid = Some k /\ holds_mu k = true;
  pv_calls : forall tid k, z_calls z !! tid = Some k -> pcall_ok z tid k;
  pv_log : if pc_opened (z_conn z) then opened_log gid (z_log z)
           else (exists tid b, z_calls z !! tid = Some (WOpened b)) \/ z_log z = [] \/
             (ss_closed (pc_stream (z_conn z)) = true /\ opened_log gid (z_log z));
  pv_once : forall t1 t2 b1 b2, z_calls z !! t1 = Some (WDone b1 SentNew) ->
    z_calls z !! t2 = Some (WDone b2 SentNew) -> t1 = t2
}.

(** The other calls do not notice a step of [tid]. *)
Lemma others_stable z z' tid t k :
  pinv z -> t <> tid -> z_calls z !! t = Some k ->
  (z_mu z = Some t -> z_mu z' = Some t /\ z_log z' = z_log z) ->
  (pc_opened (z_conn z) = true -> pc_opened (z_conn z') = true) ->
  (exists xs, z_log z' = z_log z ++ xs) -> pcall_ok z' t k.
Proof.
  intros Hz Hne Hk Hmu Hop [xs Hlog]. pose proof (pv_calls _ Hz _ _ Hk) as Hc.
  destruct k as [| |b|b| |b [| | |o]| | | | |]; cbn in *; auto.
  - by apply Hmu.
  - destruct Hc as [Hm (x & Hx & Hf)]. destruct (Hmu Hm) as [H1 H2]. split; [done|]. exists x. by rewrite H2.
  - destruct Hc as [Ho (x & Hx & Hf)]. split; [auto|]. exists x. split; [|done]. rewrite Hlog.
    by apply lookup_app_l_Some.
  - destruct Hc as [Ho (x & Hx & Hf)]. split; [auto|]. exists x. split; [|done]. rewrite Hlog. apply elem_of_app.
    by left.
Qed.

(** A step in which call [tid] moves to [k]. *)
Lemma pinv_move z z' tid k :
  pinv z -> z_calls z' = <[tid := k]> (z_calls z) ->
  consistent (pc_stream (z_conn z')) -> pc_isServer (z_conn z') = false -> pc_globalID (z_conn z') = gid ->
  pcall_ok z' tid k ->
  (forall t, t <> tid -> z_mu z = Some t -> z_mu z' = Some t /\ z_log z' = z_log z) ->
  (forall t, z_mu z' = Some t -> pc_opened (z_conn z') = false /\ (if decide (t = tid) then holds_mu k =
    true else z_mu z = Some t)) ->
  (pc_opened (z_conn z) = true -> pc_opened (z_conn z') = true) -> (exists xs, z_log z' = z_log z ++ xs) ->
  (if pc_opened (z_conn z') then opened_log gid (z_log z')
   else (exists b, k = WOpened b) \/ (exists t b, t <> tid /\ z_calls z !! t = Some (WOpened b)) \/ z_log z' = [] \/
     (ss_closed (pc_stream (z_conn z')) = true /\ opened_log gid (z_log z'))) ->
  (forall b, k = WDone b SentNew -> pc_opened (z_conn z) = false) -> pinv z'.
Proof.
  intros Hz Hcalls Hs Hc Hg Hk Hmu Hmu' Hop Hlog Hl Hnew.
  assert (Hold : forall t k', t <> tid -> z_calls z' !! t = Some k' -> z_calls z !! t = Some k').
  { intros t k' Hne. rewrite Hcalls, lookup_insert_ne by done. done. }
  assert (Htid : z_calls z' !! tid = Some k) by (by rewrite Hcalls, lookup_insert_eq).
  split; try done.
  - intros t Ht. destruct (Hmu' t Ht) as [Ho Hh]. split; [done|]. case_decide as Heq; [subst t; eauto|].
    destruct (pv_mu _ Hz t Hh) as (_ & k' & Hk' & Hhk). exists k'. split; [|done]. by rewrite Hcalls, lookup_insert_ne.
  - intros t k' Ht. destruct (decide (t = tid)) as [->|Hne]; [congruence|].
    eapply (others_stable z z' tid); eauto.
  - destruct (pc_opened (z_conn z')); [done|].
    destruct Hl as [[b ->]|[(t & b & Hne & Ht)|[|]]]; [left; eauto| |eauto..].
    left. exists t, b. by rewrite Hcalls, lookup_insert_ne.
  - assert (Hno : forall t b, t <> tid -> z_calls z' !! t = Some (WDone b SentNew) -> forall b', k <> WDone b' SentNew).
    { intros t b Hne Ht b' Hb'. apply (Hold _ _ Hne), (pv_calls _ Hz) in Ht as [Ht _]. rewrite (Hnew _ Hb') in Ht.
      done. }
    intros t1 t2 b1 b2 H1 H2. destruct (decide (t1 = tid)) as [->|H1n], (decide (t2 = tid)) as [->|H2n]; [done|..].
    + rewrite Htid in H1. injection H1 as ->. by destruct (Hno t2 b2 H2n H2 b1).
    + rewrite Htid in H2. injection H2 as ->. by destruct (Hno t1 b1 H1n H1 b2).
    + apply (pv_once _ Hz t1 t2 b1 b2); auto.
Qed.

(** ... and nothing else that matters changes. *)
Lemma pinv_quiet z z' tid k :
  pinv z -> z_calls z' = <[tid := k]> (z_calls z) -> z_mu z' = z_mu z -> z_log z' = z_log z ->
  consistent (pc_stream (z_conn z')) -> pc_isServer (z_conn z') = false -> pc_globalID (z_conn z') = gid ->
  pc_opened (z_conn z') = pc_opened (z_conn z) ->
  (ss_closed (pc_stream (z_conn z)) = true -> ss_closed (pc_stream (z_conn z')) = true) ->
  (forall k', z_calls z !! tid = Some k' -> holds_mu k' = false) ->
  (match k with WHeld _ | WOpened _ | WDone _ SentNew => False | _ => True end) -> pcall_ok z' tid k -> pinv z'.
Proof.
  intros Hz Hcalls Hm Hlg Hs Hc Hg Ho Hcl Hno Hk Hok.
  apply (pinv_move z z' tid k); rewrite ?Hm, ?Hlg, ?Ho; try done.
  - intros t Ht. destruct (pv_mu _ Hz t Ht) as (Hf & k' & Hk' & Hh). split; [done|].
    case_decide as Heq; [|done]. subst t. by rewrite (Hno _ Hk') in Hh.
  - exists []. by rewrite app_nil_r.
  - pose proof (pv_log _ Hz) as Hl. destruct (pc_opened (z_conn z)); [done|].
    destruct Hl as [(t & b & Ht)|[|[? ?]]]; [|by eauto|by eauto 6]. right. left. exists t, b. split; [|done].
    intros ->. by specialize (Hno _ Ht).
  - intros b ->. done.
Qed.

(** The holder of [openedMu] is alone in opening. *)
Lemma held_log z tid b :
  pinv z -> z_calls z !! tid = Some (WHeld b) ->
  pc_opened (z_conn z) = false /\ z_mu z = Some tid /\
  (z_log z = [] \/ ss_closed (pc_stream (z_conn z)) = true /\ opened_log gid (z_log z)).
Proof.
  intros Hz Hk. pose proof (pv_calls _ Hz _ _ Hk) as Hm. cbn in Hm. destruct (pv_mu _ Hz _ Hm) as [Ho _].
  split_and!; [done|done|]. pose proof (pv_log _ Hz) as Hl. rewrite Ho in Hl.
  destruct Hl as [(t & b' & Ht)|Hl]; [|done]. pose proof (pv_calls _ Hz _ _ Ht) as [Hm' _]. congruence.
Qed.

Lemma opened_log_app l xs :
  opened_log gid l -> Forall (fun y => exists t b', (t = FrameUDPData \/ t = FrameUDPEnd) /\ udp_frame t gid b' y) xs ->
  opened_log gid (l ++ xs).
Proof. intros (b & x & rest & -> & Hx & Hr) Hxs. exists b, x, (rest ++ xs).
  split_and!; [done|done|by apply Forall_app]. Qed.

Lemma single_log b x : udp_frame FrameUDPNew gid b x -> opened_log gid [x].
Proof. intros Hx. exists b, x, []. by split_and!. Qed.

Lemma pinv_new z tid b nowNs o s g :
  pinv z -> z_calls z !! tid = Some (WHeld b) ->
  SendUDPNew nowNs (pc_globalID (z_conn z)) (pc_defaultDst (z_conn z)) b (pc_stream (z_conn z), z_gen z) =
    (o, (s, g)) ->
  pinv (let z := on_stream s g (sealed_udp FrameUDPNew (pc_globalID (z_conn z)) (pc_defaultDst (z_conn z)) b
                                 (pc_stream (z_conn z), z_gen z)) z in
        match o with
        | Ret _ => pgoto tid (WOpened b) z
        | _ => pgoto tid (WDone b (Failed o)) (set_mu None z)
        end).
Proof.
  intros Hz Hk He. destruct (held_log z tid b Hz Hk) as (Hop & Hm & Hl).
  pose proof (udp_result nowNs FrameUDPNew (pc_globalID (z_conn z)) (pc_defaultDst (z_conn z)) b _ (z_gen z)
    (pv_stream _ Hz)) as H.
  change (SendUDPNew nowNs (pc_globalID (z_conn z)) (pc_defaultDst (z_conn z)) b (pc_stream (z_conn z), z_gen z))
    with (letS meta, st := lift (buildUDPMeta (pc_globalID (z_conn z)) (pc_defaultDst (z_conn z)))
      (pc_stream (z_conn z), z_gen z) ;;
          sendFrame nowNs FrameUDPNew meta b (-1) st) in He.
  rewrite He in H. rewrite (pv_gid _ Hz) in *. destruct H as (H1 & H2 & H3 & H4).
  set (sealed := sealed_udp _ _ _ _ _) in *.
  assert (Hne : forall t, t <> tid -> z_mu z = Some t -> z_mu z = Some t /\ z_log z ++ sealed.*1 =
    z_log z) by congruence.
  destruct o as [u|e|].
  - destruct H4 as (x & Hx & Hf).
    assert (Hempty : z_log z = []) by (destruct Hl as [|[Hc _]]; [done|]; by rewrite (H2 Hc) in Hx).
    apply (pinv_move z _ tid (WOpened b)); cbn; rewrite ?Hop; try done; [apply Hz|apply Hz| | | |by left; exists b].
    + split; [done|]. exists x. by rewrite Hempty, Hx.
    + intros t Ht. split; [done|]. by case_decide.
    + by eexists.
  - apply (pinv_move z _ tid (WDone b (Failed (Fail e)))); cbn; rewrite ?Hop; try done;
      [apply Hz|apply Hz|left; by exists e|congruence|by eexists|].
    right. right. destruct Hl as [->|[Hc Hlog]].
    + destruct H4 as [->|[(x & -> & Hf) Hc]]; [by left|]. right. split; [done|]. by eapply single_log.
    + right. rewrite (H2 Hc), app_nil_r. auto.
  - destruct H4 as [Hnil Hbig].
    apply (pinv_move z _ tid (WDone b (Failed Panic))); cbn; rewrite ?Hop; try done;
      [apply Hz|apply Hz|by right|congruence|by eexists|].
    right. right. rewrite Hnil, app_nil_r. destruct Hl as [->|[Hc Hlog]]; [by left|by eauto].
Qed.

Lemma pinv_data z tid b target nowNs o s g :
  pinv z -> z_calls z !! tid = Some (WData b target) ->
  SendUDPData nowNs (pc_globalID (z_conn z)) target b (pc_stream (z_conn z), z_gen z) = (o, (s, g)) ->
  pinv (pgoto tid (WDone b (match o with Ret _ => SentData | _ => Failed o end))
    (on_stream s g (sealed_udp FrameUDPData (pc_globalID (z_conn z)) target b (pc_stream (z_conn z), z_gen z)) z)).
Proof.
  intros Hz Hk He. pose proof (pv_calls _ Hz _ _ Hk) as Hop. cbn in Hop.
  pose proof (udp_result nowNs FrameUDPData (pc_globalID (z_conn z)) target b _ (z_gen z) (pv_stream _ Hz)) as H.
  change (SendUDPData nowNs (pc_globalID (z_conn z)) target b (pc_stream (z_conn z), z_gen z))
    with (letS meta, st := lift (buildUDPMeta (pc_globalID (z_conn z)) target) (pc_stream (z_conn z), z_gen z) ;;
          sendFrame nowNs FrameUDPData meta b (-1) st) in He.
  rewrite He in H. rewrite (pv_gid _ Hz) in *. destruct H as (H1 & H2 & H3 & H4).
  set (sealed := sealed_udp _ _ _ _ _) in *.
  assert (Hxs : Forall (fun y => exists t b', (t = FrameUDPData \/ t = FrameUDPEnd) /\ udp_frame t gid b' y) sealed.*1).
  { assert (Hone : forall x, udp_frame FrameUDPData gid b x ->
      Forall (fun y => exists t b', (t = FrameUDPData \/ t = FrameUDPEnd) /\ udp_frame t gid b' y) [x]) by (intros;
        constructor; eauto).
    destruct o; [destruct H4 as (x & -> & Hf)|destruct H4 as [->|[(x & -> & Hf) _]]|destruct H4 as [-> _]]; auto. }
  assert (Hmu : z_mu z = None).
  { destruct (z_mu z) as [t|] eqn:Hm; [|done]. destruct (pv_mu _ Hz t Hm). congruence. }
  pose proof (pv_log _ Hz) as Hl. rewrite Hop in Hl.
  apply (pinv_move z _ tid (WDone b (match o with Ret _ => SentData | _ => Failed o end))); cbn; rewrite ?Hop, ?Hmu;
    try done;
    [apply Hz|apply Hz| |by eexists|by apply opened_log_app|by destruct o].
  destruct o as [u|e|]; [|left; by exists e|right; split; [done|apply H4]]. destruct H4 as (x & Hx & Hf).
  split; [done|]. exists x.
  split; [|done]. rewrite Hx. set_solver.
Qed.

Lemma consistent_tr (s : SecureStream AEAD T) tr : consistent s -> consistent (set_tr tr s).
Proof. by intros []. Qed.

(** UDP_END of a session that is open. *)
Lemma pinv_end z tid nowDl nowNs :
  pinv z -> z_calls z !! tid = Some CEnding ->
  let armed := set_tr (UnderlyingSetWriteDeadline (Some (nowDl + 100 * 1000000))
    (ss_tr (pc_stream (z_conn z)))).2 (pc_stream (z_conn z)) in
  let '(s, g) := send_end nowDl nowNs (pc_globalID (z_conn z)) (pc_stream (z_conn z), z_gen z) in
  pinv (pgoto tid CClosing
    (on_stream s g (sealed_by FrameUDPEnd (arr_list (pc_globalID (z_conn z))) [] (-1) (armed, z_gen z)) z)).
Proof.
  intros Hz Hk armed. pose proof (pv_calls _ Hz _ _ Hk) as Hop. cbn in Hop. unfold send_end. fold armed.
  pose proof (sendFrame_result nowNs FrameUDPEnd (arr_list (pc_globalID (z_conn z))) [] (-1) armed (z_gen z)
    (consistent_tr _ _ (pv_stream _ Hz))) as H.
  unfold SendUDPEnd. destruct (sendFrame _ _ _ _ _ _) as [o [s g]]. destruct H as (H1 & _ & H4).
  rewrite (pv_gid _ Hz) in *. set (sealed := sealed_by _ _ _ _ _) in *.
  assert (Hxs : Forall (fun y => exists t b', (t = FrameUDPData \/ t = FrameUDPEnd) /\ udp_frame t gid b' y) sealed.*1).
  { assert (Hone : forall w : bytes, Forall (fun y => exists t b', (t = FrameUDPData \/ t = FrameUDPEnd) /\
      udp_frame t gid b' y)
      [((FrameUDPEnd, arr_list gid, []), w)].*1).
    { intros w. constructor; [|constructor]. exists FrameUDPEnd, []. split; [by right|]. exists [].
      by rewrite app_nil_r. }
    destruct o; [destruct H4 as [w ->]|destruct H4 as [->|[[w ->] _]]|destruct H4 as [-> _]]; auto. }
  assert (Hmu : z_mu z = None).
  { destruct (z_mu z) as [t|] eqn:Hm; [|done]. destruct (pv_mu _ Hz t Hm). congruence. }
  pose proof (pv_log _ Hz) as Hl. rewrite Hop in Hl.
  apply (pinv_move z _ tid CClosing); cbn; rewrite ?Hop, ?Hmu; try done;
    [by apply consistent_tr|apply Hz|apply Hz|by eexists|by apply opened_log_app].
Qed.

Lemma close_both_ok u (s : SecureStream AEAD T) :
  consistent s -> consistent (close_both u s).2 /\ ss_closed (close_both u s).2 = true.
Proof.
  intros Hs. destruct (Close_closed s Hs) as [H1 H2]. unfold close_both.
  destruct (Close s) as [err s']. cbn in *. destruct u; [|done]. destruct (CloseUnderlyingConn _) as [err2 tr].
  split; [by apply consistent_tr|done].
Qed.

Lemma pinv_padvance z tid nowDl nowNs z' : pinv z -> padvance nowDl nowNs tid z = Some z' -> pinv z'.
Proof.
  intros Hz. unfold padvance. destruct (z_calls z !! tid) as [k|] eqn:Hk; [|done].
  pose proof (pv_calls _ Hz _ _ Hk) as Hok.
  assert (Hq : forall k', holds_mu k = false ->
    match k' with WHeld _ | WOpened _ | WDone _ SentNew => False | _ => True end ->
    pcall_ok (pgoto tid k' z) tid k' -> pinv (pgoto tid k' z)).
  { intros k' Hh Hk' Hok'. apply (pinv_quiet z _ tid k'); try done; [apply Hz..|]. congruence. }
  destruct k as [b target|b|b|b|b target|b f| | | | |err].
  - intros [= <-]. destruct (write_test (z_conn z)) eqn:Hw; (apply Hq; [done|done|]); [done|].
    unfold write_test in Hw. rewrite (pv_client _ Hz) in Hw. cbn in *. by destruct (pc_opened (z_conn z)).
  - destruct (z_mu z) as [|] eqn:Hm; [done|]. intros [= <-]. destruct (pc_opened (z_conn z)) eqn:Ho; [by apply Hq|].
    pose proof (pv_log _ Hz) as Hl. rewrite Ho in Hl.
    apply (pinv_move z _ tid (WHeld b)); cbn; rewrite ?Ho, ?Hm; try done; [apply Hz..| | |].
    + intros t [= <-]. split; [done|]. by rewrite decide_True.
    + exists []. by rewrite app_nil_r.
    + right. destruct Hl as [(t & b' & Ht)|Hl]; [|by right]. left. exists t, b'. split; [congruence|done].
  - destruct (SendUDPNew _ _ _ _ _) as [o [s g]] eqn:He. intros [= <-]. by apply (pinv_new z tid b nowNs).
  - cbn in Hok. destruct Hok as [Hm (x & Hx & Hf)]. intros [= <-].
    apply (pinv_move z _ tid (WDone b SentNew)); cbn; try done; [apply Hz..| | | |rewrite Hx; by eapply single_log| ].
    + split; [done|]. exists x. by rewrite Hx.
    + congruence.
    + exists []. by rewrite app_nil_r.
    + intros b' _. by destruct (pv_mu _ Hz _ Hm).
  - destruct (SendUDPData _ _ _ _ _) as [o [s g]] eqn:He. intros [= <-]. by apply (pinv_data z tid b target nowNs).
  - done.
  - destruct (pc_closeOnce _); [intros [= <-]; by apply Hq|]. destruct (z_closing z); [done|]. intros [= <-].
    apply (pinv_quiet z _ tid CRunning); try done; [apply Hz..|]. by intros k'; rewrite Hk; intros [= <-].
  - intros [= <-]. destruct (pc_opened (z_conn z)) eqn:Ho; cbn [andb]; [|by apply Hq].
    destruct (pc_underlying _); by apply Hq.
  - pose proof (pinv_end z tid nowDl nowNs Hz Hk) as H. cbn zeta in H. destruct (send_end _ _ _ _) as [s g].
    by intros [= <-].
  - pose proof (close_both_ok (pc_underlying (z_conn z)) _ (pv_stream _ Hz)) as [H1 H2].
    destruct (close_both _ _) as [err s]. intros [= <-].
    apply (pinv_quiet z _ tid (CDone err)); try done; [apply Hz..|]. by intros k'; rewrite Hk; intros [= <-].
  - done.
Qed.

Lemma pinv_pstep z z' : pinv z -> pstep z z' -> pinv z'.
Proof.
  intros Hz Hst. destruct Hst as [nowDl nowNs tid z z' Ha|tid b target z Hn Hb|tid z Hn|z].
  - by eapply pinv_padvance.
  - apply (pinv_quiet z _ tid (WEntered b target)); try done; [apply Hz..|]. congruence.
  - apply (pinv_quiet z _ tid CEntered); try done; [apply Hz..|]. congruence.
  - pose proof (Recv_keeps (pc_stream (z_conn z)) (pv_stream _ Hz)) as Hk.
    assert (Hcl : ss_closed (pc_stream (z_conn z)) = true -> (Recv (pc_stream (z_conn z))).2 = pc_stream (z_conn z))
      by (intros Hc; unfold Recv; by rewrite Hc).
    destruct (Recv _) as [o s]. cbn in Hcl. destruct Hz as [H1 H2 H3 H4 H5 H6 H7]. split; try done; [apply Hk|].
    cbn. destruct (pc_opened (z_conn z)); [done|]. destruct H6 as [|[|[Hc Hl]]]; [by left|by right; left|].
    right. right. by rewrite (Hcl Hc).
Qed.

(** A datagram stays the same from the call to its fate. *)
Definition small (k : packet_pc) : Prop :=
  match k with
  | WEntered b _ | WFirst b | WHeld b | WOpened b | WData b _ | WDone b _ => len b <= maxSlice
  | _ => True
  end.

Lemma padvance_small z tid nowDl nowNs z' :
  padvance nowDl nowNs tid z = Some z' ->
  exists k k', z_calls z !! tid = Some k /\ z_calls z' = <[tid := k']> (z_calls z) /\ (small k -> small k').
Proof.
  unfold padvance. destruct (z_calls z !! tid) as [k|] eqn:Hk; [|done]. intros Ha.
  enough (exists k', z_calls z' = <[tid := k']> (z_calls z) /\ (small k -> small k')) as (k' & H1 & H2) by eauto.
  destruct k as [b target|b|b|b|b target|b f| | | | |err]; revert Ha.
  - intros [= <-]. eexists. split; [done|]. by destruct (write_test _).
  - destruct (z_mu z); [done|]. intros [= <-]. destruct (pc_opened _); by eexists.
  - destruct (SendUDPNew _ _ _ _ _) as [[u|e|] [s g]]; intros [= <-]; by eexists.
  - intros [= <-]. by eexists.
  - destruct (SendUDPData _ _ _ _ _) as [o [s g]]; intros [= <-]; by eexists.
  - done.
  - destruct (pc_closeOnce _); [intros [= <-]; by eexists|]. destruct (z_closing z); [done|]. intros [= <-]. by eexists.
  - intros [= <-]. eexists. split; [done|]. by destruct (_ && _).
  - destruct (send_end _ _ _ _) as [s g]. intros [= <-]. by eexists.
  - destruct (close_both _ _) as [err s]. intros [= <-]. by eexists.
  - done.
Qed.

Lemma small_reach p g z : rtc pstep (pstart p g) z -> map_Forall (fun _ k => small k) (z_calls z).
Proof.
  apply (rtc_ind_r (fun z => map_Forall (fun _ k => small k) (z_calls z))); [apply map_Forall_empty|].
  intros y y' _ Hst Hy. destruct Hst as [nowDl nowNs t y y' Ha|t b target y Ht Hb|t y Ht|y]; [|..|done].
  - apply padvance_small in Ha as (k & k' & Hk & -> & Hs). apply map_Forall_insert_2; [|done]. by eapply Hs, Hy.
  - by apply map_Forall_insert_2.
  - by apply map_Forall_insert_2.
Qed.

(** Calls on the way to being the first one, or dropped. *)
Definition opening (k : packet_pc) : bool :=
  match k with WFirst _ | WHeld _ | WOpened _ | WDone _ Dropped => true | _ => false end.

Lemma padvance_opened z tid nowDl nowNs z' :
  padvance nowDl nowNs tid z = Some z' -> pc_opened (z_conn z) = true ->
  pc_opened (z_conn z') = true /\
  exists k k', z_calls z !! tid = Some k /\ z_calls z' = <[tid := k']> (z_calls z) /\ (opening k' = true ->
    opening k = true).
Proof.
  unfold padvance. destruct (z_calls z !! tid) as [k|] eqn:Hk; [|done]. intros Ha Ho.
  enough (pc_opened (z_conn z') = true /\ exists k', z_calls z' = <[tid := k']> (z_calls z) /\ (opening k' = true ->
    opening k = true))
    as (H1 & k' & H2 & H3) by eauto 6.
  destruct k as [b target|b|b|b|b target|b f| | | | |err]; revert Ha.
  - intros [= <-]. split; [done|]. eexists. split; [done|].
    unfold write_test. rewrite Ho. by rewrite andb_false_r.
  - destruct (z_mu z); [done|]. rewrite Ho. intros [= <-]. split; [done|]. by eexists.
  - destruct (SendUDPNew _ _ _ _ _) as [[u|e|] [s g]]; intros [= <-]; (split; [done|]); by eexists.
  - intros [= <-]. split; [done|]. by eexists.
  - destruct (SendUDPData _ _ _ _ _) as [[u|e|] [s g]]; intros [= <-]; (split; [done|]); by eexists.
  - done.
  - destruct (pc_closeOnce _); [intros [= <-]; split; [done|]; by eexists|].
    destruct (z_closing z); [done|]. intros [= <-]. split; [done|]. by eexists.
  - intros [= <-]. split; [done|]. destruct (_ && _); by eexists.
  - destruct (send_end _ _ _ _) as [s g]. intros [= <-]. split; [done|]. by eexists.
  - destruct (close_both _ _) as [err s]. intros [= <-]. split; [done|]. by eexists.
  - done.
Qed.

(** A call made on an open session never waits for its opening. *)
Lemma late_call z z' tid :
  rtc pstep z z' -> pc_opened (z_conn z) = true ->
  (forall k, z_calls z !! tid = Some k -> opening k = false) ->
  forall k, z_calls z' !! tid = Some k -> opening k = false.
Proof.
  intros Hr Ho Hn.
  enough (H : pc_opened (z_conn z') = true /\ forall k, z_calls z' !! tid = Some k -> opening k = false) by apply H.
  revert Hr. apply (rtc_ind_r (fun z' => pc_opened (z_conn z') = true /\ forall k, z_calls z' !! tid = Some k ->
    opening k = false));
    [done|]. clear z'. intros y y' _ Hst [Hy Hk]. destruct Hst as [nowDl nowNs t y y' Ha|t b target y Ht Hb|t y Ht|y].
  - apply padvance_opened in Ha as (Ho' & k & k' & Hlk & -> & Himp); [|done]. split; [done|]. intros k2.
    rewrite lookup_insert. case_decide as Htt; [|apply Hk]. subst t. intros [= <-].
    destruct (opening k') eqn:Hop; [|done]. rewrite <-(Hk k Hlk). symmetry. auto.
  - split; [done|]. intros k2. cbn. rewrite lookup_insert. case_decide; [by intros [= <-]|apply Hk].
  - split; [done|]. intros k2. cbn. rewrite lookup_insert. case_decide; [by intros [= <-]|apply Hk].
  - done.
Qed.
End PacketInvariant.

(** ** Properties *)

Section PacketProperties.
Context {G : Type} {C : Crypto G} {E : Entropy G} `{!AEADLaws C}.
Context {T : Type} {MT : MessageTransport T} {U : Underlying T}.

Lemma pinv_reach stream und dst g0 (p : packetConn AEAD T) g z :
  reachable (G := G) stream -> newClientPacketConn stream und dst g0 = (Ret p, g) ->
  rtc pstep (pstart p g) z -> pinv (pc_globalID p) z.
Proof.
  intros Hs Hp. apply reachable_consistent in Hs. apply newClientPacketConn_Ret in Hp as [gid ->].
  apply (rtc_ind_r (pinv gid)); [|intros y y' _ Hst Hy; by eapply pinv_pstep].
  split; cbn; try done. by right; left.
Qed.

(** C14: a client connection opens its session once, and first: however any
    number of concurrent writes, closes and reads are interleaved, and
    whatever the transport does, the frames of the connection are one UDP_NEW
    followed by UDP_DATA and UDP_END frames of the same session, or none; at
    most one write is sent with UDP_NEW, and a write that succeeded has its
    datagram in a frame unless it raced with the opening: a write that is
    called once the session is open is never dropped. *)
Theorem udp_new_first stream und dst g0 (p : packetConn AEAD T) g z
    (Hs : reachable (G := G) stream) (Hp : newClientPacketConn stream und dst g0 = (Ret p, g))
    (Hz : rtc pstep (pstart p g) z) :
  let gid := pc_globalID p in
  (z_log z = [] \/ opened_log gid (z_log z)) /\
  (forall tid b f, z_calls z !! tid = Some (WDone b f) ->
     match f with
     | SentNew => exists x, z_log z !! 0%nat = Some x /\ udp_frame FrameUDPNew gid b x
     | SentData => exists x, x ∈ z_log z /\ udp_frame FrameUDPData gid b x
     | Dropped => pc_opened (z_conn z) = true
     | Failed o => exists e, o = Fail e
     end) /\
  (forall t1 t2 b1 b2, z_calls z !! t1 = Some (WDone b1 SentNew) ->
     z_calls z !! t2 = Some (WDone b2 SentNew) -> t1 = t2) /\
  (forall z' tid b, pc_opened (z_conn z) = true -> z_calls z !! tid = None -> rtc pstep z z' ->
     z_calls z' !! tid <> Some (WDone b Dropped)).
Proof.
  intros gid. pose proof (pinv_reach stream und dst g0 p g z Hs Hp Hz) as Hi. fold gid in Hi. split_and!.
  - pose proof (pv_log _ _ Hi) as Hl. destruct (pc_opened (z_conn z)); [by right|].
    destruct Hl as [(tid & b & Ht)|[|[_ ?]]]; [|by left|by right].
    apply (pv_calls _ _ Hi) in Ht as (_ & x & -> & Hx). right. by eapply single_log.
  - intros tid b f Hf. pose proof (small_reach p g z Hz _ _ Hf) as Hsm. apply (pv_calls _ _ Hi) in Hf.
    destruct f; cbn in Hf, Hsm; [apply Hf|apply Hf|done|]. destruct Hf as [Hf|[_ Hbig]]; [done|exfalso].
    unfold udp_huge, maxSlice, maxAlloc, MaxFramePad in *. lia.
  - apply Hi.
  - intros z' tid b Ho Hn Hr Hd. apply (late_call z z' tid Hr Ho) in Hd; [done|congruence].
Qed.
End PacketProperties.

(** ** A call on its own *)

Section PacketSolo.
Context {G : Type} {C : Crypto G} {E : Entropy G} {T : Type} {MT : MessageTransport T} {U : Underlying T}.

(** Runs the calls in the given order, one step each. *)
Fixpoint prun (nowDl nowNs : Z) (tids : list nat) (z : psystem T) : psystem T :=
  match tids with
  | [] => z
  | tid :: tids => prun nowDl nowNs tids (default z (padvance nowDl nowNs tid z))
  end.

Lemma prun_reach nowDl nowNs tids (z : psystem T) : rtc pstep z (prun nowDl nowNs tids z).
Proof.
  revert z. induction tids as [|tid tids IH]; intros z; cbn [prun]; [constructor|].
  destruct (padvance nowDl nowNs tid z) as [z1|] eqn:Ha; cbn [default]; [|apply IH].
  eapply rtc_l; [by eapply ps_advance|apply IH].
Qed.

Lemma prun_next nowDl nowNs tid tids (z z1 : psystem T) :
  padvance nowDl nowNs tid z = Some z1 -> prun nowDl nowNs (tid :: tids) z = prun nowDl nowNs tids z1.
Proof. intros H. cbn [prun]. by rewrite H. Qed.

Lemma prun_end nowDl nowNs tid n (z : psystem T) k :
  z_calls z !! tid = Some k -> match k with WDone _ _ | CDone _ => True | _ => False end ->
  prun nowDl nowNs (replicate n tid) z = z.
Proof.
  intros Hk Hd. assert (Ha : padvance nowDl nowNs tid z = None) by (unfold padvance; rewrite Hk; by destruct k).
  induction n as [|n IH]; [done|]. cbn [replicate prun]. by rewrite Ha.
Qed.

(** The result a fate stands for. *)
Definition result_of (b : bytes) (f : fate) : outcome Z :=
  match f with
  | Failed (Fail e) => Fail e
  | Failed _ => Panic
  | _ => Ret (len b)
  end.

#[local] Arguments SendUDPNew : simpl never.
#[local] Arguments SendUDPData : simpl never.
#[local] Arguments send_end : simpl never.
#[local] Arguments close_both : simpl never.

#[local] Ltac pnext H := erewrite prun_next by (unfold padvance; cbn; rewrite ?lookup_insert_eq, ?H; reflexivity).

(** The steps of a write that runs alone make up [WriteToAddress]. *)
Theorem solo_write nowDl nowNs tid b target (z : psystem T) :
  z_calls z !! tid = Some (WEntered b target) -> z_mu z = None ->
  let '(o, (p, g)) := WriteToAddress nowNs b target (z_conn z, z_gen z) in
  let z' := prun nowDl nowNs (replicate 4 tid) z in
  z_conn z' = p /\ z_gen z' = g /\ exists f, z_calls z' !! tid = Some (WDone b f) /\ o = result_of b f.
Proof.
  intros Hk Hm. unfold WriteToAddress. cbn [fst replicate]. pnext Hk.
  destruct (write_test (z_conn z)) eqn:Hw; cbn [write_rest].
  - unfold ensureOpen. erewrite prun_next by (unfold padvance; cbn; rewrite lookup_insert_eq, Hm; reflexivity).
    destruct (pc_opened (z_conn z)) eqn:Ho.
    + rewrite (prun_end _ _ tid 2 _ (WDone b Dropped)); [|cbn; by rewrite lookup_insert_eq|done].
      cbn. split_and!; [done|done|]. eexists. by rewrite lookup_insert_eq.
    + destruct (SendUDPNew nowNs _ _ b (pc_stream (z_conn z), z_gen z)) as [o [s g]] eqn:He.
      erewrite prun_next by (unfold padvance; cbn; rewrite lookup_insert_eq; cbn; rewrite He; reflexivity).
      destruct o as [u|e|].
      * erewrite prun_next by (unfold padvance; cbn; rewrite lookup_insert_eq; reflexivity). cbn [prun sbind].
        cbn. split_and!; [done|done|]. exists SentNew. by rewrite lookup_insert_eq.
      * rewrite (prun_end _ _ tid 1 _ (WDone b (Failed (Fail e)))); [|cbn; by rewrite lookup_insert_eq|done].
        cbn. rewrite Ho. split_and!; [done|done|]. eexists. by rewrite lookup_insert_eq.
      * rewrite (prun_end _ _ tid 1 _ (WDone b (Failed Panic))); [|cbn; by rewrite lookup_insert_eq|done].
        cbn. rewrite Ho. split_and!; [done|done|]. eexists. by rewrite lookup_insert_eq.
  - destruct (SendUDPData nowNs (pc_globalID (z_conn z)) target b (pc_stream (z_conn z), z_gen z)) as [o [s g]] eqn:He.
    erewrite prun_next by (unfold padvance; cbn; rewrite lookup_insert_eq; cbn; rewrite He; reflexivity).
    destruct o as [u|e|];
      [rewrite (prun_end _ _ tid 2 _ (WDone b SentData))
      |rewrite (prun_end _ _ tid 2 _ (WDone b (Failed (Fail e))))
      |rewrite (prun_end _ _ tid 2 _ (WDone b (Failed Panic)))];
      try done; try (cbn; by rewrite lookup_insert_eq);
      (cbn; split_and!; [done|done|]; eexists; by rewrite lookup_insert_eq).
Qed.

(** The steps of a close that runs alone make up [PacketConn_Close]. *)
Theorem solo_close nowDl nowNs tid (z : psystem T) :
  z_calls z !! tid = Some CEntered -> z_closing z = None ->
  let '(err, (p, g)) := PacketConn_Close nowDl nowNs (z_conn z, z_gen z) in
  let z' := prun nowDl nowNs (replicate 4 tid) z in
  z_conn z' = p /\ z_gen z' = g /\ z_calls z' !! tid = Some (CDone err).
Proof.
  intros Hk Hc. unfold PacketConn_Close. cbn [replicate].
  destruct (pc_closeOnce (z_conn z)) eqn:Ho.
  { erewrite prun_next by (unfold padvance; rewrite Hk, Ho; reflexivity).
    rewrite (prun_end _ _ tid 3 _ (CDone (pc_closeErr (z_conn z)))); [|cbn; by rewrite lookup_insert_eq|done].
    cbn. split_and!; [done|done|]. by rewrite lookup_insert_eq. }
  erewrite prun_next by (unfold padvance; rewrite Hk, Ho, Hc; reflexivity).
  erewrite prun_next by (unfold padvance; cbn; rewrite lookup_insert_eq; reflexivity).
  destruct (pc_opened (z_conn z) && pc_underlying (z_conn z)).
  - destruct (send_end nowDl nowNs (pc_globalID (z_conn z)) (pc_stream (z_conn z), z_gen z)) as [s g] eqn:He.
    erewrite prun_next by (unfold padvance; cbn; rewrite lookup_insert_eq, He; reflexivity).
    destruct (close_both (pc_underlying (z_conn z)) s) as [err s'] eqn:Hb.
    erewrite prun_next by (unfold padvance; cbn; rewrite lookup_insert_eq, Hb; reflexivity). cbn [prun].
    cbn. split_and!; [done|done|]. by rewrite lookup_insert_eq.
  - destruct (close_both (pc_underlying (z_conn z)) (pc_stream (z_conn z))) as [err s'] eqn:Hb.
    erewrite prun_next by (unfold padvance; cbn; rewrite lookup_insert_eq, Hb; reflexivity).
    rewrite (prun_end _ _ tid 1 _ (CDone err)); [|cbn; by rewrite lookup_insert_eq|done].
    cbn. split_and!; [done|done|]. by rewrite lookup_insert_eq.
Qed.
End PacketSolo.

(** ** Witness *)

Module ConcurrentPacketExamples.
Import PacketExamples.
Definition made := newClientPacketConn StreamExamples.a0 true dst0 (5 : Toy.gen).
Definition conn0 : packetConn (@AEAD _ Toy.crypto) LengthFramer := match made.1 with Ret p => p | _ => pc0 false end.
Definition z0 : psystem (G := Toy.gen) LengthFramer := pstart conn0 made.2.
(** Two writes race: both make the test, then each runs to its end; a third
    one follows. *)
Definition z1 := pgoto 2 (WEntered (str "two") target0) (pgoto 1 (WEntered (str "one") target0) z0).
Definition z2 := prun 1 2 [1; 2; 1; 1; 1; 2]%nat z1.
Definition z3 := prun 1 2 [3; 3]%nat (pgoto 3 (WEntered (str "three") target0) z2).

Definition fate_of (tid : nat) : option fate :=
  match z_calls z3 !! tid with Some (WDone _ f) => Some f | _ => None end.

Lemma small_str c : (len (str c) <=? 100) = true -> len (str c) <= maxSlice.
Proof. intros H%Z.leb_le. unfold maxSlice, maxAlloc. lia. Qed.

Lemma z2_free : z_calls z2 !! 3%nat = None.
Proof.
  assert (H : bool_decide (is_Some (z_calls z2 !! 3%nat)) = false) by (vm_compute; reflexivity).
  apply bool_decide_eq_false in H. by apply eq_None_not_Some.
Qed.

Lemma z2_reach : rtc pstep z0 z2.
Proof.
  eapply rtc_l; [exact (ps_write 1 (str "one") target0 z0 eq_refl (small_str "one" eq_refl))|].
  eapply rtc_l; [exact (ps_write 2 (str "two") target0 (pgoto 1 (WEntered (str "one") target0) z0) eq_refl (small_str "two" eq_refl))|].
  exact (prun_reach 1 2 [1; 2; 1; 1; 1; 2]%nat z1).
Qed.

Lemma z3_reach : rtc pstep z0 z3.
Proof.
  eapply rtc_trans; [exact z2_reach|].
  eapply rtc_l; [exact (ps_write 3 (str "three") target0 z2 z2_free (small_str "three" eq_refl))|].
  exact (prun_reach 1 2 [3; 3]%nat (pgoto 3 (WEntered (str "three") target0) z2)).
Qed.
End ConcurrentPacketExamples.
Import ConcurrentPacketExamples.

Lemma udp_new_first_witness :
  fate_of 1 = Some SentNew /\ fate_of 2 = Some Dropped /\ fate_of 3 = Some SentData /\
  opened_log (pc_globalID conn0) (z_log z3).
Proof.
  destruct (udp_new_first StreamExamples.a0 true PacketExamples.dst0 (5 : Toy.gen) conn0 made.2 z3) as [[Hl|Hl] _].
  - exact StreamExamples.a0_reachable.
  - vm_compute. reflexivity.
  - exact z3_reach.
  - assert (Hne : length (z_log z3) = 2%nat) by (vm_compute; reflexivity). rewrite Hl in Hne. discriminate Hne.
  - split; [vm_compute; reflexivity|]. split; [vm_compute; reflexivity|]. split; [vm_compute; reflexivity|exact Hl].
Defined.
