(* ===== verification/Client.v ===== *)
(** * The client (src/client.go)

    UUID parsing, the client side of the handshake over a transport, and the
    two dial functions. *)

From S2P Require Import Prelude Address Crypto Io Kdf Padding Frame Replay Handshake HandshakeProofs.
From S2P Require Import Transport SecureStream SecureStreamProofs StreamConn PacketConn.

(** ** UUIDs *)

(** The value of a hexadecimal digit. *)
Definition hex_val (b : byte) : option Z :=
  let v := byte_val b in
  if (48 <=? v) && (v <=? 57) then Some (v - 48) else
  if (97 <=? v) && (v <=? 102) then Some (v - 87) else
  if (65 <=? v) && (v <=? 70) then Some (v - 55) else None.

(** [hex.DecodeString] on a string of even length. *)
Fixpoint hex_decode (l : bytes) : option bytes :=
  match l with
  | a :: b :: l =>
      match hex_val a, hex_val b, hex_decode l with
      | Some x, Some y, Some rest => Some (byte_of (Z.lor (Z.shiftl x 4) y) :: rest)
      | _, _, _ => None
      end
  | _ => Some []
  end.

Definition hyphen : byte := Byte.x2d.

(** [strings.ReplaceAll(s, "-", "")] *)
Definition remove_hyphens (s : bytes) : bytes := filter (fun b => b <> hyphen) s.

Definition ErrUUIDLength : error := ErrText "ewp: UUID must be 32 hex digits (with or without hyphens)".
Definition ErrHexByte : error := ErrText "encoding/hex: invalid byte".

Definition ParseUUID (s : bytes) : outcome (arr UUIDLen) :=
  let clean := remove_hyphens s in
  fail_if negb (len clean =? 32) with ErrUUIDLength ;;
  b ← or_fail (Wrap "ewp: invalid UUID hex" ErrHexByte) (hex_decode clean);
  Ret (to_arr UUIDLen b).

(** ** The client *)

Record Client := mkClient { cl_uuid : arr UUIDLen }.

Definition NewClient (uuidStr : bytes) : outcome Client :=
  u ← ParseUUID uuidStr; Ret (mkClient u).

Definition Client_UUID (c : Client) : arr UUIDLen := cl_uuid c.

Section Client.
Context {G : Type} {C : Crypto G} {E : Entropy G}.
Context {T : Type} {MT : MessageTransport T} {DS : DeadlineSetter T}.

(** [_ = tr.Close()] before an error return. *)
Definition abandon {A} (msg : string) (e : error) (tr : T) (g : G) : outcome A * (T * G) :=
  (Fail (Wrap msg e), ((CloseTransport tr).2, g)).

(** The body of [handshake] between setting and clearing the deadline; the
    clock is read for the hello and for the check of the answer. *)
Definition handshake_body (nowHello nowReply : Z) (c : Client) (cmd : Command) (dst : Address)
  (st : T * G) : outcome (SecureStream AEAD T) * (T * G) :=
  let '(o, (tr, g)) := WriteClientHello nowHello SendMessage (cl_uuid c) cmd dst st in
  match o with
  | Panic => (Panic, (tr, g))
  | Fail e => abandon "ewp: write ClientHello" e tr g
  | Ret state =>
  let '(o, tr) := ReadMessage tr in
  match o with
  | Panic => (Panic, (tr, g))
  | Fail e => abandon "ewp: read ServerHello" e tr g
  | Ret shBytes =>
  let '(o, _) := ReadServerHello nowReply shBytes state in
  match o with
  | Panic => (Panic, (tr, g))
  | Fail e => abandon "ewp: process ServerHello" e tr g
  | Ret res =>
  match NewClientSecureStream tr (hr_Keys res) with
  | Panic => (Panic, (tr, g))
  | Fail e => abandon "ewp: build SecureStream" e tr g
  | Ret stream => (Ret stream, (tr, g))
  end end end end.

(** [ctx] is the deadline of the context.  The deferred call clears it when the
    function returns; the returned stream holds the same transport. *)
Definition client_handshake (ctx : option Z) (nowHello nowReply : Z) (c : Client) (cmd : Command)
  (dst : Address) (st : T * G) : outcome (SecureStream AEAD T) * (T * G) :=
  let '(tr, g) := st in
  let '(o, (tr, g)) := handshake_body nowHello nowReply c cmd dst (arm_deadline ctx tr, g) in
  let tr := disarm_deadline ctx tr in
  (match o with Ret stream => Ret (set_tr tr stream) | _ => o end, (tr, g)).
End Client.

Section Dial.
Context {G : Type} {C : Crypto G} {E : Entropy G}.

(** The returned connection owns [conn]; on an error the connection is left as
    the second component says. *)
Definition DialConn (ctx : option Z) (nowHello nowReply : Z) (c : Client) (cn : conn) (dst : Address) (g : G)
  : outcome (streamConn AEAD LengthFramer) * (LengthFramer * G) :=
  let tr := NewLengthFramer cn in
  letS stream, st := client_handshake ctx nowHello nowReply c CommandTCP dst (tr, g) ;;
  (Ret (new_streamConn stream true), st).

Definition DialPacketConn (ctx : option Z) (nowHello nowReply : Z) (c : Client) (cn : conn) (dst : Address) (g : G)
  : outcome (packetConn AEAD LengthFramer) * (LengthFramer * G) :=
  let tr := NewLengthFramer cn in
  letS stream, st := client_handshake ctx nowHello nowReply c CommandUDP dst (tr, g) ;;
  let '(tr, g) := st in
  let '(o, g) := newClientPacketConn stream true dst g in (o, (tr, g)).
End Dial.

(** ** UUID lemmas *)

(** The digits of a UUID, in lower case. *)
Definition digit (n : Z) : byte := byte_of (if n <? 10 then 48 + n else 87 + n).
Definition uuid_hex (u : arr UUIDLen) : bytes :=
  concat ((fun b => [digit (byte_val b / 16); digit (byte_val b mod 16)]) <$> arr_list u).
Definition lower (b : byte) : byte :=
  if (65 <=? byte_val b) && (byte_val b <=? 70) then byte_of (byte_val b + 32) else b.

Lemma digit_inj m n : 0 <= m < 16 -> 0 <= n < 16 -> digit m = digit n -> m = n.
Proof.
  unfold digit. intros Hm Hn He. apply (f_equal byte_val) in He. revert He.
  destruct (Z.ltb_spec m 10), (Z.ltb_spec n 10); rewrite !byte_of_small by lia; lia.
Qed.

Lemma hex_val_spec b n : hex_val b = Some n <-> 0 <= n < 16 /\ lower b = digit n.
Proof.
  assert (Hfwd : forall m, hex_val b = Some m -> 0 <= m < 16 /\ lower b = digit m).
  { intros m H. destruct b; vm_compute in H; try discriminate H; injection H as <-; (split; [lia|reflexivity]). }
  split; [apply Hfwd|]. intros [Hn Hl]. destruct (hex_val b) as [m|] eqn:Hb.
  - destruct (Hfwd m eq_refl) as [Hm Hl']. f_equal. apply digit_inj; congruence.
  - exfalso. unfold digit in Hl. apply (f_equal byte_val) in Hl. revert Hl Hb. unfold hex_val, lower.
    pose proof (byte_val_range b).
    destruct (Z.ltb_spec n 10), (Z.leb_spec 48 (byte_val b)), (Z.leb_spec (byte_val b) 57),
      (Z.leb_spec 97 (byte_val b)), (Z.leb_spec (byte_val b) 102), (Z.leb_spec 65 (byte_val b)),
      (Z.leb_spec (byte_val b) 70); cbn [andb]; rewrite ?byte_of_small by lia; (done || lia).
Qed.

Lemma hex_byte_spec x y c :
  0 <= x < 16 -> 0 <= y < 16 ->
  byte_of (Z.lor (Z.shiftl x 4) y) = c <-> x = byte_val c / 16 /\ y = byte_val c mod 16.
Proof.
  intros Hx Hy. assert (Hor : Z.lor (Z.shiftl x 4) y = 16 * x + y).
  { rewrite Z.shiftl_mul_pow2 by lia. pose proof (Z.add_lor_land (x * 2 ^ 4) y) as Hadd.
    assert (Hl : Z.land (x * 2 ^ 4) y = 0).
    { rewrite <-(Z.mod_small y (2 ^ 4)) by lia. apply Z.bits_inj'. intros i Hi.
      rewrite Z.land_spec, Z.bits_0. destruct (Z.lt_ge_cases i 4).
      - by rewrite <-Z.shiftl_mul_pow2, Z.shiftl_spec_low by lia.
      - by rewrite Z.mod_pow2_bits_high, andb_false_r by lia. }
    lia. }
  rewrite Hor. split.
  - intros <-. rewrite byte_of_small by lia. split.
    + symmetry. rewrite Z.mul_comm, Z.div_add_l, Z.div_small by lia. lia.
    + symmetry. rewrite Z.mul_comm, Z.add_comm, Z.mod_add, Z.mod_small by lia. lia.
  - intros [-> ->]. rewrite <-Z.div_mod by lia. apply byte_of_val.
Qed.

Definition digits (bs : bytes) : bytes :=
  concat ((fun b => [digit (byte_val b / 16); digit (byte_val b mod 16)]) <$> bs).

Lemma nibble_range c : 0 <= byte_val c / 16 < 16 /\ 0 <= byte_val c mod 16 < 16.
Proof.
  pose proof (byte_val_range c). split; [|apply Z.mod_pos_bound; lia].
  split; [apply Z.div_pos; lia|apply Z.div_lt_upper_bound; lia].
Qed.

Lemma hex_decode_spec bs l :
  Nat.Even (length l) -> hex_decode l = Some bs <-> lower <$> l = digits bs.
Proof.
  revert l. induction bs as [|c bs IH]; intros l Hl.
  - destruct l as [|a [|b l]]; [done|destruct Hl as [k Hk]; cbn in Hk; lia|]. cbn [hex_decode]. split; [|done].
    destruct (hex_val a), (hex_val b), (hex_decode l); done.
  - destruct l as [|a [|b l]]; [done|destruct Hl as [k Hk]; cbn in Hk; lia|].
    assert (Hl' : Nat.Even (length l)) by (destruct Hl as [k Hk]; exists (k - 1)%nat; cbn in Hk; lia).
    specialize (IH l Hl'). destruct (nibble_range c) as [Hhi Hlo]. cbn [hex_decode].
    change (digits (c :: bs)) with (digit (byte_val c / 16) :: digit (byte_val c mod 16) :: digits bs).
    cbn [fmap list_fmap]. split.
    + destruct (hex_val a) as [x|] eqn:Ea; [|done]. destruct (hex_val b) as [y|] eqn:Eb; [|done].
      destruct (hex_decode l) as [r|] eqn:El; [|done]. intros [= Hc ->].
      apply hex_val_spec in Ea as [Hx Ea], Eb as [Hy Eb]. apply hex_byte_spec in Hc as [-> ->]; [|done..].
      f_equal; [done|]. f_equal; [done|]. by apply IH.
    + intros [= Ha Hb Hr]. rewrite (proj2 (hex_val_spec a (byte_val c / 16))) by done.
      rewrite (proj2 (hex_val_spec b (byte_val c mod 16))) by done.
      rewrite (proj2 IH) by done. do 2 f_equal. by apply hex_byte_spec.
Qed.

Lemma length_digits bs : length (digits bs) = (2 * length bs)%nat.
Proof. induction bs as [|b bs IH]; [done|]. unfold digits in *. cbn. lia. Qed.

(** ** Properties *)

(** UUID parsing is exact: a string parses to a UUID iff, without its
    hyphens and in lower case, it is the 32 hexadecimal digits of that UUID;
    it never panics. *)
Theorem ParseUUID_exact s u :
  (ParseUUID s = Ret u <-> lower <$> remove_hyphens s = uuid_hex u) /\ ParseUUID s <> Panic.
Proof.
  unfold ParseUUID. change (uuid_hex u) with (digits (arr_list u)). set (l := remove_hyphens s). split.
  - destruct (Z.eqb_spec (len l) 32) as [Hl|Hl]; cbn [negb].
    + assert (He : Nat.Even (length l)) by (exists 16%nat; lia).
      rewrite <-(hex_decode_spec _ l He). destruct (hex_decode l) as [bs|] eqn:Ed; [|done].
      cbn [or_fail mbind outcome_bind]. apply hex_decode_spec in Ed; [|done].
      apply (f_equal length) in Ed. rewrite length_fmap, length_digits in Ed. split.
      * intros [= <-]. by rewrite to_arr_list by lia.
      * intros [= ->]. by rewrite to_arr_id.
    + split; [done|]. intros Hd. apply (f_equal length) in Hd.
      rewrite length_fmap, length_digits, arr_length in Hd. lia.
  - destruct (negb _); [done|]. by destruct (hex_decode l).
Qed.
