(* ===== verification/Server.v ===== *)
(** * The server (src/server.go)

    User management, and the handling of one connection.  The application's
    [Handler] is outside the repository: [handleTransport] goes up to its call
    and returns what it is called with, [serveTransport] takes any handler and
    goes on to what it returns.  Each method that holds [usersMu] is one
    step. *)

From S2P Require Import Prelude Address Crypto Io Kdf Padding Frame Replay Handshake HandshakeProofs.
From S2P Require Import Transport SecureStream SecureStreamProofs StreamConn PacketConn Client.

Record Metadata := mkMetadata {
  md_UserUUID : arr UUIDLen;
  md_Destination : Address;
  md_Source : option NetAddr
}.

(** [lookup] is the closure [MakeUUIDLookup(snapshot)]: its snapshot, [None]
    when it was never built. *)
Record Service := mkService {
  sv_users : list (arr UUIDLen);
  sv_lookup : option (list (arr UUIDLen));
  sv_replay : option ReplayCache
}.

Definition rebuildLookup (s : Service) : Service :=
  mkService (sv_users s) (Some (sv_users s)) (sv_replay s).

(** [h] tells whether the handler is not nil; the handler itself is only ever
    called through [dispatch]. *)
Definition NewService (h : bool) : outcome Service :=
  if negb h then Panic else
  Ret (rebuildLookup (mkService [] None (Some (NewReplayCache ReplayWindow)))).

Definition SetReplayCache (cache : option ReplayCache) (s : Service) : Service :=
  mkService (sv_users s) (sv_lookup s) cache.

Definition AddUser (uuidStr : bytes) (s : Service) : outcome unit * Service :=
  match ParseUUID uuidStr with
  | Fail e => (Fail e, s)
  | Panic => (Panic, s)
  | Ret u =>
      if existsb (fun existing => bool_decide (existing = u)) (sv_users s) then (Ret tt, s)
      else (Ret tt, rebuildLookup (mkService (sv_users s ++ [u]) (sv_lookup s) (sv_replay s)))
  end.

(** The loop of [RemoveUser]: the users without the first occurrence. *)
Fixpoint remove_first (u : arr UUIDLen) (l : list (arr UUIDLen)) : option (list (arr UUIDLen)) :=
  match l with
  | [] => None
  | x :: l =>
      if bool_decide (x = u) then Some l
      else match remove_first u l with Some l' => Some (x :: l') | None => None end
  end.

Definition RemoveUser (uuidStr : bytes) (s : Service) : bool * Service :=
  match ParseUUID uuidStr with
  | Ret u =>
      match remove_first u (sv_users s) with
      | Some users => (true, rebuildLookup (mkService users (sv_lookup s) (sv_replay s)))
      | None => (false, s)
      end
  | _ => (false, s)
  end.

Definition Users (s : Service) : list (arr UUIDLen) := sv_users s.

(** What the handler is called with. *)
Inductive dispatch (A T : Type) :=
  | NewConnection (c : streamConn A T) (md : Metadata)
  | NewPacketConnection (p : packetConn A T) (md : Metadata).
Arguments NewConnection {A T} _ _.
Arguments NewPacketConnection {A T} _ _.

Definition ErrNoUsers : error := ErrText "ewp: no users configured".
Definition ErrNotUDPNew : error := ErrText "ewp: expected UDP_NEW first".
Definition ErrBadCommand : error := ErrText "ewp: unsupported command".

(** A decoded payload as a slice: [append([]byte(nil), p...)] is nil for an
    empty [p]. *)
Definition nil_if_empty (p : bytes) : option bytes := if len p =? 0 then None else Some p.

Section Server.
Context {G : Type} {C : Crypto G} {E : Entropy G}.
Context {T : Type} {MT : MessageTransport T} {DS : DeadlineSetter T}.

Abbreviation result := (outcome (dispatch AEAD T) * (Service * T * G))%type.

(** After the handshake; [remote] is [Some (RemoteAddr())] when [underlying]
    is not nil. *)
Definition dispatchFlow (stream : SecureStream AEAD T) (ch : ClientHello) (remote : option (option NetAddr))
  (s : Service) (g : G) : result :=
  let md := mkMetadata (ch_UUID ch) (ch_Address ch) (default None remote) in
  let underlying := bool_decide (is_Some remote) in
  if bool_decide (ch_Command ch = CommandTCP) then
    (Ret (NewConnection (new_streamConn stream underlying) md), (s, ss_tr stream, g))
  else if bool_decide (ch_Command ch = CommandUDP) then
    let '(o, stream) := Recv stream in
    match o with
    | Panic => (Panic, (s, ss_tr stream, g))
    | Fail e => (Fail (Wrap "ewp: read initial UDP_NEW" e), (s, ss_tr (Close stream).2, g))
    | Ret ev =>
        if negb (bool_decide (ev_Type ev = FrameUDPNew))
        then (Fail ErrNotUDPNew, (s, ss_tr (Close stream).2, g)) else
        let dst := if ev_HasAddr ev then ev_Address ev else ch_Address ch in
        (Ret (NewPacketConnection
                (newServerPacketConn stream underlying (ev_GlobalID ev) dst (nil_if_empty (ev_Payload ev))) md),
         (s, ss_tr stream, g))
    end
  else (Fail ErrBadCommand, (s, ss_tr (Close stream).2, g)).

(** [_ = tr.Close(); return fmt.Errorf(msg, err)] *)
Definition reject (msg : string) (e : error) (s : Service) (tr : T) (g : G) : result :=
  (Fail (Wrap msg e), (s, (CloseTransport tr).2, g)).

(** From an accepted hello to the call of the handler. *)
Definition establish (helloOut : bytes) (res : HandshakeResult) (remote : option (option NetAddr))
  (st : Service * T * G) : result :=
  let '(s, tr, g) := st in
  let '(err, tr) := SendMessage helloOut tr in
  match err with
  | Some e => reject "ewp: send ServerHello" e s tr g
  | None =>
  match NewServerSecureStream tr (hr_Keys res) with
  | Panic => (Panic, (s, tr, g))
  | Fail e => reject "ewp: build server SecureStream" e s tr g
  | Ret stream =>
  let stream := set_tr (set_deadline None (ss_tr stream)) stream in
  match hr_ClientHello res with
  | None => (Panic, (s, ss_tr stream, g))
  | Some ch => dispatchFlow stream ch remote s g
  end end end.

(** Up to the call of the handler: the call that is made, or the error that is
    returned before it. *)
Definition handleTransport (ctx : option Z) (now nowCache nowHello : Z) (remote : option (option NetAddr))
  (st : Service * T * G) : result :=
  let '(s, tr, g) := st in
  match sv_lookup s with
  | None => (Fail ErrNoUsers, (s, (CloseTransport tr).2, g))
  | Some users =>
  let tr := arm_deadline ctx tr in
  let '(o, tr) := ReadMessage tr in
  match o with
  | Panic => (Panic, (s, tr, g))
  | Fail e => reject "ewp: read ClientHello" e s tr g
  | Ret helloIn =>
  let '(o, (replay, g)) :=
    AcceptClientHelloWithReplay now nowCache nowHello helloIn (MakeUUIDLookup users) (sv_replay s, g) in
  let s := mkService (sv_users s) (sv_lookup s) replay in
  match o with
  | Panic => (Panic, (s, tr, g))
  | Fail e => reject "ewp: accept ClientHello" e s tr g
  | Ret (helloOut, res) => establish helloOut res remote (s, tr, g)
  end end end.

(** A handler: what a call of [NewConnection] or [NewPacketConnection] returns,
    and what it has done to the transport, the service and the randomness
    source by then. *)
Definition Handler : Type := dispatch AEAD T -> Service * T * G -> outcome unit * (Service * T * G).

(** The whole of [handleTransport]: [return s.handler.NewConnection(...)] or
    [return s.handler.NewPacketConnection(...)], or the error before it. *)
Definition serveTransport (handler : Handler) (ctx : option Z) (now nowCache nowHello : Z)
  (remote : option (option NetAddr)) (st : Service * T * G) : outcome unit * (Service * T * G) :=
  let '(o, st) := handleTransport ctx now nowCache nowHello remote st in
  match o with
  | Ret d => handler d st
  | Fail e => (Fail e, st)
  | Panic => (Panic, st)
  end.
End Server.
Arguments Handler {G C} T : rename.

Section HandleConn.
Context {G : Type} {C : Crypto G} {E : Entropy G}.

Definition HandleConn (handler : Handler LengthFramer) (ctx : option Z) (now nowCache nowHello : Z) (cn : conn)
  (remote : option NetAddr) (s : Service) (g : G) : outcome unit * (Service * LengthFramer * G) :=
  let tr := NewLengthFramer cn in
  serveTransport handler ctx now nowCache nowHello (Some remote) (s, tr, g).

Definition HandleMessageTransport {T} {MT : MessageTransport T} {DS : DeadlineSetter T} (handler : Handler T)
  (ctx : option Z) (now nowCache nowHello : Z) (tr : T) (remote : option (option NetAddr)) (s : Service) (g : G)
  : outcome unit * (Service * T * G) :=
  serveTransport handler ctx now nowCache nowHello remote (s, tr, g).
End HandleConn.

(** ** User management *)

(** The invariant: the lookup in force is over the current users, without
    duplicates. *)
Record service_ok (s : Service) : Prop := {
  so_lookup : sv_lookup s = Some (sv_users s);
  so_nodup : NoDup (sv_users s)
}.

Lemma remove_first_spec u l :
  NoDup l ->
  match remove_first u l with
  | Some l' => u ∈ l /\ NoDup l' /\ (forall v, v ∈ l' <-> v ∈ l /\ v <> u)
  | None => u ∉ l
  end.
Proof.
  induction 1 as [|x l Hx Hl IH]; cbn [remove_first]; [apply not_elem_of_nil|].
  case_bool_decide as Hxu.
  - subst x. split_and!; [left|done|]. set_solver.
  - destruct (remove_first u l) as [l'|]; [|set_solver].
    destruct IH as (Hu & Hnd & Hin). split_and!; [by right| |set_solver].
    constructor; [|done]. rewrite Hin. naive_solver.
Qed.

Inductive user_step : Service -> Service -> Prop :=
  | step_add s str : user_step s (AddUser str s).2
  | step_remove s str : user_step s (RemoveUser str s).2
  | step_replay s c : user_step s (SetReplayCache c s).

Lemma existsb_elem (u : arr UUIDLen) l :
  existsb (fun existing => bool_decide (existing = u)) l = true <-> u ∈ l.
Proof.
  rewrite existsb_exists. split.
  - intros (x & Hx & ->%bool_decide_eq_true). by apply list_elem_of_In.
  - intros Hu. exists u. split; [by apply list_elem_of_In|by apply bool_decide_eq_true].
Qed.

Lemma AddUser_users str s :
  service_ok s ->
  service_ok (AddUser str s).2 /\
  forall v, v ∈ sv_users (AddUser str s).2 <-> v ∈ sv_users s \/ ParseUUID str = Ret v.
Proof.
  intros [Hl Hn]. unfold AddUser. destruct (ParseUUID str) as [u|e|]; [|cbn; split; [done|naive_solver]..].
  pose proof (existsb_elem u (sv_users s)) as He.
  destruct (existsb _ (sv_users s)); cbn.
  - split; [done|]. intros v. split; [by left|]. intros [|[= <-]]; [done|]. by apply He.
  - assert (u ∉ sv_users s) by (intros Hu%He; done). split; [split; cbn; [done|]|].
    + apply NoDup_app. split_and!; [done|set_solver|apply NoDup_singleton].
    + intros v. rewrite elem_of_app, list_elem_of_singleton. naive_solver.
Qed.

Lemma RemoveUser_users str s :
  service_ok s ->
  let '(b, s') := RemoveUser str s in
  service_ok s' /\
  (b = true <-> exists u, ParseUUID str = Ret u /\ u ∈ sv_users s) /\
  (forall v, v ∈ sv_users s' <-> v ∈ sv_users s /\ ParseUUID str <> Ret v).
Proof.
  intros [Hl Hn]. unfold RemoveUser. destruct (ParseUUID str) as [u|e|]; [|split_and!; [done|naive_solver..]..].
  pose proof (remove_first_spec u (sv_users s) Hn) as Hr.
  destruct (remove_first u (sv_users s)) as [l'|].
  - destruct Hr as (Hu & Hn' & Hin). split_and!; [split; cbn; done| |].
    + split; [by exists u|done].
    + intros v. cbn. rewrite Hin. split; intros [? Hv]; (split; [done|]); intros ?; apply Hv; congruence.
  - split_and!; [done| |].
    + split; [done|]. intros (u' & [= <-] & Hu'). done.
    + intros v. split; [|by intros [? _]]. intros Hv. split; [done|]. intros [= <-]. done.
Qed.

(** ** Streams built from the same keys *)

Section Link.
Context {G : Type} {C : Crypto G} {E : Entropy G} `{!AEADLaws C}.

Lemma NewFrameAEAD_ok key prefix :
  exists f, NewFrameAEAD key prefix = Ret f /\ fa_counter f = 0.
Proof.
  unfold NewFrameAEAD. destruct (chacha_New_32 key) as [a ->]. cbn. by eexists.
Qed.

(** What the two constructors give for the same keys. *)
Lemma streams_linked {T} keys :
  exists f1 f2, fa_counter f1 = 0 /\ fa_counter f2 = 0 /\
    (forall tr : T, NewClientSecureStream tr keys = Ret (new_stream tr f1 f2)) /\
    (forall tr : T, NewServerSecureStream tr keys = Ret (new_stream tr f2 f1)).
Proof.
  destruct (NewFrameAEAD_ok (C2SKey keys) (C2SNonce keys)) as (f1 & H1 & Hc1).
  destruct (NewFrameAEAD_ok (S2CKey keys) (S2CNonce keys)) as (f2 & H2 & Hc2).
  exists f1, f2. unfold NewClientSecureStream, NewServerSecureStream. rewrite H1, H2. done.
Qed.

Lemma new_stream_working {T} `{TransportLaws T} (tr : T) (f1 f2 : FrameAEAD AEAD) :
  up tr -> fa_counter f1 = 0 -> fa_counter f2 = 0 -> working (new_stream tr f1 f2).
Proof. intros Hu H1 H2. split; [done|exact Hu|cbn; lia..]. Qed.
End Link.

(** ** Properties *)

(** Services the API can produce. *)
Inductive service_reach : Service -> Prop :=
  | sr_new s : NewService true = Ret s -> service_reach s
  | sr_step s s' : service_reach s -> user_step s s' -> service_reach s'.

Lemma service_reach_ok s : service_reach s -> service_ok s.
Proof.
  induction 1 as [s Hs|s s' _ IH Hs]; [injection Hs as <-; split; [done|constructor]|].
  destruct Hs as [s str|s str|s c].
  - by apply AddUser_users.
  - pose proof (RemoveUser_users str s IH) as H. destruct (RemoveUser str s). apply H.
  - by destruct IH.
Qed.

(** C30: user management: on every reachable service, [AddUser] and
    [RemoveUser] change the set of users by exactly the parsed UUID (adding
    twice and removing an absent user change nothing), [RemoveUser] reports
    whether the user was there, and the lookup in force authenticates exactly
    the current users: a removed user's messages resolve to no UUID of his. *)
Theorem service_users_exact {G} {C : Crypto G} s str (Hs : service_reach s) :
  sv_lookup s = Some (Users s) /\ NoDup (Users s) /\
  (forall v, v ∈ Users (AddUser str s).2 <-> v ∈ Users s \/ ParseUUID str = Ret v) /\
  (let '(b, s') := RemoveUser str s in
   (b = true <-> exists u, ParseUUID str = Ret u /\ u ∈ Users s) /\
   (forall v, v ∈ Users s' <-> v ∈ Users s /\ ParseUUID str <> Ret v) /\
   sv_lookup s' = Some (Users s') /\
   forall u body tag, ParseUUID str = Ret u -> MakeUUIDLookup (C := C) (Users s') body tag <> Ret u).
Proof.
  apply service_reach_ok in Hs as Hok. pose proof Hok as [Hl Hn].
  pose proof (AddUser_users str s Hok) as [_ Hadd]. pose proof (RemoveUser_users str s Hok) as Hrem.
  destruct (RemoveUser str s) as [b s']. destruct Hrem as ([Hl' _] & Hb & Hin).
  unfold Users. split_and!; try done. intros u body tag Hu Hlook.
  pose proof (MakeUUIDLookup_cases (C := C) (sv_users s') body tag) as Hc. rewrite Hlook in Hc.
  destruct Hc as [Hc _]. apply Hin in Hc as [_ Hc]. done.
Qed.

Section EndToEnd.
Context {G : Type} {C : Crypto G} {E : Entropy G} `{!CryptoLaws C}.
Context {T : Type} `{TransportLaws T} `{!DeadlineSetter T} `{!DeadlineLaws T}.

(** A connection that fails before the handler is called is closed. *)
Lemma handleTransport_closes ctx now nowCache nowHello remote s ts gs e s' ts' gs' :
  handleTransport ctx now nowCache nowHello remote (s, ts, gs) = (Fail e, (s', ts', gs')) ->
  (exists tr, ts' = (CloseTransport tr).2) /\ sv_users s' = sv_users s /\ sv_lookup s' = sv_lookup s.
Proof.
  unfold handleTransport, establish, reject. destruct (sv_lookup s) as [users|] eqn:El.
  2: { intros [= _ <- <- _]. eauto. }
  destruct (ReadMessage (arm_deadline ctx ts)) as [[m|e1|] ts1]; [|intros [= _ <- <- _]; eauto|done].
  destruct (AcceptClientHelloWithReplay _ _ _ _ _ _) as [[[out res]|e1|] [cache gs1]];
    [|intros [= _ <- <- _]; by eauto|done].
  destruct (SendMessage out ts1) as [[e1|] ts2]; [intros [= _ <- <- _]; by eauto|].
  destruct (streams_linked (T := T) (hr_Keys res)) as (f1 & f2 & Hf1 & Hf2 & _ & ->).
  destruct (hr_ClientHello res) as [ch|]; [|done]. unfold dispatchFlow.
  case_bool_decide; [done|]. case_bool_decide.
  - pose proof (Recv_closes (new_stream (set_deadline None ts2) f2 f1) eq_refl eq_refl) as Hc.
    cbn [ss_tr new_stream]. change (set_tr _ _) with (new_stream (set_deadline None ts2) f2 f1).
    destruct (Recv (new_stream (set_deadline None ts2) f2 f1)) as [[ev|e1|] stream]; [|intros [= _ <- <- _]|done].
    + destruct (negb _); [|done]. intros [= _ <- <- _]. split; [|done]. rewrite Close_eq, Hc. by eexists.
    + split; [|done]. destruct Hc as (tr & Hcl & Htr). rewrite Close_eq, Hcl. by exists tr.
  - intros [= _ <- <- _]. split; [|done]. rewrite Close_eq. cbn. by eexists.
Qed.

(** C37: what serving a connection returns, for any handler: nil only if the
    handler was called and returned nil; an error either is the error of the
    handler, returned unchanged, in which case nothing is done after the
    handler (the transport is left as it is, open or closed), or it comes from
    before the handler is called, in which case the transport has been closed
    as the last action and the users are untouched. *)
Theorem serve_outcome (handler : Handler T) ctx now nowCache nowHello remote s ts gs o s' ts' gs'
    (Hserve : serveTransport handler ctx now nowCache nowHello remote (s, ts, gs) = (o, (s', ts', gs'))) :
  match o with
  | Ret _ => exists d st, handleTransport ctx now nowCache nowHello remote (s, ts, gs) = (Ret d, st) /\
      handler d st = (Ret tt, (s', ts', gs'))
  | Fail e =>
      (exists d st, handleTransport ctx now nowCache nowHello remote (s, ts, gs) = (Ret d, st) /\
         handler d st = (Fail e, (s', ts', gs'))) \/
      ((forall d st, handleTransport ctx now nowCache nowHello remote (s, ts, gs) <> (Ret d, st)) /\
       (exists tr, ts' = (CloseTransport tr).2) /\ sv_users s' = sv_users s /\ sv_lookup s' = sv_lookup s)
  | Panic => True
  end.
Proof.
  unfold serveTransport in Hserve.
  destruct (handleTransport _ _ _ _ _ _) as [[d|e|] st] eqn:Hh.
  - destruct o as [[]|e|]; [by exists d, st|left; by exists d, st|done].
  - injection Hserve as <- ->. right. split; [done|]. by eapply handleTransport_closes.
  - by injection Hserve as <- ->.
Qed.
End EndToEnd.

(** ** Witnesses *)

Module ServerExamples.
Definition returns {A S} (r : outcome A * S) : bool := match r.1 with Ret _ => true | _ => false end.

Lemma returns_Ret {A S} (r : outcome A * S) : returns r = true -> exists a s, r = (Ret a, s).
Proof. destruct r as [[a|e|] s]; [by exists a, s|done..]. Qed.

Definition uuid_str : bytes := str "12345678-1234-5678-ABCD-1234567890ab".
Definition svc_new : Service := mkService [] (Some []) (Some (NewReplayCache ReplayWindow)).
Definition svc1 : Service := (AddUser uuid_str svc_new).2.

Lemma svc1_reach : service_reach svc1.
Proof. eapply sr_step; [by apply (sr_new svc_new)|constructor]. Qed.

Import HandshakeExamples.
(** A connection on which [b] is on its way. *)
Definition arriving_on (b : bytes) : LengthFramer :=
  NewLengthFramer (mkConn (mkReader [b] EOF) [] [] None false None None).
Definition wrote (f : LengthFramer) : bytes := c_out (lf_c f).

Definition tc0 : LengthFramer := arriving_on [].
Definition wr0 := WriteClientHello 1000 SendMessage u0 CommandTCP addr0 (arm_deadline (Some 7) tc0, 5 : Toy.gen).
Definition svc0 : Service := mkService [u0] (Some [u0]) (Some cache0).
(** A server connection with the client's hello. *)
Definition ts0 : LengthFramer := arriving_on (wrote wr0.2.1).

Lemma rx_arriving f : rx (arriving_on (wrote f)) = tx f.
Proof. cbn. by rewrite app_nil_r. Qed.

Lemma arriving_up b : up (arriving_on b).
Proof. cbn. split_and!; [done|constructor|]. by exists []. Qed.

(** The session of a client that has the server's answer, and then [extra], on
    its way. *)
Section Session.
Context (cmd : Command) (extra : bytes).
Definition hello : bytes :=
  hd [] (tx (WriteClientHello 1000 SendMessage u0 cmd addr0 (tc0, 5 : Toy.gen)).2.1).
Definition answer : bytes :=
  match (AcceptClientHelloWithReplay 1010 1010 1011 hello (MakeUUIDLookup [u0]) (Some cache0, 9 : Toy.gen)).1 with
  | Ret (out, _) => out
  | _ => []
  end.
Definition tcA : LengthFramer := arriving_on (frame_msg answer ++ extra).
Definition wrA := WriteClientHello 1000 SendMessage u0 cmd addr0 (arm_deadline (Some 7) tcA, 5 : Toy.gen).
Definition stA : ClientHandshakeState X25519Priv MLKEMPriv :=
  match wrA.1 with Ret st => st | _ => st0 end.
Lemma wrA_ret :
  returns wrA = true ->
  WriteClientHello 1000 SendMessage u0 cmd addr0 (arm_deadline (Some 7) tcA, 5 : Toy.gen) =
    (Ret stA, (wrA.2.1, wrA.2.2)).
Proof. fold wrA. unfold stA. by destruct wrA as [[st|e|] [tr g]]. Qed.

Definition streamA : SecureStream (@AEAD _ Toy.crypto) LengthFramer :=
  match (client_handshake (Some 7) 1000 1012 (mkClient u0) cmd addr0 (tcA, 5 : Toy.gen)).1 with
  | Ret stream => stream
  | _ => StreamExamples.a0
  end.

Lemma rx_tcA : len answer <= MaxFrameSize -> rx tcA = answer :: msgs_of extra.
Proof.
  intros H. change (rx tcA) with (msgs_of ((frame_msg answer ++ extra) ++ [])).
  by rewrite app_nil_r, msgs_of_frame.
Qed.

Lemma answer_eq m1 m2 res c' :
  m1 = hello ->
  AcceptClientHelloWithReplay 1010 1010 1011 m1 (MakeUUIDLookup [u0]) (Some cache0, 9 : Toy.gen) =
    (Ret (m2, res), c') ->
  m2 = answer.
Proof. intros -> H. unfold answer. by rewrite H. Qed.

Lemma streamA_eq stream st' :
  client_handshake (Some 7) 1000 1012 (mkClient u0) cmd addr0 (tcA, 5 : Toy.gen) = (Ret stream, st') ->
  streamA = stream.
Proof. intros H. unfold streamA. by rewrite H. Qed.
End Session.

(** What the client of a TCP session writes. *)
Definition data0 : bytes := str "GET / HTTP/1.1".
Definition wA (extra : bytes) :=
  (StreamConn_Write 1 data0 (new_streamConn (streamA CommandTCP extra) true, (wrA CommandTCP extra).2.2)).2.1.
Definition tsA (extra : bytes) : LengthFramer := arriving_on (wrote (ss_tr (sc_stream (wA extra)))).
(** The first datagram of a UDP session. *)
Definition pcA (extra : bytes) := newClientPacketConn (streamA CommandUDP extra) true addr0 (wrA CommandUDP extra).2.2.
Definition pcB (extra : bytes) := match (pcA extra).1 with
  | Ret p => (WriteToAddress 1 data0 PacketExamples.target0 (p, (pcA extra).2)).2.1
  | _ => PacketExamples.pc0 false
  end.
Definition tsB (extra : bytes) : LengthFramer := arriving_on (wrote (ss_tr (pc_stream (pcB extra)))).

Lemma svc0_ok : service_ok svc0.
Proof. split; [done|apply NoDup_singleton]. Qed.
End ServerExamples.
Import ServerExamples.

Lemma service_users_exact_witness :
  exists u, ParseUUID uuid_str = Ret u /\ NoDup (Users svc1) /\
    forall body tag, MakeUUIDLookup (C := Toy.crypto) (Users (RemoveUser uuid_str svc1).2) body tag <> Ret u.
Proof.
  destruct (service_users_exact (C := Toy.crypto) svc1 uuid_str svc1_reach) as (_ & Hn & _ & Hr).
  destruct (RemoveUser uuid_str svc1) as [b s']. destruct Hr as (_ & _ & _ & Hlook).
  destruct (ParseUUID uuid_str) as [u|e|] eqn:Hu; [|vm_compute in Hu; discriminate Hu..].
  exists u. split; [reflexivity|]. split; [exact Hn|]. intros body tag. exact (Hlook u body tag eq_refl).
Defined.

(** A client that says nothing; and one whose handler reports an error and leaves
    its connection open. *)
Lemma serve_outcome_witness :
  (exists tr, (serveTransport (fun _ st => (Ret tt, st)) (Some 8) 1010 1010 1011 None (svc0, tc0, 9 : Toy.gen)).2.1.2 =
     (CloseTransport tr).2) /\
  exists st, serveTransport (fun _ st => (Fail EOF, st)) (Some 8) 1010 1010 1011 None (svc0, tsA [], 9 : Toy.gen) =
    (Fail EOF, st) /\ c_closed (lf_c st.1.2) = false.
Proof.
  split.
  - destruct (serveTransport (fun _ st => (Ret tt, st)) (Some 8) 1010 1010 1011 None (svc0, tc0, 9 : Toy.gen))
      as [o [[s' ts'] gs']] eqn:Hh.
    destruct o as [d|e|].
    + vm_compute in Hh. discriminate Hh.
    + destruct (serve_outcome (fun _ st => (Ret tt, st)) (Some 8) 1010 1010 1011 None svc0 tc0 (9 : Toy.gen)
        (Fail e) s' ts' gs' Hh)
        as [(d & st & _ & H)|(_ & H & _)]; [discriminate H|exact H].
    + vm_compute in Hh. discriminate Hh.
  - eexists. split; [vm_compute; reflexivity|reflexivity].
Defined.
