(* ===== verification/SecureSession.v ===== *)
(** * Handshake and channel together, under an active attacker
    (src/handshake.go, src/kdf.go, src/securestream.go)

    The attacker of Agreement.v runs the network of the handshake, and then the
    network of the streams built from its result.  What he can do to the
    streams is bounded by what he knows ([attacked_step]): without the key of a
    direction he makes no ciphertexts under it, but he may replay, reorder,
    drop or reflect those that the two ends have made under that key; with the
    key he can do anything.  That he knows neither key, and that the two
    directions do not share one, is derived from the derivation of the keys,
    under the assumptions [ideal_hkdf] about HKDF. *)

From S2P Require Import Prelude Address Crypto Io Kdf Padding Frame Replay Handshake HandshakeProofs.
From S2P Require Import Agreement Transport SecureStream SecureStreamProofs Channel StreamConn PacketConn Client Server.

Section SecureSession.
Context {G : Type} {C : Crypto G} {E : Entropy G} `{!CryptoLaws C}.
Context {T : Type} {MT : MessageTransport T}.

(** The sending contexts of the two ends: the client is on the left. *)
Definition contexts (keys : SessionKeys) : outcome (side -> FrameAEAD AEAD) :=
  c2s ← NewFrameAEAD (C2SKey keys) (C2SNonce keys);
  s2c ← NewFrameAEAD (S2CKey keys) (S2CNonce keys);
  Ret (fun d => match d with Left => c2s | Right => s2c end).

Lemma contexts_ok keys :
  exists base, contexts keys = Ret base /\ (forall d, fa_counter (base d) = 0) /\
    (forall tr : T, NewClientSecureStream tr keys = Ret (new_stream tr (base Left) (base Right))) /\
    (forall tr : T, NewServerSecureStream tr keys = Ret (new_stream tr (base Right) (base Left))).
Proof.
  destruct (NewFrameAEAD_ok (C2SKey keys) (C2SNonce keys)) as (f1 & H1 & Hc1).
  destruct (NewFrameAEAD_ok (S2CKey keys) (S2CNonce keys)) as (f2 & H2 & Hc2).
  unfold contexts, NewClientSecureStream, NewServerSecureStream. rewrite H1, H2.
  eexists. split; [reflexivity|]. split; [by intros []|done].
Qed.

(** The key under which an end sends. *)
Definition key_of (keys : SessionKeys) (d : side) : bytes :=
  match d with Left => arr_list (C2SKey keys) | Right => arr_list (S2CKey keys) end.

(** The encryptions that the two ends have made under the key [k]. *)
Definition made_under (base : side -> FrameAEAD AEAD) (keys : SessionKeys) (k : bytes) (s : session T)
  : list sealing :=
  (if bool_decide (key_of keys Left = k) then sealings (base Left) (p_sent (s_left s)) else []) ++
  (if bool_decide (key_of keys Right = k) then sealings (base Right) (p_sent (s_right s)) else []).

(** What an attacker who knows [knows] can do: an end receives a message; if he
    does not know the key under which the end receives, a valid frame in it
    is one that an end has made under this key.  Everything else is as in
    Channel.v. *)
Inductive attacked_step (knows : bytes -> Prop) (base : side -> FrameAEAD AEAD) (keys : SessionKeys)
  : session T -> session T -> Prop :=
  | at_receive d s :
      (~ knows (key_of keys (other d)) -> forall wire tr,
         ReadMessage (ss_tr (p_stream (at_side d s))) = (Ret wire, tr) ->
         unforged (base (other d)) (made_under base keys (key_of keys (other d)) s) wire) ->
      attacked_step knows base keys s (put d (peer_recv (at_side d s)) (s_gen s) s)
  | at_step s s' : net_step base s s' -> attacked_step knows base keys s s'.

(** What is assumed of HKDF and of the attacker's knowledge: who knows a derived
    key knows the secret it comes from; who knows a secret knows its parts; the
    two labels of the session keys do not give the same key. *)
Record ideal_hkdf (knows : bytes -> Prop) : Prop := {
  ih_secret : forall ikm salt info (k : arr AEADKeyLen),
    hkdf_Expand (hkdf_Extract ikm salt) info AEADKeyLen = Some k -> knows (arr_list k) -> knows ikm;
  ih_parts : forall a b, knows (a ++ b) -> knows a /\ knows b;
  ih_labels : forall prk i j (k : arr AEADKeyLen), i ∈ [infoC2SKey; infoS2CKey] -> j ∈ [infoC2SKey; infoS2CKey] ->
    hkdf_Expand prk i AEADKeyLen = Some k -> hkdf_Expand prk j AEADKeyLen = Some k -> i = j
}.

(** The session keys are secret as soon as one of the two shared secrets is,
    and there is one for each direction. *)
Lemma session_keys_secret knows x m cn sn keys :
  ideal_hkdf knows -> DeriveSessionKeys x m cn sn = Ret keys -> ~ (knows (arr_list x) /\ knows m) ->
  (forall d, ~ knows (key_of keys d)) /\ key_of keys Left <> key_of keys Right.
Proof.
  intros [Hsec Hparts Hlab] [H1 H2]%DeriveSessionKeys_Ret Hor. split.
  - assert (Hikm : ~ knows (arr_list x ++ m)) by (intros [? ?]%Hparts; by apply Hor).
    intros [] Hk; [exact (Hikm (Hsec _ _ _ _ H1 Hk))|exact (Hikm (Hsec _ _ _ _ H2 Hk))].
  - intros Heq%arr_list_inj. rewrite <-Heq in H2.
    assert (infoC2SKey = infoS2CKey) as He by (eapply Hlab; [..|exact H1|exact H2]; set_solver). done.
Qed.

(** Then the attacker is the one of Channel.v. *)
Lemma attacked_net knows base keys s s' :
  (forall d, ~ knows (key_of keys d)) -> key_of keys Left <> key_of keys Right ->
  attacked_step knows base keys s s' -> net_step base s s'.
Proof.
  intros Hk Hne [d s1 Hun|s1 s2 Hst]; [|done]. apply ns_recv. intros wire tr Hr.
  specialize (Hun (Hk _) wire tr Hr). unfold made_under in Hun.
  destruct d; cbn [other at_side] in *.
  - by rewrite (bool_decide_false (key_of keys Left = _)), bool_decide_true in Hun by done.
  - rewrite (bool_decide_false (key_of keys Right = _)), bool_decide_true, app_nil_r in Hun by congruence. exact Hun.
Qed.

(** The two secrets that the server has shared with the sender of [ch]: the
    X25519 secret of a key of its own and of the key in the hello, and the one
    it has encapsulated to the ML-KEM key in the hello. *)
Definition exchanged (ch : ClientHello) (classical pq : bytes) : Prop :=
  exists (g : G) xs g1 cp mp ct g2, X25519_GenerateKey g = (Some xs, g1) /\
    X25519_NewPublicKey (arr_list (ch_ClassicalPub ch)) = Some cp /\ X25519_ECDH xs cp = Some classical /\
    MLKEM_NewEncapsulationKey (arr_list (ch_PQPub ch)) = Some mp /\ MLKEM_Encapsulate mp g1 = (pq, ct, g2).

Lemma answer_exchanged now uuid ch (g : G) out res g' :
  answerClientHello now uuid ch g = (Ret (out, res), g') ->
  exists classical pq, exchanged ch classical pq /\
    DeriveSessionKeys (to_arr X25519PubLen classical) pq (ch_Nonce ch) (ch_Nonce ch) = Ret (hr_Keys res).
Proof.
  unfold answerClientHello, lift. destruct (X25519_GenerateKey g) as [[xs|] g1] eqn:Hg; [|done].
  destruct (X25519_NewPublicKey _) as [cp|] eqn:Hcp; [|done]. cbn [or_fail sbind].
  destruct (X25519_ECDH _ _) as [ss|] eqn:Hss; [|done]. cbn [or_fail sbind].
  destruct (MLKEM_NewEncapsulationKey _) as [mp|] eqn:Hmp; [|done]. cbn [or_fail sbind].
  destruct (MLKEM_Encapsulate mp g1) as [[pq ct] g2] eqn:Hen. destruct (negb _); [done|].
  rewrite EncodeServerHello_eq. cbn [sbind sh_NonceEcho].
  destruct (DeriveSessionKeys _ _ _ _) as [keys|e|] eqn:Hk; [|done..]. cbn [sbind]. intros [= _ <- _].
  exists ss, pq. split; [|exact Hk]. by exists g, xs, g1, cp, mp, ct, g2.
Qed.

(** C2: a completed handshake gives a secure channel to the server: if a client
    whose UUID the attacker does not know completes its handshake, then the
    server has answered exactly this client's hello, the two have derived the
    keys of their streams from an X25519 secret and an ML-KEM secret of this
    exchange, and the stream of the client and the stream of the server are
    the two ends of one session.  If the attacker does not know both of
    these secrets (one of them is enough), then, assuming an ideal HKDF and
    that he forges no ciphertext under a key he does not know, whatever he
    does to the network (replaying, reordering, dropping, and reflecting the
    messages of an end to itself included), what either end receives is,
    frame by frame and byte by byte, a prefix of what the other end has sent
    (as long as fewer than 2^64 frames are sent). *)
Theorem authenticated_channel (secret : arr UUIDLen -> Prop) (knows : bytes -> Prop) users cache (g : G)
  (w : game) i c res
    (Hreach : rtc (game_step secret) (new_game users cache g) w)
    (Hclient : gm_clients w !! i = Some c) (Hdone : cr_result c = Some res)
    (Hsecret : secret (st_uuid (cr_state c))) (Hfresh : fresh_nonce w i) (Hhkdf : ideal_hkdf knows) :
  exists r base classical pq, r ∈ gm_servers w /\ hr_ClientHello (sr_result r) = Some (own_hello c) /\
    exchanged (own_hello c) classical pq /\
    DeriveSessionKeys (to_arr X25519PubLen classical) pq (ch_Nonce (own_hello c)) (ch_Nonce (own_hello c)) =
      Ret (hr_Keys res) /\
    contexts (hr_Keys res) = Ret base /\
    forall (trc trs : T) g1,
      let s0 := open_session base trc trs g1 in
      NewClientSecureStream trc (hr_Keys res) = Ret (p_stream (at_side Left s0)) /\
      NewServerSecureStream trs (hr_Keys (sr_result r)) = Ret (p_stream (at_side Right s0)) /\
      (~ (knows classical /\ knows pq) ->
       forall s d, rtc (attacked_step knows base (hr_Keys res)) s0 s ->
         Z.of_nat (length (p_sent (at_side d s))) < 2 ^ 64 ->
         let got := p_got (at_side (other d) s) in
         Forall2 decodes (take (length got) (contents (at_side d s))) got /\
         stream_got got `prefix_of` stream_sent (contents (at_side d s))).
Proof.
  apply game_inv_reach in Hreach.
  destruct (client_agrees secret w i c res Hreach Hclient Hdone Hsecret Hfresh) as (r & Hr & Hch & Hk).
  destruct (contexts_ok (hr_Keys res)) as (base & Hb & Hz & Hc & Hs).
  pose proof Hreach as [_ Hsv]. rewrite Forall_forall in Hsv.
  destruct (Hsv r Hr) as (now & g0 & g0' & ch & Ha & Hch' & _). assert (ch = own_hello c) as -> by congruence.
  apply answer_exchanged in Ha as (classical & pq & Hex & Hkeys). rewrite Hk in Hkeys.
  exists r, base, classical, pq. split_and!; [done..|].
  intros trc trs g1. cbn zeta. rewrite Hk. split; [apply Hc|]. split; [apply Hs|]. intros Hnot s d Hrun Hn.
  assert (Hlen : arr_list (to_arr X25519PubLen classical) = classical).
  { destruct Hex as (? & xs & ? & cp & ? & ? & ? & _ & _ & Hss & _). apply to_arr_list. by eapply X25519_ECDH_length. }
  destruct (session_keys_secret knows _ _ _ _ _ Hhkdf Hkeys) as [Hkn Hne]; [by rewrite Hlen|].
  assert (Hnet : rtc (net_step base) (open_session base trc trs g1) s).
  { induction Hrun as [|x y z Hst _ IH]; [constructor|]. eapply rtc_l; [by eapply attacked_net|by apply IH]. }
  destruct (channel_refines base Hz trc trs g1 s d Hnet Hn) as (H1 & H2 & _). done.
Qed.
End SecureSession.

(** ** Witness *)

Module SecureSessionExamples.
(** An attacker who knows every string of at most 12 bytes, nonces and counters
    among them. *)
Definition short (b : bytes) : Prop := (length b <= 12)%nat.

(** The checksum of the reference instance tells the two labels apart behind
    any prefix: without the reduction it is affine in its start value. *)
Definition mix (acc : Z) (b : byte) : Z := (acc * 31 + byte_val b + 1) mod 2 ^ 32.
Definition raw (acc : Z) (b : byte) : Z := acc * 31 + byte_val b + 1.

Lemma raw_affine l a : fold_left raw l a = a * 31 ^ len l + fold_left raw l 0.
Proof.
  revert a. induction l as [|b l IH]; intros a; [cbn; lia|]. cbn [fold_left length].
  rewrite IH, (IH (raw 0 b)), Nat2Z.inj_succ, Z.pow_succ_r by lia. unfold raw. lia.
Qed.

Lemma mix_raw l a : fold_left mix l a mod 2 ^ 32 = fold_left raw l a mod 2 ^ 32.
Proof.
  revert a. induction l as [|b l IH]; intros a; [done|]. cbn [fold_left].
  rewrite IH, (raw_affine l (mix a b)), (raw_affine l (raw a b)). unfold mix, raw.
  rewrite <-Z.add_mod_idemp_l, Z.mul_mod_idemp_l, Z.add_mod_idemp_l by lia. done.
Qed.

Lemma labels_differ a : fold_left mix infoC2SKey a <> fold_left mix infoS2CKey a.
Proof.
  intros Heq. apply (f_equal (fun z => z mod 2 ^ 32)) in Heq. rewrite !mix_raw, (raw_affine infoC2SKey),
    (raw_affine infoS2CKey) in Heq. change (len infoS2CKey) with (len infoC2SKey) in Heq.
  apply (f_equal (fun z => (z - a * 31 ^ len infoC2SKey) mod 2 ^ 32)) in Heq.
  rewrite !Zminus_mod_idemp_l in Heq. rewrite !(Z.add_comm (a * _)), !Z.add_simpl_r in Heq.
  vm_compute in Heq. discriminate Heq.
Qed.

Lemma checksum_range l : 0 <= fold_left mix l 5 < 2 ^ 32.
Proof.
  induction l as [|b l _] using rev_ind; [done|]. rewrite fold_left_app. cbn. apply Z.mod_pos_bound. lia.
Qed.

Lemma digest_labels prk : Toy.digest 32 (prk ++ infoC2SKey) <> Toy.digest 32 (prk ++ infoS2CKey).
Proof.
  intros Heq. apply (f_equal (fun k => take 4 (arr_list k))) in Heq. unfold Toy.digest, to_arr in Heq.
  cbn [arr_list] in Heq. rewrite !take_resize_le in Heq by lia.
    rewrite !resize_all_alt in Heq by (by rewrite length_be_put).
  unfold Toy.checksum in Heq. fold mix in Heq. rewrite !fold_left_app in Heq.
  apply (be_put_inj 4) in Heq; [by apply labels_differ in Heq|..];
    rewrite <-fold_left_app; apply checksum_range.
Qed.

Lemma short_secret ch classical pq : exchanged (G := Toy.gen) ch classical pq -> ~ short classical.
Proof.
  intros (? & xs & ? & cp & ? & ? & ? & _ & _ & Hss & _) Hs. apply X25519_ECDH_length in Hss. unfold short in Hs. lia.
Qed.

Lemma toy_ideal : ideal_hkdf (C := Toy.crypto) short.
Proof.
  split; unfold short.
  - intros ikm salt info k _. rewrite arr_length. lia.
  - intros x y. rewrite length_app. lia.
  - intros prk i j k Hi Hj [= Hk] [= Hk']. rewrite <-Hk' in Hk. pose proof (digest_labels prk) as Hne.
    rewrite !elem_of_cons in Hi, Hj.
    destruct Hi as [->|[->|Hi]], Hj as [->|[->|Hj]]; try done; try (by apply not_elem_of_nil in Hi);
      try (by apply not_elem_of_nil in Hj).
Qed.
End SecureSessionExamples.

Import SecureSessionExamples.

(** The same client as in Agreement.v; its server receives a prefix of what it
    sends. *)
Lemma authenticated_channel_witness :
  exists (w : @game _ Toy.crypto) c res r base, gm_clients w !! 0%nat = Some c /\ cr_result c = Some res /\
    r ∈ gm_servers w /\
    contexts (hr_Keys res) = Ret base /\
    forall s, rtc (attacked_step short base (hr_Keys res))
      (open_session base ([] : ChannelExamples.mailbox) [] (5 : Toy.gen)) s ->
      Z.of_nat (length (p_sent (at_side Left s))) < 2 ^ 64 ->
      stream_got (p_got (at_side Right s)) `prefix_of` stream_sent (contents (at_side Left s)).
Proof.
  destruct (completes_game HandshakeExamples.u0 CommandTCP HandshakeExamples.addr0 (Some HandshakeExamples.cache0)
    (5 : Toy.gen)
    1000 1010 1011) as (w & c & res & Hreach & Hc & Hres & Hu & Hfresh).
  - split; vm_compute; split; congruence.
  - vm_compute. reflexivity.
  - destruct (authenticated_channel (T := ChannelExamples.mailbox) _ short _ _ _ w 0 c res Hreach Hc Hres Hu Hfresh toy_ideal)
      as (r & base & classical & pq & Hr & _ & Hex & _ & Hb & H).
    exists w, c, res, r, base. split; [exact Hc|]. split; [exact Hres|]. split; [exact Hr|]. split; [exact Hb|].
    intros s Hs Hn. destruct (H [] [] (5 : Toy.gen)) as (_ & _ & Hall).
    apply (Hall (fun Hk => short_secret _ _ _ Hex (proj1 Hk)) s Left Hs Hn).
Defined.
