(* ===== verification/Typing.v ===== *)
(** * What the receiving side returns (src/securestream.go, src/packetconn.go, src/server.go)

    The shapes of the events [Recv] can return, whatever bytes the transport
    delivers; what they give the callers of [ReadFrom] and the handler of a
    server; and what is left of a packet connection after [Close]. *)

From S2P Require Import Prelude Address Crypto Io Kdf Padding Frame Transport SecureStream.
From S2P Require Import Replay Handshake HandshakeProofs SecureStreamProofs Cover StreamConn PacketConn Client Server.
Import Netip.

(** ** Shapes of events *)

(** A destination that can be dialled: encodable, with 16-bit ports. *)
Definition dialable (a : Address) : Prop := Address_wf a /\ encodable a = true.

(** UDP frames carry a session, and those with a target a dialable address in
    its wire form; the other frames carry neither. *)
Inductive event_shape : Event -> Prop :=
  | shape_target t gid a payload :
      t ∈ [FrameUDPNew; FrameUDPData; FrameUDPProbeResp] -> dialable a -> strip a = a ->
      event_shape (mkEvent t gid a true payload)
  | shape_session t gid payload :
      t ∈ [FrameUDPNew; FrameUDPData; FrameUDPProbeResp; FrameUDPEnd; FrameUDPProbeReq] ->
      event_shape (mkEvent t gid zero_Address false payload)
  | shape_plain t payload :
      t ∈ [FrameTCPData; FramePing; FramePong; FramePaddingOnly; FrameRekeyReq; FrameRekeyResp] ->
      event_shape (mkEvent t (zero_arr 8) zero_Address false payload).

(** The largest payload of a frame that fits. *)
Definition MaxPayload : Z := MaxFrameSize - frame_len [] [] 0.

Lemma parseUDPMeta_shape meta gid a has :
  parseUDPMeta meta = Ret (gid, a, has) ->
  if has then dialable a /\ strip a = a else a = zero_Address.
Proof.
  unfold parseUDPMeta. destruct (Z.ltb_spec (len meta) 8); [done|]. rewrite !slice_ok by lia.
  cbn [mbind outcome_bind]. destruct (_ =? 8); [intros [= _ Ha Hh]; by rewrite <-Hh, <-Ha|].
  destruct (DecodeAddress _) as [[a' n]|e|] eqn:Ha; cbn [mbind outcome_bind]; [|done..].
  intros [= _ <- Hh]. rewrite <-Hh. apply DecodeAddress_sound in Ha as (Hwf & He & Hs & _). split; [by split|done].
Qed.

Lemma event_of_shape df ev :
  event_of df = Ret ev -> event_shape ev /\ ev_Type ev = df_Type df /\ ev_Payload ev = df_Payload df.
Proof.
  unfold event_of. case_bool_decide as Hu; [|case_bool_decide as Hg; [|case_bool_decide as Hp; [|done]]].
  - destruct (parseUDPMeta _) as [[[gid a] has]|e|] eqn:Hm; cbn; [|done..]. intros [= <-].
    apply parseUDPMeta_shape in Hm. split; [|done]. destruct has; [|subst a].
    + apply shape_target; [set_solver|apply Hm..].
    + apply shape_session. set_solver.
  - destruct (Z.ltb_spec (len (df_Meta df)) 8); [done|]. rewrite slice_ok by lia. cbn. intros [= <-].
    split; [|done]. apply shape_session. set_solver.
  - intros [= <-]. split; [|done]. apply shape_plain. set_solver.
Qed.

Section Shapes.
Context {G : Type} {C : Crypto G} {E : Entropy G} `{!AEADLaws C}.
Context {T : Type} {MT : MessageTransport T}.

Lemma Recv_shape (s s' : SecureStream AEAD T) ev :
  Recv s = (Ret ev, s') -> event_shape ev /\ Valid (ev_Type ev) = true /\ len (ev_Payload ev) <= MaxPayload.
Proof.
  unfold Recv, recv_body. destruct (ss_closed s); [done|]. destruct (ReadMessage _) as [[wire|e|] tr]; [|done..].
  cbn [sbind ss_recv set_tr]. pose proof (DecodeFrame_inv (bytes_NewReader wire) (ss_recv s)) as Hd.
  destruct (DecodeFrame _ _) as [[[df f]|e|] r]; cbn [fst wrap_err sbind]; [|done..].
  destruct Hd as [(pad & _ & _ & (Hv & _ & _ & Hl)%encode_error_None) _].
  destruct (event_of df) as [ev'|e|] eqn:He; [|done..]. intros [= <- _].
  apply event_of_shape in He as (Hs & -> & ->). split; [done|]. split; [done|].
  revert Hl. unfold MaxPayload, frame_len. cbn [length]. lia.
Qed.

(** C15: events are well typed: whatever bytes the transport delivers, an event
    that [Recv] returns has one of the eleven frame types and the shape of its
    type: a session only for the UDP frames, an address only for those that
    carry a target, and then one that can be encoded and is already in its
    wire form (no zone, a 16-bit port, a domain of at most 253 bytes); its
    payload is bounded by the frame size. *)
Theorem Recv_event_typed (s s' : SecureStream AEAD T) ev (Hrecv : Recv s = (Ret ev, s')) :
  event_shape ev /\ Valid (ev_Type ev) = true /\ len (ev_Payload ev) <= MaxPayload.
Proof. by eapply Recv_shape. Qed.
End Shapes.

(** ** Sources of datagrams *)

(** Converting to a [net.Addr] and back keeps a destination dialable. *)
Lemma dialable_netaddr a :
  dialable a -> exists na, ewpToNetAddr a = Some na /\ addrToEWP na = Ret (canonical a) /\ dialable (canonical a).
Proof.
  intros [Hwf He]. destruct (canonical_roundtrip a Hwf He) as (na & Hna & Hback).
  exists na. split; [done|]. split; [done|]. destruct Hwf as [Hp Hap].
  unfold canonical. unfold encodable in He. destruct (IsDomain a) eqn:Ed.
  - split; [by split|]. unfold encodable. unfold IsDomain in *. cbn [Domain domain_Address] in *. by rewrite Ed.
  - unfold dialable, Address_wf, encodable. destruct (Address.Addr a) as [[|l|l z] port]; [done|..];
      cbn [ap_addr ap_port] in *; rewrite IsDomain_ip.
    + by cbn.
    + split; [by cbn|]. cbn. by case_match.
Qed.

Lemma dialable_strip a : dialable a -> dialable (strip a).
Proof.
  intros [[Hp Hap] He]. unfold strip, dialable, Address_wf, encodable in *. destruct (IsDomain a) eqn:Ed.
  - unfold IsDomain in *. cbn [Domain domain_Address Port Address.Addr] in *. by rewrite Ed.
  - destruct (Address.Addr a) as [[|l|l z] port]; [done|..]; cbn [ap_addr ap_port] in *; by rewrite IsDomain_ip.
Qed.

Section Sources.
Context {G : Type} {C : Crypto G} {E : Entropy G} `{!AEADLaws C}.
Context {T : Type} {MT : MessageTransport T} {U : Underlying T}.

Abbreviation PConn := (packetConn AEAD T).

(** The addresses of a connection are dialable. *)
Definition addressed (p : PConn) : Prop :=
  dialable (pc_defaultDst p) /\ (pc_pendingFirst p <> None -> dialable (pc_pendingFirstSrc p)).

(** A source a caller can reply to with [WriteTo]. *)
Definition repliable (src : option NetAddr) : Prop :=
  exists na a, src = Some na /\ addrToEWP na = Ret a /\ dialable a.

Lemma dialable_repliable a : dialable a -> repliable (ewpToNetAddr a).
Proof. intros (na & ? & ? & ?)%dialable_netaddr. by exists na, (canonical a). Qed.

Lemma judge_deliver (p : PConn) ev payload src :
  event_shape ev -> dialable (pc_defaultDst p) -> judge p ev = Deliver payload src -> dialable src /\ payload =
    ev_Payload ev.
Proof.
  unfold judge. intros Hs Hd. repeat (case_bool_decide; cbn [negb]); try done.
  intros [= <- <-]. split; [|done]. by destruct Hs.
Qed.

Lemma read_loop_from_source fuel n (p : PConn) :
  0 <= n -> addressed p -> pc_pendingFirst p = None ->
  let '(o, p') := read_loop_from fuel n p in
  addressed p' /\ pc_pendingFirst p' = None /\ pc_globalID p' = pc_globalID p /\
  match o with Some (Ret (b, src)) => len b <= Z.min n MaxPayload /\ repliable src | _ => True end.
Proof.
  intros Hn. revert p. induction fuel as [|fuel IH]; intros p Ha Hnone; cbn [read_loop_from]; [done|].
  destruct (Recv (pc_stream p)) as [[ev|e|] s] eqn:Hr; [|done..].
  apply Recv_shape in Hr as (Hs & _ & Hl). set (p1 := pc_with s (pc_opened p) p).
  assert (Ha1 : addressed p1) by exact Ha.
  destruct (judge p1 ev) as [payload src| | |] eqn:Hj; try done; [|by apply (IH p1)].
  apply judge_deliver in Hj as [Hsrc ->]; [|done|apply Ha1].
  split_and!; try done; [|by apply dialable_repliable].
  rewrite length_sub; lia.
Qed.

(** [ReadFrom] returns well-typed datagrams, whatever the peer and the
    network send: the datagram fits the caller's buffer, its source is an
    address (never nil) that [WriteTo] accepts as the target of a reply, and
    the connection keeps these properties and its session. *)
Theorem ReadFrom_source fuel n (p p' : PConn) b src
    (Hn : 0 <= n) (Hp : addressed p) (Hread : ReadFrom fuel n p = (Some (Ret (b, src)), p')) :
  len b <= n /\ repliable src /\ addressed p' /\ pc_globalID p' = pc_globalID p.
Proof.
  revert Hread. unfold ReadFrom. destruct (pc_pendingFirst p) as [first|] eqn:Hf.
  - intros [= <- <- <-]. split; [rewrite length_sub; lia|].
    split; [apply dialable_repliable, Hp; by rewrite Hf|]. split; [|done]. by split; [apply Hp|].
  - intros Hread. pose proof (read_loop_from_source fuel n p Hn Hp Hf) as H. rewrite Hread in H.
    destruct H as (H1 & _ & H2 & H3 & H4). split; [lia|done].
Qed.
End Sources.

(** ** A closed packet connection *)

Section Closed.
Context {G : Type} {C : Crypto G} {E : Entropy G} `{!AEADLaws C}.
Context {T : Type} {MT : MessageTransport T} {U : Underlying T}.

Abbreviation PConn := (packetConn AEAD T).

Lemma send_end_consistent nowDl nowNs gid (s : SecureStream AEAD T) (g : G) :
  consistent s -> consistent (send_end nowDl nowNs gid (s, g)).1.
Proof.
  intros Hs. unfold send_end. destruct (UnderlyingSetWriteDeadline _ _) as [e1 tr1]. cbn [snd].
  set (s1 := set_tr tr1 s). assert (Hs1 : consistent s1) by (destruct Hs; by split).
  pose proof (sendFrame_keeps nowNs FrameUDPEnd (arr_list gid) [] (-1) s1 g Hs1) as [_ Hk].
  unfold SendUDPEnd. destruct (sendFrame _ _ _ _ _ _) as [o [s2 g2]]. cbn in *.
  destruct (UnderlyingSetWriteDeadline _ _) as [e2 tr2]. destruct Hk. by split.
Qed.

Lemma close_both_closed und (s : SecureStream AEAD T) : consistent s -> ss_closed (close_both und s).2 = true.
Proof.
  intros Hs. unfold close_both. destruct (Close_closed s Hs) as [Hc _]. destruct (Close s) as [err s'].
  destruct und; [|done]. by destruct (CloseUnderlyingConn _).
Qed.

(** [Close], field by field. *)
Lemma PacketConn_Close_fields nowDl nowNs (p : PConn) (g : G) :
  consistent (pc_stream p) -> pc_closeOnce p = false ->
  let '(err, (p', _)) := PacketConn_Close nowDl nowNs (p, g) in
  ss_closed (pc_stream p') = true /\ pc_closeOnce p' = true /\ pc_closeErr p' = err /\
  pc_pendingFirst p' = pc_pendingFirst p /\ pc_pendingFirstSrc p' = pc_pendingFirstSrc p /\
  pc_defaultDst p' = pc_defaultDst p /\ pc_opened p' = pc_opened p.
Proof.
  intros Hs Ho. unfold PacketConn_Close. rewrite Ho.
  set (sg := if pc_opened p && pc_underlying p then _ else _).
  assert (Hsg : consistent sg.1) by (unfold sg; destruct (_ && _); [by apply send_end_consistent|done]).
  destruct sg as [s g1]. pose proof (close_both_closed (pc_underlying p) s Hsg) as Hc.
  destruct (close_both _ _) as [err s']. by split_and!.
Qed.

Lemma send_udp_closed nowNs t gid a payload (s : SecureStream AEAD T) (g : G) :
  ss_closed s = true -> target_ok a ->
  (letS meta, st := lift (buildUDPMeta gid a) (s, g) ;; sendFrame nowNs t meta payload (-1) st) =
    (Fail ErrClosedPipe, (s, g)).
Proof.
  intros Hc [_ Hok]. rewrite buildUDPMeta_cases. unfold lift. destruct (has_target a);
    [rewrite Hok by done|]; cbn [sbind]; by apply sendFrame_closed.
Qed.

(** C32: a closed packet connection: after [Close] every write to a target the
    meta can carry fails with [io.ErrClosedPipe] and changes nothing, another
    [Close] returns the same error, and [ReadFrom] fails with
    [io.ErrClosedPipe] too, except that a server connection still hands out
    the datagram that came with UDP_NEW, once. *)
Theorem closed_packet_conn nowDl nowNs (p : PConn) (g : G) nowDl' nowNs' b target n fuel
    (Hs : reachable (G := G) (pc_stream p)) (Honce : pc_closeOnce p = false)
    (Hdst : target_ok (pc_defaultDst p)) (Htarget : target_ok target) :
  let '(err, (p', g')) := PacketConn_Close nowDl nowNs (p, g) in
  WriteToAddress nowNs' b target (p', g') = (Fail ErrClosedPipe, (p', g')) /\
  PacketConn_Close nowDl' nowNs' (p', g') = (err, (p', g')) /\
  match pc_pendingFirst p with
  | None => ReadFrom (S fuel) n p' = (Some (Fail ErrClosedPipe), p')
  | Some first =>
      exists p'', ReadFrom (S fuel) n p' =
        (Some (Ret (sub first 0 (Z.min n (len first)), ewpToNetAddr (pc_pendingFirstSrc p))), p'') /\
        ReadFrom (S fuel) n p'' = (Some (Fail ErrClosedPipe), p'')
  end.
Proof.
  pose proof (PacketConn_Close_fields nowDl nowNs p g (reachable_consistent _ Hs) Honce) as H.
  destruct (PacketConn_Close _ _ _) as [err [p' g']]. destruct H as (Hc & Ho & He & Hf & Hsrc & Hd & _).
  assert (Hloop : forall r : PConn, ss_closed (pc_stream r) = true -> read_loop_from (S fuel) n r =
    (Some (Fail ErrClosedPipe), r)).
  { intros r Hr. cbn [read_loop_from]. unfold Recv. rewrite Hr. by destruct r. }
  split_and!.
  - unfold WriteToAddress, write_test. cbn [fst].
    destruct (pc_isServer p'), (pc_opened p') eqn:Hop; cbn [negb andb write_rest].
    4: unfold ensureOpen; rewrite Hop; unfold SendUDPNew.
    1-3: unfold SendUDPData.
    all: rewrite send_udp_closed by (done || by rewrite Hd); cbn [sbind].
    all: destruct p'; cbn in *; by subst.
  - unfold PacketConn_Close. rewrite Ho. by rewrite He.
  - unfold ReadFrom. rewrite Hf. destruct (pc_pendingFirst p) as [first|]; [|by apply Hloop].
    rewrite Hsrc. eexists. split; [reflexivity|]. cbn [pc_pendingFirst]. by apply Hloop.
Qed.
End Closed.

(** ** What the handler of a server is given *)

Section Handler.
Context {G : Type} {C : Crypto G} {E : Entropy G} `{!AEADLaws C} `{!HKDFLaws C}.
Context {T : Type} {MT : MessageTransport T} {DS : DeadlineSetter T}.

Lemma accept_authentic now nowCache nowHello msg uuids cache (g : G) out res st' :
  AcceptClientHelloWithReplay now nowCache nowHello msg (MakeUUIDLookup uuids) (cache, g) = (Ret (out, res), st') ->
  exists ch, hr_ClientHello res = Some ch /\ authentic uuids msg ch.
Proof.
  unfold AcceptClientHelloWithReplay, lift. pose proof (checkClientHello_cases now msg uuids) as Hc.
  destruct (checkClientHello _ _ _) as [[u ch]|e|]; cbn [sbind]; [|done..]. destruct Hc as (-> & Hauth & _).
  destruct (match cache with None => _ | Some _ => _ end) as [[|] c]; cbn [negb]; [|done].
  destruct (answerClientHello _ _ _ g) as [o g1] eqn:Ha. intros [= -> _].
  apply answerClientHello_Ret in Ha as [Hch _]. by exists ch.
Qed.

Lemma Recv_open (s s' : SecureStream AEAD T) ev : Recv s = (Ret ev, s') -> ss_closed s' = false.
Proof.
  unfold Recv, recv_body. destruct (ss_closed s) eqn:Hc; [done|]. destruct (ReadMessage _) as [[wire|e|] tr]; [|done..].
  cbn [sbind]. destruct (DecodeFrame _ _) as [[[df f]|e|] r]; cbn [fst wrap_err sbind]; [|done..].
  destruct (event_of df); [|done..]. by intros [= _ <-].
Qed.

Lemma NewServerSecureStream_fresh (tr : T) keys stream :
  NewServerSecureStream tr keys = Ret stream -> consistent stream /\ ss_closed stream = false.
Proof.
  unfold NewServerSecureStream, NewFrameAEAD.
  destruct (chacha_New (arr_list (S2CKey keys))), (chacha_New (arr_list (C2SKey keys))); cbn; try done.
  intros [= <-]. split; [split; [done|done|by left]|done].
Qed.

Definition dispatch_metadata (d : dispatch AEAD T) : Metadata :=
  match d with NewConnection _ md | NewPacketConnection _ md => md end.

(** The connection a handler receives: fresh and open, with dialable addresses. *)
Definition dispatch_wf (d : dispatch AEAD T) : Prop :=
  match d with
  | NewConnection c _ => consistent (sc_stream c) /\ ss_closed (sc_stream c) = false
  | NewPacketConnection p _ =>
      consistent (pc_stream p) /\ ss_closed (pc_stream p) = false /\ addressed p /\
      pc_isServer p = true /\ pc_opened p = true /\ pc_closeOnce p = false /\ pc_pendingFirst p <> Some []
  end.

Lemma dispatchFlow_typed (stream : SecureStream AEAD T) ch remote s (g : G) d st' :
  consistent stream -> ss_closed stream = false -> dialable (ch_Address ch) ->
  dispatchFlow stream ch remote s g = (Ret d, st') ->
  md_UserUUID (dispatch_metadata d) = ch_UUID ch /\ md_Destination (dispatch_metadata d) = ch_Address ch /\
    dispatch_wf d.
Proof.
  intros Hs Ho Ha. unfold dispatchFlow. case_bool_decide; [by intros [= <- _]|]. case_bool_decide; [|done].
  pose proof (Recv_keeps stream Hs) as Hk.
  destruct (Recv stream) as [[ev|e|] stream'] eqn:Hr; [|done..].
  case_bool_decide; cbn [negb]; [|done]. intros [= <- _].
  pose proof (Recv_shape _ _ _ Hr) as (Hsh & _ & _).
  cbn. split; [done|]. split; [done|].
  assert (Hd : dialable (if ev_HasAddr ev then ev_Address ev else ch_Address ch)) by by destruct Hsh.
  split_and!; try done; [apply Hk|by eapply Recv_open|]. unfold nil_if_empty. by destruct (ev_Payload ev).
Qed.

(** C13: what a handler can rely on: when [handleTransport] of a service
    whose lookup is in force over its users (any service of the API) calls its
    handler, whatever the client and the network have sent, the user of the
    metadata is a configured one, the destination can be dialled,
    and the connection is open; a packet connection is anchored at a dialable
    address, is marked as opened, and holds a first datagram only if it is not
    empty. *)
Theorem handler_typed ctx now nowCache nowHello remote s (ts : T) (gs : G) d st'
    (Hs : service_ok s)
    (Hh : handleTransport ctx now nowCache nowHello remote (s, ts, gs) = (Ret d, st')) :
  md_UserUUID (dispatch_metadata d) ∈ sv_users s /\ dialable (md_Destination (dispatch_metadata d)) /\ dispatch_wf d.
Proof.
  revert Hh. unfold handleTransport, establish, reject. rewrite (so_lookup _ Hs).
  destruct (ReadMessage (arm_deadline ctx ts)) as [[m|e1|] ts1]; [|done..].
  destruct (AcceptClientHelloWithReplay _ _ _ _ _ _) as [[[out res]|e1|] [cache gs1]] eqn:Ha; [|done..].
  apply accept_authentic in Ha as (ch & -> & Hu & (_ & Hwf & He) & _).
  destruct (SendMessage out ts1) as [[e1|] ts2]; [done|].
  destruct (NewServerSecureStream ts2 (hr_Keys res)) as [stream|e1|] eqn:Hn; [|done..].
  apply NewServerSecureStream_fresh in Hn as [Hc Ho].
  intros Hd. apply dispatchFlow_typed in Hd as (-> & -> & Hd); [by split_and!| |done|done].
  destruct Hc. by split.
Qed.
End Handler.

(** ** Witnesses *)

Module TypingExamples.
Import StreamExamples PacketExamples ServerExamples.

Lemma dst0_dialable : dialable dst0.
Proof. split; [split; vm_compute; split; congruence|reflexivity]. Qed.

Lemma peer_addressed : addressed (G := Toy.gen) peer.
Proof. split; [exact dst0_dialable|intros []; reflexivity]. Qed.
End TypingExamples.
Import TypingExamples.

Lemma Recv_event_typed_witness :
  match (Recv StreamExamples.b0).1 with Ret ev => event_shape ev | _ => False end.
Proof.
  destruct (ServerExamples.returns_Ret (Recv StreamExamples.b0)) as (ev & s' & Hr); [vm_compute; reflexivity|].
  rewrite Hr. exact (proj1 (Recv_event_typed StreamExamples.b0 s' ev Hr)).
Defined.

Lemma ReadFrom_source_witness :
  match (ReadFrom 5 3 PacketExamples.peer).1 with Some (Ret (b, src)) => len b <= 3 /\ repliable src | _ => False end.
Proof.
  destruct (ReadFrom 5 3 PacketExamples.peer) as [o p'] eqn:Hr. cbn [fst].
  destruct o as [[[b src]|e|]|];
    [|apply (f_equal (fun r => match r.1 with Some (Ret _) => true | _ => false end)) in Hr; vm_compute in Hr;
      discriminate Hr..].
  destruct (ReadFrom_source 5 3 PacketExamples.peer p' b src) as (Hb & Hs & _); [lia|exact peer_addressed|exact Hr|].
  split; [exact Hb|exact Hs].
Defined.

Lemma closed_packet_conn_witness :
  let '(_, (p', g')) := PacketConn_Close 1 2 (PacketExamples.pc0 true, 5 : Toy.gen) in
  WriteToAddress 4 (str "late") PacketExamples.target0 (p', g') = (Fail ErrClosedPipe, (p', g')) /\
  ReadFrom 1 3 p' = (Some (Fail ErrClosedPipe), p').
Proof.
  pose proof (closed_packet_conn 1 2 (PacketExamples.pc0 true) (5 : Toy.gen) 3 4 (str "late") PacketExamples.target0 3 0
    StreamExamples.a0_reachable eq_refl PacketExamples.dst0_ok PacketExamples.target0_ok) as H.
  destruct (PacketConn_Close 1 2 (PacketExamples.pc0 true, 5 : Toy.gen)) as [err [p' g']].
  destruct H as (H1 & _ & H2). split; [exact H1|exact H2].
Defined.

Lemma handler_typed_witness :
  match (handleTransport (Some 8) 1010 1010 1011 (Some None)
    (ServerExamples.svc0, (ServerExamples.tsB []), 9 : Toy.gen)).1 with
  | Ret d => dialable (md_Destination (dispatch_metadata d)) /\ dispatch_wf d
  | _ => False
  end.
Proof.
  destruct (ServerExamples.returns_Ret (handleTransport (Some 8) 1010 1010 1011 (Some None)
    (ServerExamples.svc0, ServerExamples.tsB [], 9 : Toy.gen))) as (d & st' & Hh); [vm_compute; reflexivity|].
  rewrite Hh. cbn [fst].
  destruct (handler_typed (Some 8) 1010 1010 1011 (Some None) ServerExamples.svc0 (ServerExamples.tsB [])
    (9 : Toy.gen) d st'
    ServerExamples.svc0_ok Hh) as (_ & H1 & H2). split; [exact H1|exact H2].
Defined.
