(* ===== verification/Sessions.v ===== *)
(** * Sessions end to end (src/client.go, src/server.go)

    A client and a server joined: from the two hellos to a TCP session with
    request and reply, and a UDP session with query and reply.  The messages
    a side receives are those the other one sends, in their order of
    causality: the answer of the server is determined by the hello, the
    reply by the request. *)

From S2P Require Import Prelude Address Crypto Io Kdf Padding Frame Replay Handshake HandshakeProofs.
From S2P Require Import Transport SecureStream SecureStreamProofs StreamConn PacketConn Client Server Typing.

Section EndToEnd.
Context {G : Type} {C : Crypto G} {E : Entropy G} `{!CryptoLaws C}.
Context {T : Type} `{TransportLaws T} `{!DeadlineSetter T} `{!DeadlineLaws T}.

(** The parties of an exchange: a client with transport [tc] that has sent its
    hello, and a server with transport [ts] that knows the client. *)
Section Tunnel.
Context (ctxc ctxs : option Z) (now1 now2 nowCache nowHello now3 : Z) (uuid : arr UUIDLen) (cmd : Command).
Context (dst : Address) (tc : T) (g : G) (st : ClientHandshakeState X25519Priv MLKEMPriv) (tc1 : T) (g1 : G).
Context (xp : X25519Priv) (s : Service) (ts : T) (gs : G) (xs : X25519Priv) (gs1 : G).
Context (remote : option (option NetAddr)).
Hypothesis Hwrite :
  WriteClientHello now1 SendMessage uuid cmd dst (arm_deadline ctxc tc, g) = (Ret st, (tc1, g1)).
Hypothesis Hup : up tc.
Hypothesis Hdst : Address_wf dst.
Hypothesis Hxp : st_x25519Priv st = Some xp.
Hypothesis Hs : service_ok s.
Hypothesis Huser : uuid ∈ sv_users s.
Hypothesis Hups : up ts.
Hypothesis Hclock : absDiff (unix32 now1) now2 <= HandshakeTimestampWindow.
Hypothesis Hcache : cache_admits nowCache uuid (st_nonce st) (sv_replay s).
Hypothesis Hgen : X25519_GenerateKey gs = (Some xs, gs1).
Hypothesis Hdh : is_Some (X25519_ECDH xs (X25519_PublicKey xp)).
Hypothesis Hclock' : absDiff (unix32 nowHello) now3 <= HandshakeTimestampWindow.

(** What both modes share: the two hellos, and the streams they lead to. *)
Lemma tunnel_exchange :
  exists m1, tx tc1 = tx tc ++ [m1] /\
    (mac_unique (sv_users s) uuid m1 ->
     exists m2 res c' f1 f2 s' gs',
       AcceptClientHelloWithReplay now2 nowCache nowHello m1 (MakeUUIDLookup (sv_users s)) (sv_replay s, gs) =
         (Ret (m2, res), c') /\
       fa_counter f1 = 0 /\ fa_counter f2 = 0 /\ sv_users s' = sv_users s /\
       (forall rest, rx ts = m1 :: rest ->
        exists ts', up ts' /\ tx ts' = tx ts ++ [m2] /\ rx ts' = rest /\
          handleTransport ctxs now2 nowCache nowHello remote (s, ts, gs) =
            dispatchFlow (new_stream ts' f2 f1) (strip_hello (st_hello st)) remote s' gs') /\
       (forall rest, rx tc = m2 :: rest ->
        exists tc', up tc' /\ tx tc' = tx tc ++ [m1] /\ rx tc' = rest /\
          client_handshake ctxc now1 now3 (mkClient uuid) cmd dst (tc, g) =
            (Ret (new_stream tc' f1 f2), (tc', g1)))).
Proof.
  destruct (honest_exchange SendMessage now1 uuid cmd dst (arm_deadline ctxc tc) g st (tc1, g1) xp (sv_users s)
    (sv_replay s) gs xs gs1 now2 nowCache nowHello now3) as (m1 & Hsend & Hl1 & Hex); [done..|].
  exists m1. cbn [fst] in Hsend.
  destruct (arm_deadline_spec ctxc tc) as (Hupc & Htxc & Hrxc).
  destruct (arm_deadline_spec ctxs ts) as (Hupa & Htxa & Hrxa).
  destruct (SendMessage_ok m1 _ (Hupc Hup)) as (tc1' & Hsend' & Hup1 & Htx1 & Hrx1);
    [apply fits_frames; unfold MaxFrameSize; lia|].
  rewrite Hsend in Hsend'. injection Hsend' as <-. rewrite <-Htxc, <-Hrxc. split; [done|]. intros Hun.
  destruct (Hex Hun) as (m2 & res & res' & st' & [cache' gs2] & Hacc & Hl2 & Hread & Hkeys & Hch & _).
  destruct (streams_linked (T := T) (hr_Keys res)) as (f1 & f2 & Hf1 & Hf2 & Hcl & Hsv).
  exists m2, res, (cache', gs2), f1, f2, (mkService (sv_users s) (sv_lookup s) cache'), gs2.
  split_and!; [done..| |]; intros rest Hrx.
  - rewrite <-Hrxa in Hrx. destruct (ReadMessage_ok m1 rest _ (Hupa Hups) Hrx) as (ts1 & Hrd & Hups1 & Htxs1 & Hrxs1).
    destruct (SendMessage_ok m2 ts1 Hups1) as (ts2 & Hsnd & Hups2 & Htxs2 & Hrxs2);
      [apply fits_frames; unfold MaxFrameSize; lia|].
    exists (set_deadline None ts2). rewrite set_deadline_tx, set_deadline_rx, Htxs2, Htxs1, Htxa, Hrxs2.
    split_and!; [auto with ewp|done|done|].
    unfold handleTransport, establish. rewrite (so_lookup _ Hs), Hrd, Hacc, Hsnd, Hsv, Hch. done.
  - rewrite <-Hrx1 in Hrx. destruct (ReadMessage_ok m2 rest tc1 Hup1 Hrx) as (tc2 & Hrdc & Hup2 & Htx2 & Hrx2).
    exists (disarm_deadline ctxc tc2). destruct (disarm_deadline_spec ctxc tc2) as (Hu & -> & ->).
    rewrite Htx2, Htx1. split_and!; [auto|done|done|].
    unfold client_handshake, handshake_body. cbn [cl_uuid]. rewrite Hwrite, Hrdc, Hread, Hkeys, Hcl. done.
Qed.

(** The hello the server sees. *)
Lemma hello_fields :
  ch_UUID (st_hello st) = uuid /\ ch_Command (st_hello st) = cmd /\ ch_Address (st_hello st) = dst /\
  encodable dst = true.
Proof.
  apply WriteClientHello_Ret in Hwrite as (? & ? & ? & ? & _ & _ & _ & _ & Hh & _ & He & _). by rewrite Hh.
Qed.

Context `{!EntropyLaws E}.

(** C11: a TCP session end to end, request and reply: once the client has the
    answer [m2] the server gives to its hello, it completes its handshake and
    writes a byte string of any length; when the hello and the emitted frames
    reach the server, it hands its handler a connection, with the client's
    UUID and the requested destination, from which [io.ReadFull] returns any
    leading part of exactly these bytes; the handler then writes a reply of
    any length, and when its frames arrive behind [m2], the client reads any
    leading part of exactly that reply. *)
Theorem tcp_session nowNs nowNs' p n q k (Hcmd : cmd = CommandTCP) (Hn : 0 <= n <= len p) (Hk : 0 <= k <= len q) :
  exists m1, tx tc1 = tx tc ++ [m1] /\
    (mac_unique (sv_users s) uuid m1 ->
     exists m2 res c',
       AcceptClientHelloWithReplay now2 nowCache nowHello m1 (MakeUUIDLookup (sv_users s)) (sv_replay s, gs) =
         (Ret (m2, res), c') /\
       forall replies, rx tc = m2 :: replies ->
       exists stream tc', client_handshake ctxc now1 now3 (mkClient uuid) cmd dst (tc, g) = (Ret stream, (tc', g1)) /\
       exists w g2 ms, StreamConn_Write nowNs p (new_streamConn stream true, g1) = (Ret (len p, None), (w, g2)) /\
         tx (ss_tr (sc_stream w)) = tx tc ++ m1 :: ms /\
         (rx ts = m1 :: ms ->
          exists sc s' ts' gs' sc' w' gs2 ms',
            handleTransport ctxs now2 nowCache nowHello remote (s, ts, gs) =
              (Ret (NewConnection sc (mkMetadata uuid (strip dst) (default None remote))), (s', ts', gs')) /\
            read_full (Z.to_nat n) (S (length ms)) n sc = (Some (Ret (sub p 0 n)), sc') /\
            StreamConn_Write nowNs' q (sc', gs') = (Ret (len q, None), (w', gs2)) /\
            tx (ss_tr (sc_stream w')) = tx ts ++ m2 :: ms' /\
            (replies = ms' ->
             exists r', read_full (Z.to_nat k) (S (length ms')) k w = (Some (Ret (sub q 0 k)), r')))).
Proof.
  destruct tunnel_exchange as (m1 & Htx & Hex). destruct hello_fields as (Fu & Fc & Fa & _).
  exists m1. split; [done|]. intros Hun.
  destruct (Hex Hun) as (m2 & res & c' & f1 & f2 & s' & gs' & Hacc & Hf1 & Hf2 & _ & Hserver & Hclient).
  exists m2, res, c'. split; [done|]. intros replies Hrxc.
  destruct (Hclient replies Hrxc) as (tc' & Huc & Htxc & Hrx & Hc).
  exists (new_stream tc' f1 f2), tc'. split; [done|].
  destruct (StreamConn_Write_ok nowNs p (new_streamConn (new_stream tc' f1 f2) true) g1)
    as (cs & ms & w & g2 & Hw & Hcs & Hfr & Hp); [by apply new_stream_working|].
  eexists _, g2, ms. split; [exact Hw|]. split.
  { cbn [sc_stream with_stream]. rewrite (pr_tx _ _ _ Hp). cbn. by rewrite Htxc, <-app_assoc. }
  intros Hrxs. destruct (Hserver ms Hrxs) as (ts' & Hu' & Htx' & Hrx' & Hh). subst p.
  destruct (read_full_written (new_streamConn (new_stream ts' f2 f1) (bool_decide (is_Some remote))) f1 cs ms n
    (new_stream_working ts' f2 f1 Hu' Hf2 Hf1) eq_refl eq_refl Hfr Hrx' Hn) as (sc' & Hrd & Hw' & Hsnd & Htxr).
  destruct (StreamConn_Write_ok nowNs' q sc' gs' Hw') as (cs' & ms' & w' & gs2 & Hwq & Hcs' & Hfr' & Hp').
  eexists _, s', ts', gs', sc', _, gs2, ms'. split; [|split; [exact Hrd|split; [exact Hwq|split]]].
  - rewrite Hh. unfold dispatchFlow. cbn [strip_hello ch_Command ch_UUID ch_Address]. by rewrite Fc, Fu, Fa, Hcmd.
  - cbn [sc_stream with_stream]. rewrite (pr_tx _ _ _ Hp'), Htxr. cbn. by rewrite Htx', <-app_assoc.
  - intros ->. subst q. rewrite Hsnd in Hfr'.
    destruct (read_full_written (with_stream w [] (new_streamConn (new_stream tc' f1 f2) true)) f2 cs' ms' k)
      as (r' & Hr & _); [|apply Hp|done|done|by cbn [sc_stream with_stream];
        rewrite (pr_rx _ _ _ Hp)|done|by exists r'].
    eapply progress_working; [|exact Hp]. by apply new_stream_working.
Qed.

(** A UDP tunnel: what the two ends have once the first datagram has opened
    the session. *)
Lemma udp_tunnel nowNs b target :
  cmd = CommandUDP -> len b <= 65238 ->
  exists m1, tx tc1 = tx tc ++ [m1] /\
    (mac_unique (sv_users s) uuid m1 ->
     exists m2 res c',
       AcceptClientHelloWithReplay now2 nowCache nowHello m1 (MakeUUIDLookup (sv_users s)) (sv_replay s, gs) =
         (Ret (m2, res), c') /\
       forall replies, rx tc = m2 :: replies ->
       exists stream tc', client_handshake ctxc now1 now3 (mkClient uuid) cmd dst (tc, g) = (Ret stream, (tc', g1)) /\
       forall p g2, newClientPacketConn stream true dst g1 = (Ret p, g2) ->
       exists p' g3 m3, WriteToAddress nowNs b target (p, g2) = (Ret (len b), (p', g3)) /\
         tx (ss_tr (pc_stream p')) = tx tc ++ [m1; m3] /\
         (rx ts = [m1; m3] ->
          exists r s' ts' gs',
            handleTransport ctxs now2 nowCache nowHello remote (s, ts, gs) =
              (Ret (NewPacketConnection r (mkMetadata uuid (strip dst) (default None remote))), (s', ts', gs')) /\
            tx (ss_tr (pc_stream r)) = tx ts ++ [m2] /\ rx (ss_tr (pc_stream p')) = replies /\
            pc_isServer r = true /\ pc_pendingFirst p' = None /\
            pc_globalID r = pc_globalID p' /\ pc_pendingFirst r = nil_if_empty b /\
            pc_defaultDst r = strip dst /\ pc_pendingFirstSrc r = strip dst /\
            working (pc_stream r) /\ working (pc_stream p') /\
            ss_recv (pc_stream r) = ss_send (pc_stream p') /\ ss_recv (pc_stream p') = ss_send (pc_stream r))).
Proof.
  intros Hcmd Hlen.
  destruct tunnel_exchange as (m1 & Htx & Hex). destruct hello_fields as (Fu & Fc & Fa & He).
  exists m1. split; [done|]. intros Hun.
  destruct (Hex Hun) as (m2 & res & c' & f1 & f2 & s' & gs' & Hacc & Hf1 & Hf2 & _ & Hserver & Hclient).
  exists m2, res, c'. split; [done|]. intros replies Hrxc.
  destruct (Hclient replies Hrxc) as (tc' & Huc & Htxc & Hrxr & Hc).
  exists (new_stream tc' f1 f2), tc'. split; [done|]. intros p g2 Hpc.
  apply newClientPacketConn_Ret in Hpc as (gid & ->).
  destruct (first_write_opens (mkPacketConn (new_stream tc' f1 f2) true gid dst false None zero_Address false false None)
    nowNs b target g2) as (p' & g3 & m3 & q & Hw & Hop & Hpend & Hgid & Hpr & Hfr & Hdec); [done|done| | |done|].
  { by apply new_stream_working. }
  { split; [done|]. by intros _. }
  exists p', g3, m3. split; [exact Hw|]. split.
  { rewrite (pr_tx _ _ _ Hpr). cbn. by rewrite Htxc, <-app_assoc. }
  intros Hrxs. destruct (Hserver [m3] Hrxs) as (ts' & Hu' & Htx' & Hrx' & Hh).
  destruct q as [[qt qm] qp].
  destruct (Recv_ok (new_stream ts' f2 f1) qt qm qp m3 [] [] _ (new_stream_working _ _ _ Hu' Hf2 Hf1) Hfr Hrx' Hdec)
    as (sr & Hrecv & Hwr & _ & Htxr & Hsr & Hrr).
  eexists _, s', (ss_tr sr), gs'. split.
  - rewrite Hh. unfold dispatchFlow. cbn [strip_hello ch_Command ch_UUID ch_Address].
    rewrite Fc, Fu, Fa, Hcmd. change (bool_decide (CommandUDP = CommandTCP)) with false.
    change (bool_decide (CommandUDP = CommandUDP)) with true. cbv iota. rewrite Hrecv. reflexivity.
  - cbn [newServerPacketConn pc_isServer pc_globalID pc_pendingFirst pc_pendingFirstSrc pc_defaultDst pc_stream
      udp_event ev_GlobalID ev_Payload ev_HasAddr ev_Address].
    rewrite Hrr, Hsr, (pr_send _ _ _ Hpr), (pr_recv _ _ _ Hpr), (pr_rx _ _ _ Hpr), Hgid, Htxr.
    assert (Hdd : (if has_target dst then target_seen dst else strip dst) = strip dst)
      by (unfold target_seen; by destruct (has_target dst)).
    split_and!; try done. eapply progress_working; [|exact Hpr]. by apply new_stream_working.
Qed.

(** C12: a UDP session end to end, query and reply: once the client has the
    answer [m2] of the server, it completes its handshake and writes its
    first datagram, to whatever target; the server, when the hello and that
    frame reach it, hands its handler a packet connection whose first
    [ReadFrom] returns the datagram (cut to the caller's buffer), with the
    destination the client dialled as its source; a reply that the handler
    writes to this source is sent, and when it arrives behind [m2], the
    client's [ReadFrom] returns it, coming from the dialled destination. *)
Theorem udp_session nowNs nowNs' b target n reply k (Hcmd : cmd = CommandUDP) (Hlen : 0 < len b <= 65238)
    (Hreply : len reply <= 65238) :
  exists m1, tx tc1 = tx tc ++ [m1] /\
    (mac_unique (sv_users s) uuid m1 ->
     exists m2 res c',
       AcceptClientHelloWithReplay now2 nowCache nowHello m1 (MakeUUIDLookup (sv_users s)) (sv_replay s, gs) =
         (Ret (m2, res), c') /\
       forall replies, rx tc = m2 :: replies ->
       exists stream tc', client_handshake ctxc now1 now3 (mkClient uuid) cmd dst (tc, g) = (Ret stream, (tc', g1)) /\
       forall p g2, newClientPacketConn stream true dst g1 = (Ret p, g2) ->
       exists p' g3 m3, WriteToAddress nowNs b target (p, g2) = (Ret (len b), (p', g3)) /\
         tx (ss_tr (pc_stream p')) = tx tc ++ [m1; m3] /\
         (rx ts = [m1; m3] ->
          exists r s' ts' gs' src r1 r2 gs2 ms,
            handleTransport ctxs now2 nowCache nowHello remote (s, ts, gs) =
              (Ret (NewPacketConnection r (mkMetadata uuid (strip dst) (default None remote))), (s', ts', gs')) /\
            ReadFrom 1 n r = (Some (Ret (sub b 0 (Z.min n (len b)), Some src)), r1) /\
            addrToEWP src = Ret (canonical dst) /\
            WriteTo nowNs' reply src (r1, gs') = (Ret (len reply), (r2, gs2)) /\
            tx (ss_tr (pc_stream r2)) = tx ts ++ m2 :: ms /\
            (replies = ms ->
             exists p'', ReadFrom (length ms) k p' =
               (Some (Ret (sub reply 0 (Z.min k (len reply)), ewpToNetAddr (canonical dst))), p'')))).
Proof.
  destruct (udp_tunnel nowNs b target Hcmd) as (m1 & Htx & Hex); [lia|]. exists m1. split; [done|]. intros Hun.
  destruct (Hex Hun) as (m2 & res & c' & Hacc & Hgo). exists m2, res, c'. split; [done|]. intros replies Hrx.
  destruct (Hgo replies Hrx) as (stream & tc' & Hc & Hopen). exists stream, tc'. split; [done|]. intros p g2 Hp.
  destruct (Hopen p g2 Hp) as (p' & g3 & m3 & Hw & Htxp & Hserve). exists p', g3, m3. split; [done|]. split; [done|].
  intros Hrxs. destruct (Hserve Hrxs) as (r & s' & ts' & gs' & Hh & Htxr & Hrxp & Hsrv & Hnone & Hgid & Hfirst & Hdef & Hsrc & Hwr & Hwp & Hl1 & Hl2).
  destruct (dialable_netaddr (strip dst)) as (src & Hna & Hback & Hdial);
    [apply dialable_strip; destruct hello_fields as (_ & _ & _ & ?); by split|].
  rewrite canonical_strip in Hback, Hdial. pose proof (encodable_has_target _ (proj2 Hdial)) as Ht.
  set (r1 := mkPacketConn (pc_stream r) (pc_underlying r) (pc_globalID r) (pc_defaultDst r) (pc_isServer r) None
    (pc_pendingFirstSrc r) (pc_opened r) (pc_closeOnce r) (pc_closeErr r)).
  destruct (packet_delivered r1 p' nowNs' [] reply (canonical dst) k gs' (pc_stream r) gs')
    as (r2 & gs2 & ms & Hwr2 & Htx2 & Hread); try done; [by cbn; rewrite Hsrv|split; [apply Hdial|intros _;
      apply Hdial]|].
  exists r, s', ts', gs', src, r1, r2, gs2, ms. split_and!; [done| |done| | |].
  - unfold ReadFrom. rewrite Hfirst. unfold nil_if_empty. destruct (Z.eqb_spec (len b) 0); [lia|].
    by rewrite Hsrc, Hna, <-Hsrc.
  - unfold WriteTo, lift. rewrite Hback. exact Hwr2.
  - rewrite Htx2. cbn [r1 pc_stream]. by rewrite Htxr, <-app_assoc.
  - intros ->. destruct (Hread Hrxp) as (p'' & Hr). exists p''. by rewrite Hr, Ht, strip_canonical.
Qed.
End Tunnel.
End EndToEnd.

(** ** Witnesses *)

Module SessionExamples.
Import HandshakeExamples ServerExamples.

(** The handlers: one reads three bytes of a TCP session and replies, the other
    answers a datagram. *)
Definition resp0 : bytes := str "200 OK".
Definition called : Type := outcome (dispatch (@AEAD _ Toy.crypto) LengthFramer) * (Service * LengthFramer * Toy.gen).
Definition handler_TCP (c : called) : streamConn (@AEAD _ Toy.crypto) LengthFramer :=
  match c with
  | (Ret (NewConnection sc _), (_, g)) => (StreamConn_Write (C := Toy.crypto) 2 resp0 ((read_full 3 2 3 sc).2, g)).2.1
  | _ => new_streamConn StreamExamples.a0 true
  end.
Definition handler_UDP (c : called) : packetConn (@AEAD _ Toy.crypto) LengthFramer :=
  match c with
  | (Ret (NewPacketConnection r _), (_, g)) =>
      match ReadFrom 1 100 r with
      | (Some (Ret (_, Some src)), r1) => (WriteTo (C := Toy.crypto) 2 resp0 src (r1, g)).2.1
      | _ => r
      end
  | _ => PacketExamples.pc0 false
  end.

Lemma handler_TCP_eq c sc md st g o sc' o' w' g' :
  c = (Ret (NewConnection sc md), (st, g)) -> read_full 3 2 3 sc = (o, sc') ->
  StreamConn_Write (C := Toy.crypto) 2 resp0 (sc', g) = (o', (w', g')) -> handler_TCP c = w'.
Proof. intros -> Hr Hw. unfold handler_TCP. rewrite Hr. cbn [snd]. by rewrite Hw. Qed.

Lemma handler_UDP_eq c r md st g b src r1 o r2 g' :
  c = (Ret (NewPacketConnection r md), (st, g)) -> ReadFrom 1 100 r = (Some (Ret (b, Some src)), r1) ->
  WriteTo (C := Toy.crypto) 2 resp0 src (r1, g) = (o, (r2, g')) -> handler_UDP c = r2.
Proof. intros -> Hr Hw. unfold handler_UDP. by rewrite Hr, Hw. Qed.

(** The server side of the sessions, and what it has sent after its answer, as
    it arrives at the client. *)
Definition behind (cmd : Command) (out : bytes) : bytes := drop (length (frame_msg (answer cmd))) out.
Definition servedA (extra : bytes) : called :=
  handleTransport (Some 8) 1010 1010 1011 (Some None) (svc0, tsA extra, 9 : Toy.gen).
Definition repliedA (extra : bytes) := handler_TCP (servedA extra).
Definition extraA : bytes := Eval vm_compute in behind CommandTCP (wrote (ss_tr (sc_stream (repliedA [])))).

Definition servedB (extra : bytes) : called :=
  handleTransport (Some 8) 1010 1010 1011 (Some None) (svc0, tsB extra, 9 : Toy.gen).
Definition repliedB (extra : bytes) := handler_UDP (servedB extra).
Definition extraB : bytes := Eval vm_compute in behind CommandUDP (wrote (ss_tr (pc_stream (repliedB [])))).

Lemma repliedA_eq extra sc md st g o sc' o' w' g' :
  handleTransport (Some 8) 1010 1010 1011 (Some None) (svc0, tsA extra, 9 : Toy.gen) =
    (Ret (NewConnection sc md), (st, g)) -> read_full 3 2 3 sc = (o, sc') ->
  StreamConn_Write (C := Toy.crypto) 2 resp0 (sc', g) = (o', (w', g')) -> repliedA extra = w'.
Proof. intros Hh. unfold repliedA, servedA. rewrite Hh. exact (handler_TCP_eq _ sc md st g o sc' o' w' g' eq_refl). Qed.

Lemma repliedB_eq extra r md st g b src r1 o r2 g' :
  handleTransport (Some 8) 1010 1010 1011 (Some None) (svc0, tsB extra, 9 : Toy.gen) =
    (Ret (NewPacketConnection r md), (st, g)) -> ReadFrom 1 100 r = (Some (Ret (b, Some src)), r1) ->
  WriteTo (C := Toy.crypto) 2 resp0 src (r1, g) = (o, (r2, g')) -> repliedB extra = r2.
Proof. intros Hh. unfold repliedB, servedB. rewrite Hh. exact (handler_UDP_eq _ r md st g b src r1 o r2 g' eq_refl).
  Qed.

Lemma pcB_eq extra p g2 o p' g3 :
  newClientPacketConn (streamA CommandUDP extra) true addr0 (wrA CommandUDP extra).2.2 = (Ret p, g2) ->
  WriteToAddress 1 data0 PacketExamples.target0 (p, g2) = (o, (p', g3)) -> pcB extra = p'.
Proof. intros Hp Hw. unfold pcB, pcA. rewrite Hp. cbn [fst snd]. by rewrite Hw. Qed.

Lemma pcA_some : exists p g2,
  newClientPacketConn (streamA CommandUDP extraB) true addr0 (wrA CommandUDP extraB).2.2 = (Ret p, g2).
Proof.
  apply returns_Ret. vm_compute. reflexivity.
Qed.

(** Replies arrive as they were sent. *)
Lemma behind_msgs cmd out extra ms :
  out = frame_msg (answer cmd) ++ extra -> len (answer cmd) <= MaxFrameSize ->
  msgs_of out = answer cmd :: ms -> msgs_of extra = ms.
Proof. intros -> Hl. rewrite msgs_of_frame by done. by intros [= ->]. Qed.

Lemma hello_sent cmd extra m1 :
  tx (wrA cmd extra).2.1 = [hello cmd] -> tx (wrA cmd extra).2.1 = tx (tcA cmd extra) ++ [m1] -> m1 = hello cmd.
Proof. intros ->. by intros [= ->]. Qed.
End SessionExamples.
Import HandshakeExamples ServerExamples SessionExamples.

Lemma tcp_session_witness :
  exists k r', read_full 6 k 6 (wA extraA) = (Some (Ret resp0), r').
Proof.
  destruct (tcp_session (Some 7) (Some 8) 1000 1010 1010 1011 1012 u0 CommandTCP addr0 (tcA CommandTCP extraA)
    (5 : Toy.gen) (stA CommandTCP extraA) (wrA CommandTCP extraA).2.1 (wrA CommandTCP extraA).2.2 xp0 svc0 (tsA extraA)
    (9 : Toy.gen) (to_arr 32 (byte_of <$> seqZ 63 32)) 10 (Some None))
    with (nowNs := 1) (nowNs' := 2) (p := data0) (n := 3) (q := resp0) (k := 6) as (m1 & Htx & H).
  - apply wrA_ret. vm_compute; reflexivity.
  - exact (arriving_up _).
  - split; vm_compute; split; congruence.
  - vm_compute; reflexivity.
  - exact svc0_ok.
  - left.
  - exact (arriving_up _).
  - vm_compute; congruence.
  - vm_compute; reflexivity.
  - vm_compute; reflexivity.
  - eexists; vm_compute; reflexivity.
  - vm_compute; congruence.
  - exact Toy.entropy_laws.
  - reflexivity.
  - vm_compute; split; congruence.
  - vm_compute; split; congruence.
  - assert (Hm1 : m1 = hello CommandTCP) by (apply (hello_sent CommandTCP extraA); [vm_compute; reflexivity|exact Htx]).
    assert (Hla : len (answer CommandTCP) <= MaxFrameSize) by (vm_compute; congruence).
    destruct H as (m2 & res & c' & Hacc & H).
    { intros u Hu _. apply list_elem_of_singleton in Hu. exact Hu. }
    apply (answer_eq CommandTCP _ _ _ _ Hm1) in Hacc as ->.
    destruct (H _ (rx_tcA CommandTCP extraA Hla)) as (stream & tc' & Hc & w & g2 & ms & Hw & Htxw & Hs).
    apply streamA_eq in Hc as <-. assert (Ha : wA extraA = w) by exact (f_equal (fun r => r.2.1) Hw).
    assert (Hms : length ms = 1%nat).
    { assert (Hl : length (tx (ss_tr (sc_stream (wA extraA)))) = 2%nat) by (vm_compute; reflexivity).
      rewrite Ha, Htxw in Hl. cbn in Hl. congruence. }
    destruct Hs as (sc & s' & ts' & gs' & sc' & w' & gs2 & ms' & Hh & Hr & Hq & Htx' & Hread).
    { unfold tsA. rewrite rx_arriving, Ha. exact Htxw. }
    rewrite Hms in Hr. change (Z.to_nat 3) with 3%nat in Hr.
    pose proof (repliedA_eq extraA _ _ _ _ _ _ _ _ _ Hh Hr Hq) as Hw'.
    destruct Hread as (r' & Hread); [|exists (S (length ms')), r'; rewrite Ha; exact Hread].
    apply (behind_msgs CommandTCP (wrote (ss_tr (sc_stream (repliedA extraA))))); [vm_compute; reflexivity|exact Hla|].
    rewrite Hw'. exact Htx'.
Defined.

Lemma udp_session_witness :
  exists k p'', ReadFrom k 100 (pcB extraB) = (Some (Ret (resp0, ewpToNetAddr (canonical addr0))), p'').
Proof.
  destruct (udp_session (Some 7) (Some 8) 1000 1010 1010 1011 1012 u0 CommandUDP addr0 (tcA CommandUDP extraB)
    (5 : Toy.gen) (stA CommandUDP extraB) (wrA CommandUDP extraB).2.1 (wrA CommandUDP extraB).2.2 xp0 svc0 (tsB extraB)
    (9 : Toy.gen) (to_arr 32 (byte_of <$> seqZ 63 32)) 10 (Some None))
    with (nowNs := 1) (nowNs' := 2) (b := data0) (target := PacketExamples.target0) (n := 100) (reply := resp0)
      (k := 100)
    as (m1 & Htx & H).
  - apply wrA_ret. vm_compute; reflexivity.
  - exact (arriving_up _).
  - split; vm_compute; split; congruence.
  - vm_compute; reflexivity.
  - exact svc0_ok.
  - left.
  - exact (arriving_up _).
  - vm_compute; congruence.
  - vm_compute; reflexivity.
  - vm_compute; reflexivity.
  - eexists; vm_compute; reflexivity.
  - vm_compute; congruence.
  - exact Toy.entropy_laws.
  - reflexivity.
  - vm_compute; split; congruence.
  - vm_compute; congruence.
  - assert (Hm1 : m1 = hello CommandUDP) by (apply (hello_sent CommandUDP extraB); [vm_compute; reflexivity|exact Htx]).
    assert (Hla : len (answer CommandUDP) <= MaxFrameSize) by (vm_compute; congruence).
    destruct H as (m2 & res & c' & Hacc & H).
    { intros u Hu _. apply list_elem_of_singleton in Hu. exact Hu. }
    apply (answer_eq CommandUDP _ _ _ _ Hm1) in Hacc as ->.
    destruct (H _ (rx_tcA CommandUDP extraB Hla)) as (stream & tc' & Hc & Hp).
    apply streamA_eq in Hc as <-. destruct pcA_some as (p & g2 & Hpc).
    destruct (Hp p g2 Hpc) as (p' & g3 & m3 & Hw & Htxp & Hs).
    assert (Ha : pcB extraB = p') by exact (pcB_eq extraB p g2 _ p' g3 Hpc Hw).
    destruct Hs as (r & s' & ts' & gs' & src & r1 & r2 & gs2 & ms & Hh & Hr & _ & Hq & Htx' & Hread).
    { unfold tsB. rewrite rx_arriving, Ha. exact Htxp. }
    pose proof (repliedB_eq extraB _ _ _ _ _ _ _ _ _ _ Hh Hr Hq) as Hw'.
    destruct Hread as (p'' & Hread); [|exists (length ms), p''; rewrite Ha; exact Hread].
    apply (behind_msgs CommandUDP (wrote (ss_tr (pc_stream (repliedB extraB))))); [vm_compute; reflexivity|exact Hla|].
    rewrite Hw'. exact Htx'.
Defined.
