(* ===== verification/Connections.v ===== *)
(** * A service under concurrent connections (src/server.go)

    Many connections share one [Service]: each runs [handleTransport] in its
    own goroutine while the application adds and removes users and replaces
    the replay cache.  A connection is split where others can run in between:
    after the copy of [lookup] and [replay] under [usersMu], after each read
    of the transport, after the checks of the hello, after [MarkSeenOrReject]
    has read the clock and before it has the mutex of the cache, after it has
    returned, and after the key exchange.  The wall clock may be set to any
    value at any time.  The replay cache is shared through a pointer: caches live in a
    heap, and a connection keeps using the one it has copied. *)

From Stdlib Require Import Sorting.Sorted.
From S2P Require Import Prelude Address Crypto Io Kdf Padding Frame Replay Handshake HandshakeProofs.
From S2P Require Import Transport SecureStream SecureStreamProofs StreamConn PacketConn Client Server.

(** ** Connections and the world *)

(** What a connection knows once the replay cache has let it pass: the users
    and the cache it copied, the hello, the clock readings of the timestamp
    check and of [MarkSeenOrReject], and what the clock showed when that call
    had the mutex, which the code does not read. *)
Record admission := mkAdmission {
  ad_users : list (arr UUIDLen);
  ad_replay : option nat;
  ad_uuid : arr UUIDLen;
  ad_hello : ClientHello;
  ad_checked : Z;
  ad_read : Z;
  ad_marked : Z
}.

Definition ad_key (a : admission) : replayKey := makeReplayKey (ch_UUID (ad_hello a)) (ch_Nonce (ad_hello a)).

Section World.
Context {G : Type} {C : Crypto G} {E : Entropy G}.
Context {T : Type} {MT : MessageTransport T} {DS : DeadlineSetter T}.

(** Where the goroutine of a connection stands. *)
Inductive conn_pc :=
  | Arrived
  | Snapped (users : list (arr UUIDLen)) (replay : option nat)
  | Received (users : list (arr UUIDLen)) (replay : option nat) (helloIn : bytes)
  | Checked (users : list (arr UUIDLen)) (replay : option nat) (uuid : arr UUIDLen) (ch : ClientHello) (at_ : Z)
  | Timed (users : list (arr UUIDLen)) (replay : nat) (uuid : arr UUIDLen) (ch : ClientHello) (at_ read : Z)
  | Passed (a : admission)
  | Answered (a : admission) (helloOut : bytes) (res : HandshakeResult)
  | Finished (a : option admission) (o : outcome (dispatch AEAD T)).

Record connection := mkConnection {
  cn_ctx : option Z;
  cn_remote : option (option NetAddr);
  cn_tr : T;
  cn_pc : conn_pc
}.

(** [w_users], [w_lookup] and [w_replay] are the fields of the service, the
    last one a pointer into [w_heap]; [w_log] lists the admissions, the newest
    first. *)
Record world := mkWorld {
  w_now : Z;
  w_users : list (arr UUIDLen);
  w_lookup : option (list (arr UUIDLen));
  w_replay : option nat;
  w_heap : gmap nat ReplayCache;
  w_gen : G;
  w_conns : gmap nat connection;
  w_log : list (nat * admission)
}.

(** The service with the pointer followed. *)
Definition view (w : world) : Service :=
  mkService (w_users w) (w_lookup w) (p ← w_replay w; w_heap w !! p).

Definition boot (now : Z) (s : Service) (g : G) : world :=
  mkWorld now (sv_users s) (sv_lookup s) (match sv_replay s with Some _ => Some 0%nat | None => None end)
    (match sv_replay s with Some c => {[0%nat := c]} | None => ∅ end) g ∅ [].

Definition set_svc (s : Service) (w : world) : world :=
  mkWorld (w_now w) (sv_users s) (sv_lookup s) (w_replay w) (w_heap w) (w_gen w) (w_conns w) (w_log w).
Definition set_replay (r : option nat) (w : world) : world :=
  mkWorld (w_now w) (w_users w) (w_lookup w) r (w_heap w) (w_gen w) (w_conns w) (w_log w).
Definition set_heap (p : nat) (c : ReplayCache) (w : world) : world :=
  mkWorld (w_now w) (w_users w) (w_lookup w) (w_replay w) (<[p := c]> (w_heap w)) (w_gen w) (w_conns w) (w_log w).
Definition set_now (now : Z) (w : world) : world :=
  mkWorld now (w_users w) (w_lookup w) (w_replay w) (w_heap w) (w_gen w) (w_conns w) (w_log w).
Definition set_gen (g : G) (w : world) : world :=
  mkWorld (w_now w) (w_users w) (w_lookup w) (w_replay w) (w_heap w) g (w_conns w) (w_log w).
Definition set_conn (tid : nat) (c : connection) (w : world) : world :=
  mkWorld (w_now w) (w_users w) (w_lookup w) (w_replay w) (w_heap w) (w_gen w) (<[tid := c]> (w_conns w)) (w_log w).
Definition log_admission (tid : nat) (a : admission) (w : world) : world :=
  mkWorld (w_now w) (w_users w) (w_lookup w) (w_replay w) (w_heap w) (w_gen w) (w_conns w) ((tid, a) :: w_log w).

Definition at_tr (tr : T) (p : conn_pc) (c : connection) : connection :=
  mkConnection (cn_ctx c) (cn_remote c) tr p.
Definition at_pc (p : conn_pc) (c : connection) : connection := at_tr (cn_tr c) p c.

(** [_ = tr.Close(); return fmt.Errorf(msg, err)] *)
Definition hang_up (msg : string) (e : error) (tr : T) (c : connection) : connection :=
  at_tr (CloseTransport tr).2 (Finished None (Fail (Wrap msg e))) c.

(** The locked section of [MarkSeenOrReject] on the cache at [p], with the
    clock reading the call came with. *)
Definition mark (read : Z) (p : nat) (ch : ClientHello) (w : world) : option bool * world :=
  match w_heap w !! p with
  | None => (None, w)
  | Some c => let '(b, c) := MarkSeenOrReject read (ch_UUID ch) (ch_Nonce ch) c in (Some b, set_heap p c w)
  end.

Definition admit_conn (tid : nat) (a : admission) (c : connection) (w : world) : world :=
  log_admission tid a (set_conn tid (at_pc (Passed a) c) w).

(** The next step of connection [tid]; [None] when it has finished or is
    unknown. *)
Definition proceed (tid : nat) (w : world) : option world :=
  match w_conns w !! tid with
  | None => None
  | Some c =>
  match cn_pc c with
  | Arrived =>
      Some (set_conn tid
        (match w_lookup w with
         | None => at_tr (CloseTransport (cn_tr c)).2 (Finished None (Fail ErrNoUsers)) c
         | Some users => at_pc (Snapped users (w_replay w)) c
         end) w)
  | Snapped users replay =>
      let '(o, tr) := ReadMessage (arm_deadline (cn_ctx c) (cn_tr c)) in
      Some (set_conn tid
        (match o with
         | Panic => at_tr tr (Finished None Panic) c
         | Fail e => hang_up "ewp: read ClientHello" e tr c
         | Ret helloIn => at_tr tr (Received users replay helloIn) c
         end) w)
  | Received users replay helloIn =>
      Some (set_conn tid
        (match checkClientHello (w_now w) helloIn (MakeUUIDLookup users) with
         | Panic => at_pc (Finished None Panic) c
         | Fail e => hang_up "ewp: accept ClientHello" e (cn_tr c) c
         | Ret (uuid, ch) => at_pc (Checked users replay uuid ch (w_now w)) c
         end) w)
  | Checked users replay uuid ch checked =>
      Some (match replay with
            | None => admit_conn tid (mkAdmission users None uuid ch checked (w_now w) (w_now w)) c w
            | Some p => set_conn tid (at_pc (Timed users p uuid ch checked (w_now w)) c) w
            end)
  | Timed users p uuid ch checked read =>
      let '(b, w) := mark read p ch w in
      Some (match b with
            | None => set_conn tid (at_pc (Finished None Panic) c) w
            | Some false => set_conn tid (hang_up "ewp: accept ClientHello" ErrReplay (cn_tr c) c) w
            | Some true => admit_conn tid (mkAdmission users (Some p) uuid ch checked read (w_now w)) c w
            end)
  | Passed a =>
      let '(o, g) := answerClientHello (w_now w) (ad_uuid a) (ad_hello a) (w_gen w) in
      Some (set_gen g (set_conn tid
        (match o with
         | Panic => at_pc (Finished (Some a) Panic) c
         | Fail e => at_tr (CloseTransport (cn_tr c)).2 (Finished (Some a) (Fail (Wrap "ewp: accept ClientHello" e))) c
         | Ret (helloOut, res) => at_pc (Answered a helloOut res) c
         end) w))
  | Answered a helloOut res =>
      let '(o, (_, tr, g)) := establish helloOut res (cn_remote c) (view w, cn_tr c, w_gen w) in
      Some (set_gen g (set_conn tid (at_tr tr (Finished (Some a) o) c) w))
  | Finished _ _ => None
  end end.

(** Steps of the world: a connection goes on; one is accepted; the peer or
    the network acts on its transport; the clock is at another value, later or
    earlier; the application changes
    the users, makes a replay cache, installs one or removes it. *)
Inductive wstep : world -> world -> Prop :=
  | ws_proceed tid w w' : proceed tid w = Some w' -> wstep w w'
  | ws_arrive tid ctx remote tr w :
      w_conns w !! tid = None -> wstep w (set_conn tid (mkConnection ctx remote tr Arrived) w)
  | ws_net tid c tr w : w_conns w !! tid = Some c -> wstep w (set_conn tid (at_tr tr (cn_pc c) c) w)
  | ws_time now w : wstep w (set_now now w)
  | ws_add str w : wstep w (set_svc (AddUser str (view w)).2 w)
  | ws_remove str w : wstep w (set_svc (RemoveUser str (view w)).2 w)
  | ws_cache p window w : w_heap w !! p = None -> wstep w (set_heap p (NewReplayCache window) w)
  | ws_replay r w : (forall p, r = Some p -> is_Some (w_heap w !! p)) -> wstep w (set_replay r w).
End World.
Arguments conn_pc {G C} T : rename.
Arguments connection {G C} T : rename.
Arguments world {G C} T : rename.

(** ** The invariant *)

Definition dispatch_md {A T} (d : dispatch A T) : Metadata :=
  match d with NewConnection _ md | NewPacketConnection _ md => md end.

(** The window of a cache, in seconds. *)
Definition window_s (c : ReplayCache) : Z := Z.quot (window c) Second.

(** In a log, the newest admission first: some admission by the cache at [p],
    from position [i] to position [j], came with a reading at which [a] has
    expired. *)
Definition overtaken (p : nat) (ws : Z) (log : list (nat * admission)) (i j : nat) (a : admission) : Prop :=
  exists m t z, (i <= m <= j)%nat /\ log !! m = Some (t, z) /\ ad_replay z = Some p /\
    ad_read a + ws <= ad_read z.

(** What the log says of the cache at [p]: an admission that has not been
    overtaken still has its entry, and two admissions of a pair are apart. *)
Record cache_ok (p : nat) (log : list (nat * admission)) (c : ReplayCache) : Prop := {
  ck_kept : forall j t a, log !! j = Some (t, a) -> ad_replay a = Some p ->
    overtaken p (window_s c) log 0 j a \/
    exists e, entries c !! ad_key a = Some e /\ ad_read a + window_s c <= e;
  ck_apart : forall i j t1 a1 t2 a2, (i < j)%nat -> log !! i = Some (t2, a2) -> log !! j = Some (t1, a1) ->
    ad_replay a1 = Some p -> ad_replay a2 = Some p -> ad_key a1 = ad_key a2 ->
    overtaken p (window_s c) log i j a1
}.

Lemma overtaken_cons p ws x log i j a :
  overtaken p ws log i j a -> overtaken p ws (x :: log) (S i) (S j) a.
Proof. intros (m & t & z & Hm & Hz). exists (S m), t, z. split; [lia|done]. Qed.

Lemma overtaken_weaken p ws log i i' j a :
  (i' <= i)%nat -> overtaken p ws log i j a -> overtaken p ws log i' j a.
Proof. intros Hi (m & t & z & Hm & Hz). exists m, t, z. split; [lia|done]. Qed.

(** An admission by another cache, or by none. *)
Lemma cache_ok_other p tid a log c : ad_replay a <> Some p -> cache_ok p log c -> cache_ok p ((tid, a) :: log) c.
Proof.
  intros Ha [Hk Hs]. split.
  - intros [|j] t a' Hj Hp; [by injection Hj as _ ->|].
    destruct (Hk j t a' Hj Hp) as [Ho|He]; [left|by right].
    by apply (overtaken_weaken _ _ _ 1); [lia|apply overtaken_cons].
  - intros [|i] [|j] t1 a1 t2 a2 Hij Hi Hj Hp1 Hp2 Hkey; try lia; [by injection Hi as _ ->|].
    apply overtaken_cons. apply (Hs i j t1 a1 t2 a2); [lia|done..].
Qed.

(** An admission by the cache itself. *)
Lemma cache_ok_admit p tid a log c c' :
  ad_replay a = Some p -> MarkSeenOrReject (ad_read a) (ch_UUID (ad_hello a)) (ch_Nonce (ad_hello a)) c = (true, c') ->
  cache_ok p log c -> cache_ok p ((tid, a) :: log) c'.
Proof.
  intros Hp Hm [Hk Hs].
  assert (Hw : window_s c' = window_s c) by (unfold window_s; by rewrite <-(MarkSeenOrReject_window (ad_read a)
    (ch_UUID (ad_hello a)) (ch_Nonce (ad_hello a)) c), Hm).
  assert (Hnow : forall b, ad_read b + window_s c <= ad_read a -> forall j, overtaken p (window_s c)
    ((tid, a) :: log) 0 j b)
    by (intros b Hb j; exists 0%nat, tid, a; split; [lia|done]).
  assert (Hold : forall j t b, log !! j = Some (t, b) -> ad_replay b = Some p ->
    overtaken p (window_s c) ((tid, a) :: log) 0 (S j) b \/
    (ad_key a <> ad_key b /\ exists e, entries c' !! ad_key b = Some e /\ ad_read b + window_s c <= e)).
  { intros j t b Hj Hb. destruct (Hk j t b Hj Hb) as [Ho|(e & He & Hle)];
      [left; by apply (overtaken_weaken _ _ _ 1); [lia|apply overtaken_cons]|].
    destruct (Z.le_gt_cases (ad_read b + window_s c) (ad_read a)) as [Hr|Hr]; [left; by apply Hnow|right].
    pose proof (MarkSeenOrReject_keeps (ad_read a) (ch_UUID (ad_hello a))
      (ch_Nonce (ad_hello a)) c _ e He ltac:(lia)) as Hkeep.
    rewrite Hm in Hkeep. destruct Hkeep as [He' Hne]. split; [by intros ?%Hne|]. eauto. }
  split; rewrite Hw.
  - intros [|j] t b Hj Hb; [|destruct (Hold j t b Hj Hb) as [?|[_ ?]]; [by left|by right]].
    injection Hj as <- <-. destruct (MarkSeenOrReject_enters _ _ _ _ _ Hm) as [He|He]; [right|left; by apply Hnow].
    eexists. split; [exact He|]. done.
  - intros [|i] [|j] t1 a1 t2 a2 Hij Hi Hj Hp1 Hp2 Hkey; try lia.
    + injection Hi as <- <-. destruct (Hold j t1 a1 Hj Hp1) as [?|[Hne _]]; [done|]. by destruct Hne.
    + apply overtaken_cons. apply (Hs i j t1 a1 t2 a2); [lia|done..].
Qed.

Section Invariant.
Context {G : Type} {C : Crypto G} {E : Entropy G} `{!AEADLaws C} `{!HKDFLaws C}.
Context {T : Type} {MT : MessageTransport T} {DS : DeadlineSetter T}.

Abbreviation World := (world T).

Definition ptr_ok (w : World) (r : option nat) : Prop := forall p, r = Some p -> is_Some (w_heap w !! p).

Definition hello_ok (users : list (arr UUIDLen)) (uuid : arr UUIDLen) (ch : ClientHello) (checked : Z) : Prop :=
  uuid = ch_UUID ch /\ ch_UUID ch ∈ users /\ absDiff (ch_Timestamp ch) checked <= HandshakeTimestampWindow.

Definition admission_ok (a : admission) : Prop :=
  hello_ok (ad_users a) (ad_uuid a) (ad_hello a) (ad_checked a).

Definition admitted_of (p : conn_pc (C := C) T) : option admission :=
  match p with
  | Passed a | Answered a _ _ => Some a
  | Finished a _ => a
  | _ => None
  end.

Definition pc_ok (w : World) (p : conn_pc T) : Prop :=
  match p with
  | Arrived => True
  | Snapped _ r | Received _ r _ => ptr_ok w r
  | Checked users r uuid ch checked => ptr_ok w r /\ hello_ok users uuid ch checked
  | Timed users p uuid ch checked _ => ptr_ok w (Some p) /\ hello_ok users uuid ch checked
  | Passed _ | Finished (Some _) _ => True
  | Answered a _ res => hr_ClientHello res = Some (ad_hello a)
  | Finished None o => match o with Ret _ => False | _ => True end
  end /\
  match p with
  | Finished (Some a) (Ret d) => md_UserUUID (dispatch_md d) = ch_UUID (ad_hello a)
  | _ => True
  end.

Record world_inv (w : World) : Prop := {
  wi_service : service_ok (view w);
  wi_replay : ptr_ok w (w_replay w);
  wi_heap : forall p c, w_heap w !! p = Some c -> cache_ok p (w_log w) c;
  wi_fresh : forall p tid a, w_heap w !! p = None -> (tid, a) ∈ w_log w -> ad_replay a <> Some p;
  wi_conns : forall tid c, w_conns w !! tid = Some c ->
    pc_ok w (cn_pc c) /\ (forall a, admitted_of (cn_pc c) = Some a -> (tid, a) ∈ w_log w);
  wi_log : forall tid a, (tid, a) ∈ w_log w -> admission_ok a /\
    exists c, w_conns w !! tid = Some c /\ admitted_of (cn_pc c) = Some a
}.

(** A connection moves and keeps its admission. *)
Lemma inv_move w tid c c' :
  world_inv w -> w_conns w !! tid = Some c -> pc_ok w (cn_pc c') ->
  admitted_of (cn_pc c') = admitted_of (cn_pc c) -> world_inv (set_conn tid c' w).
Proof.
  intros [H1 H2 H3 H4 H5 H6] Hc Hp Ha. split; [done..| |]; cbn.
  - intros t k. rewrite lookup_insert. case_decide as Ht; [subst t; intros [= <-]|apply H5].
    split; [exact Hp|]. rewrite Ha. by apply H5.
  - intros t a Hin. destruct (H6 t a Hin) as (Hok & k & Hk & Hak). split; [done|].
    rewrite lookup_insert. case_decide as Ht; [|by exists k]. subst t. exists c'.
    rewrite Ha. split; congruence.
Qed.

Lemma inv_arrive w tid c :
  world_inv w -> w_conns w !! tid = None -> cn_pc c = Arrived -> world_inv (set_conn tid c w).
Proof.
  intros [H1 H2 H3 H4 H5 H6] Hc Hp. split; [done..| |]; cbn.
  - intros t k. rewrite lookup_insert. case_decide as Ht; [subst t; intros [= <-]|apply H5]. by rewrite Hp.
  - intros t a Hin. destruct (H6 t a Hin) as (Hok & k & Hk & Hak). split; [done|].
    exists k. split; [|done]. rewrite lookup_insert_ne; [done|]. congruence.
Qed.

Lemma inv_gen w g : world_inv w -> world_inv (set_gen g w).
Proof. by intros []. Qed.

Lemma inv_time w now : world_inv w -> world_inv (set_now now w).
Proof. by intros []. Qed.

Lemma inv_service w s : world_inv w -> service_ok s -> world_inv (set_svc s w).
Proof. intros [H1 H2 H3 H4 H5 H6] [Hl Hn]. split; [by split|done..]. Qed.

(** A heap that has at least the cells of the old one. *)
Lemma pc_ok_heap w w' p :
  (forall q, is_Some (w_heap w !! q) -> is_Some (w_heap w' !! q)) ->
  pc_ok w p -> pc_ok w' p.
Proof.
  intros Hh [Hp Hd]. split; [|done].
  destruct p; cbn in *; unfold ptr_ok in *; naive_solver.
Qed.

Lemma inv_cache w p win : world_inv w -> w_heap w !! p = None -> world_inv (set_heap p (NewReplayCache win) w).
Proof.
  intros [H1 H2 H3 H4 H5 H6] Hp.
  assert (Hgrow : forall q, is_Some (w_heap w !! q) -> is_Some (w_heap (set_heap p (NewReplayCache win) w) !! q)).
  { intros q Hq. cbn. rewrite lookup_insert. case_decide; [by eexists|done]. }
  split.
  - by destruct H1.
  - intros q Hq. by apply Hgrow, H2.
  - intros q c. cbn. rewrite lookup_insert.
    case_decide as Hq; [subst q; intros [= <-]|intros Hc; by destruct (H3 q c Hc)].
    split; [intros j t a Hj Ha|intros i j t1 a1 t2 a2 _ _ Hj Ha _ _]; exfalso;
      by apply (H4 p _ _ Hp (list_elem_of_lookup_2 _ _ _ Hj)).
  - intros q tid a. cbn. rewrite lookup_insert. case_decide; [done|apply H4].
  - intros tid c Hc. destruct (H5 tid c Hc) as [Hpc Ha]. split; [|done].
    eapply (pc_ok_heap w); [exact Hgrow|done].
  - done.
Qed.

(** An admission that the cache, if any, has recorded. *)
Lemma inv_admit w tid c a heap' :
  world_inv w -> w_conns w !! tid = Some c -> admitted_of (cn_pc c) = None ->
  ptr_ok w (ad_replay a) -> admission_ok a ->
  (forall q, is_Some (w_heap w !! q) <-> is_Some (heap' !! q)) ->
  (forall q k, heap' !! q = Some k -> cache_ok q ((tid, a) :: w_log w) k) ->
  world_inv (mkWorld (w_now w) (w_users w) (w_lookup w) (w_replay w) heap' (w_gen w)
    (<[tid := at_pc (Passed a) c]> (w_conns w)) ((tid, a) :: w_log w)).
Proof.
  intros [H1 H2 H3 H4 H5 H6] Hc Hpc Hr Hok Hdom Hcaches.
  assert (Hfree : forall a', (tid, a') ∉ w_log w).
  { intros a' (_ & c' & Hc' & Ha')%H6. rewrite Hc in Hc'. injection Hc' as <-. by rewrite Hpc in Ha'. }
  split; cbn.
  - by destruct H1.
  - intros q Hq. by apply Hdom, H2.
  - exact Hcaches.
  - intros q t a' Hq. assert (w_heap w !! q = None) as Hq'.
    { destruct (w_heap w !! q) eqn:Hs; [|done]. destruct (proj1 (Hdom q)); [by eexists|congruence]. }
    rewrite elem_of_cons. intros [[= -> ->]|Hin]; [|by apply (H4 q t a')].
    intros Heq. destruct (Hr q Heq). congruence.
  - intros t k. rewrite lookup_insert. case_decide as Htt.
    + subst t. intros [= <-]. split; [done|]. cbn. intros a' [= <-]. left.
    + intros Hk. destruct (H5 t k Hk) as [Hkp Hka]. split; [|intros a' ?%Hka; by right].
      eapply (pc_ok_heap w); [intros q; apply Hdom|done].
  - intros t a'. rewrite elem_of_cons. intros [[= -> ->]|Hin].
    + split; [done|]. eexists. by rewrite lookup_insert_eq.
    + destruct (H6 t a' Hin) as (Hok' & k & Hk & Hak). split; [done|]. exists k. split; [|done].
      rewrite lookup_insert_ne; [done|]. intros ->. by apply (Hfree a').
Qed.

Lemma inv_checked w tid c users r uuid ch checked w' :
  world_inv w -> w_conns w !! tid = Some c -> cn_pc c = Checked users r uuid ch checked ->
  proceed tid w = Some w' -> world_inv w'.
Proof.
  intros Hw Hc Hpc. unfold proceed. rewrite Hc, Hpc. pose proof (wi_conns _ Hw _ _ Hc) as [[Hp _] _].
  rewrite Hpc in Hp. destruct Hp as (Hr & Hh). destruct r as [p|]; intros [= <-].
  - apply (inv_move w tid c); [done..| |by rewrite Hpc]. by split.
  - apply (inv_admit w tid c _ (w_heap w)); [done..|by rewrite Hpc|done|done|done|].
    intros q k Hk. apply cache_ok_other; [done|]. by apply Hw.
Qed.

(** A heap in which one cache is replaced. *)
Lemma heap_dom (h : gmap nat ReplayCache) p k k' :
  h !! p = Some k -> forall q, is_Some (h !! q) <-> is_Some (<[p := k']> h !! q).
Proof.
  intros Hk q. rewrite lookup_insert. case_decide as Hq; [subst q|done]. rewrite Hk. split; intros _; by eexists.
Qed.

Lemma inv_timed w tid c users p uuid ch checked read w' :
  world_inv w -> w_conns w !! tid = Some c -> cn_pc c = Timed users p uuid ch checked read ->
  proceed tid w = Some w' -> world_inv w'.
Proof.
  intros Hw Hc Hpc. unfold proceed. rewrite Hc, Hpc. pose proof (wi_conns _ Hw _ _ Hc) as [[Hp _] _].
  rewrite Hpc in Hp. destruct Hp as (Hr & Hh). unfold mark.
  destruct (Hr p eq_refl) as [k Hk]. rewrite Hk.
  destruct (MarkSeenOrReject _ _ _ k) as [b k'] eqn:Hm. destruct b; intros [= <-].
  - apply (inv_admit w tid c _ (<[p := k']> (w_heap w))); [done..|by rewrite Hpc|done|done|by eapply heap_dom|].
    intros q k2. rewrite lookup_insert. case_decide as Hq.
    + subst q. intros [= <-]. eapply cache_ok_admit; [done|exact Hm|]. by apply Hw.
    + intros Hk2. apply cache_ok_other; [cbn; congruence|]. by apply Hw.
  - apply MarkSeenOrReject_rejects in Hm as [-> _].
    assert (Hid : set_heap p k w = w) by (unfold set_heap; rewrite insert_id by done; by destruct w).
    rewrite Hid. by apply (inv_move w tid c); [..|by rewrite Hpc].
Qed.

(** The handler learns the UUID of the hello. *)
Lemma establish_user helloOut res ch remote s (tr : T) (g : G) d st :
  hr_ClientHello res = Some ch -> establish helloOut res remote (s, tr, g) = (Ret d, st) ->
  md_UserUUID (dispatch_md d) = ch_UUID ch.
Proof.
  intros Hch. unfold establish. destruct (SendMessage helloOut tr) as [[e|] tr1]; [done|].
  destruct (NewServerSecureStream tr1 (hr_Keys res)) as [stream|e|]; [|done..]. rewrite Hch.
  unfold dispatchFlow. case_bool_decide; [by intros [= <- _]|]. case_bool_decide; [|done].
  destruct (Recv _) as [[ev|e|] stream']; [|done..]. destruct (negb _); [done|]. by intros [= <- _].
Qed.

Lemma inv_proceed w tid w' : world_inv w -> proceed tid w = Some w' -> world_inv w'.
Proof.
  intros Hw Hp. destruct (w_conns w !! tid) as [c|] eqn:Hc; [|unfold proceed in Hp; by rewrite Hc in Hp].
  pose proof (wi_conns _ Hw _ _ Hc) as [[Hpc Hd] _].
  destruct (cn_pc c) as [|users r|users r m|users r u ch t|users r u ch t rd|a|a out res|a o] eqn:Epc;
    [| | |by eapply inv_checked|by eapply inv_timed| | |]; revert Hp; unfold proceed; rewrite Hc, Epc.
  - intros [= <-]. destruct (w_lookup w); (apply (inv_move w tid c); [done..| |by rewrite Epc]); [|done].
    split; [|done]. apply Hw.
  - destruct (ReadMessage _) as [[m|e|] tr]; intros [= <-]; (apply (inv_move w tid c); [done..| |by rewrite Epc]); done.
  - pose proof (checkClientHello_cases (C := C) (w_now w) m users) as Hck. intros [= <-].
    destruct (checkClientHello _ _ _) as [[u ch]|e|]; (apply (inv_move w tid c); [done..| |by rewrite Epc]); [|done..].
    destruct Hck as (Hu & (Hin & _) & _ & Ht). by split.
  - destruct (answerClientHello _ _ _ _) as [o g] eqn:Ha. intros [= <-]. apply inv_gen.
    destruct o as [[out res]|e|]; (apply (inv_move w tid c); [done..| |by rewrite Epc]); [|done..].
    apply answerClientHello_Ret in Ha as [Ha _]. by split.
  - destruct (establish _ _ _ _) as [o [[s tr] g]] eqn:He. intros [= <-]. apply inv_gen.
    apply (inv_move w tid c); [done..| |by rewrite Epc]. split; [done|]. destruct o; [|done..].
    by eapply establish_user.
  - done.
Qed.

Lemma inv_wstep w w' : world_inv w -> wstep w w' -> world_inv w'.
Proof.
  intros Hw Hst. destruct Hst as [tid w1 w2 Hp|tid ctx remote tr w1 Hn|tid c tr w1 Hc|now w1|str w1|str w1|p win w1 Hp|r w1 Hr].
  - exact (inv_proceed _ _ _ Hw Hp).
  - by apply inv_arrive.
  - apply (inv_move w1 tid c); [done..|apply (wi_conns _ Hw _ _ Hc)|done].
  - by apply inv_time.
  - apply inv_service; [done|]. apply AddUser_users, Hw.
  - apply inv_service; [done|]. pose proof (RemoveUser_users str (view w1) (wi_service _ Hw)) as H.
    destruct (RemoveUser str (view w1)). apply H.
  - by apply inv_cache.
  - destruct Hw as [H1 H2 H3 H4 H5 H6]. split; try done. by destruct H1.
Qed.

Lemma inv_boot now s g : NewService true = Ret s -> world_inv (boot now s g).
Proof.
  intros [= <-]. split; cbn.
  - split; [done|constructor].
  - by intros p [= <-].
  - intros p c Hp. apply lookup_singleton_Some in Hp as [<- <-].
    by split.
  - intros p tid a _ Hin. by apply not_elem_of_nil in Hin.
  - done.
  - intros tid a Hin. by apply not_elem_of_nil in Hin.
Qed.

Lemma inv_reached now s g w : NewService true = Ret s -> rtc wstep (boot now s g) w -> world_inv w.
Proof. intros Hs. apply (rtc_ind_r world_inv); [by apply inv_boot|]. intros y z _ Hst Hy. by eapply inv_wstep. Qed.

(** ** Properties *)

(** Steps that do not set the clock back, and what holds of the readings then. *)
Definition steady_step (w w' : World) : Prop := wstep w w' /\ w_now w <= w_now w'.

Record steady (w : World) : Prop := {
  sd_log : StronglySorted (fun x y => ad_marked y.2 <= ad_marked x.2) (w_log w);
  sd_read : Forall (fun x => ad_read x.2 <= ad_marked x.2 <= w_now w) (w_log w);
  sd_timed : forall tid c users p uuid ch checked read, w_conns w !! tid = Some c ->
    cn_pc c = Timed users p uuid ch checked read -> read <= w_now w
}.

(** The connections after a step of one of them, and the log. *)
Lemma proceed_log tid w w' :
  proceed tid w = Some w' ->
  w_now w' = w_now w /\ exists c c', w_conns w !! tid = Some c /\ w_conns w' = <[tid := c']> (w_conns w) /\
    (forall users p uuid ch checked read, cn_pc c' = Timed users p uuid ch checked read -> read = w_now w) /\
    (w_log w' = w_log w \/ exists a, w_log w' = (tid, a) :: w_log w /\ ad_marked a = w_now w /\
       (ad_read a = w_now w \/ exists users p uuid ch checked, cn_pc c = Timed users p uuid ch checked (ad_read a))).
Proof.
  unfold proceed. destruct (w_conns w !! tid) as [c|] eqn:Hc; [|done].
  destruct (cn_pc c) as [|users r|users r m|users r u ch t|users p u ch t rd|a|a out res|a o] eqn:Epc.
  - intros [= <-]. split; [done|]. eexists c, _. split; [done|]. split; [done|]. split; [|by left].
    by destruct (w_lookup w).
  - destruct (ReadMessage _) as [[m|e|] tr]; intros [= <-]; (split; [done|]); eexists c, _;
      (split; [done|]); (split; [done|]); (split; [done|by left]).
  - intros [= <-]. split; [done|]. eexists c, _. split; [done|]. split; [done|]. split; [|by left].
    by destruct (checkClientHello _ _ _) as [[u ch]|e|].
  - destruct r as [p|]; intros [= <-]; (split; [done|]); eexists c, _; (split; [done|]); (split; [done|]).
    + split; [|by left]. cbn. congruence.
    + split; [done|right]. eexists. split; [done|]. split; [done|by left].
  - unfold mark. destruct (w_heap w !! p) as [k|]; [destruct (MarkSeenOrReject _ _ _ _) as [[|] k']|];
      intros [= <-]; (split; [done|]); eexists c, _; (split; [done|]); (split; [done|]); (split; [done|]);
      [right|by left|by left].
    eexists. split; [done|]. split; [done|]. right. rewrite Epc. by repeat eexists.
  - destruct (answerClientHello _ _ _ _) as [[[out res]|e|] g]; intros [= <-]; (split; [done|]); eexists c, _;
      (split; [done|]); (split; [done|]); (split; [done|by left]).
  - destruct (establish _ _ _ _) as [o [[s tr] g]]. intros [= <-]. split; [done|]. eexists c, _.
    split; [done|]. split; [done|]. split; [done|by left].
  - done.
Qed.

Lemma steady_later w now : w_now w <= now -> steady w -> steady (set_now now w).
Proof.
  intros Hn [H1 H2 H3]. split; [done| |]; cbn.
  - eapply Forall_impl; [exact H2|]. cbn. intros x Hx. lia.
  - intros tid c users p uuid ch checked read Hc Hp. specialize (H3 _ _ _ _ _ _ _ _ Hc Hp). lia.
Qed.

Lemma steady_kept w w' : steady w -> steady_step w w' -> steady w'.
Proof.
  intros [H1 H2 H3] [Hst Hle]. destruct Hst as [tid w1 w2 Hp|tid ctx remote tr w1 Hn|tid c tr w1 Hc|now w1|str w1|str w1|p win w1 Hp|r w1 Hr];
    [|..|by apply steady_later|done|done|done|done].
  - apply proceed_log in Hp as (Hn & c & c' & Hc & Hcs & Ht & Hlog).
    assert (Htimed : forall tid c users p uuid ch checked read, w_conns w2 !! tid = Some c ->
      cn_pc c = Timed users p uuid ch checked read -> read <= w_now w2).
    { intros t k us p uuid ch checked read. rewrite Hcs, Hn, lookup_insert. case_decide as Htt; [|apply H3].
      intros [= <-] Hk. apply Ht in Hk. lia. }
    destruct Hlog as [Hl|(a & Hl & Hm & Hr)]; (split; [rewrite Hl..|exact Htimed]); rewrite ?Hn; try done;
      constructor; try done; cbn.
    + rewrite Hm. eapply Forall_impl; [exact H2|]. cbn. intros x Hx. lia.
    + rewrite Hm. destruct Hr as [->|(us & p & uuid & ch & checked & Hpc)]; [lia|].
      specialize (H3 _ _ _ _ _ _ _ _ Hc Hpc). lia.
  - split; [done|done|]. cbn. intros t k us p uuid ch checked read. rewrite lookup_insert.
    case_decide; [by intros [= <-]|apply H3].
  - split; [done|done|]. cbn. intros t k us p uuid ch checked read. rewrite lookup_insert.
    case_decide; [|apply H3]. intros [= <-]. cbn. intros Hk. exact (H3 _ _ _ _ _ _ _ _ Hc Hk).
Qed.

Lemma steady_reached now s g w : rtc steady_step (boot now s g) w -> steady w.
Proof.
  apply (rtc_ind_r steady); [|intros y z _ Hst Hy; by eapply steady_kept]. by split; [constructor..|].
Qed.

Lemma sorted_lookup {A} (R : A -> A -> Prop) l i j x y :
  StronglySorted R l -> (i < j)%nat -> l !! i = Some x -> l !! j = Some y -> R x y.
Proof.
  intros Hs. revert i j. induction Hs as [|z l Hs IH Hall]; intros i j Hij Hx Hy; [done|].
  destruct j as [|j]; [lia|]. destruct i as [|i]; [|apply (IH i j); [lia|done..]].
  injection Hx as ->. rewrite Forall_forall in Hall. by eapply Hall, list_elem_of_lookup_2.
Qed.

Lemma steady_overtaken w p ws i j a t2 a2 :
  steady w -> w_log w !! i = Some (t2, a2) -> overtaken p ws (w_log w) i j a -> ad_read a + ws <= ad_marked a2.
Proof.
  intros [H1 H2 _] Hi (m & t & z & Hm & Hz & _ & Hle).
  rewrite Forall_forall in H2. pose proof (H2 _ (list_elem_of_lookup_2 _ _ _ Hz)) as Hr. cbn in Hr.
  destruct (decide (i = m)) as [->|Hne]; [rewrite Hi in Hz; injection Hz as -> ->; lia|].
  assert (Him : (i < m)%nat) by lia. pose proof (sorted_lookup _ _ _ _ _ _ H1 Him Hi Hz) as Hs. cbn in Hs. lia.
Qed.

(** C20: replay defence across connections, for every interleaving of any
    number of connections with each other, with changes of the users and of
    the cache, and with any movement of the wall clock, where a connection may
    be held up anywhere, also between the clock reading of [MarkSeenOrReject]
    and its mutex.  (1) If two connections got past the same cache with the
    same UUID and nonce, the cache admitted, from the first of them to the
    second, some hello with a reading at least a window after the reading of
    the first.  (2) If the clock was never set back, the second passed the
    cache at least a window after the reading of the first; with the default
    window, the same hello passes twice only if its timestamp is at least 60 s
    ahead of the first reading, less the time the second connection took from
    its timestamp check to the mutex of the cache. *)
Theorem shared_replay_defence now s g w i j t1 t2 a1 a2 p c
    (Hs : NewService true = Ret s) (Hw : rtc wstep (boot now s g) w) (Hij : (i < j)%nat)
    (H1 : w_log w !! j = Some (t1, a1)) (H2 : w_log w !! i = Some (t2, a2))
    (Hp1 : ad_replay a1 = Some p) (Hp2 : ad_replay a2 = Some p) (Hp : w_heap w !! p = Some c)
    (Hu : ch_UUID (ad_hello a1) = ch_UUID (ad_hello a2)) (Hn : ch_Nonce (ad_hello a1) = ch_Nonce (ad_hello a2)) :
  overtaken p (window_s c) (w_log w) i j a1 /\
  (rtc steady_step (boot now s g) w ->
   ad_read a1 + window_s c <= ad_marked a2 /\
   (window c = ReplayWindow -> ad_hello a1 = ad_hello a2 ->
    ad_read a1 + 60 <= ch_Timestamp (ad_hello a1) + (ad_marked a2 - ad_checked a2))).
Proof.
  apply (inv_reached now s g w Hs) in Hw.
  assert (Ho : overtaken p (window_s c) (w_log w) i j a1).
  { apply (ck_apart _ _ _ (wi_heap _ Hw p c Hp) i j t1 a1 t2 a2); [done..|]. unfold ad_key. by rewrite Hu, Hn. }
  split; [done|]. intros Hst%steady_reached.
  pose proof (steady_overtaken w p _ i j a1 t2 a2 Hst H2 Ho) as Hle. split; [done|].
  intros Hwin Heq. unfold window_s in Hle. rewrite Hwin in Hle. change (Z.quot ReplayWindow Second) with 180 in Hle.
  destruct (wi_log _ Hw t2 a2 (list_elem_of_lookup_2 _ _ _ H2)) as [(_ & _ & Ht) _].
  rewrite Heq. unfold absDiff, HandshakeTimestampWindow in Ht.
  destruct (Z.ltb_spec (ad_checked a2) (ch_Timestamp (ad_hello a2))); lia.
Qed.

(** The users a connection has copied from the service. *)
Definition copied_users (p : conn_pc (C := C) T) : option (list (arr UUIDLen)) :=
  match p with
  | Arrived | Finished None _ => None
  | Snapped users _ | Received users _ _ | Checked users _ _ _ _ | Timed users _ _ _ _ _ => Some users
  | Passed a | Answered a _ _ | Finished (Some a) _ => Some (ad_users a)
  end.

Lemma proceed_copies w tid w' :
  proceed tid w = Some w' ->
  w_users w' = w_users w /\
  exists c c', w_conns w !! tid = Some c /\ w_conns w' = <[tid := c']> (w_conns w) /\
    forall us, copied_users (cn_pc c') = Some us -> copied_users (cn_pc c) = Some us \/ w_lookup w = Some us.
Proof.
  unfold proceed. destruct (w_conns w !! tid) as [c|] eqn:Hc; [|done]. intros Hp.
  enough (w_users w' = w_users w /\ exists c', w_conns w' = <[tid := c']> (w_conns w) /\
    forall us, copied_users (cn_pc c') = Some us -> copied_users (cn_pc c) = Some us \/ w_lookup w = Some us)
    as (Hus & c' & ? & ?) by eauto 6.
  destruct (cn_pc c) as [|users r|users r m|users r u ch t|users p u ch t rd|a|a out res|a o]; revert Hp.
  - intros [= <-]. split; [done|]. eexists. split; [done|]. destruct (w_lookup w); [|done]. by right.
  - destruct (ReadMessage _) as [[m|e|] tr]; intros [= <-]; (split; [done|]); eexists; (split; [done|]); try done;
      by left.
  - intros [= <-]. split; [done|]. eexists. split; [done|].
    destruct (checkClientHello _ _ _) as [[u ch]|e|]; try done; by left.
  - destruct r as [p|]; intros [= <-]; (split; [done|]); eexists; (split; [done|]); by left.
  - unfold mark. destruct (w_heap w !! p) as [k|]; [destruct (MarkSeenOrReject _ _ _ _) as [[|] k']|];
      intros [= <-]; (split; [done|]); eexists; (split; [done|]); try done; by left.
  - destruct (answerClientHello _ _ _ _) as [[[out res]|e|] g]; intros [= <-]; (split; [done|]); eexists; (split;
      [done|]); by left.
  - destruct (establish _ _ _ _) as [o [[s tr] g]]. intros [= <-]; (split; [done|]); eexists; (split; [done|]); by left.
  - done.
Qed.

(** A step gives a connection new users only by the copy. *)
Lemma wstep_copies w w' tid c' us :
  wstep w w' -> w_conns w' !! tid = Some c' -> copied_users (cn_pc c') = Some us ->
  (exists c, w_conns w !! tid = Some c /\ copied_users (cn_pc c) = Some us) \/ w_lookup w = Some us.
Proof.
  intros Hst. destruct Hst as [t w1 w2 Hp|t ctx remote tr w1 Hn|t c tr w1 Hc|now w1|str w1|str w1|p win w1 Hp|r w1 Hr];
    [..|by eauto|by eauto|by eauto|by eauto|by eauto].
  - apply proceed_copies in Hp as (_ & c & c2 & Hc & -> & Hus). rewrite lookup_insert. case_decide as Ht; [|by eauto].
    subst t. intros [= <-] [|]%Hus; [left|right]; eauto.
  - cbn. rewrite lookup_insert. case_decide; [by intros [= <-]|eauto].
  - cbn. rewrite lookup_insert. case_decide; [subst t; intros [= <-]; cbn; eauto|eauto].
Qed.

(** Steps that do not add the user [u]. *)
Definition quiet_step (u : arr UUIDLen) (w w' : World) : Prop :=
  wstep w w' /\ (u ∈ w_users w' -> u ∈ w_users w).

(** The user is gone, and not among the users [tid] has copied. *)
Definition shut_out (u : arr UUIDLen) (tid : nat) (w : World) : Prop :=
  world_inv w /\ (u ∉ w_users w) /\
  forall c us, w_conns w !! tid = Some c -> copied_users (cn_pc c) = Some us -> u ∉ us.

Lemma shut_out_run str u tid w w' :
  world_inv w -> ParseUUID str = Ret u -> (forall c, w_conns w !! tid = Some c -> cn_pc c = Arrived) ->
  rtc (quiet_step u) (set_svc (RemoveUser str (view w)).2 w) w' -> shut_out u tid w'.
Proof.
  intros Hw Hu Hnew. apply (rtc_ind_r (shut_out u tid)).
  - split; [by apply (inv_wstep w), ws_remove|]. split.
    + pose proof (RemoveUser_users str (view w) (wi_service _ Hw)) as H. cbn.
      destruct (RemoveUser str (view w)) as [b s']. intros Hin. by apply H in Hin as [_ Hin].
    + intros c us Hc Hus. cbn in Hc. apply Hnew in Hc. by rewrite Hc in Hus.
  - intros w1 w2 _ [Hst Hq] (Hi & Hnu & Hcp). split; [by apply (inv_wstep w1)|]. split; [by intros ?%Hq|].
    intros c2 us Hc2 Hus. destruct (wstep_copies w1 w2 tid c2 us Hst Hc2 Hus) as [(c1 & Hc1 & Hus1)|Hl];
      [by eapply Hcp|].
    pose proof (so_lookup _ (wi_service _ Hi)) as Hl'. cbn in Hl'. congruence.
Qed.

(** C21: a removed user is locked out: once [RemoveUser] has returned, and as
    long as nobody adds the user again, the handler is never called for him by
    a connection that had not yet copied the users, whatever the other
    connections and the application do in the meantime. *)
Theorem removed_user_locked_out now s g w str u w' tid c a d
    (Hs : NewService true = Ret s) (Hw : rtc wstep (boot now s g) w) (Hu : ParseUUID str = Ret u)
    (Hrun : rtc (quiet_step u) (set_svc (RemoveUser str (view w)).2 w) w')
    (Hnew : forall c0, w_conns w !! tid = Some c0 -> cn_pc c0 = Arrived)
    (Hc : w_conns w' !! tid = Some c) (Hd : cn_pc c = Finished a (Ret d)) :
  md_UserUUID (dispatch_md d) <> u.
Proof.
  apply (inv_reached now s g w Hs) in Hw.
  destruct (shut_out_run str u tid w w' Hw Hu Hnew Hrun) as (Hi & _ & Hcp).
  destruct (wi_conns _ Hi _ _ Hc) as [[Hpc Hmd] Hlog]. rewrite Hd in *.
  destruct a as [a|]; [|done]. rewrite Hmd. intros Heq. apply (Hcp c (ad_users a) Hc); [by rewrite Hd|].
  destruct (wi_log _ Hi tid a (Hlog a eq_refl)) as [(_ & Hin & _) _]. by rewrite <-Heq.
Qed.
End Invariant.

(** ** A connection on its own *)

Section Solo.
Context {G : Type} {C : Crypto G} {E : Entropy G} `{!AEADLaws C} `{!HKDFLaws C}.
Context {T : Type} {MT : MessageTransport T} {DS : DeadlineSetter T}.

(** At most [n] steps of connection [tid]. *)
Fixpoint run_alone (n : nat) (tid : nat) (w : world T) : world T :=
  match n with
  | O => w
  | S n => match proceed tid w with Some w => run_alone n tid w | None => w end
  end.

Lemma run_alone_S n tid w w' : proceed tid w = Some w' -> run_alone (S n) tid w = run_alone n tid w'.
Proof. intros H. cbn [run_alone]. by rewrite H. Qed.

Lemma run_alone_finished n tid (w : world T) c a o :
  w_conns w !! tid = Some c -> cn_pc c = Finished a o -> run_alone n tid w = w.
Proof. intros Hc Hp. destruct n; [done|]. cbn [run_alone]. unfold proceed. by rewrite Hc, Hp. Qed.

Lemma run_alone_steady n tid (w : world T) : rtc steady_step w (run_alone n tid w).
Proof.
  revert w. induction n as [|n IH]; intros w; [constructor|]. cbn [run_alone].
  destruct (proceed tid w) as [w1|] eqn:Hp; [|constructor].
  eapply rtc_l; [split; [by eapply ws_proceed|]|apply IH]. apply proceed_log in Hp as [-> _]. done.
Qed.

Lemma steady_reach (w w' : world T) : rtc steady_step w w' -> rtc wstep w w'.
Proof. induction 1 as [|x y z [Hst _] _ IH]; [constructor|]. by eapply rtc_l. Qed.

Lemma run_alone_quiet n u tid (w : world T) : rtc (quiet_step u) w (run_alone n tid w).
Proof.
  revert w. induction n as [|n IH]; intros w; [constructor|]. cbn [run_alone].
  destruct (proceed tid w) as [w1|] eqn:Hp; [|constructor].
  eapply rtc_l; [split; [by eapply ws_proceed|]|apply IH]. by apply proceed_copies in Hp as [-> _].
Qed.

(** What [handleTransport] leaves behind, as a state of the world. *)
Definition ended (tid : nat) (ctx : option Z) (remote : option (option NetAddr))
  (r : outcome (dispatch AEAD T) * (Service * T * G)) (w : world T) : Prop :=
  let '(o, (s, tr, g)) := r in
  view w = s /\ w_gen w = g /\ exists a, w_conns w !! tid = Some (mkConnection ctx remote tr (Finished a o)).

(** [establish] only passes the service on. *)
Lemma establish_service helloOut res remote s (tr : T) (g : G) :
  (establish helloOut res remote (s, tr, g)).2.1.1 = s.
Proof.
  unfold establish. destruct (SendMessage helloOut tr) as [[e|] tr1]; [done|].
  destruct (NewServerSecureStream tr1 (hr_Keys res)) as [stream|e|]; [|done..].
  destruct (hr_ClientHello res) as [ch|]; [|done]. unfold dispatchFlow.
  case_bool_decide; [done|]. case_bool_decide; [|done].
  destruct (Recv _) as [[ev|e|] stream']; [|done..]. by destruct (negb _).
Qed.

Lemma ended_finished n tid ctx remote s tr g a o (w : world T) :
  w_conns w !! tid = Some (mkConnection ctx remote tr (Finished a o)) -> view w = s -> w_gen w = g ->
  ended tid ctx remote (o, (s, tr, g)) (run_alone n tid w).
Proof. intros Hc <- <-. rewrite (run_alone_finished n tid w _ a o Hc eq_refl). cbn. eauto. Qed.

(** From the moment the replay cache has let the hello pass. *)
Lemma solo_answer n tid ctx remote tr a w :
  w_conns w !! tid = Some (mkConnection ctx remote tr (Passed a)) ->
  ended tid ctx remote
    (let '(o, g) := answerClientHello (w_now w) (ad_uuid a) (ad_hello a) (w_gen w) in
     match o with
     | Panic => (Panic, (view w, tr, g))
     | Fail e => reject "ewp: accept ClientHello" e (view w) tr g
     | Ret (helloOut, res) => establish helloOut res remote (view w, tr, g)
     end) (run_alone (S (S n)) tid w).
Proof.
  intros Hc. erewrite run_alone_S by (unfold proceed; rewrite Hc; cbn [cn_pc];
    rewrite (surjective_pairing (answerClientHello _ _ _ _)); reflexivity).
  destruct (answerClientHello _ _ _ _) as [[[out res]|e|] g]; cbn [fst snd].
  - erewrite run_alone_S by (unfold proceed; cbn [w_conns set_gen set_conn]; rewrite lookup_insert_eq;
      cbn [cn_pc at_pc at_tr]; rewrite (surjective_pairing (establish _ _ _ _)),
        (surjective_pairing (establish _ _ _ _).2), (surjective_pairing (establish _ _ _ _).2.1); reflexivity).
    pose proof (establish_service out res remote (view w) tr g) as Hs.
    cbn [cn_remote cn_tr at_pc at_tr cn_ctx w_gen set_gen set_conn].
    change (view (set_gen g _)) with (view w).
    destruct (establish out res remote (view w, tr, g)) as [o [[s tr'] g']]. cbn in Hs. subst s.
    eapply ended_finished; cbn; [by rewrite lookup_insert_eq|done|done].
  - eapply ended_finished; cbn; [by rewrite lookup_insert_eq|done|done].
  - eapply ended_finished; cbn; [by rewrite lookup_insert_eq|done|done].
Qed.

(** From the moment the hello has passed the checks. *)
Lemma solo_checked n tid ctx remote tr users uuid ch checked w lookup :
  w_conns w !! tid = Some (mkConnection ctx remote tr (Checked users (w_replay w) uuid ch checked)) ->
  ptr_ok w (w_replay w) -> w_lookup w = lookup ->
  ended tid ctx remote
    (let '(o, (replay, g)) :=
       let '(seenOk, cache) :=
         match sv_replay (view w) with
         | None => (true, None)
         | Some c => let '(b, c) := MarkSeenOrReject (w_now w) (ch_UUID ch) (ch_Nonce ch) c in (b, Some c)
         end in
       if negb seenOk then (Fail ErrReplay, (cache, w_gen w)) else
       let '(o, g) := answerClientHello (w_now w) uuid ch (w_gen w) in (o, (cache, g)) in
     let s := mkService (sv_users (view w)) lookup replay in
     match o with
     | Panic => (Panic, (s, tr, g))
     | Fail e => reject "ewp: accept ClientHello" e s tr g
     | Ret (helloOut, res) => establish helloOut res remote (s, tr, g)
     end) (run_alone (S (S (S (S n)))) tid w).
Proof.
  intros Hc Hp <-. cbn [view sv_replay sv_users].
  set (a := mkAdmission users (w_replay w) uuid ch checked (w_now w) (w_now w)).
  assert (Hgo : forall n' w1, w_conns w1 !! tid = Some (mkConnection ctx remote tr (Passed a)) ->
    run_alone (S (S (S (S n)))) tid w = run_alone (S (S n')) tid w1 -> w_now w1 = w_now w -> w_gen w1 = w_gen w ->
      w_users w1 = w_users w ->
    w_lookup w1 = w_lookup w ->
    ended tid ctx remote
      (let '(o, (replay, g)) :=
         let '(o, g) := answerClientHello (w_now w) uuid ch (w_gen w) in (o, (sv_replay (view w1), g)) in
       let s := mkService (w_users w) (w_lookup w) replay in
       match o with
       | Panic => (Panic, (s, tr, g))
       | Fail e => reject "ewp: accept ClientHello" e s tr g
       | Ret (helloOut, res) => establish helloOut res remote (s, tr, g)
       end) (run_alone (S (S (S (S n)))) tid w)).
  { intros n' w1 Hc1 Hst Hn Hg Hus Hlk. rewrite Hst.
    pose proof (solo_answer n' tid ctx remote tr a w1 Hc1) as H. cbn [ad_uuid ad_hello a] in H.
    rewrite Hn, Hg in H. unfold view in *. rewrite Hus, Hlk in H. cbn [sv_replay].
    by destruct (answerClientHello _ _ _ _) as [[[out res]|e|] g]. }
  destruct (w_replay w) as [p|] eqn:Hr.
  - destruct (Hp p eq_refl) as [k Hk]. cbn [mbind option_bind]. rewrite Hk.
    assert (Hst : run_alone (S (S (S (S n)))) tid w = run_alone (S (S (S n))) tid
      (set_conn tid (mkConnection ctx remote tr (Timed users p uuid ch checked (w_now w))) w))
      by (apply run_alone_S; unfold proceed; by rewrite Hc).
    destruct (MarkSeenOrReject _ _ _ k) as [b k'] eqn:Hm.
    assert (Hw2 : forall c1 c2, set_conn tid c1 (set_heap p k' (set_conn tid c2 w)) = set_conn tid c1 (set_heap p k' w))
      by (intros c1 c2; unfold set_conn, set_heap; cbn; by rewrite insert_insert_eq).
    destruct b; cbn [negb].
    + replace (Some k') with (sv_replay (view (admit_conn tid a (mkConnection ctx remote tr Arrived)
        (set_heap p k' w))))
        by (unfold view; cbn; rewrite Hr; cbn; by rewrite lookup_insert_eq).
      apply (Hgo n); try done; [cbn; by rewrite lookup_insert_eq|]. rewrite Hst. apply run_alone_S.
      unfold proceed. cbn [w_conns set_conn]. rewrite lookup_insert_eq. cbn [cn_pc mark w_heap set_conn].
      unfold mark. cbn [w_heap set_conn]. rewrite Hk, Hm. unfold admit_conn. by rewrite Hw2.
    + rewrite Hst.
      erewrite run_alone_S by (unfold proceed; cbn [w_conns set_conn]; rewrite lookup_insert_eq; cbn [cn_pc];
        unfold mark; cbn [w_heap set_conn]; rewrite Hk, Hm, Hw2; reflexivity).
      eapply ended_finished; cbn; [by rewrite lookup_insert_eq| |done].
      unfold view. cbn. rewrite Hr. cbn. by rewrite lookup_insert_eq.
  - replace (@None ReplayCache) with (sv_replay (view (admit_conn tid a (mkConnection ctx remote tr Arrived) w)))
      by (unfold view; cbn; by rewrite Hr).
    cbn [mbind option_bind negb]. apply (Hgo (S n)); try done; [cbn; by rewrite lookup_insert_eq|].
    apply run_alone_S. unfold proceed. by rewrite Hc.
Qed.

(** a connection that runs alone does what [handleTransport] does: from
    every reachable state, its steps, taken one after the other, end with the
    outcome, the transport, the service and the randomness of the call. *)
Theorem solo_connection now s g w tid ctx remote tr
    (Hs : NewService true = Ret s) (Hw : rtc wstep (boot now s g) w)
    (Hc : w_conns w !! tid = Some (mkConnection ctx remote tr Arrived)) :
  let t := w_now w in
  ended tid ctx remote (handleTransport ctx t t t remote (view w, tr, w_gen w)) (run_alone 7 tid w).
Proof.
  apply (inv_reached now s g w Hs) in Hw. cbn zeta.
  unfold handleTransport. cbn [sv_lookup view].
  erewrite run_alone_S by (unfold proceed; rewrite Hc; reflexivity). cbn [at_pc at_tr cn_ctx cn_remote cn_tr].
  destruct (w_lookup w) as [users|] eqn:Hl;
    [|eapply ended_finished; cbn; [by rewrite lookup_insert_eq|unfold view; cbn; by rewrite Hl|done]].
  erewrite run_alone_S by (unfold proceed; cbn [w_conns set_conn]; rewrite lookup_insert_eq;
    cbn [cn_pc cn_ctx cn_tr]; rewrite (surjective_pairing (ReadMessage _)); reflexivity).
  cbn [at_pc at_tr cn_ctx cn_remote cn_tr].
  destruct (ReadMessage (arm_deadline ctx tr)) as [[m|e|] tr1]; cbn [fst snd];
    [|eapply ended_finished; cbn; [by rewrite lookup_insert_eq|unfold view; cbn; by rewrite Hl|done]..].
  erewrite run_alone_S by (unfold proceed; cbn [w_conns set_conn]; rewrite lookup_insert_eq;
    cbn [cn_pc at_tr]; reflexivity).
  unfold AcceptClientHelloWithReplay, lift. cbn [w_now set_conn sv_users sv_replay at_pc at_tr cn_ctx cn_remote cn_tr].
  destruct (checkClientHello (w_now w) m (MakeUUIDLookup users)) as [[uuid ch]|e|]; cbn [sbind];
    [|eapply ended_finished; cbn; [by rewrite lookup_insert_eq|unfold view; cbn; by rewrite Hl|done]..].
  match goal with |- ended _ _ _ _ (run_alone 4 tid ?w1) =>
    apply (solo_checked 0 tid ctx remote tr1 users uuid ch (w_now w) w1 (Some users)) end;
    [cbn; by rewrite lookup_insert_eq|apply Hw|done].
Qed.
End Solo.

(** ** Witnesses *)

Module ConnectionExamples.
Import ServerExamples HandshakeExamples AcceptExamples.
Abbreviation World := (world (G := Toy.gen) LengthFramer).

Definition u0_str : bytes := str "75736572-2d61-0000-0000-000000000000".
Definition wire_of (m : bytes) : LengthFramer := arriving_on (frame_msg m).
Definition arrive (tid : nat) (m : bytes) (w : World) : World :=
  set_conn tid (mkConnection (Some 7) (Some None) (wire_of m) Arrived) w.

(** A service with one user; a hello dated 70 s ahead arrives, and again
    180 s later. *)
Definition v0 : World := boot 1010 svc_new (9 : Toy.gen).
Definition v1 : World := set_svc (AddUser u0_str (view v0)).2 v0.
Definition v2 : World := run_alone 5 1 (arrive 1 msg1 v1).
Definition v3 : World := run_alone 5 2 (arrive 2 msg1 (set_now 1190 v2)).
Definition adm (i : nat) : nat * admission := default (0%nat, mkAdmission [] None u0 hello0 0 0 0) (w_log v3 !! i).

Lemma arrive_step tid m (w : World) : w_conns w !! tid = None -> wstep w (arrive tid m w).
Proof. apply ws_arrive. Qed.
Lemma v1_steady : rtc steady_step v0 v1.
Proof. apply rtc_once. split; [apply ws_add|reflexivity]. Qed.
Lemma v2_steady : rtc steady_step v0 v2.
Proof.
  eapply rtc_trans; [exact v1_steady|]. eapply rtc_l; [split; [exact (arrive_step 1 msg1 v1 eq_refl)|reflexivity]|].
  exact (run_alone_steady 5 1 (arrive 1 msg1 v1)).
Qed.
Lemma v2_now : w_now v2 <= 1190.
Proof. vm_compute. congruence. Qed.
Lemma v2_free : w_conns (set_now 1190 v2) !! 2%nat = None.
Proof.
  assert (H : bool_decide (is_Some (w_conns (set_now 1190 v2) !! 2%nat)) = false) by (vm_compute; reflexivity).
  apply bool_decide_eq_false in H. by apply eq_None_not_Some.
Qed.
Lemma v3_steady : rtc steady_step v0 v3.
Proof.
  eapply rtc_trans; [exact v2_steady|]. eapply rtc_l; [exact (conj (ws_time 1190 v2) v2_now)|].
  eapply rtc_l; [split; [exact (arrive_step 2 msg1 (set_now 1190 v2) v2_free)|reflexivity]|].
  exact (run_alone_steady 5 2 (arrive 2 msg1 (set_now 1190 v2))).
Qed.

(** A second user comes and goes; then the first one connects. *)
Definition x1 : World := set_svc (AddUser uuid_str (view v1)).2 v1.
Definition x2 : World := set_svc (RemoveUser uuid_str (view x1)).2 x1.
Definition x3 : World := run_alone 7 1 (arrive 1 msg0 x2).
End ConnectionExamples.
Import ConnectionExamples.

Lemma shared_replay_defence_witness :
  ad_read (adm 1).2 + 180 <= ad_marked (adm 0).2 /\
  ad_read (adm 1).2 + 60 <= ch_Timestamp (ad_hello (adm 1).2) + (ad_marked (adm 0).2 - ad_checked (adm 0).2).
Proof.
  destruct (w_heap v3 !! 0%nat) as [c|] eqn:Hc; [|vm_compute in Hc; discriminate Hc].
  assert (Hwin : window <$> (w_heap v3 !! 0%nat) = Some ReplayWindow) by (vm_compute; reflexivity).
  rewrite Hc in Hwin. injection Hwin as Hwin.
  assert (H180 : window_s c = 180) by (unfold window_s; rewrite Hwin; reflexivity).
  destruct (shared_replay_defence 1010 ServerExamples.svc_new (9 : Toy.gen) v3 0 1 (adm 1).1 (adm 0).1
    (adm 1).2 (adm 0).2 0 c) as [_ H].
  - reflexivity.
  - exact (steady_reach _ _ v3_steady).
  - lia.
  - vm_compute; reflexivity.
  - vm_compute; reflexivity.
  - vm_compute; reflexivity.
  - vm_compute; reflexivity.
  - exact Hc.
  - vm_compute; reflexivity.
  - vm_compute; reflexivity.
  - destruct (H v3_steady) as [Ha Hb]. rewrite H180 in Ha. split; [exact Ha|].
    apply Hb; [exact Hwin|vm_compute; reflexivity].
Defined.

Lemma removed_user_locked_out_witness :
  exists u c a d, ParseUUID ServerExamples.uuid_str = Ret u /\ w_conns x3 !! 1%nat = Some c /\
    cn_pc c = Finished a (Ret d) /\ md_UserUUID (dispatch_md d) <> u.
Proof.
  destruct (ParseUUID ServerExamples.uuid_str) as [u|e|] eqn:Hu; [|vm_compute in Hu; discriminate Hu..].
  assert (Hd : match cn_pc <$> (w_conns x3 !! 1%nat) with Some (Finished _ (Ret _)) => true | _ => false end = true)
    by (vm_compute; reflexivity).
  destruct (w_conns x3 !! 1%nat) as [c|] eqn:Hc; [cbn in Hd|discriminate Hd].
  destruct (cn_pc c) as [| | | | | | |a [d|e|]] eqn:Hp; try discriminate Hd.
  exists u, c, a, d. split; [reflexivity|]. split; [reflexivity|]. split; [exact Hp|].
  apply (removed_user_locked_out 1010 ServerExamples.svc_new (9 : Toy.gen) x1 ServerExamples.uuid_str u x3 1 c a d).
  - reflexivity.
  - eapply rtc_r; [exact (steady_reach _ _ v1_steady)|exact (ws_add ServerExamples.uuid_str v1)].
  - exact Hu.
  - eapply rtc_l; [exact (conj (arrive_step 1 HandshakeExamples.msg0 x2 eq_refl) (fun H => H))|].
    exact (run_alone_quiet 7 u 1 (arrive 1 HandshakeExamples.msg0 x2)).
  - intros c0 Hc0. discriminate Hc0.
  - exact Hc.
  - exact Hp.
Defined.

Lemma solo_connection_witness :
  ended 1 (Some 7) (Some None)
    (handleTransport (Some 7) 1010 1010 1010 (Some None) (view v1, wire_of HandshakeExamples.msg0, 9 : Toy.gen))
    (run_alone 7 1 (arrive 1 HandshakeExamples.msg0 v1)).
Proof.
  apply (solo_connection 1010 ServerExamples.svc_new (9 : Toy.gen) (arrive 1 HandshakeExamples.msg0 v1)).
  - reflexivity.
  - eapply rtc_r; [exact (steady_reach _ _ v1_steady)|exact (arrive_step 1 HandshakeExamples.msg0 v1 eq_refl)].
  - cbn. apply lookup_insert_eq.
Defined.
